(** * Threadshift: zone swap engine, history tracker, character cache,
      storage manager and body map validator

    A shallow embedding of the stateful cores of the Threadshift plugin,
    written from the JavaScript sources:

    - [ZoneSwap]   : [ThreadshiftZoneSwapEngine] (zoneswapengine.js) together
                     with the parts of [ThreadshiftModule] it relies on
                     ([isReady], [handleError], [safeOperation]);
    - [History]    : [ThreadshiftHistoryTracker] (history tracker);
    - [CharCache]  : the cache part of [ThreadshiftMultiCharacterHandler];
    - [Storage]    : [ThreadshiftStorageManager] (st-storage-manager.js),
                     with the string hash [Hash] it shares with the
                     body map validator;
    - [Validator]  : [ThreadshiftBodyMapValidator] (zoneswapengine.js).

    JavaScript objects that are mutated in place become explicit state that
    every operation threads through; thrown exceptions become a [Throw]
    completion; the wall clock and random identifiers are arguments. *)

From Stdlib Require Import Ascii HexadecimalString HexadecimalN.
From stdpp Require Import gmap strings list fin_maps pretty sorting.

Set Warnings "-register-all".

Local Open Scope string_scope.
Local Open Scope list_scope.
Local Open Scope Z_scope.

(** ** JavaScript basics shared by the three modules *)

Module Js.

(** How a (possibly throwing) call completes. *)
Inductive Completion (A : Type) : Type :=
| Return (a : A)
| Throw (message : string).
Global Arguments Return {A} a.
Global Arguments Throw {A} message.

(** Relative index of [Array.prototype.slice]: a negative argument counts
    from the end, and the result is clamped to [0 .. len]. *)
Definition clampIndex (len i : Z) : Z :=
  if i <? 0 then Z.max (len + i) 0 else Z.min i len.

(** [arr.slice(start, end)]; [end_ = None] is the one-argument call. *)
Definition slice {A : Type} (l : list A) (start : Z) (end_ : option Z) : list A :=
  let len := Z.of_nat (length l) in
  let k := clampIndex len start in
  let final := match end_ with
               | None => len
               | Some e => clampIndex len e
               end in
  take (Z.to_nat (final - k)) (drop (Z.to_nat k) l).

(** [arr[i]] for an integer index: [undefined] out of range. *)
Definition nth_Z {A : Type} (l : list A) (i : Z) : option A :=
  if i <? 0 then None else l !! Z.to_nat i.

End Js.

(** ** The history tracker (ThreadshiftHistoryTracker) *)

Module History.
Import Js.

(** [entry.timestamp]: absent/falsy, present but rejected by
    [Date.parse], or a parsable instant in milliseconds. *)
Inductive Timestamp : Type :=
| TsMissing
| TsInvalid
| TsAt (ms : Z).

(** [entry.data], abstracted to what the tracker inspects: whether it is
    truthy, whether [typeof] is ['object'], and the length of its JSON
    serialisation. *)
Inductive EntryData : Type :=
| DataMissing
| DataPrimitive (jsonLength : Z)
| DataObject (jsonLength : Z).

Record HistoryEntry : Type := mkEntry {
  entryId : string;
  entryType : string;
  description : string;
  timestamp : Timestamp;
  data : EntryData;
  hasReversalData : bool
}.

Record Stats : Type := mkStats {
  totalEntries : Z;
  undoOperations : Z;
  redoOperations : Z;
  cleanupOperations : Z
}.

Record Tracker : Type := mkTracker {
  history : list HistoryEntry;
  currentIndex : Z;
  maxHistorySize : Z;
  isRecording : bool;
  isDirty : bool;
  stats : Stats
}.

(** The state the constructor builds. *)
Definition newTracker : Tracker :=
  {| history := [];
     currentIndex := -1;
     maxHistorySize := 50;
     isRecording := true;
     isDirty := false;
     stats := mkStats 0 0 0 0 |}.

Definition entryTypes : list string :=
  ["swap"; "reverse"; "batch"; "manual"; "import"; "system"].

Definition maxDescriptionLength : Z := 500.
Definition maxDataSize : Z := 10000.

Definition set_history (h : list HistoryEntry) (t : Tracker) : Tracker :=
  mkTracker h (currentIndex t) (maxHistorySize t) (isRecording t) (isDirty t) (stats t).
Definition set_currentIndex (i : Z) (t : Tracker) : Tracker :=
  mkTracker (history t) i (maxHistorySize t) (isRecording t) (isDirty t) (stats t).
Definition set_maxHistorySize (n : Z) (t : Tracker) : Tracker :=
  mkTracker (history t) (currentIndex t) n (isRecording t) (isDirty t) (stats t).
Definition set_isDirty (b : bool) (t : Tracker) : Tracker :=
  mkTracker (history t) (currentIndex t) (maxHistorySize t) (isRecording t) b (stats t).
Definition set_stats (s : Stats) (t : Tracker) : Tracker :=
  mkTracker (history t) (currentIndex t) (maxHistorySize t) (isRecording t) (isDirty t) s.

Definition historyLength (t : Tracker) : Z := Z.of_nat (length (history t)).

(** [loadConfigurationSettings]: the configured capacity, clamped. *)
Definition loadConfigurationSettings (configured : Z) (t : Tracker) : Tracker :=
  let m := configured in
  let m := if m <? 1 then 50 else m in
  let m := if 1000 <? m then 1000 else m in
  set_maxHistorySize m t.

Definition dataTruthy (d : EntryData) : bool :=
  match d with DataMissing => false | _ => true end.

Definition dataIsObject (d : EntryData) : bool :=
  match d with DataObject _ => true | _ => false end.

Definition dataJsonLength (d : EntryData) : Z :=
  match d with
  | DataMissing => 0
  | DataPrimitive n => n
  | DataObject n => n
  end.

Definition nonEmpty (s : string) : bool := negb (String.eqb s "").

(** [validateHistoryEntry(entry).errors] *)
Definition validateHistoryEntry_errors (e : HistoryEntry) : list string :=
  (if nonEmpty (entryId e) then [] else ["Missing required field: id"]) ++
  (if nonEmpty (entryType e) then [] else ["Missing required field: type"]) ++
  (match timestamp e with
   | TsMissing => ["Missing required field: timestamp"]
   | _ => []
   end) ++
  (if dataTruthy (data e) then [] else ["Missing required field: data"]) ++
  (if nonEmpty (entryType e) && negb (bool_decide (entryType e ∈ entryTypes))
   then ["Invalid entry type: " +:+ entryType e] else []) ++
  (if nonEmpty (description e)
      && (maxDescriptionLength <? Z.of_nat (String.length (description e)))
   then ["Description too long (max 500 chars)"] else []) ++
  (if dataTruthy (data e) && (maxDataSize <? dataJsonLength (data e))
   then ["Data too large (max 10000 chars)"] else []) ++
  (match timestamp e with
   | TsInvalid => ["Invalid timestamp format"]
   | _ => []
   end).

Definition validateHistoryEntry (e : HistoryEntry) : bool :=
  match validateHistoryEntry_errors e with
  | [] => true
  | _ => false
  end.

(** A JavaScript value handed to [recordTransformation] as [data]: a
    JSON value, [undefined], [NaN] or an infinity. Finite numbers are
    integers that print in plain decimal, strings hold characters below
    256, and the properties of an object come in property order. *)
Inductive JsData : Type :=
| VUndefined
| VNull
| VBool (b : bool)
| VNum (n : Z)
| VNaN
| VInfinity (negative : bool)
| VStr (s : string)
| VArr (items : list JsData)
| VObj (fields : list (string * JsData)).

Definition isTruthy (v : JsData) : bool :=
  match v with
  | VUndefined | VNull | VNaN => false
  | VBool b => b
  | VNum n => negb (n =? 0)
  | VInfinity _ => true
  | VStr s => nonEmpty s
  | VArr _ | VObj _ => true
  end.

Definition isUndefined (v : JsData) : bool :=
  match v with VUndefined => true | _ => false end.

(** [typeof v === 'object'] *)
Definition isObjectValue (v : JsData) : bool :=
  match v with
  | VNull | VArr _ | VObj _ => true
  | _ => false
  end.

Definition doubleQuote : ascii := ascii_of_N 34.
Definition backslash : ascii := ascii_of_N 92.

Definition hexDigit (n : N) : ascii :=
  ascii_of_N (if (n <? 10)%N then 48 + n else 87 + n).

(** How [JSON.stringify] writes one character of a string. *)
Definition escapeChar (c : ascii) : string :=
  let n := N_of_ascii c in
  if (n =? 34)%N then String backslash (String doubleQuote "")
  else if (n =? 92)%N then String backslash (String backslash "")
  else if (n =? 8)%N then String backslash "b"
  else if (n =? 12)%N then String backslash "f"
  else if (n =? 10)%N then String backslash "n"
  else if (n =? 13)%N then String backslash "r"
  else if (n =? 9)%N then String backslash "t"
  else if (n <? 32)%N
       then String backslash
              ("u00" +:+ String (hexDigit (n / 16)) (String (hexDigit (n mod 16)) ""))
       else String c "".

Fixpoint escapeText (s : string) : string :=
  match s with
  | EmptyString => ""
  | String c s' => escapeChar c +:+ escapeText s'
  end.

Definition quoteText (s : string) : string :=
  String doubleQuote (escapeText s +:+ String doubleQuote "").

Fixpoint joinWith (sep : string) (parts : list string) : string :=
  match parts with
  | [] => ""
  | [x] => x
  | x :: rest => x +:+ sep +:+ joinWith sep rest
  end.

(** [JSON.stringify(v)]; [None] is the [undefined] it returns for
    [undefined]. Inside an array [undefined] is written [null], inside
    an object the property is left out; [NaN] and the infinities are
    written [null]. *)
Fixpoint stringify (v : JsData) : option string :=
  match v with
  | VUndefined => None
  | VNull => Some "null"
  | VBool b => Some (if b then "true" else "false")
  | VNum n => Some (pretty n)
  | VNaN => Some "null"
  | VInfinity _ => Some "null"
  | VStr s => Some (quoteText s)
  | VArr items =>
      Some ("[" +:+ joinWith ","
                      (List.map (fun x => match stringify x with
                                          | Some text => text
                                          | None => "null"
                                          end) items)
                +:+ "]")
  | VObj fields =>
      Some ("{" +:+ joinWith ","
                      (flat_map (fun kv => match stringify (snd kv) with
                                           | Some text => [quoteText (fst kv) +:+ ":" +:+ text]
                                           | None => []
                                           end) fields)
                +:+ "}")
  end.

(** The value [JSON.parse] reads back from the text of [v]. *)
Fixpoint parsedBack (v : JsData) : JsData :=
  match v with
  | VUndefined | VNaN | VInfinity _ => VNull
  | VArr items => VArr (List.map parsedBack items)
  | VObj fields =>
      VObj (flat_map (fun kv => if isUndefined (snd kv) then []
                                else [(fst kv, parsedBack (snd kv))]) fields)
  | _ => v
  end.

(** [cloneData]: [JSON.parse(JSON.stringify(data))]; for [undefined]
    the parse throws and the [catch] hands the data back. *)
Definition cloneData (d : JsData) : JsData :=
  match stringify d with
  | Some _ => parsedBack d
  | None => d
  end.

(** What the tracker can later see of the data of an entry. *)
Definition entryDataOf (v : JsData) : EntryData :=
  if isTruthy v
  then match stringify v with
       | Some text => if isObjectValue v
                      then DataObject (Z.of_nat (String.length text))
                      else DataPrimitive (Z.of_nat (String.length text))
       | None => DataMissing
       end
  else DataMissing.

(** [createHistoryEntry]; [suffix] stands for
    [`${Date.now()}_${Math.random()...}`] of [generateEntryId]. *)
Definition createHistoryEntry (now : Z) (suffix : string) (type : string)
    (d : JsData) (descr : string) (reversal : option JsData) : HistoryEntry :=
  {| entryId := "hist_" +:+ suffix;
     entryType := type;
     description := descr;
     timestamp := TsAt now;
     data := entryDataOf (cloneData d);
     hasReversalData := match reversal with
                        | Some r => isTruthy r
                        | None => false
                        end |}.

Definition enforceHistoryLimit (t : Tracker) : Tracker :=
  if maxHistorySize t <? historyLength t then
    let excess := historyLength t - maxHistorySize t in
    let t1 := set_history (slice (history t) excess None) t in
    set_currentIndex (Z.max 0 (currentIndex t1 - excess)) t1
  else t.

Definition bump_totalEntries (t : Tracker) : Tracker :=
  let s := stats t in
  set_stats (mkStats (totalEntries s + 1) (undoOperations s)
                     (redoOperations s) (cleanupOperations s)) t.

Definition addEntryToHistory (entry : HistoryEntry) (t : Tracker) : Tracker :=
  (* If we're not at the end, remove entries after current position *)
  let t1 := if currentIndex t <? historyLength t - 1
            then set_history (slice (history t) 0 (Some (currentIndex t + 1))) t
            else t in
  (* Add new entry *)
  let t2 := set_history (history t1 ++ [entry]) t1 in
  let t3 := set_currentIndex (historyLength t2 - 1) t2 in
  let t4 := bump_totalEntries t3 in
  (* Enforce history limit *)
  let t5 := enforceHistoryLimit t4 in
  set_isDirty true t5.

(** [recordTransformation]: the id of the recorded entry, or [None] for
    the [null] returned when recording is off or the entry is invalid. *)
Definition recordTransformation (now : Z) (suffix : string) (type : string)
    (d : JsData) (descr : string) (reversal : option JsData)
    (t : Tracker) : option string * Tracker :=
  if negb (isRecording t) then (None, t)
  else
    let entry := createHistoryEntry now suffix type d descr reversal in
    if negb (validateHistoryEntry entry) then (None, t)
    else (Some (entryId entry), addEntryToHistory entry t).

Definition canUndo (t : Tracker) : bool :=
  (0 <=? currentIndex t) && (0 <? historyLength t).

Definition canRedo (t : Tracker) : bool :=
  currentIndex t <? historyLength t - 1.

Record OpResult : Type := mkOpResult {
  success : bool;
  error : option string;
  newIndex : option Z
}.

(** [executeUndo] / [executeRedo] are placeholders that always succeed. *)
Definition executeUndo (entry : option HistoryEntry) : Completion OpResult :=
  match entry with
  | Some _ => Return (mkOpResult true None None)
  | None => Throw "Cannot read properties of undefined (reading 'type')"
  end.

Definition executeRedo (entry : option HistoryEntry) : Completion OpResult :=
  match entry with
  | Some _ => Return (mkOpResult true None None)
  | None => Throw "Cannot read properties of undefined (reading 'type')"
  end.

Definition bump_undo (t : Tracker) : Tracker :=
  let s := stats t in
  set_stats (mkStats (totalEntries s) (undoOperations s + 1)
                     (redoOperations s) (cleanupOperations s)) t.

Definition bump_redo (t : Tracker) : Tracker :=
  let s := stats t in
  set_stats (mkStats (totalEntries s) (undoOperations s)
                     (redoOperations s + 1) (cleanupOperations s)) t.

Definition bump_cleanup (t : Tracker) : Tracker :=
  let s := stats t in
  set_stats (mkStats (totalEntries s) (undoOperations s)
                     (redoOperations s) (cleanupOperations s + 1)) t.

Definition undo (t : Tracker) : OpResult * Tracker :=
  if negb (canUndo t) then (mkOpResult false (Some "No operations to undo") None, t)
  else
    let entry := nth_Z (history t) (currentIndex t) in
    match executeUndo entry with
    | Return result =>
        if success result then
          let t1 := set_currentIndex (currentIndex t - 1) t in
          let t2 := bump_undo t1 in
          (mkOpResult true None (Some (currentIndex t2)), t2)
        else (result, t)
    | Throw msg => (mkOpResult false (Some msg) None, t)
    end.

(** [undo] is an [async] function. A call runs up to the [await] of
    [executeUndo] at once: the guard, the read of the entry and the start
    of [executeUndo], whose outcome is then fixed. [undoUntilAwait] is
    that part; [None] when the guard answers at once. *)
Definition undoUntilAwait (t : Tracker) : option (Completion OpResult) :=
  if negb (canUndo t) then None
  else Some (executeUndo (nth_Z (history t) (currentIndex t))).

(** The rest of the call runs later, on the tracker as it is then. *)
Definition undoAfterAwait (pending : Completion OpResult) (t : Tracker)
    : OpResult * Tracker :=
  match pending with
  | Return result =>
      if success result then
        let t1 := set_currentIndex (currentIndex t - 1) t in
        let t2 := bump_undo t1 in
        (mkOpResult true None (Some (currentIndex t2)), t2)
      else (result, t)
  | Throw msg => (mkOpResult false (Some msg) None, t)
  end.

Definition redo (t : Tracker) : OpResult * Tracker :=
  if negb (canRedo t) then (mkOpResult false (Some "No operations to redo") None, t)
  else
    let t1 := set_currentIndex (currentIndex t + 1) t in
    let entry := nth_Z (history t1) (currentIndex t1) in
    match executeRedo entry with
    | Return result =>
        if success result then
          let t2 := bump_redo t1 in
          (mkOpResult true None (Some (currentIndex t2)), t2)
        else (result, set_currentIndex (currentIndex t1 - 1) t1)
    | Throw msg =>
        (mkOpResult false (Some msg) None, set_currentIndex (currentIndex t1 - 1) t1)
    end.

(** [clearHistory(confirm)] *)
Definition clearHistory (confirm : bool) (t : Tracker) : Completion bool * Tracker :=
  if negb confirm then (Throw "History clearing requires confirmation", t)
  else
    let t1 := set_history [] t in
    let t2 := set_currentIndex (-1) t1 in
    let s := stats t2 in
    let t3 := set_stats (mkStats 0 (undoOperations s) (redoOperations s)
                                 (cleanupOperations s)) t2 in
    (* saveToStorage clears the dirty flag, or logs its own failure *)
    (Return true, t3).

(** An element of [importData.history]: [null], [undefined], or a value
    whose properties can be read, taken as an entry (a property that is
    absent reads as missing). The data of an entry is JSON data, as the
    parse of an exported file gives it. *)
Inductive Imported : Type :=
| ImportedNull
| ImportedUndefined
| ImportedEntry (entry : HistoryEntry).

(** The argument of [importHistory]: [imp_history = None] when
    [importData.history] is not an array. *)
Record ImportData : Type := mkImport {
  imp_history : option (list Imported);
  imp_version : option string
}.

(** The error [validateHistoryEntry] throws on the first element it
    cannot read ([entry[field]] with [entry] null or undefined), if there
    is one. *)
Fixpoint firstUnreadable (imported : list Imported) : option string :=
  match imported with
  | [] => None
  | ImportedNull :: _ => Some "Cannot read properties of null (reading 'id')"
  | ImportedUndefined :: _ => Some "Cannot read properties of undefined (reading 'id')"
  | ImportedEntry _ :: rest => firstUnreadable rest
  end.

Fixpoint readableEntries (imported : list Imported) : list HistoryEntry :=
  match imported with
  | [] => []
  | ImportedEntry entry :: rest => entry :: readableEntries rest
  | _ :: rest => readableEntries rest
  end.

Definition validateImportData (d : option ImportData) : bool :=
  match d with
  | None => false
  | Some d =>
      match imp_history d with
      | None => false
      | Some _ =>
          match imp_version d with
          | Some v => if nonEmpty v then String.eqb v "1.0.0" else true
          | None => true
          end
      end
  end.

(** [new Date(a.timestamp) - new Date(b.timestamp) > 0]; an unparsable
    date makes the difference [NaN], which [sort] reads as 0. *)
Definition laterThan (a b : HistoryEntry) : bool :=
  match timestamp a, timestamp b with
  | TsAt x, TsAt y => y <? x
  | _, _ => false
  end.

Fixpoint insertSorted (x : HistoryEntry) (l : list HistoryEntry) : list HistoryEntry :=
  match l with
  | [] => [x]
  | y :: l' => if laterThan x y then y :: insertSorted x l' else x :: y :: l'
  end.

(** [mergedHistory.sort(...)], as a stable insertion sort. *)
Definition sortByTimestamp (l : list HistoryEntry) : list HistoryEntry :=
  foldr insertSorted [] l.

(** [importHistory]: the loop that counts the valid entries throws on a
    [null] or [undefined] element, before the log is touched, and the
    [catch] answers with the message. *)
Definition importHistory (d : option ImportData) (merge : bool) (t : Tracker)
    : OpResult * Tracker :=
  if negb (validateImportData d) then (mkOpResult false None None, t)
  else
    let importedHistory := match d with
                           | Some d => default [] (imp_history d)
                           | None => []
                           end in
    match firstUnreadable importedHistory with
    | Some msg => (mkOpResult false (Some msg) None, t)
    | None =>
        let imported := readableEntries importedHistory in
        let valid := filter (fun e => validateHistoryEntry e = true) imported in
        let t1 := if merge
                  then set_history (sortByTimestamp (history t ++ valid)) t
                  else set_history valid t in
        let t2 := set_currentIndex (historyLength t1 - 1) t1 in
        let s := stats t2 in
        let t3 := set_stats (mkStats (historyLength t2) (undoOperations s)
                                     (redoOperations s) (cleanupOperations s)) t2 in
        let t4 := enforceHistoryLimit t3 in
        (mkOpResult true None None, t4)
    end.

Definition cleanupOrphanedReferences (t : Tracker) : Tracker :=
  let beforeCount := historyLength t in
  let t1 := set_history
              (filter (fun e => dataTruthy (data e) && dataIsObject (data e) = true)
                      (history t)) t in
  let afterCount := historyLength t1 in
  if negb (beforeCount =? afterCount)
  then set_currentIndex (Z.min (currentIndex t1) (afterCount - 1)) t1
  else t1.

Definition performCleanup (t : Tracker) : Tracker :=
  let t1 := enforceHistoryLimit t in
  let t2 := cleanupOrphanedReferences t1 in
  bump_cleanup t2.

(** What [loadHistoryFromStorage] does with the stored array. *)
Definition loadHistoryFromStorage (stored : list HistoryEntry) (t : Tracker) : Tracker :=
  match stored with
  | [] => t
  | _ =>
      let t1 := set_history stored t in
      let t2 := set_currentIndex (historyLength t1 - 1) t1 in
      let s := stats t2 in
      set_stats (mkStats (historyLength t2) (undoOperations s) (redoOperations s)
                         (cleanupOperations s)) t2
  end.

(** [validateLoadedHistory]: invalid entries are dropped and the index is
    rebuilt. *)
Definition validateLoadedHistory (t : Tracker) : Tracker :=
  let invalidEntries := filter (fun e => validateHistoryEntry e = false) (history t) in
  match invalidEntries with
  | [] => t
  | _ =>
      let t1 := set_history
                  (filter (fun e => validateHistoryEntry e = true) (history t)) t in
      set_currentIndex (historyLength t1 - 1) t1
  end.

(** The listener for ['config-changed']: the new capacity is taken as
    it comes and the log is trimmed to it. *)
Definition configChanged (key : string) (value : Z) (t : Tracker) : Tracker :=
  if String.eqb key "performance.maxHistoryEntries"
  then enforceHistoryLimit (set_maxHistorySize value t)
  else t.

(** The operations of the tracker, as labels; each is a call that has
    completed before the next one is made. *)
Inductive Op : Type :=
| OpConfigure (configured : Z)
| OpConfigChanged (key : string) (value : Z)
| OpLoad (stored : list HistoryEntry)
| OpRecord (now : Z) (suffix type : string) (d : JsData) (descr : string)
           (reversal : option JsData)
| OpAddEntry (entry : HistoryEntry)
| OpUndo
| OpRedo
| OpClear (confirm : bool)
| OpImport (d : option ImportData) (merge : bool)
| OpTrim
| OpCleanup.

Definition run (o : Op) (t : Tracker) : Tracker :=
  match o with
  | OpConfigure c => loadConfigurationSettings c t
  | OpConfigChanged key value => configChanged key value t
  | OpLoad stored => validateLoadedHistory (loadHistoryFromStorage stored t)
  | OpRecord now suffix type d descr rev =>
      snd (recordTransformation now suffix type d descr rev t)
  | OpAddEntry e => addEntryToHistory e t
  | OpUndo => snd (undo t)
  | OpRedo => snd (redo t)
  | OpClear c => snd (clearHistory c t)
  | OpImport d m => snd (importHistory d m t)
  | OpTrim => enforceHistoryLimit t
  | OpCleanup => performCleanup t
  end.

(** A sequence of such calls, the first of the list first. *)
Definition runAll (ops : list Op) (t : Tracker) : Tracker :=
  foldl (fun t o => run o t) t ops.

(** The index bound of the data model, with the capacity being a real
    capacity (the constructor and [loadConfigurationSettings] keep it
    in 1..1000; the ['config-changed'] listener does not). *)
Definition indexInRange (t : Tracker) : Prop :=
  -1 <= currentIndex t <= historyLength t - 1.

Definition wellFormed (t : Tracker) : Prop :=
  indexInRange t /\ 1 <= maxHistorySize t.


(** The log just before the capacity check of [addEntryToHistory]. *)
Definition branchWith (entry : HistoryEntry) (t : Tracker) : list HistoryEntry :=
  take (Z.to_nat (currentIndex t + 1)) (history t) ++ [entry].

End History.

(** ** The character cache (ThreadshiftMultiCharacterHandler) *)

Module CharCache.
Import Js.

(** A cached character state. The cache only ever looks at the size of
    its JSON serialisation, so the state carries that length and the
    character it was built for. *)
Record CharacterState : Type := mkState {
  displayName : string;
  serializedLength : Z
}.

(** [calculateStateSize]: two bytes per UTF-16 code unit. *)
Definition calculateStateSize (state : CharacterState) : Z :=
  serializedLength state * 2.

Record Stats : Type := mkStats {
  cachedCharacters : Z;
  cacheHits : Z;
  evictions : Z;
  memoryPressureEvents : Z
}.

(** [lastAccessTimes] is a JavaScript [Map]: its entries keep insertion
    order, which the stable sort of [evictCharacters] observes. *)
Record Handler : Type := mkHandler {
  activeCharacterId : option string;
  characterCache : gmap string CharacterState;
  characterStates : gmap string CharacterState;
  lastAccessTimes : list (string * Z);
  maxCachedCharacters : Z;
  maxMemoryMB : Z;
  memoryThresholdMB : Z;
  memoryUsageBytes : Z;
  autoSaveEnabled : bool;
  saveRequests : list string;
  stats : Stats
}.

Definition newHandler : Handler :=
  {| activeCharacterId := None;
     characterCache := ∅;
     characterStates := ∅;
     lastAccessTimes := [];
     maxCachedCharacters := 50;
     maxMemoryMB := 100;
     memoryThresholdMB := 80;
     memoryUsageBytes := 0;
     autoSaveEnabled := true;
     saveRequests := [];
     stats := mkStats 0 0 0 0 |}.

(** [Map.prototype.set] *)
Fixpoint mapSet (k : string) (v : Z) (m : list (string * Z)) : list (string * Z) :=
  match m with
  | [] => [(k, v)]
  | (k', v') :: m' =>
      if String.eqb k' k then (k', v) :: m' else (k', v') :: mapSet k v m'
  end.

(** [Map.prototype.delete] *)
Fixpoint mapDelete (k : string) (m : list (string * Z)) : list (string * Z) :=
  match m with
  | [] => []
  | (k', v') :: m' =>
      if String.eqb k' k then mapDelete k m' else (k', v') :: mapDelete k m'
  end.

Definition cacheSize (h : Handler) : Z := Z.of_nat (size (characterCache h)).

Definition memoryBudgetBytes (h : Handler) : Z := maxMemoryMB h * 1024 * 1024.

(** [config.x || fallback] on numbers: 0 (and a missing key) is falsy. *)
Definition orDefault (configured : option Z) (fallback : Z) : Z :=
  match configured with
  | Some v => if v =? 0 then fallback else v
  | None => fallback
  end.

(** [loadConfiguration], for the settings the cache uses. *)
Definition loadConfiguration (maxCharacters memoryThreshold : option Z)
    (autoSave : bool) (h : Handler) : Handler :=
  mkHandler (activeCharacterId h) (characterCache h) (characterStates h)
            (lastAccessTimes h)
            (orDefault maxCharacters 50)
            (orDefault memoryThreshold 100)
            (orDefault memoryThreshold 80)
            (memoryUsageBytes h) autoSave (saveRequests h) (stats h).

(** [charId !== this.activeCharacterId] *)
Definition isActive (h : Handler) (id : string) : bool :=
  match activeCharacterId h with
  | Some a => String.eqb id a
  | None => false
  end.

Fixpoint insertByTime (x : string * Z) (l : list (string * Z)) : list (string * Z) :=
  match l with
  | [] => [x]
  | y :: l' => if snd y <? snd x then y :: insertByTime x l' else x :: y :: l'
  end.

(** [.sort(([, timeA], [, timeB]) => timeA - timeB)], a stable sort. *)
Definition sortByTime (l : list (string * Z)) : list (string * Z) :=
  foldr insertByTime [] l.

(** [sortedCharacters] of [evictCharacters]. *)
Definition sortedCharacters (h : Handler) : list (string * Z) :=
  sortByTime (filter (fun e => isActive h (fst e) = false) (lastAccessTimes h)).

(** The loop "Determine how many to evict": walks the sorted entries with
    the accumulators [bytesFreed] and [toEvict] and stops at the [break]. *)
Fixpoint selectVictims (h : Handler) (requiredBytes : Z)
    (sorted : list (string * Z)) (bytesFreed : Z) (toEvict : list (string * Z))
    : Z * list (string * Z) :=
  match sorted with
  | [] => (bytesFreed, toEvict)
  | (characterId, _) :: rest =>
      match characterCache h !! characterId with
      | Some state =>
          let stateSize := calculateStateSize state in
          let toEvict' := toEvict ++ [(characterId, stateSize)] in
          let bytesFreed' := bytesFreed + stateSize in
          if (requiredBytes <=? bytesFreed')
             && (cacheSize h - Z.of_nat (length toEvict') <? maxCachedCharacters h)
          then (bytesFreed', toEvict')
          else selectVictims h requiredBytes rest bytesFreed' toEvict'
      | None => selectVictims h requiredBytes rest bytesFreed toEvict
      end
  end.

(** One iteration of the loop "Evict characters". *)
Definition evictOne (victim : string * Z) (h : Handler) : Handler :=
  let (characterId, stateSize) := victim in
  mkHandler (activeCharacterId h)
            (delete characterId (characterCache h))
            (delete characterId (characterStates h))
            (mapDelete characterId (lastAccessTimes h))
            (maxCachedCharacters h) (maxMemoryMB h) (memoryThresholdMB h)
            (memoryUsageBytes h - stateSize)
            (autoSaveEnabled h)
            (if autoSaveEnabled h then saveRequests h ++ [characterId]
             else saveRequests h)
            (mkStats (cachedCharacters (stats h)) (cacheHits (stats h))
                     (evictions (stats h) + 1) (memoryPressureEvents (stats h))).

Definition evictAll (toEvict : list (string * Z)) (h : Handler) : Handler :=
  foldl (fun acc victim => evictOne victim acc) h toEvict.

Definition set_stats (s : Stats) (h : Handler) : Handler :=
  mkHandler (activeCharacterId h) (characterCache h) (characterStates h)
            (lastAccessTimes h) (maxCachedCharacters h) (maxMemoryMB h)
            (memoryThresholdMB h) (memoryUsageBytes h) (autoSaveEnabled h)
            (saveRequests h) s.

Definition evictCharacters (requiredBytes : Z) (h : Handler) : Handler :=
  if cacheSize h =? 0 then h
  else
    let '(_, toEvict) := selectVictims h requiredBytes (sortedCharacters h) 0 [] in
    let h1 := evictAll toEvict h in
    let h2 := set_stats (mkStats (cacheSize h1) (cacheHits (stats h1))
                                 (evictions (stats h1))
                                 (memoryPressureEvents (stats h1))) h1 in
    (* Check if we're still over memory limit *)
    if memoryThresholdMB h2 * 1024 * 1024 <? memoryUsageBytes h2
    then set_stats (mkStats (cachedCharacters (stats h2)) (cacheHits (stats h2))
                            (evictions (stats h2))
                            (memoryPressureEvents (stats h2) + 1)) h2
    else h2.

(** [cacheCharacter(characterId, state)]; [state = None] is a falsy
    state. The boolean is the returned value. *)
Definition cacheCharacter (now : Z) (characterId : string)
    (state : option CharacterState) (h : Handler) : bool * Handler :=
  match state with
  | None => (false, h)
  | Some state =>
      if String.eqb characterId "" then (false, h)
      else
        let stateSize := calculateStateSize state in
        (* Check memory limits *)
        let h1 := if memoryBudgetBytes h <? memoryUsageBytes h + stateSize
                  then evictCharacters stateSize h else h in
        (* Check cache size limits *)
        let h2 := if maxCachedCharacters h1 <=? cacheSize h1
                  then evictCharacters 0 h1 else h1 in
        let h3 := mkHandler (activeCharacterId h2)
                    (<[characterId := state]> (characterCache h2))
                    (<[characterId := state]> (characterStates h2))
                    (mapSet characterId now (lastAccessTimes h2))
                    (maxCachedCharacters h2) (maxMemoryMB h2) (memoryThresholdMB h2)
                    (memoryUsageBytes h2 + stateSize)
                    (autoSaveEnabled h2) (saveRequests h2) (stats h2) in
        (true, set_stats (mkStats (cacheSize h3) (cacheHits (stats h3))
                                  (evictions (stats h3))
                                  (memoryPressureEvents (stats h3))) h3)
  end.

(** The cache-hit branch of [loadCharacterState]. *)
Definition loadCachedState (now : Z) (characterId : string) (h : Handler)
    : option CharacterState * Handler :=
  match characterCache h !! characterId with
  | Some cachedState =>
      (Some cachedState,
       mkHandler (activeCharacterId h) (characterCache h) (characterStates h)
                 (mapSet characterId now (lastAccessTimes h))
                 (maxCachedCharacters h) (maxMemoryMB h) (memoryThresholdMB h)
                 (memoryUsageBytes h) (autoSaveEnabled h) (saveRequests h)
                 (mkStats (cachedCharacters (stats h)) (cacheHits (stats h) + 1)
                          (evictions (stats h)) (memoryPressureEvents (stats h))))
  | None => (None, h)
  end.

(** [switchCharacter] to a character that is already cached: the state
    comes from the cache, then the character becomes the active one. *)
Definition switchToCached (now : Z) (characterId : string) (h : Handler) : Handler :=
  match loadCachedState now characterId h with
  | (Some _, h1) =>
      mkHandler (Some characterId) (characterCache h1) (characterStates h1)
                (mapSet characterId now (lastAccessTimes h1))
                (maxCachedCharacters h1) (maxMemoryMB h1) (memoryThresholdMB h1)
                (memoryUsageBytes h1) (autoSaveEnabled h1) (saveRequests h1)
                (stats h1)
  | (None, h1) => h1
  end.

(** [deleteCharacter], with a store that accepts the deletion. The
    entry leaves the three maps; [memoryUsageBytes] is not touched. *)
Definition deleteCharacter (characterId : string) (h : Handler)
    : Completion bool * Handler :=
  if String.eqb characterId ""
  then (Throw "Character ID must be a non-empty string", h)
  else if isActive h characterId
  then (Throw "Cannot delete active character", h)
  else
    let h1 := mkHandler (activeCharacterId h)
                (delete characterId (characterCache h))
                (delete characterId (characterStates h))
                (mapDelete characterId (lastAccessTimes h))
                (maxCachedCharacters h) (maxMemoryMB h) (memoryThresholdMB h)
                (memoryUsageBytes h)
                (autoSaveEnabled h) (saveRequests h) (stats h) in
    (Return true,
     set_stats (mkStats (cacheSize h1) (cacheHits (stats h1))
                        (evictions (stats h1))
                        (memoryPressureEvents (stats h1))) h1).

(** The calls that touch the cache, and the handlers they lead to once
    [initialize] has loaded the configuration. *)
Inductive Op : Type :=
| OpCacheCharacter (now : Z) (characterId : string) (state : option CharacterState)
| OpDeleteCharacter (characterId : string)
| OpLoadCachedState (now : Z) (characterId : string)
| OpSwitchToCached (now : Z) (characterId : string).

Definition run (o : Op) (h : Handler) : Handler :=
  match o with
  | OpCacheCharacter now characterId state => snd (cacheCharacter now characterId state h)
  | OpDeleteCharacter characterId => snd (deleteCharacter characterId h)
  | OpLoadCachedState now characterId => snd (loadCachedState now characterId h)
  | OpSwitchToCached now characterId => switchToCached now characterId h
  end.

Inductive reachable : Handler -> Prop :=
| reach_init maxCharacters memoryThreshold autoSave :
    reachable (loadConfiguration maxCharacters memoryThreshold autoSave newHandler)
| reach_step o h : reachable h -> reachable (run o h).

End CharCache.

(** ** What the cache promises *)

Module CharCacheProps.
Import CharCache.

(** The entry of the pinned character, when it is cached. *)
Definition pinnedEntry (h : Handler) : option CharacterState :=
  match activeCharacterId h with
  | Some a => characterCache h !! a
  | None => None
  end.

Definition pinnedCount (h : Handler) : Z :=
  match pinnedEntry h with Some _ => 1 | None => 0 end.

Definition pinnedBytes (h : Handler) : Z :=
  match pinnedEntry h with Some state => calculateStateSize state | None => 0 end.

(** Both bounds, the pinned entry not counted. *)
Definition withinBoundsExceptPinned (h : Handler) : Prop :=
  cacheSize h - pinnedCount h <= maxCachedCharacters h
  /\ memoryUsageBytes h - pinnedBytes h <= memoryBudgetBytes h.

(** [lastAccessTimes] is a [Map]: one entry per key; and every cached
    character has an access time. *)
Definition wellKeyed (h : Handler) : Prop :=
  NoDup (lastAccessTimes h).*1
  /\ forall characterId, is_Some (characterCache h !! characterId) ->
                         characterId ∈ (lastAccessTimes h).*1.

(** The bytes of a list of victims. *)
Definition bytesOf (victims : list (string * Z)) : Z :=
  foldr (fun victim acc => snd victim + acc) 0 victims.

End CharCacheProps.

(** ** The zone swap engine (ThreadshiftZoneSwapEngine) *)

Module ZoneSwap.
Import Js.

(** JSON data, the persisted shape of a zone descriptor. *)
Inductive Json : Type :=
| JNull
| JBool (b : bool)
| JNum (n : Z)
| JStr (s : string)
| JArr (items : list Json)
| JObj (fields : list (string * Json)).

(** What reading a property of a body map yields. *)
Inductive JsVal : Type :=
| Undefined
| Val (j : Json).

(** JavaScript truthiness. *)
Definition truthy (v : JsVal) : bool :=
  match v with
  | Undefined => false
  | Val JNull => false
  | Val (JBool b) => b
  | Val (JNum n) => negb (n =? 0)
  | Val (JStr s) => negb (String.eqb s "")
  | Val (JArr _) => true
  | Val (JObj _) => true
  end.

(** [JSON.parse(JSON.stringify(j))]: a deep copy of the JSON value. *)
Fixpoint jsonClone (j : Json) : Json :=
  match j with
  | JNull => JNull
  | JBool b => JBool b
  | JNum n => JNum n
  | JStr s => JStr s
  | JArr items => JArr (List.map jsonClone items)
  | JObj fields => JObj (List.map (fun kv => (fst kv, jsonClone (snd kv))) fields)
  end.

(** A body map is a plain object from zone names to zone data; a key can
    be present with the value [undefined]. [bodyMap[zone]] is [getZone]. *)
Definition getZone (bodyMap : gmap string JsVal) (zone : string) : JsVal :=
  default Undefined (bodyMap !! zone).

(** [bodyMap[zone]] where [bodyMap] itself may be [null]. *)
Definition getZoneOf (bodyMap : option (gmap string JsVal)) (zone : string) : JsVal :=
  match bodyMap with
  | Some m => getZone m zone
  | None => Undefined
  end.

Inductive Status : Type := Active | Reversed | Failed.

Definition statusName (s : Status) : string :=
  match s with
  | Active => "active"
  | Reversed => "reversed"
  | Failed => "failed"
  end.

Record Garment : Type := mkGarment {
  garmentId : string;
  garmentCharacterId : string;
  garmentType : string;
  garmentZones : option (list string)
}.

Record OriginalStates : Type := mkOriginalStates {
  source : gmap string JsVal;
  target : gmap string JsVal
}.

(** The [swapData] object of [executeSwap]. *)
Record SwapData : Type := mkSwapData {
  swapId : string;
  sourceCharId : string;
  targetCharId : string;
  zones : list string;
  garment : Garment;
  timestamp : Z;
  status : Status;
  options : Json;
  reciprocal : bool;
  originalStates : option OriginalStates;
  swapError : option string;
  reversedAt : option Z
}.

Record Settings : Type := mkSettings {
  bidirectionalSwaps : bool;
  autoValidation : bool;
  historyLimit : Z;
  validateTransformations : bool;
  allowPartialTransformations : bool;
  reciprocalTransformations : bool
}.

Definition defaultSettings : Settings :=
  {| bidirectionalSwaps := true;
     autoValidation := true;
     historyLimit := 100;
     validateTransformations := true;
     allowPartialTransformations := true;
     reciprocalTransformations := true |}.

Record Stats : Type := mkStats {
  totalSwaps : Z;
  successfulSwaps : Z;
  failedSwaps : Z;
  reversedSwaps : Z;
  validationErrors : Z
}.

(** An entry of [this.errors], pushed by [handleError]. *)
Record ErrorInfo : Type := mkErrorInfo {
  context : string;
  message : string;
  critical : bool
}.

(** The engine together with the store it reads and writes.

    [swapObjects] is the heap of [swapData] objects: [activeSwaps] and
    [swapHistory] hold references into it, so a mutation of a record is
    seen through both. [bodyMaps] is the store's [characters] table and
    [storageFaults] says, for each coming storage call in turn, whether it
    throws (an exhausted list means no further fault). *)
Record Engine : Type := mkEngine {
  initialized : bool;
  enabled : bool;
  swapObjects : gmap nat SwapData;
  nextRef : nat;
  activeSwaps : gmap string nat;
  swapHistory : list nat;
  swapCounter : Z;
  settings : Settings;
  stats : Stats;
  errors : list ErrorInfo;
  warnings : list string;
  events : list string;
  bodyMaps : gmap string (gmap string JsVal);
  storageFaults : list bool
}.

Definition set_initialized (v : bool) (e : Engine) : Engine :=
  mkEngine v (enabled e) (swapObjects e) (nextRef e) (activeSwaps e) (swapHistory e) (swapCounter e) (settings e) (stats e) (errors e) (warnings e) (events e) (bodyMaps e) (storageFaults e).
Definition set_enabled (v : bool) (e : Engine) : Engine :=
  mkEngine (initialized e) v (swapObjects e) (nextRef e) (activeSwaps e) (swapHistory e) (swapCounter e) (settings e) (stats e) (errors e) (warnings e) (events e) (bodyMaps e) (storageFaults e).
Definition set_swapObjects (v : gmap nat SwapData) (e : Engine) : Engine :=
  mkEngine (initialized e) (enabled e) v (nextRef e) (activeSwaps e) (swapHistory e) (swapCounter e) (settings e) (stats e) (errors e) (warnings e) (events e) (bodyMaps e) (storageFaults e).
Definition set_nextRef (v : nat) (e : Engine) : Engine :=
  mkEngine (initialized e) (enabled e) (swapObjects e) v (activeSwaps e) (swapHistory e) (swapCounter e) (settings e) (stats e) (errors e) (warnings e) (events e) (bodyMaps e) (storageFaults e).
Definition set_activeSwaps (v : gmap string nat) (e : Engine) : Engine :=
  mkEngine (initialized e) (enabled e) (swapObjects e) (nextRef e) v (swapHistory e) (swapCounter e) (settings e) (stats e) (errors e) (warnings e) (events e) (bodyMaps e) (storageFaults e).
Definition set_swapHistory (v : list nat) (e : Engine) : Engine :=
  mkEngine (initialized e) (enabled e) (swapObjects e) (nextRef e) (activeSwaps e) v (swapCounter e) (settings e) (stats e) (errors e) (warnings e) (events e) (bodyMaps e) (storageFaults e).
Definition set_swapCounter (v : Z) (e : Engine) : Engine :=
  mkEngine (initialized e) (enabled e) (swapObjects e) (nextRef e) (activeSwaps e) (swapHistory e) v (settings e) (stats e) (errors e) (warnings e) (events e) (bodyMaps e) (storageFaults e).
Definition set_settings (v : Settings) (e : Engine) : Engine :=
  mkEngine (initialized e) (enabled e) (swapObjects e) (nextRef e) (activeSwaps e) (swapHistory e) (swapCounter e) v (stats e) (errors e) (warnings e) (events e) (bodyMaps e) (storageFaults e).
Definition set_stats (v : Stats) (e : Engine) : Engine :=
  mkEngine (initialized e) (enabled e) (swapObjects e) (nextRef e) (activeSwaps e) (swapHistory e) (swapCounter e) (settings e) v (errors e) (warnings e) (events e) (bodyMaps e) (storageFaults e).
Definition set_errors (v : list ErrorInfo) (e : Engine) : Engine :=
  mkEngine (initialized e) (enabled e) (swapObjects e) (nextRef e) (activeSwaps e) (swapHistory e) (swapCounter e) (settings e) (stats e) v (warnings e) (events e) (bodyMaps e) (storageFaults e).
Definition set_warnings (v : list string) (e : Engine) : Engine :=
  mkEngine (initialized e) (enabled e) (swapObjects e) (nextRef e) (activeSwaps e) (swapHistory e) (swapCounter e) (settings e) (stats e) (errors e) v (events e) (bodyMaps e) (storageFaults e).
Definition set_events (v : list string) (e : Engine) : Engine :=
  mkEngine (initialized e) (enabled e) (swapObjects e) (nextRef e) (activeSwaps e) (swapHistory e) (swapCounter e) (settings e) (stats e) (errors e) (warnings e) v (bodyMaps e) (storageFaults e).
Definition set_bodyMaps (v : gmap string (gmap string JsVal)) (e : Engine) : Engine :=
  mkEngine (initialized e) (enabled e) (swapObjects e) (nextRef e) (activeSwaps e) (swapHistory e) (swapCounter e) (settings e) (stats e) (errors e) (warnings e) (events e) v (storageFaults e).
Definition set_storageFaults (v : list bool) (e : Engine) : Engine :=
  mkEngine (initialized e) (enabled e) (swapObjects e) (nextRef e) (activeSwaps e) (swapHistory e) (swapCounter e) (settings e) (stats e) (errors e) (warnings e) (events e) (bodyMaps e) v.

Definition newEngine (s : Settings) (store : gmap string (gmap string JsVal))
    (faults : list bool) : Engine :=
  {| initialized := true;
     enabled := true;
     swapObjects := ∅;
     nextRef := 0%nat;
     activeSwaps := ∅;
     swapHistory := [];
     swapCounter := 0;
     settings := s;
     stats := mkStats 0 0 0 0 0;
     errors := [];
     warnings := [];
     events := [];
     bodyMaps := store;
     storageFaults := faults |}.

(** *** Computations that read and write the engine and may throw.
    A thrown error keeps the mutations made before it. *)
Definition M (A : Type) : Type := Engine -> Completion A * Engine.

Definition ret {A : Type} (a : A) : M A := fun e => (Return a, e).

Definition bind {A B : Type} (f : A -> M B) (c : M A) : M B :=
  fun e => match c e with
           | (Return a, e') => f a e'
           | (Throw msg, e') => (Throw msg, e')
           end.

Global Instance M_ret : MRet M := @ret.
Global Instance M_bind : MBind M := @bind.

Definition throw {A : Type} (msg : string) : M A := fun e => (Throw msg, e).
Definition get : M Engine := fun e => (Return e, e).
Definition modify (f : Engine -> Engine) : M unit := fun e => (Return tt, f e).

(** [try { body } catch (error) { handler(error.message) }] *)
Definition tryCatch {A : Type} (body : M A) (handler : string -> M A) : M A :=
  fun e => match body e with
           | (Return a, e') => (Return a, e')
           | (Throw msg, e') => handler msg e'
           end.

(** *** ThreadshiftModule *)

Definition isReady (e : Engine) : bool := initialized e && enabled e.

(** [fireEvent]: the engine registers listeners for ['config-changed'] and
    ['cleanup-requested'] only, so the events it fires here reach no
    handler of its own; the log keeps their names. *)
Definition fireEvent (event : string) : M unit :=
  modify (fun e => set_events (events e ++ [event]) e).

Definition logWarning (msg : string) : M unit :=
  modify (fun e => set_warnings (warnings e ++ [msg]) e).

Definition handleError (ctx msg : string) (isCritical : bool) : M unit :=
  modify (fun e => set_errors (errors e ++ [mkErrorInfo ctx msg isCritical]) e);;
  fireEvent "error";;
  if isCritical
  then modify (set_enabled false);; fireEvent "disabled";; fireEvent "critical_error"
  else mret tt.

(** [safeOperation(operationName, operation, fallback)]: [None] is the
    [null] the callers pass as fallback. *)
Definition safeOperation {A : Type} (operationName : string) (operation : M A)
    (fallback : option A) : M (option A) :=
  e ← get;
  if negb (isReady e)
  then logWarning ("Cannot perform " +:+ operationName +:+ ": module not ready");;
       mret fallback
  else tryCatch (result ← operation; mret (Some result))
                (fun msg => handleError operationName msg false;; mret fallback).

(** *** Collaborators injected into the engine *)

Record Validation : Type := mkValidation {
  valid : bool;
  validation_errors : list string
}.

(** [garmentZoneMapper.getZonesForGarment] ([None] result: [null]),
    [bodyMapValidator.validateSwap] and
    [reciprocalSwapHandler.handleReciprocal]; each is optional. *)
Record Collaborators : Type := mkCollaborators {
  garmentZoneMapper : option (string -> option (list string));
  bodyMapValidator :
    option (option (gmap string JsVal) -> option (gmap string JsVal) ->
            list string -> Completion Validation);
  reciprocalSwapHandler : option (SwapData -> Completion unit)
}.

Definition noCollaborators : Collaborators := mkCollaborators None None None.

(** *** Results handed back to the caller *)

Record ZoneResult : Type := mkZoneResult {
  zr_zone : string;
  zr_success : bool;
  zr_sourceData : JsVal;
  zr_targetData : JsVal;
  zr_error : option string
}.

Record SwapResult : Type := mkSwapResult {
  sr_success : bool;
  sr_swapId : string;
  sr_zones : option (list string);
  sr_results : option (list ZoneResult);
  sr_error : option string;
  sr_timestamp : Z
}.

Record ReverseResult : Type := mkReverseResult {
  rr_success : bool;
  rr_swapId : string;
  rr_reversedAt : option Z;
  rr_error : option string
}.

(** *** Garment ids *)

Definition isWhitespace (c : ascii) : bool :=
  let n := nat_of_ascii c in
  (Nat.leb 9 n && Nat.leb n 13) || Nat.eqb n 32.

Fixpoint skipWhitespace (s : string) : string :=
  match s with
  | String c s' => if isWhitespace c then skipWhitespace s' else s
  | EmptyString => EmptyString
  end.

Definition digitValue (c : ascii) : option Z :=
  let n := nat_of_ascii c in
  if Nat.leb 48 n && Nat.leb n 57 then Some (Z.of_nat n - 48) else None.

Fixpoint readDigits (s : string) (acc : option Z) : option Z :=
  match s with
  | EmptyString => acc
  | String c s' =>
      match digitValue c with
      | Some d => readDigits s' (Some (10 * default 0 acc + d))
      | None => acc
      end
  end.

(** [parseInt(s, 10)]; [None] is [NaN]. *)
Definition parseInt (s : string) : option Z :=
  match skipWhitespace s with
  | String "-" s' => Z.opp <$> readDigits s' None
  | String "+" s' => readDigits s' None
  | s' => readDigits s' None
  end.

(** [s.split(sep)] for a one-character separator. *)
Fixpoint splitOn (sep : ascii) (s : string) (current : string) : list string :=
  match s with
  | EmptyString => [current]
  | String c s' =>
      if Ascii.eqb c sep then current :: splitOn sep s' ""
      else splitOn sep s' (current +:+ String c "")
  end.

Definition garmentTypes : list string :=
  ["bra"; "panties"; "dress"; "shirt"; "pants"; "skirt"; "shoes"; "socks"].

(** The fallback zone mapping of [getZonesForGarment]. *)
Definition zoneMapping (garmentType : string) : option (list string) :=
  if String.eqb garmentType "bra" then Some ["chest"]
  else if String.eqb garmentType "panties" then Some ["genitals"]
  else if String.eqb garmentType "dress" then Some ["chest"; "waist"; "hips"]
  else if String.eqb garmentType "shirt" then Some ["chest"; "waist"]
  else if String.eqb garmentType "pants" then Some ["waist"; "hips"; "legs"]
  else if String.eqb garmentType "skirt" then Some ["waist"; "hips"]
  else if String.eqb garmentType "shoes" then Some ["feet"]
  else if String.eqb garmentType "socks" then Some ["feet"]
  else None.

Section Engine.
Variable deps : Collaborators.

Definition getZonesForGarment (garmentType : string) : M (option (list string)) :=
  match garmentZoneMapper deps with
  | Some mapper => mret (mapper garmentType)
  | None => mret (Some (default [] (zoneMapping garmentType)))
  end.

Definition getGarmentById (garmentId : string) : M Garment :=
  if String.eqb garmentId "" then throw "Invalid garment ID"
  else
    match splitOn "." garmentId "" with
    | [characterId; typeIndex] =>
        match parseInt typeIndex with
        | Some typeIndexNum =>
            if (typeIndexNum <? 0) || (Z.of_nat (length garmentTypes) <=? typeIndexNum)
            then throw ("Invalid garment type index: " +:+ typeIndex)
            else
              let garmentType := default "" (garmentTypes !! Z.to_nat typeIndexNum) in
              zones ← getZonesForGarment garmentType;
              mret (mkGarment garmentId characterId garmentType zones)
        | None => throw ("Invalid garment type index: " +:+ typeIndex)
        end
    | _ => throw ("Invalid garment ID format: " +:+ garmentId)
    end.

(** *** The store *)

(** Every call into the store first consumes one fault flag. *)
Definition storageCall : M unit :=
  fun e =>
    let e' := set_storageFaults (tail (storageFaults e)) e in
    match head (storageFaults e) with
    | Some true => (Throw "Storage dependency not available", e')
    | _ => (Return tt, e')
    end.

Definition loadCharacterBodyMap (characterId : string)
    : M (option (gmap string JsVal)) :=
  storageCall;;
  if String.eqb characterId "" then throw "Character ID must be a non-empty string"
  else e ← get; mret (bodyMaps e !! characterId).

Definition saveCharacterBodyMap (characterId : string) (bodyMap : gmap string JsVal)
    : M bool :=
  storageCall;;
  if String.eqb characterId "" then throw "Character ID must be a non-empty string"
  else modify (fun e => set_bodyMaps (<[characterId := bodyMap]> (bodyMaps e)) e);;
       mret true.

Definition cloneBodyMapZones (bodyMap : option (gmap string JsVal))
    (zones : list string) : gmap string JsVal :=
  foldl (fun cloned zone =>
           match getZoneOf bodyMap zone with
           | Val j => if truthy (Val j) then <[zone := Val (jsonClone j)]> cloned
                      else cloned
           | Undefined => cloned
           end) ∅ zones.


(** *** The heap of swap records *)

Definition allocSwapData (d : SwapData) : M nat :=
  fun e => (Return (nextRef e),
            set_nextRef (S (nextRef e))
              (set_swapObjects (<[nextRef e := d]> (swapObjects e)) e)).

Definition updateSwapData (ref : nat) (f : SwapData -> SwapData) : M unit :=
  modify (fun e => set_swapObjects (alter f ref (swapObjects e)) e).

Definition set_status (st : Status) (d : SwapData) : SwapData :=
  mkSwapData (swapId d) (sourceCharId d) (targetCharId d) (zones d) (garment d)
             (timestamp d) st (options d) (reciprocal d) (originalStates d)
             (swapError d) (reversedAt d).
Definition set_originalStates (o : OriginalStates) (d : SwapData) : SwapData :=
  mkSwapData (swapId d) (sourceCharId d) (targetCharId d) (zones d) (garment d)
             (timestamp d) (status d) (options d) (reciprocal d) (Some o)
             (swapError d) (reversedAt d).
Definition set_swapError (msg : string) (d : SwapData) : SwapData :=
  mkSwapData (swapId d) (sourceCharId d) (targetCharId d) (zones d) (garment d)
             (timestamp d) (status d) (options d) (reciprocal d) (originalStates d)
             (Some msg) (reversedAt d).
Definition set_reversedAt (t : Z) (d : SwapData) : SwapData :=
  mkSwapData (swapId d) (sourceCharId d) (targetCharId d) (zones d) (garment d)
             (timestamp d) (status d) (options d) (reciprocal d) (originalStates d)
             (swapError d) (Some t).

(** [{ ...old, ...updated }]: a property of [updated] wins; [error],
    [reversedAt] and [originalStates] exist only once they were set. *)
Definition mergeSwapData (old updated : SwapData) : SwapData :=
  mkSwapData (swapId updated) (sourceCharId updated) (targetCharId updated)
             (zones updated) (garment updated) (timestamp updated) (status updated)
             (options updated) (reciprocal updated)
             (match originalStates updated with
              | Some o => Some o
              | None => originalStates old
              end)
             (match swapError updated with
              | Some m => Some m
              | None => swapError old
              end)
             (match reversedAt updated with
              | Some t => Some t
              | None => reversedAt old
              end).

Definition bump_stats (f : Stats -> Stats) : M unit :=
  modify (fun e => set_stats (f (stats e)) e).

Definition generateSwapId (now : Z) : M string :=
  modify (fun e => set_swapCounter (swapCounter e + 1) e);;
  e ← get;
  mret ("swap_" +:+ pretty now +:+ "_" +:+ pretty (swapCounter e)).

Definition addToHistory (ref : nat) : M unit :=
  modify (fun e => set_swapHistory (ref :: swapHistory e) e);;
  e ← get;
  if historyLimit (settings e) <? Z.of_nat (length (swapHistory e))
  then modify (fun e => set_swapHistory
                          (slice (swapHistory e) 0 (Some (historyLimit (settings e)))) e)
  else mret tt.

(** [findIndex(entry => entry.id === swapId)] over the dereferenced
    history. *)
Fixpoint findIndex (objects : gmap nat SwapData) (wanted : string)
    (entries : list nat) (i : nat) : option nat :=
  match entries with
  | [] => None
  | ref :: rest =>
      match objects !! ref with
      | Some d => if String.eqb (swapId d) wanted then Some i
                  else findIndex objects wanted rest (S i)
      | None => findIndex objects wanted rest (S i)
      end
  end.

Definition updateHistoryEntry (wanted : string) (updatedRef : nat) : M unit :=
  e ← get;
  match findIndex (swapObjects e) wanted (swapHistory e) 0%nat with
  | Some index =>
      match swapHistory e !! index ≫= (swapObjects e !!.),
            swapObjects e !! updatedRef with
      | Some old, Some updated =>
          fresh ← allocSwapData (mergeSwapData old updated);
          modify (fun e => set_swapHistory (<[index := fresh]> (swapHistory e)) e)
      | _, _ => mret tt
      end
  | None => mret tt
  end.

(** *** applyZoneSwap *)
Definition applyZoneSwap (sourceId targetId zone swap : string) : M ZoneResult :=
  tryCatch
    (sourceBodyMap ← loadCharacterBodyMap sourceId;
     targetBodyMap ← loadCharacterBodyMap targetId;
     match sourceBodyMap, targetBodyMap with
     | Some sourceMap, Some targetMap =>
         let sourceZoneData := getZone sourceMap zone in
         let targetZoneData := getZone targetMap zone in
         let updatedSourceMap := <[zone := targetZoneData]> sourceMap in
         let updatedTargetMap := <[zone := sourceZoneData]> targetMap in
         saveCharacterBodyMap sourceId updatedSourceMap;;
         saveCharacterBodyMap targetId updatedTargetMap;;
         fireEvent "threadshift_zone_swap";;
         mret (mkZoneResult zone true sourceZoneData targetZoneData None)
     | _, _ => throw "Missing body map for character"
     end)
    (fun msg =>
       handleError "applyZoneSwap" msg false;;
       mret (mkZoneResult zone false Undefined Undefined (Some msg))).

(** The loop [for (const zone of zones)] of [executeSwap]. *)
Fixpoint exchangeZones (sourceId targetId swap : string) (zoneList : list string)
    (swapResults : list ZoneResult) : M (list ZoneResult) :=
  match zoneList with
  | [] => mret swapResults
  | zone :: rest =>
      zoneResult ← applyZoneSwap sourceId targetId zone swap;
      exchangeZones sourceId targetId swap rest (swapResults ++ [zoneResult])
  end.

Definition handleReciprocal (ref : nat) : M unit :=
  fun e => match reciprocalSwapHandler deps, swapObjects e !! ref with
           | Some handler, Some d =>
               match handler d with
               | Return _ => (Return tt, e)
               | Throw msg => (Throw msg, e)
               end
           | _, _ => (Return tt, e)
           end.

(** *** executeSwap *)
Definition executeSwap (now : Z) (sourceId targetId : string)
    (zoneList : list string) (g : Garment) (opts : Json) : M SwapResult :=
  swap ← generateSwapId now;
  e ← get;
  let swapData :=
    {| swapId := swap; sourceCharId := sourceId; targetCharId := targetId;
       zones := zoneList; garment := g; timestamp := now; status := Active;
       options := opts;
       reciprocal := reciprocalTransformations (settings e)
                     && bidirectionalSwaps (settings e);
       originalStates := None; swapError := None; reversedAt := None |} in
  ref ← allocSwapData swapData;
  tryCatch
    (sourceBodyMap ← loadCharacterBodyMap sourceId;
     targetBodyMap ← loadCharacterBodyMap targetId;
     (* Store original states for potential reversal *)
     updateSwapData ref
       (set_originalStates
          (mkOriginalStates (cloneBodyMapZones sourceBodyMap zoneList)
                            (cloneBodyMapZones targetBodyMap zoneList)));;
     (* Perform zone swaps *)
     swapResults ← exchangeZones sourceId targetId swap zoneList [];
     (* Handle reciprocal transformations *)
     (if reciprocal swapData then handleReciprocal ref else mret tt);;
     (* Store active swap *)
     modify (fun e => set_activeSwaps (<[swap := ref]> (activeSwaps e)) e);;
     addToHistory ref;;
     fireEvent "threadshift_swap_executed";;
     mret (mkSwapResult true swap (Some zoneList) (Some swapResults) None now))
    (fun msg =>
       bump_stats (fun s => mkStats (totalSwaps s) (successfulSwaps s)
                                    (failedSwaps s + 1) (reversedSwaps s)
                                    (validationErrors s));;
       updateSwapData ref (fun d => set_swapError msg (set_status Failed d));;
       handleError "executeSwap" msg false;;
       mret (mkSwapResult false swap None None (Some msg) now)).


(** *** validateSwap *)
Definition validateSwap (sourceBodyMap targetBodyMap : option (gmap string JsVal))
    (zoneList : list string) : M Validation :=
  match bodyMapValidator deps with
  | None => mret (mkValidation true [])
  | Some validator =>
      match validator sourceBodyMap targetBodyMap zoneList with
      | Return validation => mret validation
      | Throw msg =>
          handleError "validateSwap" msg false;;
          mret (mkValidation false ["Validation failed: " +:+ msg])
      end
  end.

(** [errors.join(', ')] *)
Fixpoint join (sep : string) (l : list string) : string :=
  match l with
  | [] => ""
  | [x] => x
  | x :: rest => x +:+ sep +:+ join sep rest
  end.

(** *** performSwap *)
Definition performSwap (now : Z) (sourceId targetId garmentIdArg : string)
    (opts : Json) : M (option SwapResult) :=
  e ← get;
  if negb (isReady e) then throw "ZoneSwapEngine not ready"
  else
    safeOperation "performSwap"
      (bump_stats (fun s => mkStats (totalSwaps s + 1) (successfulSwaps s)
                                    (failedSwaps s) (reversedSwaps s)
                                    (validationErrors s));;
       (* Validate inputs *)
       if String.eqb sourceId "" || String.eqb targetId ""
          || String.eqb garmentIdArg ""
       then throw "Missing required parameters: sourceCharId, targetCharId, garmentId"
       else if String.eqb sourceId targetId
       then throw "Source and target characters cannot be the same"
       else
         (* Get garment information *)
         g ← getGarmentById garmentIdArg;
         (* Resolve affected zones *)
         resolved ← getZonesForGarment (garmentType g);
         match resolved with
         | None | Some [] =>
             throw ("No zones found for garment type: " +:+ garmentType g)
         | Some zoneList =>
             (* Load character body maps *)
             sourceBodyMap ← loadCharacterBodyMap sourceId;
             targetBodyMap ← loadCharacterBodyMap targetId;
             (* Validate swap if enabled *)
             e ← get;
             (if autoValidation (settings e) && validateTransformations (settings e)
              then
                validation ← validateSwap sourceBodyMap targetBodyMap zoneList;
                if negb (valid validation)
                then
                  bump_stats (fun s => mkStats (totalSwaps s) (successfulSwaps s)
                                               (failedSwaps s) (reversedSwaps s)
                                               (validationErrors s + 1));;
                  e ← get;
                  if negb (allowPartialTransformations (settings e))
                  then throw ("Swap validation failed: "
                              +:+ join ", " (validation_errors validation))
                  else mret tt
                else mret tt
              else mret tt);;
             (* Execute the swap *)
             swapResult ← executeSwap now sourceId targetId zoneList g opts;
             bump_stats (fun s => mkStats (totalSwaps s) (successfulSwaps s + 1)
                                          (failedSwaps s) (reversedSwaps s)
                                          (validationErrors s));;
             fireEvent "swap-completed";;
             mret swapResult
         end)
      None.

(** *** reverseSwap *)
Definition reverseSwap (now : Z) (swap : string) : M (option ReverseResult) :=
  e ← get;
  if negb (isReady e) then throw "ZoneSwapEngine not ready"
  else
    safeOperation "reverseSwap"
      (e ← get;
       match activeSwaps e !! swap with
       | None => throw ("Active swap not found: " +:+ swap)
       | Some ref =>
           match swapObjects e !! ref with
           | None => throw ("Active swap not found: " +:+ swap)
           | Some swapData =>
               match status swapData with
               | Active =>
                   match originalStates swapData with
                   | None => throw ("No original states stored for swap " +:+ swap)
                   | Some original =>
                       tryCatch
                         ((* Restore original states *)
                          sourceBodyMap ← loadCharacterBodyMap (sourceCharId swapData);
                          targetBodyMap ← loadCharacterBodyMap (targetCharId swapData);
                          let restoredSourceMap :=
                            source original ∪ default ∅ sourceBodyMap in
                          let restoredTargetMap :=
                            target original ∪ default ∅ targetBodyMap in
                          saveCharacterBodyMap (sourceCharId swapData) restoredSourceMap;;
                          saveCharacterBodyMap (targetCharId swapData) restoredTargetMap;;
                          (* Update swap status *)
                          updateSwapData ref
                            (fun d => set_reversedAt now (set_status Reversed d));;
                          (* Remove from active swaps *)
                          modify (fun e => set_activeSwaps (delete swap (activeSwaps e)) e);;
                          updateHistoryEntry swap ref;;
                          bump_stats (fun s => mkStats (totalSwaps s) (successfulSwaps s)
                                                       (failedSwaps s) (reversedSwaps s + 1)
                                                       (validationErrors s));;
                          fireEvent "swap-reversed";;
                          mret (mkReverseResult true swap (Some now) None))
                         (fun msg =>
                            handleError "reverseSwap" msg false;;
                            mret (mkReverseResult false swap None (Some msg)))
                   end
               | other =>
                   throw ("Swap " +:+ swap +:+ " is not in active state: "
                          +:+ statusName other)
               end
           end
       end)
      None.

(** *** performCleanup, clearHistory *)
Definition dayMs : Z := 24 * 60 * 60 * 1000.

Definition isFailed (objects : gmap nat SwapData) (ref : nat) : bool :=
  match objects !! ref with
  | Some d => match status d with Failed => true | _ => false end
  | None => false
  end.

Definition isRecent (objects : gmap nat SwapData) (cutoffTime : Z) (ref : nat) : bool :=
  match objects !! ref with
  | Some d => cutoffTime <? timestamp d
  | None => false
  end.

Definition performCleanup (now : Z) : M unit :=
  let cutoffTime := now - dayMs in
  modify (fun e => set_swapHistory
                     (filter (fun ref => isRecent (swapObjects e) cutoffTime ref = true)
                             (swapHistory e)) e);;
  modify (fun e => set_activeSwaps
                     (filter (fun kv => isFailed (swapObjects e) (snd kv) = false)
                             (activeSwaps e)) e);;
  fireEvent "cleanup-completed".

Definition clearHistory : M unit :=
  modify (set_swapHistory []);;
  fireEvent "history-cleared".

(** The operations a caller can issue. *)
Inductive Op : Type :=
| OpPerformSwap (now : Z) (sourceId targetId garmentIdArg : string) (opts : Json)
| OpReverseSwap (now : Z) (swap : string)
| OpPerformCleanup (now : Z)
| OpClearHistory.

Definition run (o : Op) (e : Engine) : Engine :=
  match o with
  | OpPerformSwap now a b g opts => snd (performSwap now a b g opts e)
  | OpReverseSwap now swap => snd (reverseSwap now swap e)
  | OpPerformCleanup now => snd (performCleanup now e)
  | OpClearHistory => snd (clearHistory e)
  end.

(** Engines reachable from a freshly initialised one. *)
Inductive reachable : Engine -> Prop :=
| reach_new (s : Settings) (store : gmap string (gmap string JsVal))
            (faults : list bool) : reachable (newEngine s store faults)
| reach_step (o : Op) (e : Engine) : reachable e -> reachable (run o e).

End Engine.

(** Every record of the active set has status ['active']. *)
Definition activeSetAllActive (e : Engine) : Prop :=
  forall (swap : string) (ref : nat),
    activeSwaps e !! swap = Some ref ->
    exists d, swapObjects e !! ref = Some d /\ status d = Active.

(** A swap in which every zone exchange went through. *)
Definition fullySuccessful (r : SwapResult) : Prop :=
  sr_success r = true /\
  exists results, sr_results r = Some results /\
                  Forall (fun zr => zr_success zr = true) results.

End ZoneSwap.

(** ** Vocabulary for the statements about the engine *)

Module ZoneSwapProps.
Import Js ZoneSwap.

(** A frame: the computation leaves [R] standing whatever its outcome. *)
Definition preserves (R : relation Engine) {A : Type} (c : M A) : Prop :=
  forall e, R e (snd (c e)).

(** The same, for the case that the computation throws. *)
Definition preservesOnThrow (R : relation Engine) {A : Type} (c : M A) : Prop :=
  forall e msg e', c e = (Throw msg, e') -> R e e'.

Definition neverThrows {A : Type} (c : M A) : Prop :=
  forall e, exists a, fst (c e) = Return a.

(** One component of the engine is untouched. *)
Definition sameField {T : Type} (proj : Engine -> T) (e e' : Engine) : Prop :=
  proj e' = proj e.

(** Both maps exist and the values of [zone] changed places. *)
Definition exchanged (s t zone : string) (st st' : gmap string (gmap string JsVal)) : Prop :=
  exists ms mt,
    st !! s = Some ms /\ st !! t = Some mt /\
    st' = <[t := <[zone := getZone ms zone]> mt]>
            (<[s := <[zone := getZone mt zone]> ms]> st).

(** Only the source side was written before the exchange threw. *)
Definition halfExchanged (s t zone : string) (st st' : gmap string (gmap string JsVal)) : Prop :=
  exists ms mt,
    st !! s = Some ms /\ st !! t = Some mt /\
    st' = <[s := <[zone := getZone mt zone]> ms]> st.

(** One zone on a pair of body maps: the two values change places (a
    missing value travels as [undefined]). *)
Definition swapZone (p : gmap string JsVal * gmap string JsVal) (zone : string)
    : gmap string JsVal * gmap string JsVal :=
  (<[zone := getZone (snd p) zone]> (fst p), <[zone := getZone (fst p) zone]> (snd p)).

Definition swapAll (p : gmap string JsVal * gmap string JsVal) (zoneList : list string)
    : gmap string JsVal * gmap string JsVal :=
  foldl swapZone p zoneList.

(** Whatever happens to it, an exchange of [zoneList] creates and drops
    no body map and leaves every other zone as it was. *)
Definition keepsOtherZones (zoneList : list string)
    (st st' : gmap string (gmap string JsVal)) : Prop :=
  forall c,
    match st !! c with
    | Some m => exists m', st' !! c = Some m' /\
                           forall zone, zone ∉ zoneList -> m' !! zone = m !! zone
    | None => st' !! c = None
    end.

Definition storeKeeps (zoneList : list string) (e e' : Engine) : Prop :=
  keepsOtherZones zoneList (bodyMaps e) (bodyMaps e').

(** Only the logs, the statistics and the fault schedule may differ. *)
Definition quiet (e e' : Engine) : Prop :=
  bodyMaps e' = bodyMaps e /\ swapObjects e' = swapObjects e
  /\ nextRef e' = nextRef e /\ activeSwaps e' = activeSwaps e
  /\ swapHistory e' = swapHistory e /\ swapCounter e' = swapCounter e
  /\ settings e' = settings e /\ isReady e' = isReady e.

(** The swap records and the active set are untouched. *)
Definition sameHeap (e e' : Engine) : Prop :=
  swapObjects e' = swapObjects e /\ nextRef e' = nextRef e
  /\ activeSwaps e' = activeSwaps e.

(** No record but the one at [ref] is touched, and none is allocated. *)
Definition heapExcept (ref : nat) (e e' : Engine) : Prop :=
  nextRef e' = nextRef e
  /\ forall r, r ≠ ref -> swapObjects e' !! r = swapObjects e !! r.

(** The id and the record [executeSwap] starts from. *)
Definition nextSwapId (now : Z) (e : Engine) : string :=
  "swap_" +:+ pretty now +:+ "_" +:+ pretty (swapCounter e + 1).

Definition newSwapData (now : Z) (s t : string) (zoneList : list string)
    (g : Garment) (opts : Json) (e : Engine) : SwapData :=
  {| swapId := nextSwapId now e; sourceCharId := s; targetCharId := t;
     zones := zoneList; garment := g; timestamp := now; status := Active;
     options := opts;
     reciprocal := reciprocalTransformations (settings e)
                   && bidirectionalSwaps (settings e);
     originalStates := None; swapError := None; reversedAt := None |}.

Definition snapshotOf (st : gmap string (gmap string JsVal)) (s t : string)
    (zoneList : list string) : OriginalStates :=
  mkOriginalStates (cloneBodyMapZones (st !! s) zoneList)
                   (cloneBodyMapZones (st !! t) zoneList).

(** The validation gate of [performSwap] let the swap through. *)
Definition validationPassed (deps : Collaborators) (a b : string) (zoneList : list string) (e : Engine) : Prop :=
  autoValidation (settings e) && validateTransformations (settings e) = true ->
  exists validation,
    fst (validateSwap deps (bodyMaps e !! a) (bodyMaps e !! b) zoneList e)
    = Return validation
    /\ (valid validation = false -> allowPartialTransformations (settings e) = true).













(** What keeps the active set sound from one operation to the next:
    every active record is ['active'], every reference of the active set
    was allocated, and no record sits in the set under two ids. *)
Definition heapInvariant (e : Engine) : Prop :=
  activeSetAllActive e
  /\ (forall swap ref, activeSwaps e !! swap = Some ref -> (ref < nextRef e)%nat)
  /\ (forall swap1 swap2 ref,
        activeSwaps e !! swap1 = Some ref -> activeSwaps e !! swap2 = Some ref ->
        swap1 = swap2).

End ZoneSwapProps.

(** ** Sample data used by the worked instances below *)

Module Samples.
Import History.

Definition sampleEntry (name : string) (at_ : Z) : HistoryEntry :=
  mkEntry name "swap" "Garment swap completed" (TsAt at_) (DataObject 40) false.

Definition entryA : HistoryEntry := sampleEntry "A" 1.
Definition entryB : HistoryEntry := sampleEntry "B" 2.
Definition entryC : HistoryEntry := sampleEntry "C" 3.
Definition entryD : HistoryEntry := sampleEntry "D" 4.

(** The log [A, B, C] after one undo: the index is at [B]. *)
Definition trackerABC_atB : Tracker :=
  snd (undo (addEntryToHistory entryC
               (addEntryToHistory entryB
                  (addEntryToHistory entryA newTracker)))).


(** Two characters with a chest and a waist each. *)
Definition c1Map : gmap string ZoneSwap.JsVal :=
  {[ "chest" := ZoneSwap.Val (ZoneSwap.JStr "flat");
     "waist" := ZoneSwap.Val (ZoneSwap.JStr "narrow") ]}.
Definition c2Map : gmap string ZoneSwap.JsVal :=
  {[ "chest" := ZoneSwap.Val (ZoneSwap.JStr "large");
     "waist" := ZoneSwap.Val (ZoneSwap.JStr "wide") ]}.
Definition sampleStore : gmap string (gmap string ZoneSwap.JsVal) :=
  {[ "c1" := c1Map; "c2" := c2Map ]}.

Definition sampleEngine : ZoneSwap.Engine :=
  ZoneSwap.newEngine ZoneSwap.defaultSettings sampleStore [].

(** The same engine under the strict policy. *)
Definition strictSettings : ZoneSwap.Settings :=
  ZoneSwap.mkSettings true true 100 true false true.
Definition strictEngine : ZoneSwap.Engine :=
  ZoneSwap.newEngine strictSettings sampleStore [].

(** A validator that rejects every swap. *)
Definition rejectingValidator : ZoneSwap.Collaborators :=
  ZoneSwap.mkCollaborators None
    (Some (fun _ _ _ => Js.Return (ZoneSwap.mkValidation false ["zone mismatch"])))
    None.

(** A zone mapper that lists the chest twice. *)
Definition repeatingMapper : ZoneSwap.Collaborators :=
  ZoneSwap.mkCollaborators (Some (fun _ => Some ["chest"; "chest"])) None None.

(** [c2] has no chest at all. *)
Definition storeWithoutChest : gmap string (gmap string ZoneSwap.JsVal) :=
  {[ "c1" := {[ "chest" := ZoneSwap.Val (ZoneSwap.JStr "flat") ]};
     "c2" := {[ "waist" := ZoneSwap.Val (ZoneSwap.JStr "wide") ]} ]}.
Definition engineWithoutChest : ZoneSwap.Engine :=
  ZoneSwap.newEngine ZoneSwap.defaultSettings storeWithoutChest [].



(** A state of 60 000 000 bytes and one of 2 000 bytes. *)
Definition bigState (name : string) : CharCache.CharacterState :=
  CharCache.mkState name 30000000.
Definition smallState (name : string) : CharCache.CharacterState :=
  CharCache.mkState name 1000.

Definition initialHandler : CharCache.Handler :=
  CharCache.loadConfiguration None None true CharCache.newHandler.

(** Two characters created and deleted again, then a third one created. *)
Definition handlerAfterDeletions : CharCache.Handler :=
  CharCache.run (CharCache.OpCacheCharacter 5 "c" (Some (bigState "c")))
    (CharCache.run (CharCache.OpDeleteCharacter "b")
       (CharCache.run (CharCache.OpCacheCharacter 3 "b" (Some (bigState "b")))
          (CharCache.run (CharCache.OpDeleteCharacter "a")
             (CharCache.run (CharCache.OpCacheCharacter 1 "a" (Some (bigState "a")))
                initialHandler)))).

(** The scenario of the specification: [c1] pinned, then [c2] and [c3],
    with room for two characters. *)
Definition handlerWithPinned : CharCache.Handler :=
  CharCache.run (CharCache.OpCacheCharacter 4 "c3" (Some (smallState "c3")))
    (CharCache.run (CharCache.OpCacheCharacter 3 "c2" (Some (smallState "c2")))
       (CharCache.run (CharCache.OpSwitchToCached 2 "c1")
          (CharCache.run (CharCache.OpCacheCharacter 1 "c1" (Some (smallState "c1")))
             (CharCache.loadConfiguration (Some 2) None true CharCache.newHandler)))).

End Samples.

(** ** Vocabulary for the further properties *)

Module HistoryProps.
Import Js History.

(** The number of characters of [JSON.stringify(v)]. *)
Definition jsonLength (v : JsData) : Z :=
  match stringify v with
  | Some text => Z.of_nat (String.length text)
  | None => 0
  end.

(** The verdict of [validateHistoryEntry] on an entry that
    [createHistoryEntry] has just built; the entry holds the clone of
    the data, so the rules on the data are rules on the clone. *)
Definition acceptable (type : string) (d : JsData) (descr : string) : bool :=
  bool_decide (type ∈ entryTypes) && isTruthy (cloneData d)
  && (Z.of_nat (String.length descr) <=? maxDescriptionLength)
  && (jsonLength (cloneData d) <=? maxDataSize).

Definition hasInstant (e : HistoryEntry) : Prop := exists ms, timestamp e = TsAt ms.

Definition notLater (a b : HistoryEntry) : Prop := laterThan a b = false.

Definition validEntries (imported : list HistoryEntry) : list HistoryEntry :=
  filter (fun e => validateHistoryEntry e = true) imported.

(** The log [importHistory] builds before it trims it to the capacity. *)
Definition stagedImport (merge : bool) (imported : list HistoryEntry) (t : Tracker)
    : list HistoryEntry :=
  if merge then sortByTimestamp (history t ++ validEntries imported)
  else validEntries imported.

Definition hasObjectData (e : HistoryEntry) : Prop :=
  dataTruthy (data e) && dataIsObject (data e) = true.

End HistoryProps.

Module ZoneSwapLawsProps.
Import Js ZoneSwap ZoneSwapProps.

(** The zones the built-in table can name. *)
Definition builtinZones : list string :=
  ["chest"; "genitals"; "waist"; "hips"; "legs"; "feet"].

Definition staysAllocated (ref : nat) (e e' : Engine) : Prop :=
  is_Some (swapObjects e !! ref) -> is_Some (swapObjects e' !! ref).

Definition othersKept (a b : string) (e e' : Engine) : Prop :=
  forall c, c <> a -> c <> b -> bodyMaps e' !! c = bodyMaps e !! c.

Definition withinLimit (e : Engine) : Prop :=
  0 <= historyLimit (settings e) ->
  Z.of_nat (length (swapHistory e)) <= historyLimit (settings e).

Definition limitKept (e e' : Engine) : Prop :=
  settings e' = settings e /\ (withinLimit e -> withinLimit e').

End ZoneSwapLawsProps.

Module CharCacheCleanup.
Import Js CharCache.

Definition maxAge : Z := 30 * 60 * 1000.

(** The loop that collects [toCleanup]. *)
Definition isStale (h : Handler) (now : Z) (entry : string * Z) : bool :=
  negb (isActive h (fst entry)) && (maxAge <? now - snd entry).

Definition toCleanup (now : Z) (h : Handler) : list string :=
  (filter (fun entry => isStale h now entry = true) (lastAccessTimes h)).*1.

(** One iteration of the loop over [toCleanup]. *)
Definition cleanupOne (characterId : string) (h : Handler) : Handler :=
  mkHandler (activeCharacterId h)
            (delete characterId (characterCache h))
            (delete characterId (characterStates h))
            (mapDelete characterId (lastAccessTimes h))
            (maxCachedCharacters h) (maxMemoryMB h) (memoryThresholdMB h)
            (match characterCache h !! characterId with
             | Some state => memoryUsageBytes h - calculateStateSize state
             | None => memoryUsageBytes h
             end)
            (autoSaveEnabled h)
            (if autoSaveEnabled h then saveRequests h ++ [characterId]
             else saveRequests h)
            (stats h).

(** [cleanupInactiveCharacters], run at the time [now]. *)
Definition cleanupInactiveCharacters (now : Z) (h : Handler) : Handler :=
  match toCleanup now h with
  | [] => h
  | ids =>
      let h1 := foldl (fun acc characterId => cleanupOne characterId acc) h ids in
      set_stats (mkStats (cacheSize h1) (cacheHits (stats h1)) (evictions (stats h1))
                         (memoryPressureEvents (stats h1))) h1
  end.

(** The bytes of the cached states, added up. *)
Definition totalCachedBytes (h : Handler) : Z :=
  map_fold (fun _ state acc => calculateStateSize state + acc) 0 (characterCache h).

Definition trackedExactly (h : Handler) : Prop :=
  memoryUsageBytes h = totalCachedBytes h.

End CharCacheCleanup.

Module CharCacheLawsProps.
Import Js CharCache CharCacheProps CharCacheCleanup.

(** The count bound, the pinned entry not counted. *)
Definition countWithinLimit (h : Handler) : Prop :=
  cacheSize h - pinnedCount h <= maxCachedCharacters h.

Definition notAfter (x y : string * Z) : Prop := snd x <= snd y.

(** Three characters cached one after the other, none of them active. *)
Definition threeCached : Handler :=
  run (OpCacheCharacter 3 "c3" (Some (Samples.smallState "c3")))
    (run (OpCacheCharacter 2 "c2" (Some (Samples.smallState "c2")))
       (run (OpCacheCharacter 1 "c1" (Some (Samples.smallState "c1")))
          Samples.initialHandler)).

Definition cleanupAll (ids : list string) (h : Handler) : Handler :=
  foldl (fun acc characterId => cleanupOne characterId acc) h ids.

Definition sumBytes (m : gmap string CharacterState) : Z :=
  map_fold (fun _ state acc => calculateStateSize state + acc) 0 m.

(** Every victim carries the size of its cached state. *)
Definition sizedBy (h : Handler) (victim : string * Z) : Prop :=
  exists st, characterCache h !! fst victim = Some st /\ snd victim = calculateStateSize st.

End CharCacheLawsProps.

Module Hash.

(** ToInt32: the signed 32-bit integer an integral number stands for. *)
Definition toInt32 (z : Z) : Z := (z + 2147483648) mod 4294967296 - 2147483648.

(** [a << n] and [a & b]: both operands go through ToInt32, and so does
    the shifted value. *)
Definition shl (a n : Z) : Z := toInt32 (Z.shiftl (toInt32 a) n).
Definition and_ (a b : Z) : Z := Z.land (toInt32 a) (toInt32 b).

(** One round of the loop of [generateChecksum] and [generateCacheKey]:
    [hash = ((hash << 5) - hash) + char; hash = hash & hash]. The code
    units are below 65536, so the sum stays far inside the range in which
    numbers are exact integers. *)
Definition hashStep (hash char : Z) : Z :=
  let hash' := (shl hash 5 - hash) + char in
  and_ hash' hash'.

(** The loop over [str.charCodeAt(i)], from [hash = 0]. *)
Definition hashCode (codes : list Z) : Z := fold_left hashStep codes 0.

(** The code units [str.charCodeAt(i)] of a string. *)
Fixpoint codeUnits (s : string) : list Z :=
  match s with
  | EmptyString => []
  | String c s' => Z.of_N (N_of_ascii c) :: codeUnits s'
  end.

(** [n.toString(16)] for an integer. *)
Definition toString16 (z : Z) : string :=
  if z <? 0
  then "-" +:+ HexadecimalString.NilZero.string_of_uint (N.to_hex_uint (Z.to_N (- z)))
  else HexadecimalString.NilZero.string_of_uint (N.to_hex_uint (Z.to_N z)).

End Hash.

(** ** The storage manager (ThreadshiftStorageManager) *)

Module Storage.
Import Js ZoneSwap Hash.

(** The own enumerable properties of a plain object, in property order. *)
Definition Obj : Type := list (string * Json).

Fixpoint ownProp (o : Obj) (k : string) : option Json :=
  match o with
  | [] => None
  | (k', v) :: o' => if String.eqb k' k then Some v else ownProp o' k
  end.

Definition hasOwn (o : Obj) (k : string) : bool :=
  match ownProp o k with
  | Some _ => true
  | None => false
  end.

(** The property names every plain object inherits from
    [Object.prototype]. *)
Definition objectPrototypeNames : list string :=
  ["constructor"; "__defineGetter__"; "__defineSetter__"; "hasOwnProperty";
   "__lookupGetter__"; "__lookupSetter__"; "isPrototypeOf";
   "propertyIsEnumerable"; "toString"; "valueOf"; "__proto__";
   "toLocaleString"].

(** What [obj[k]] finds on a plain object: an own property, a member of
    [Object.prototype] (a function, or the prototype itself for
    [__proto__]), or nothing. *)
Inductive Property : Type :=
| Own (v : Json)
| Inherited
| Absent.

Definition propertyOf (o : Obj) (k : string) : Property :=
  match ownProp o k with
  | Some v => Own v
  | None => if bool_decide (k ∈ objectPrototypeNames) then Inherited else Absent
  end.

(** Truthiness of [obj[k]]: the inherited members are functions and
    objects. *)
Definition truthyProperty (p : Property) : bool :=
  match p with
  | Own v => truthy (Val v)
  | Inherited => true
  | Absent => false
  end.

(** [j.name] for a non-null value [j] and a name that neither arrays,
    strings, numbers, booleans and functions nor [Object.prototype]
    define (such as [bodyMap], [_checksum], or the field names of a body
    map). *)
Definition getField (j : Json) (name : string) : JsVal :=
  match j with
  | JObj fields => match ownProp fields name with
                   | Some v => Val v
                   | None => Undefined
                   end
  | _ => Undefined
  end.

(** Array indices: canonical decimal strings below 2^32 - 1. They come
    first, in ascending order, in the property order of an object. *)
Definition digitValue (c : ascii) : option N :=
  let n := N_of_ascii c in
  if ((48 <=? n) && (n <=? 57))%N then Some (n - 48)%N else None.

Fixpoint digitsValue (s : string) (acc : N) : option N :=
  match s with
  | EmptyString => Some acc
  | String c s' => match digitValue c with
                   | Some d => digitsValue s' (10 * acc + d)%N
                   | None => None
                   end
  end.

Definition arrayIndex (k : string) : option N :=
  match k with
  | EmptyString => None
  | _ => match digitsValue k 0 with
         | Some n => if String.eqb (pretty n) k && (n <? 4294967295)%N
                     then Some n else None
         | None => None
         end
  end.

Fixpoint replaceOwn (k : string) (v : Json) (o : Obj) : Obj :=
  match o with
  | [] => []
  | (k', v') :: o' => if String.eqb k' k then (k, v) :: o'
                      else (k', v') :: replaceOwn k v o'
  end.

Fixpoint insertIndex (i : N) (k : string) (v : Json) (o : Obj) : Obj :=
  match o with
  | [] => [(k, v)]
  | (k', v') :: o' =>
      match arrayIndex k' with
      | Some j => if (j <? i)%N then (k', v') :: insertIndex i k v o'
                  else (k, v) :: o
      | None => (k, v) :: o
      end
  end.

(** Defining the property [k] (as an object literal and a spread do): an
    existing property keeps its place, a new one takes its place in the
    property order. *)
Definition objDefine (k : string) (v : Json) (o : Obj) : Obj :=
  if hasOwn o k then replaceOwn k v o
  else match arrayIndex k with
       | Some i => insertIndex i k v o
       | None => o ++ [(k, v)]
       end.

(** The assignment [obj[k] = v] of an object [v] to a plain object.
    Without an own property of that name, [__proto__] is the inherited
    setter: it replaces the prototype and creates no property. *)
Definition objAssign (k : string) (v : Json) (o : Obj) : Obj :=
  if hasOwn o k then replaceOwn k v o
  else if String.eqb k "__proto__" then o
  else objDefine k v o.

(** [delete obj[k]] *)
Definition objDelete (k : string) (o : Obj) : Obj :=
  List.filter (fun kv => negb (String.eqb (fst kv) k)) o.

(** The properties left by a rest pattern [{k1, ..., kn, ...rest}]. *)
Definition withoutKeys (ks : list string) (o : Obj) : Obj :=
  List.filter (fun kv => negb (bool_decide (fst kv ∈ ks))) o.

Fixpoint indexedFrom (i : N) (items : list Json) : Obj :=
  match items with
  | [] => []
  | x :: items' => (pretty i, x) :: indexedFrom (i + 1)%N items'
  end.

Fixpoint charsOf (s : string) : list Json :=
  match s with
  | EmptyString => []
  | String c s' => JStr (String c EmptyString) :: charsOf s'
  end.

(** The own enumerable properties a spread or a rest pattern copies from
    a value other than [null]: the elements of an array and the
    characters of a string under their indices, none for a number or a
    boolean. *)
Definition ownProps (data : Json) : Obj :=
  match data with
  | JObj fields => fields
  | JArr items => indexedFrom 0 items
  | JStr s => indexedFrom 0 (charsOf s)
  | _ => []
  end.

Definition checksumExcluded : list string :=
  ["_version"; "_lastSaved"; "_checksum"; "_cached"].

Definition metadataKeys : list string :=
  ["_version"; "_lastSaved"; "_checksum"].

(** [this.storageKeys] *)
Definition storageKeys : list (string * string) :=
  [("characters", "threadshift_characters");
   ("garments", "threadshift_garments");
   ("history", "threadshift_history");
   ("session", "threadshift_session");
   ("settings", "threadshift_settings");
   ("cache", "threadshift_cache")].

(** [this.storageVersions] *)
Definition storageVersions : list (string * string) :=
  [("characters", "1.0.0"); ("garments", "1.0.0"); ("history", "1.0.0");
   ("session", "1.0.0"); ("settings", "1.0.0"); ("cache", "1.0.0")].

Fixpoint assoc (table : list (string * string)) (k : string) : option string :=
  match table with
  | [] => None
  | (k', v) :: table' => if String.eqb k' k then Some v else assoc table' k
  end.

(** [this.storageKeys[key] || key], for a key that is a data name (not a
    member of [Object.prototype]). *)
Definition storageKeyOf (key : string) : string :=
  match assoc storageKeys key with
  | Some storageKey => storageKey
  | None => key
  end.

(** [getStorageType]: the reverse table is filled in the order of
    [storageKeys], so the last type with that storage key wins. *)
Definition getStorageType (storageKey : string) : string :=
  match last (List.filter (fun kv => String.eqb (snd kv) storageKey) storageKeys) with
  | Some kv => fst kv
  | None => "unknown"
  end.

(** The manager with the host objects it works on.

    [extensionSettings] is [window.extensionSettings], read only when
    [storageValid]; [config] is the configuration module, if any, as the
    values [config.get] yields; [saveSettingsDefined] says whether
    [window.saveSettings] is a function and [saveSettingsFaults], for each
    coming call of it in turn, whether it throws and with what message (an
    exhausted list means no further fault). Calls are awaited one after the
    other, so the write queue never holds more than the write in hand. *)
Record Manager : Type := mkManager {
  extensionSettings : gmap string Json;
  storageValid : bool;
  fallbackStorage : gmap string Json;
  config : option (gmap string JsVal);
  saveSettingsDefined : bool;
  saveSettingsFaults : list (option string);
  cacheHits : Z;
  cacheMisses : Z;
  writeOperations : Z;
  readOperations : Z;
  errors : list ErrorInfo;
  warnings : list string;
  events : list string
}.

Definition set_extensionSettings (v : gmap string Json) (m : Manager) : Manager :=
  mkManager v (storageValid m) (fallbackStorage m) (config m) (saveSettingsDefined m) (saveSettingsFaults m) (cacheHits m) (cacheMisses m) (writeOperations m) (readOperations m) (errors m) (warnings m) (events m).
Definition set_fallbackStorage (v : gmap string Json) (m : Manager) : Manager :=
  mkManager (extensionSettings m) (storageValid m) v (config m) (saveSettingsDefined m) (saveSettingsFaults m) (cacheHits m) (cacheMisses m) (writeOperations m) (readOperations m) (errors m) (warnings m) (events m).
Definition set_saveSettingsFaults (v : list (option string)) (m : Manager) : Manager :=
  mkManager (extensionSettings m) (storageValid m) (fallbackStorage m) (config m) (saveSettingsDefined m) v (cacheHits m) (cacheMisses m) (writeOperations m) (readOperations m) (errors m) (warnings m) (events m).
Definition set_cacheHits (v : Z) (m : Manager) : Manager :=
  mkManager (extensionSettings m) (storageValid m) (fallbackStorage m) (config m) (saveSettingsDefined m) (saveSettingsFaults m) v (cacheMisses m) (writeOperations m) (readOperations m) (errors m) (warnings m) (events m).
Definition set_cacheMisses (v : Z) (m : Manager) : Manager :=
  mkManager (extensionSettings m) (storageValid m) (fallbackStorage m) (config m) (saveSettingsDefined m) (saveSettingsFaults m) (cacheHits m) v (writeOperations m) (readOperations m) (errors m) (warnings m) (events m).
Definition set_writeOperations (v : Z) (m : Manager) : Manager :=
  mkManager (extensionSettings m) (storageValid m) (fallbackStorage m) (config m) (saveSettingsDefined m) (saveSettingsFaults m) (cacheHits m) (cacheMisses m) v (readOperations m) (errors m) (warnings m) (events m).
Definition set_readOperations (v : Z) (m : Manager) : Manager :=
  mkManager (extensionSettings m) (storageValid m) (fallbackStorage m) (config m) (saveSettingsDefined m) (saveSettingsFaults m) (cacheHits m) (cacheMisses m) (writeOperations m) v (errors m) (warnings m) (events m).
Definition set_errors (v : list ErrorInfo) (m : Manager) : Manager :=
  mkManager (extensionSettings m) (storageValid m) (fallbackStorage m) (config m) (saveSettingsDefined m) (saveSettingsFaults m) (cacheHits m) (cacheMisses m) (writeOperations m) (readOperations m) v (warnings m) (events m).
Definition set_warnings (v : list string) (m : Manager) : Manager :=
  mkManager (extensionSettings m) (storageValid m) (fallbackStorage m) (config m) (saveSettingsDefined m) (saveSettingsFaults m) (cacheHits m) (cacheMisses m) (writeOperations m) (readOperations m) (errors m) v (events m).
Definition set_events (v : list string) (m : Manager) : Manager :=
  mkManager (extensionSettings m) (storageValid m) (fallbackStorage m) (config m) (saveSettingsDefined m) (saveSettingsFaults m) (cacheHits m) (cacheMisses m) (writeOperations m) (readOperations m) (errors m) (warnings m) v.

(** *** ThreadshiftModule *)

(** [fireEvent]: the log keeps the names of the events; handlers are
    called in a [try] and cannot make the caller fail. *)
Definition fireEvent (event : string) (m : Manager) : Manager :=
  set_events (events m ++ [event]) m.

Definition logWarning (msg : string) (m : Manager) : Manager :=
  set_warnings (warnings m ++ [msg]) m.

(** [handleError(context, error, false)] *)
Definition handleError (ctx msg : string) (m : Manager) : Manager :=
  fireEvent "error" (set_errors (errors m ++ [mkErrorInfo ctx msg false]) m).

(** [getConfig(path, defaultValue)]:
    [this.config ? this.config.get(path) || defaultValue : defaultValue] *)
Definition getConfig (path : string) (defaultValue : JsVal) (m : Manager) : JsVal :=
  match config m with
  | Some c => let v := default Undefined (c !! path) in
              if truthy v then v else defaultValue
  | None => defaultValue
  end.

(** [await window.saveSettings()] under the guard
    [typeof window.saveSettings === 'function']. *)
Definition callSaveSettings (m : Manager) : Completion unit * Manager :=
  if saveSettingsDefined m
  then match saveSettingsFaults m with
       | Some msg :: rest => (Throw msg, set_saveSettingsFaults rest m)
       | None :: rest => (Return tt, set_saveSettingsFaults rest m)
       | [] => (Return tt, m)
       end
  else (Return tt, m).

(** The [results] object of [importFromJson]. *)
Record ImportResults : Type := mkImportResults {
  importedCharacters : Z;
  importedGarments : Z;
  importedHistory : JsVal;
  importedSettings : Z;
  importErrors : list string
}.

Section Serialised.

(** [JSON.stringify], as the code units of the string it returns. *)
Variable stringify : Json -> list Z.

(** [generateChecksum(data)]; destructuring [null] throws. *)
Definition generateChecksum (data : Json) : Completion string :=
  match data with
  | JNull => Throw "Cannot destructure 'data' as it is null."
  | _ => let cleanData := withoutKeys checksumExcluded (ownProps data) in
         Return (toString16 (hashCode (stringify (JObj cleanData))))
  end.

(** [performWrite(storageKey, data)]; [now] is [new Date().toISOString()]. *)
Definition performWrite (storageKey : string) (data : Json) (now : string)
    (m : Manager) : Completion bool * Manager :=
  let storageType := getStorageType storageKey in
  let version := default "1.0.0" (assoc storageVersions storageType) in
  match generateChecksum data with
  | Throw msg => (Throw msg, m)
  | Return checksum =>
      let storageData :=
        JObj (objDefine "_checksum" (JStr checksum)
               (objDefine "_lastSaved" (JStr now)
                 (objDefine "_version" (JStr version) (ownProps data)))) in
      if storageValid m
      then let m1 := set_extensionSettings
                       (<[storageKey := storageData]> (extensionSettings m)) m in
           match callSaveSettings m1 with
           | (Return _, m2) =>
               (Return true, set_writeOperations (writeOperations m2 + 1) m2)
           | (Throw msg, m2) =>
               let m3 := handleError "write" msg m2 in
               (Return false,
                set_fallbackStorage (<[storageKey := storageData]> (fallbackStorage m3)) m3)
           end
      else (Return true,
            set_fallbackStorage (<[storageKey := storageData]> (fallbackStorage m)) m)
  end.

(** [queueWrite] with [processWriteQueue]: the queued write is performed
    and its promise resolved with [true], whatever [performWrite]
    returned; it is rejected when [performWrite] throws. *)
Definition queueWrite (storageKey : string) (data : Json) (now : string)
    (m : Manager) : Completion bool * Manager :=
  match performWrite storageKey data now m with
  | (Return _, m') => (Return true, m')
  | (Throw msg, m') => (Throw msg, m')
  end.

(** [saveToStorage(key, data)] *)
Definition saveToStorage (key : string) (data : Json) (now : string)
    (m : Manager) : Completion bool * Manager :=
  let storageKey := storageKeyOf key in
  if truthy (getConfig "performance.autoSave" (Val (JBool true)) m)
  then queueWrite storageKey data now m
  else performWrite storageKey data now m.

(** [loadFromStorage(key, defaultValue)] up to its [return]s: [None]
    where it returns [defaultValue], [Some cleanData] where it returns
    the stored properties without the metadata. *)
Definition readStored (key : string) (m : Manager) : option Obj * Manager :=
  let storageKey := storageKeyOf key in
  let m1 := set_readOperations (readOperations m + 1) m in
  let main := extensionSettings m1 !! storageKey in
  let found :=
    if storageValid m1 && truthy (from_option Val Undefined main)
    then main
    else fallbackStorage m1 !! storageKey in
  match found with
  | None => (None, set_cacheMisses (cacheMisses m1 + 1) m1)
  | Some data =>
      let m2 := set_cacheHits (cacheHits m1 + 1) m1 in
      if negb (truthy (Val data)) then (None, m2)
      else
        let stored := getField data "_checksum" in
        let mismatch :=
          if truthy stored
          then match generateChecksum data, stored with
               | Return expected, Val (JStr s) => negb (String.eqb s expected)
               | _, _ => true
               end
          else false in
        if mismatch
        then (None,
              logWarning ("Checksum mismatch for " +:+ storageKey +:+
                          ", data may be corrupted") m2)
        else (Some (withoutKeys metadataKeys (ownProps data)), m2)
  end.

Definition loadFromStorage (key : string) (defaultValue : Json) (m : Manager)
    : Json * Manager :=
  match readStored key m with
  | (Some cleanData, m') => (JObj cleanData, m')
  | (None, m') => (defaultValue, m')
  end.

(** [typeof map === 'object'] for a truthy [map]. *)
Definition isObject (j : Json) : bool :=
  match j with
  | JObj _ | JArr _ => true
  | _ => false
  end.

(** The table [loadFromStorage('characters', {})] returns. *)
Definition loadCharacters (m : Manager) : Obj * Manager :=
  match readStored "characters" m with
  | (Some cleanData, m') => (cleanData, m')
  | (None, m') => ([], m')
  end.

Definition characterEntry (id : string) (map : Json) (now : string) : Json :=
  JObj [("id", JStr id); ("bodyMap", map); ("_lastModified", JStr now)].

(** [saveBodyMap(id, map)] *)
Definition saveBodyMap (id : string) (map : Json) (now : string) (m : Manager)
    : Completion bool * Manager :=
  if String.eqb id "" then (Throw "Character ID must be a non-empty string", m)
  else if negb (isObject map) then (Throw "Body map must be an object", m)
  else
    let (loaded, m1) := loadCharacters m in
    let characters := objAssign id (characterEntry id map now) loaded in
    match saveToStorage "characters" (JObj characters) now m1 with
    | (Return success, m2) =>
        (Return success, if success then fireEvent "body-map-saved" m2 else m2)
    | (Throw msg, m2) => (Throw msg, m2)
    end.

(** [loadBodyMap(id)]: [character ? character.bodyMap : null] *)
Definition loadBodyMap (id : string) (m : Manager) : Completion JsVal * Manager :=
  if String.eqb id "" then (Throw "Character ID must be a non-empty string", m)
  else
    let (characters, m1) := loadCharacters m in
    (Return match propertyOf characters id with
            | Own character => if truthy (Val character)
                               then getField character "bodyMap"
                               else Val JNull
            | Inherited => Undefined
            | Absent => Val JNull
            end, m1).

(** [deleteBodyMap(id)] *)
Definition deleteBodyMap (id : string) (now : string) (m : Manager)
    : Completion bool * Manager :=
  if String.eqb id "" then (Throw "Character ID must be a non-empty string", m)
  else
    let (characters, m1) := loadCharacters m in
    if truthyProperty (propertyOf characters id)
    then match saveToStorage "characters" (JObj (objDelete id characters)) now m1 with
         | (Return success, m2) =>
             (Return success, if success then fireEvent "body-map-deleted" m2 else m2)
         | (Throw msg, m2) => (Throw msg, m2)
         end
    else (Return false, m1).

(** [hasBodyMap(id)]: [!!(characters[id] && characters[id].bodyMap)] *)
Definition hasBodyMap (id : string) (m : Manager) : bool * Manager :=
  if String.eqb id "" then (false, m)
  else
    let (characters, m1) := loadCharacters m in
    (match propertyOf characters id with
     | Own character => truthy (Val character) && truthy (getField character "bodyMap")
     | _ => false
     end, m1).

(** [getAllCharacterIds()] *)
Definition getAllCharacterIds (m : Manager) : list string * Manager :=
  let (characters, m1) := loadCharacters m in
  (List.map fst characters, m1).

(** [exportAllToJson()]; [now] is the time of the export. *)
Definition exportAllToJson (now : string) (m : Manager) : Json * Manager :=
  let (characters, m1) := loadFromStorage "characters" (JObj []) m in
  let (garments, m2) := loadFromStorage "garments" (JObj []) m1 in
  let (history, m3) := loadFromStorage "history" (JArr []) m2 in
  let (settings, m4) := loadFromStorage "settings" (JObj []) m3 in
  (JObj [("characters", characters); ("garments", garments); ("history", history);
         ("settings", settings); ("_exportedAt", JStr now); ("_version", JStr "1.0.0")],
   m4).

(** One step of [importFromJson]:
    [if (jsonData[key]) { await this.saveToStorage(key, jsonData[key]); ... }],
    returning the value it saved. *)
Definition importTable (key : string) (jsonData : Json) (now : string)
    (m : Manager) : Completion (option Json) * Manager :=
  match getField jsonData key with
  | Val v =>
      if truthy (Val v)
      then match saveToStorage key v now m with
           | (Return _, m') => (Return (Some v), m')
           | (Throw msg, m') => (Throw msg, m')
           end
      else (Return None, m)
  | Undefined => (Return None, m)
  end.

(** [Object.keys(v).length], zero when the table was skipped. *)
Definition keyCount (saved : option Json) : Z :=
  match saved with
  | Some v => Z.of_nat (length (ownProps v))
  | None => 0
  end.

(** [v.length] of a truthy value. *)
Definition lengthOf (v : Json) : JsVal :=
  match v with
  | JArr items => Val (JNum (Z.of_nat (length items)))
  | JStr s => Val (JNum (Z.of_nat (String.length s)))
  | JObj fields => getField (JObj fields) "length"
  | _ => Undefined
  end.

(** [importFromJson(jsonData)]; [now] gives, for each table, the time of
    its write. An error thrown inside the [try] is kept in
    [results.errors] and handed to [handleError]; the counts set before it
    stay. *)
Definition importFromJson (jsonData : Json) (now : string -> string) (m : Manager)
    : Completion ImportResults * Manager :=
  if negb (isObject jsonData) then (Throw "Invalid JSON data for import", m)
  else
    let failed (results : ImportResults) (msg : string) (m' : Manager) :=
      (Return (mkImportResults (importedCharacters results) (importedGarments results)
                 (importedHistory results) (importedSettings results) [msg]),
       handleError "import" msg m') in
    let results0 := mkImportResults 0 0 (Val (JNum 0)) 0 [] in
    match importTable "characters" jsonData (now "characters") m with
    | (Throw msg, m1) => failed results0 msg m1
    | (Return c, m1) =>
        let results1 :=
          mkImportResults (keyCount c)
            0 (Val (JNum 0)) 0 [] in
        match importTable "garments" jsonData (now "garments") m1 with
        | (Throw msg, m2) => failed results1 msg m2
        | (Return g, m2) =>
            let results2 :=
              mkImportResults (importedCharacters results1) (keyCount g)
                (Val (JNum 0)) 0 [] in
            match importTable "history" jsonData (now "history") m2 with
            | (Throw msg, m3) => failed results2 msg m3
            | (Return h, m3) =>
                let results3 :=
                  mkImportResults (importedCharacters results1) (keyCount g)
                    (match h with Some v => lengthOf v | None => Val (JNum 0) end)
                    0 [] in
                match importTable "settings" jsonData (now "settings") m3 with
                | (Throw msg, m4) => failed results3 msg m4
                | (Return s, m4) =>
                    (Return (mkImportResults (importedCharacters results1) (keyCount g)
                               (importedHistory results3) (keyCount s) []),
                     fireEvent "data-imported" m4)
                end
            end
        end
    end.

End Serialised.

End Storage.

Module StorageProps.
Import Js ZoneSwap Hash Storage.

(** The polynomial [c0 * 31^(n-1) + c1 * 31^(n-2) + ... + c(n-1)]. *)
Fixpoint polynomial (codes : list Z) : Z :=
  match codes with
  | [] => 0
  | c :: rest => c * 31 ^ Z.of_nat (length rest) + polynomial rest
  end.

(** What a read of [storageKey] finds: the main storage when it is valid
    and holds a truthy value, the fallback map otherwise. *)
Definition found (m : Manager) (storageKey : string) : option Json :=
  if storageValid m && truthy (from_option Val Undefined (extensionSettings m !! storageKey))
  then extensionSettings m !! storageKey
  else fallbackStorage m !! storageKey.

(** The object [performWrite] stores for [data]. *)
Definition storageDataOf (stringify : Json -> list Z) (storageKey : string)
    (data : Json) (now : string) : Json :=
  JObj (objDefine "_checksum"
          (JStr (toString16 (hashCode (stringify
                   (JObj (withoutKeys checksumExcluded (ownProps data)))))))
          (objDefine "_lastSaved" (JStr now)
             (objDefine "_version"
                (JStr (default "1.0.0" (assoc storageVersions (getStorageType storageKey))))
                (ownProps data)))).

(** What [loadFromStorage] makes of the value it found: [None] where it
    returns the default. *)
Definition accepted (stringify : Json -> list Z) (value : option Json) : option Obj :=
  match value with
  | None => None
  | Some data =>
      if negb (truthy (Val data)) then None
      else if (if truthy (getField data "_checksum")
               then match generateChecksum stringify data, getField data "_checksum" with
                    | Return expected, Val (JStr s) => negb (String.eqb s expected)
                    | _, _ => true
                    end
               else false)
           then None
           else Some (withoutKeys metadataKeys (ownProps data))
  end.

(** A read depends on the stored values only, not on the counters and
    logs. *)
Definition sameStore (m m' : Manager) : Prop :=
  extensionSettings m' = extensionSettings m
  /\ storageValid m' = storageValid m
  /\ fallbackStorage m' = fallbackStorage m.

(** A stand-in for [JSON.stringify] in the examples: the code units of
    the property names of an object. *)
Definition keyCodes (j : Json) : list Z :=
  match j with
  | JObj fields =>
      flat_map (fun kv => codeUnits (fst kv)) fields
  | _ => []
  end.

(** The manager as the constructor leaves it, with the outcome of
    [validateStorageEnvironment] and the faults of the host. *)
Definition newManager (valid : bool) (faults : list (option string)) : Manager :=
  {| extensionSettings := ∅;
     storageValid := valid;
     fallbackStorage := ∅;
     config := None;
     saveSettingsDefined := true;
     saveSettingsFaults := faults;
     cacheHits := 0;
     cacheMisses := 0;
     writeOperations := 0;
     readOperations := 0;
     errors := [];
     warnings := [];
     events := [] |}.

Definition sampleMap : Json :=
  JObj [("chest", JObj [("size", JStr "flat")]); ("waist", JObj [("size", JStr "narrow")])].

(** A manager that holds the body maps of alice and bob. *)
Definition twoCharacters : Manager :=
  snd (saveBodyMap keyCodes "bob" (JObj [("chest", JObj [("size", JStr "large")])])
         "2024-01-01T00:00:01.000Z"
         (snd (saveBodyMap keyCodes "alice" sampleMap "2024-01-01T00:00:00.000Z"
                 (newManager true [])))).

(** The stored value under [storageKey] is an object whose [_checksum] is
    a non-empty string other than the checksum of its content. *)
Definition corrupted (stringify : Json -> list Z) (m : Manager) (storageKey : string)
    : Prop :=
  exists fields s expected,
    found m storageKey = Some (JObj fields)
    /\ ownProp fields "_checksum" = Some (JStr s)
    /\ s <> ""
    /\ generateChecksum stringify (JObj fields) = Return expected
    /\ s <> expected.

(** A manager whose characters table was altered after it was written. *)
Definition tamperedManager : Manager :=
  {| extensionSettings :=
       {[ "threadshift_characters" :=
            JObj [("alice", characterEntry "alice" sampleMap "2024-01-01T00:00:00.000Z");
                  ("bob", characterEntry "bob" sampleMap "2024-01-01T00:00:01.000Z");
                  ("_version", JStr "1.0.0");
                  ("_lastSaved", JStr "2024-01-01T00:00:01.000Z");
                  ("_checksum", JStr "1234")] ]};
     storageValid := true;
     fallbackStorage := ∅;
     config := None;
     saveSettingsDefined := true;
     saveSettingsFaults := [];
     cacheHits := 0;
     cacheMisses := 0;
     writeOperations := 0;
     readOperations := 0;
     errors := [];
     warnings := [];
     events := [] |}.

End StorageProps.

Module Validator.
Import Js ZoneSwap Hash Storage.

(** [this.validationRules], as the constructor sets them. *)
Definition requiredZones : list string :=
  ["hair"; "face"; "neck"; "chest"; "waist"; "butt"; "genitals"; "hands"; "legs"; "feet"].
Definition invalidZones : list string := ["torso"; "height"; "voice"; "head"].
Definition muscleZones : list string := ["chest"; "waist"; "legs"; "butt"].
Definition validMarkTypes : list string :=
  ["tattoo"; "scar"; "freckles"; "mole"; "birthmark"].
Definition validVisibilityLevels : list string := ["high"; "medium"; "low"].
Definition validGenitalTypes : list string := ["vagina"; "penis"; "anal"].

(** [typeof] *)
Inductive TypeOf : Type := TUndefined | TObject | TBoolean | TNumber | TString.

Definition typeOf (v : JsVal) : TypeOf :=
  match v with
  | Undefined => TUndefined
  | Val JNull => TObject
  | Val (JBool _) => TBoolean
  | Val (JNum _) => TNumber
  | Val (JStr _) => TString
  | Val (JArr _) => TObject
  | Val (JObj _) => TObject
  end.

Definition isTypeOf (t : TypeOf) (v : JsVal) : bool :=
  match t, typeOf v with
  | TUndefined, TUndefined | TObject, TObject | TBoolean, TBoolean
  | TNumber, TNumber | TString, TString => true
  | _, _ => false
  end.

Definition isArray (v : JsVal) : bool :=
  match v with
  | Val (JArr _) => true
  | _ => false
  end.

(** [v.name] for a value [v] that is not [null]. *)
Definition prop (v : JsVal) (name : string) : JsVal :=
  match v with
  | Val j => getField j name
  | Undefined => Undefined
  end.

(** [name in j] for an object [j] and a name no prototype defines. *)
Definition hasField (j : Json) (name : string) : bool :=
  match j with
  | JObj fields => hasOwn fields name
  | _ => false
  end.

(** [list.includes(v)] for a list of strings. *)
Definition includes (list : list string) (v : JsVal) : bool :=
  match v with
  | Val (JStr s) => bool_decide (s ∈ list)
  | _ => false
  end.

(** The text a template literal puts in for a value. *)
Fixpoint display (j : Json) : string :=
  match j with
  | JNull => "null"
  | JBool true => "true"
  | JBool false => "false"
  | JNum n => pretty n
  | JStr s => s
  | JArr items =>
      (fix join (items : list Json) : string :=
         match items with
         | [] => ""
         | [x] => match x with JNull => "" | _ => display x end
         | x :: rest => (match x with JNull => "" | _ => display x end)
                          +:+ "," +:+ join rest
         end) items
  | JObj _ => "[object Object]"
  end.

Definition displayVal (v : JsVal) : string :=
  match v with
  | Undefined => "undefined"
  | Val j => display j
  end.

(** [validateBasicStructure]; the body map is an object or an array. *)
Definition validateBasicStructure (bodyMap : Json) : list string :=
  if isArray (Val bodyMap) then ["Body map must be a plain object"]
  else if (length (ownProps bodyMap) =? 0)%nat then ["Body map cannot be empty"]
  else if truthy (getField bodyMap "_version")
          && negb (isTypeOf TString (getField bodyMap "_version"))
       then ["Body map version must be a string"]
       else [].

(** [validateRequiredZones] *)
Definition validateRequiredZones (bodyMap : Json) : list string :=
  flat_map (fun zone => if negb (truthy (getField bodyMap zone))
                        then ["Missing required zone: " +:+ zone] else [])
           requiredZones.

(** [validateInvalidZones] *)
Definition validateInvalidZones (bodyMap : Json) : list string :=
  flat_map (fun zone => if truthy (getField bodyMap zone)
                        then ["Invalid zone present: " +:+ zone +:+ " (should not be included)"]
                        else [])
           invalidZones.

(** One round of the loop of [validateMarksArray]. *)
Definition validateMark (zoneName : string) (i : nat) (mark : Json) : list string :=
  let markPrefix := "Zone '" +:+ zoneName +:+ "' mark[" +:+ pretty i +:+ "]" in
  if negb (truthy (Val mark)) || negb (isTypeOf TObject (Val mark))
  then [markPrefix +:+ " must be an object"]
  else
    (if negb (truthy (getField mark "type"))
     then [markPrefix +:+ " missing required field: type"]
     else if negb (includes validMarkTypes (getField mark "type"))
          then [markPrefix +:+ " invalid type: " +:+ displayVal (getField mark "type")]
          else [])
    ++ (if negb (truthy (getField mark "description"))
           || negb (isTypeOf TString (getField mark "description"))
        then [markPrefix +:+ " field 'description' must be a non-empty string"]
        else [])
    ++ (if negb (truthy (getField mark "location_detail"))
           || negb (isTypeOf TString (getField mark "location_detail"))
        then [markPrefix +:+ " field 'location_detail' must be a non-empty string"]
        else [])
    ++ (if negb (truthy (getField mark "visibility"))
        then [markPrefix +:+ " missing required field: visibility"]
        else if negb (includes validVisibilityLevels (getField mark "visibility"))
             then [markPrefix +:+ " invalid visibility: "
                     +:+ displayVal (getField mark "visibility")]
             else []).

Fixpoint validateMarksFrom (zoneName : string) (i : nat) (marks : list Json)
    : list string :=
  match marks with
  | [] => []
  | mark :: rest => validateMark zoneName i mark ++ validateMarksFrom zoneName (S i) rest
  end.

(** [validateMarksArray]; [marks] is truthy. *)
Definition validateMarksArray (zoneName : string) (marks : Json) : list string :=
  match marks with
  | JArr items => validateMarksFrom zoneName 0 items
  | _ => ["Zone '" +:+ zoneName +:+ "' field 'marks' must be an array"]
  end.

(** [validatePluginData]; [pluginData] is truthy. *)
Definition validatePluginData (zoneName : string) (pluginData : Json) : list string :=
  if negb (isTypeOf TObject (Val pluginData)) || isArray (Val pluginData)
  then ["Zone '" +:+ zoneName +:+ "' field '_plugin' must be an object"]
  else flat_map
         (fun kv =>
            let valueType := typeOf (Val (snd kv)) in
            match valueType with
            | TString | TNumber | TBoolean => []
            | _ => ["Zone '" +:+ zoneName +:+ "' plugin field '" +:+ fst kv
                      +:+ "' must be string, number, or boolean"]
            end)
         (ownProps pluginData).

(** [validateZoneStructure] *)
Definition validateZoneStructure (zoneName : string) (zoneData : Json) : list string :=
  if negb (truthy (Val zoneData)) || negb (isTypeOf TObject (Val zoneData))
  then ["Zone '" +:+ zoneName +:+ "' must be an object"]
  else
    flat_map (fun field => if negb (hasField zoneData field)
                           then ["Zone '" +:+ zoneName +:+ "' missing required field: "
                                   +:+ field]
                           else [])
             ["descriptor"; "care"; "marks"; "_plugin"]
    ++ (if truthy (getField zoneData "descriptor")
           && negb (isTypeOf TString (getField zoneData "descriptor"))
        then ["Zone '" +:+ zoneName +:+ "' field 'descriptor' must be a string"]
        else [])
    ++ (if truthy (getField zoneData "care")
           && negb (isTypeOf TString (getField zoneData "care"))
        then ["Zone '" +:+ zoneName +:+ "' field 'care' must be a string"]
        else [])
    ++ (match getField zoneData "marks" with
        | Val marks => if truthy (Val marks) then validateMarksArray zoneName marks else []
        | Undefined => []
        end)
    ++ (match getField zoneData "_plugin" with
        | Val pluginData => if truthy (Val pluginData)
                            then validatePluginData zoneName pluginData else []
        | Undefined => []
        end)
    ++ (if bool_decide (zoneName ∈ muscleZones)
        then if negb (truthy (getField zoneData "tone"))
             then ["Zone '" +:+ zoneName +:+ "' missing required field: tone"]
             else if negb (isTypeOf TString (getField zoneData "tone"))
                  then ["Zone '" +:+ zoneName +:+ "' field 'tone' must be a string"]
                  else []
        else []).

(** [isValidZone] *)
Definition isValidZone (zoneName : string) : bool :=
  bool_decide (zoneName ∈ requiredZones) || bool_decide (zoneName ∈ validGenitalTypes).

(** [validateZones] *)
Definition validateZones (bodyMap : Json) : list string :=
  flat_map (fun kv =>
              if String.prefix "_" (fst kv) then []
              else if negb (isValidZone (fst kv))
                   then ["Invalid zone name: " +:+ fst kv]
                   else validateZoneStructure (fst kv) (snd kv))
           (ownProps bodyMap).

(** The check of [internal.depth_inches] shared by [validateVaginaFields]
    and [validateAnalFields], and the like for the sizes of
    [validatePenisFields]: [data] is truthy. *)
Definition nonNegativeNumber (v : JsVal) : bool :=
  match v with
  | Val (JNum n) => negb (n <? 0)
  | _ => false
  end.

Definition validateInternal (data : JsVal) (prefix : string) : list string :=
  if truthy (prop data "internal")
  then if negb (isTypeOf TObject (prop data "internal"))
       then [prefix +:+ ".internal must be an object"]
       else match prop (prop data "internal") "depth_inches" with
            | Undefined => []
            | depth => if negb (nonNegativeNumber depth)
                       then [prefix +:+ ".internal.depth_inches must be a number >= 0"]
                       else []
            end
  else [].

(** An optional field of a given type:
    [data.field !== undefined && typeof data.field !== type]. *)
Definition optionalField (data : JsVal) (field : string) (t : TypeOf) (msg : string)
    : list string :=
  match prop data field with
  | Undefined => []
  | v => if negb (isTypeOf t v) then [msg] else []
  end.

(** [validateVaginaFields] *)
Definition validateVaginaFields (vaginaData : JsVal) (prefix : string) : list string :=
  validateInternal vaginaData prefix
  ++ (if negb (truthy (prop vaginaData "tightness_level"))
         || negb (isTypeOf TString (prop vaginaData "tightness_level"))
      then [prefix +:+ ".tightness_level must be a non-empty string"]
      else [])
  ++ optionalField vaginaData "ridge_presence" TBoolean
       (prefix +:+ ".ridge_presence must be a boolean")
  ++ optionalField vaginaData "g_spot_ridge" TString
       (prefix +:+ ".g_spot_ridge must be a string")
  ++ optionalField vaginaData "hymen_intact" TBoolean
       (prefix +:+ ".hymen_intact must be a boolean").

(** [validatePenisFields] *)
Definition validatePenisFields (penisData : JsVal) (prefix : string) : list string :=
  (if truthy (prop penisData "size")
   then if negb (isTypeOf TObject (prop penisData "size"))
        then [prefix +:+ ".size must be an object"]
        else flat_map
               (fun field =>
                  match prop (prop penisData "size") field with
                  | Undefined => []
                  | v => if negb (nonNegativeNumber v)
                         then [prefix +:+ ".size." +:+ field +:+ " must be a number >= 0"]
                         else []
                  end)
               ["length_erect_inches"; "length_flaccid_inches"; "girth_inches"]
   else [])
  ++ optionalField penisData "circumcised" TBoolean
       (prefix +:+ ".circumcised must be a boolean").

(** [validateAnalFields] *)
Definition validateAnalFields (analData : JsVal) (prefix : string) : list string :=
  validateInternal analData prefix
  ++ optionalField analData "tightness_level" TString
       (prefix +:+ ".tightness_level must be a string").

(** [validateGenitalType]; [genitalData] is truthy. *)
Definition validateGenitalType (type : string) (genitalData : Json) : list string :=
  let prefix := "genitals." +:+ type in
  validateZoneStructure type genitalData
  ++ (if String.eqb type "vagina" then validateVaginaFields (Val genitalData) prefix
      else if String.eqb type "penis" then validatePenisFields (Val genitalData) prefix
      else if String.eqb type "anal" then validateAnalFields (Val genitalData) prefix
      else []).

(** [validateGenitalZone]; [genitals] is truthy. *)
Definition validateGenitalZone (genitals : Json) : list string :=
  if negb (truthy (Val genitals)) || negb (isTypeOf TObject (Val genitals))
  then ["Genitals zone must be an object"]
  else
    let hasValidGenitalType :=
      existsb (fun type => truthy (getField genitals type)
                           && isTypeOf TObject (getField genitals type))
              validGenitalTypes in
    (if negb hasValidGenitalType
     then ["Genitals zone must contain at least one of: vagina, penis, anal"]
     else [])
    ++ flat_map (fun type =>
                   match getField genitals type with
                   | Val genitalData => if truthy (Val genitalData)
                                        then validateGenitalType type genitalData
                                        else []
                   | Undefined => []
                   end)
                validGenitalTypes.

(** The errors [validateBodyMap] collects for an object or array. *)
Definition collectErrors (bodyMap : Json) : list string :=
  validateBasicStructure bodyMap
  ++ validateRequiredZones bodyMap
  ++ validateInvalidZones bodyMap
  ++ validateZones bodyMap
  ++ (match getField bodyMap "genitals" with
      | Val genitals => if truthy (Val genitals) then validateGenitalZone genitals else []
      | Undefined => []
      end).

(** The result object of [createValidationResult]. *)
Record ValidationResult : Type := mkValidationResult {
  success : bool;
  resultErrors : list string;
  resultTimestamp : string;
  schemaVersion : string
}.

Definition createValidationResult (ok : bool) (errs : list string) (now : string)
    : ValidationResult :=
  mkValidationResult ok errs now "1.0.0".

(** The validator.

    [validationCache] is the [Map] of cached results in insertion order,
    absent until [setupValidationCache] has run; [configured] says whether
    [this.config] is set. *)
Record State : Type := mkState {
  validationCache : option (list (string * ValidationResult));
  cacheMaxSize : Z;
  configured : bool;
  totalValidations : Z;
  successfulValidations : Z;
  failedValidations : Z;
  errorsByType : list (string * Z);
  operationCount : Z;
  lastOperation : option string;
  errors : list ErrorInfo;
  events : list string
}.

Definition set_validationCache (c : option (list (string * ValidationResult)))
    (v : State) : State :=
  mkState c (cacheMaxSize v) (configured v) (totalValidations v) (successfulValidations v) (failedValidations v) (errorsByType v) (operationCount v) (lastOperation v) (errors v) (events v).

(** [Map.prototype.get], [set] and the deletion of the first key. *)
Fixpoint cacheGet (cache : list (string * ValidationResult)) (k : string)
    : option ValidationResult :=
  match cache with
  | [] => None
  | (k', r) :: cache' => if String.eqb k' k then Some r else cacheGet cache' k
  end.

Fixpoint cacheSet (k : string) (r : ValidationResult)
    (cache : list (string * ValidationResult)) : list (string * ValidationResult) :=
  match cache with
  | [] => [(k, r)]
  | (k', r') :: cache' => if String.eqb k' k then (k, r) :: cache'
                          else (k', r') :: cacheSet k r cache'
  end.

(** [error.includes(needle)] *)
Definition mentions (error needle : string) : bool :=
  match String.index 0 needle error with
  | Some _ => true
  | None => false
  end.

(** [categorizeError] *)
Definition categorizeError (error : string) : string :=
  if mentions error "Missing required zone" then "missing_zone"
  else if mentions error "Invalid zone" then "invalid_zone"
  else if mentions error "missing required field" then "missing_field"
  else if mentions error "must be a" then "type_error"
  else if mentions error "genitals." then "genital_validation"
  else "other".

(** [errorsByType[errorType] = (errorsByType[errorType] || 0) + 1] *)
Fixpoint countError (errorType : string) (counts : list (string * Z))
    : list (string * Z) :=
  match counts with
  | [] => [(errorType, 1)]
  | (k, n) :: counts' => if String.eqb k errorType then (k, n + 1) :: counts'
                         else (k, n) :: countError errorType counts'
  end.

Section Serialised.

(** [JSON.stringify], as the code units of the string it returns. *)
Variable stringify : Json -> list Z.

(** [generateCacheKey]: the hash in decimal. *)
Definition generateCacheKey (bodyMap : Json) : string :=
  pretty (hashCode (stringify bodyMap)).

(** [cacheValidationResult]; the cache exists. *)
Definition cacheValidationResult (bodyMap : Json) (result : ValidationResult)
    (v : State) : State :=
  match validationCache v with
  | None => v
  | Some cache =>
      let cache1 := if Z.of_nat (length cache) >=? cacheMaxSize v
                    then tail cache else cache in
      set_validationCache (Some (cacheSet (generateCacheKey bodyMap) result cache1)) v
  end.

(** [updateValidationStats] with [recordPerformance], which reads
    [this.config.get(...)] and so throws when there is no configuration. *)
Definition updateValidationStats (result : ValidationResult) (v : State)
    : Completion unit * State :=
  let counts := if success result then errorsByType v
                else fold_left (fun counts error => countError (categorizeError error) counts)
                               (resultErrors result) (errorsByType v) in
  let v1 := mkState (validationCache v) (cacheMaxSize v) (configured v)
              (totalValidations v + 1)
              (if success result then successfulValidations v + 1
               else successfulValidations v)
              (if success result then failedValidations v
               else failedValidations v + 1)
              counts (operationCount v + 1) (Some "validateBodyMap")
              (errors v) (events v) in
  if configured v then (Return tt, v1)
  else (Throw "Cannot read properties of null (reading 'get')", v1).

(** [handleError('validateBodyMap', error)] *)
Definition handleError (ctx msg : string) (v : State) : State :=
  mkState (validationCache v) (cacheMaxSize v) (configured v) (totalValidations v)
    (successfulValidations v) (failedValidations v) (errorsByType v)
    (operationCount v) (lastOperation v)
    (errors v ++ [mkErrorInfo ctx msg false]) (events v ++ ["error"]).

(** [validateBodyMap(bodyMap, { skipCache })]; [now] is the time at which
    the result is created and [later] the time of the failure result the
    [catch] creates. *)
Definition validateBodyMap (bodyMap : Json) (skipCache : bool) (now later : string)
    (v : State) : ValidationResult * State :=
  if negb (truthy (Val bodyMap)) || negb (isTypeOf TObject (Val bodyMap))
  then (createValidationResult false ["Body map must be a valid object"] now, v)
  else
    let useCache := match validationCache v with
                    | Some _ => negb skipCache
                    | None => false
                    end in
    let cached := if useCache
                  then match validationCache v with
                       | Some cache => cacheGet cache (generateCacheKey bodyMap)
                       | None => None
                       end
                  else None in
    match cached with
    | Some result => (result, v)
    | None =>
        let errs := collectErrors bodyMap in
        let result := createValidationResult (length errs =? 0)%nat errs now in
        let v1 := if useCache then cacheValidationResult bodyMap result v else v in
        match updateValidationStats result v1 with
        | (Return _, v2) => (result, v2)
        | (Throw msg, v2) =>
            (createValidationResult false ["Validation failed: " +:+ msg] later,
             handleError "validateBodyMap" msg v2)
        end
    end.

End Serialised.

End Validator.
Module ValidatorProps.
Import Js ZoneSwap Hash Storage Validator.

(** A truthy value is a string. *)
Definition stringIfPresent (v : JsVal) : Prop :=
  truthy v = true -> exists s, v = Val (JStr s).

(** The value is a non-empty string. *)
Definition nonEmptyString (v : JsVal) : Prop :=
  exists s, v = Val (JStr s) /\ s <> "".

(** The value is one of the listed strings. *)
Definition oneOf (list : list string) (v : JsVal) : Prop :=
  exists s, v = Val (JStr s) /\ s ∈ list.

(** A mark with a known type and visibility and non-empty texts. *)
Definition validMark (mark : Json) : Prop :=
  oneOf validMarkTypes (getField mark "type")
  /\ nonEmptyString (getField mark "description")
  /\ nonEmptyString (getField mark "location_detail")
  /\ oneOf validVisibilityLevels (getField mark "visibility").

(** A string, a number or a boolean. *)
Definition primitive (j : Json) : Prop :=
  match j with
  | JStr _ | JNum _ | JBool _ => True
  | _ => False
  end.

(** A zone as the validator wants it: the four fields are there,
    [descriptor] and [care] are strings when given, [marks] is an array
    of valid marks, [_plugin] an object of primitive values, and a muscle
    zone has a [tone]. *)
Definition zoneShaped (zoneName : string) (zoneData : Json) : Prop :=
  (forall field, field ∈ ["descriptor"; "care"; "marks"; "_plugin"] ->
                 hasField zoneData field = true)
  /\ stringIfPresent (getField zoneData "descriptor")
  /\ stringIfPresent (getField zoneData "care")
  /\ (truthy (getField zoneData "marks") = true ->
      exists items, getField zoneData "marks" = Val (JArr items) /\ Forall validMark items)
  /\ (truthy (getField zoneData "_plugin") = true ->
      exists fields, getField zoneData "_plugin" = Val (JObj fields)
                     /\ Forall (fun kv => primitive (snd kv)) fields)
  /\ (zoneName ∈ muscleZones -> nonEmptyString (getField zoneData "tone")).

(** A body map with every required zone in shape, no invalid zone, no
    zone of another name, and a genitals zone that holds at least one
    genital type, each given type in shape. *)
Definition wellFormedBodyMap (bodyMap : Json) : Prop :=
  exists fields,
    bodyMap = JObj fields
    /\ (forall zone, zone ∈ requiredZones ->
          exists zoneData, ownProp fields zone = Some zoneData
                           /\ truthy (Val zoneData) = true
                           /\ zoneShaped zone zoneData)
    /\ (forall zone, zone ∈ invalidZones -> truthy (getField bodyMap zone) = false)
    /\ (forall zone zoneData, (zone, zoneData) ∈ fields ->
          String.prefix "_" zone = true
          \/ (zone ∈ requiredZones ++ validGenitalTypes /\ zoneShaped zone zoneData))
    /\ (exists genitals, ownProp fields "genitals" = Some genitals
          /\ (exists type genitalData,
                type ∈ validGenitalTypes
                /\ getField genitals type = Val genitalData
                /\ truthy (Val genitalData) = true
                /\ isTypeOf TObject (Val genitalData) = true)
          /\ (forall type genitalData,
                type ∈ validGenitalTypes ->
                getField genitals type = Val genitalData ->
                truthy (Val genitalData) = true ->
                zoneShaped type genitalData)).

(** The cached result [validateBodyMap] would return without validating. *)
Definition servedFromCache (stringify : Json -> list Z) (bodyMap : Json)
    (skipCache : bool) (v : State) : option ValidationResult :=
  match validationCache v with
  | Some cache => if skipCache then None
                  else cacheGet cache (generateCacheKey stringify bodyMap)
  | None => None
  end.

(** A body map that passes. *)
Definition plainZone : Json :=
  JObj [("descriptor", JStr "soft"); ("care", JStr "none"); ("marks", JArr []);
        ("_plugin", JObj [])].

Definition muscleZone : Json :=
  JObj [("descriptor", JStr "firm"); ("care", JStr "none");
        ("marks", JArr [JObj [("type", JStr "scar"); ("description", JStr "thin line");
                              ("location_detail", JStr "left side");
                              ("visibility", JStr "low")]]);
        ("_plugin", JObj [("rating", JNum 3)]); ("tone", JStr "toned")].

Definition completeMap : Json :=
  JObj [("hair", plainZone); ("face", plainZone); ("neck", plainZone);
        ("chest", muscleZone); ("waist", muscleZone); ("butt", muscleZone);
        ("genitals",
         JObj [("descriptor", JStr "plain"); ("care", JStr "none"); ("marks", JArr []);
               ("_plugin", JObj []);
               ("anal", JObj [("descriptor", JStr "plain"); ("care", JStr "none");
                              ("marks", JArr []); ("_plugin", JObj [])])]);
        ("hands", plainZone); ("legs", muscleZone); ("feet", plainZone)].

(** A validator after [initialize]: configured, with an empty cache. *)
Definition readyValidator : State :=
  {| validationCache := Some [];
     cacheMaxSize := 100;
     configured := true;
     totalValidations := 0;
     successfulValidations := 0;
     failedValidations := 0;
     errorsByType := [];
     operationCount := 0;
     lastOperation := None;
     errors := [];
     events := [] |}.

(** The same keys as [completeMap], with nothing in the zones. *)
Definition hollowMap : Json :=
  JObj [("hair", JNull); ("face", JNull); ("neck", JNull); ("chest", JNull);
        ("waist", JNull); ("butt", JNull); ("genitals", JNull); ("hands", JNull);
        ("legs", JNull); ("feet", JNull)].

End ValidatorProps.

(** * Proofs *)

(** ** Facts about [slice] *)

Module JsFacts.
Import Js.

Lemma slice_prefix {A : Type} (l : list A) (e : Z) :
  0 <= e <= Z.of_nat (length l) ->
  slice l 0 (Some e) = take (Z.to_nat e) l.
Proof.
  intros He. unfold slice, clampIndex.
  destruct (0 <? 0) eqn:E0; [apply Z.ltb_lt in E0; lia|].
  destruct (e <? 0) eqn:E1; [apply Z.ltb_lt in E1; lia|].
  rewrite Z.min_l by lia. rewrite Z.min_l by lia.
  replace (e - 0) with e by lia. reflexivity.
Qed.

Lemma slice_suffix {A : Type} (l : list A) (s : Z) :
  0 <= s ->
  slice l s None = drop (Z.to_nat s) l.
Proof.
  intros Hs. unfold slice, clampIndex.
  destruct (s <? 0) eqn:E1; [apply Z.ltb_lt in E1; lia|].
  destruct (Z.le_gt_cases s (Z.of_nat (length l))) as [Hle|Hgt].
  - rewrite Z.min_l by lia. apply take_ge. rewrite length_drop. lia.
  - rewrite Z.min_r by lia. rewrite Nat2Z.id.
    rewrite drop_all. rewrite take_nil. symmetry. apply drop_ge. lia.
Qed.

Lemma slice_suffix_length {A : Type} (l : list A) (s : Z) :
  0 <= s ->
  Z.of_nat (length (slice l s None)) = Z.max 0 (Z.of_nat (length l) - s).
Proof.
  intros Hs. rewrite slice_suffix by done. rewrite length_drop. lia.
Qed.

End JsFacts.

(** ** History tracker: branch truncation and the index bound *)

Module HistoryFacts.
Import Js JsFacts History.

Ltac unfold_setters :=
  unfold set_isDirty, set_stats, set_currentIndex, set_history, set_maxHistorySize,
         bump_totalEntries, bump_undo, bump_redo, bump_cleanup, historyLength in *;
  simpl in *.

Lemma ltb_cases (a b : Z) : (a <? b) = true /\ a < b \/ (a <? b) = false /\ b <= a.
Proof. destruct (a <? b) eqn:E; [left|right]; split; auto; lia. Qed.

Lemma enforceHistoryLimit_capacity (t : Tracker) :
  maxHistorySize (enforceHistoryLimit t) = maxHistorySize t.
Proof.
  unfold enforceHistoryLimit.
  destruct (maxHistorySize t <? historyLength t); reflexivity.
Qed.

(** Trimming keeps an index that is at most the tail inside the log. *)
Lemma enforceHistoryLimit_range (t : Tracker) :
  1 <= maxHistorySize t ->
  -1 <= currentIndex t <= historyLength t - 1 ->
  indexInRange (enforceHistoryLimit t).
Proof.
  intros Hcap Hidx. unfold indexInRange, enforceHistoryLimit.
  destruct (ltb_cases (maxHistorySize t) (historyLength t)) as [[-> Hlt]|[-> Hge]].
  - unfold_setters. rewrite slice_suffix_length by lia. lia.
  - exact Hidx.
Qed.

(** Trimming a log whose index is at the tail leaves it at the tail. *)
Lemma enforceHistoryLimit_tail (t : Tracker) :
  1 <= maxHistorySize t ->
  currentIndex t = historyLength t - 1 ->
  currentIndex (enforceHistoryLimit t) = historyLength (enforceHistoryLimit t) - 1.
Proof.
  intros Hcap Hidx. unfold enforceHistoryLimit.
  destruct (ltb_cases (maxHistorySize t) (historyLength t)) as [[-> Hlt]|[-> Hge]].
  - unfold_setters. rewrite slice_suffix_length by lia. lia.
  - exact Hidx.
Qed.

Lemma enforceHistoryLimit_history (t : Tracker) :
  0 <= maxHistorySize t ->
  history (enforceHistoryLimit t)
  = drop (length (history t) - Z.to_nat (maxHistorySize t)) (history t).
Proof.
  intros Hcap. unfold enforceHistoryLimit.
  destruct (ltb_cases (maxHistorySize t) (historyLength t)) as [[-> Hlt]|[-> Hge]].
  - unfold_setters. rewrite slice_suffix by lia. f_equal. lia.
  - unfold historyLength in Hge.
    replace (length (history t) - Z.to_nat (maxHistorySize t))%nat with 0%nat by lia.
    reflexivity.
Qed.

Lemma addEntryToHistory_history (entry : HistoryEntry) (t : Tracker) :
  -1 <= currentIndex t <= historyLength t - 1 ->
  0 <= maxHistorySize t ->
  history (addEntryToHistory entry t)
  = drop (length (branchWith entry t) - Z.to_nat (maxHistorySize t))
         (branchWith entry t).
Proof.
  intros Hidx Hcap. unfold addEntryToHistory, branchWith.
  destruct (ltb_cases (currentIndex t) (historyLength t - 1)) as [[-> Hlt]|[-> Hge]].
  - unfold_setters. rewrite enforceHistoryLimit_history by (simpl; lia). simpl.
    rewrite slice_prefix by lia. reflexivity.
  - unfold_setters. rewrite enforceHistoryLimit_history by (simpl; lia). simpl.
    rewrite take_ge by lia. reflexivity.
Qed.

Lemma addEntryToHistory_tail (entry : HistoryEntry) (t : Tracker) :
  1 <= maxHistorySize t ->
  currentIndex (addEntryToHistory entry t)
  = historyLength (addEntryToHistory entry t) - 1.
Proof.
  intros Hcap. unfold addEntryToHistory.
  match goal with
  | |- currentIndex (set_isDirty true (enforceHistoryLimit ?u)) = _ =>
      pose proof (enforceHistoryLimit_tail u) as H
  end.
  unfold_setters. apply H.
  - destruct (currentIndex t <? Z.of_nat (length (history t)) - 1); simpl; exact Hcap.
  - reflexivity.
Qed.

Lemma addEntryToHistory_capacity (entry : HistoryEntry) (t : Tracker) :
  maxHistorySize (addEntryToHistory entry t) = maxHistorySize t.
Proof.
  unfold addEntryToHistory. unfold set_isDirty. simpl.
  rewrite enforceHistoryLimit_capacity. unfold_setters.
  destruct (currentIndex t <? Z.of_nat (length (history t)) - 1); reflexivity.
Qed.


(** *** Every operation keeps the tracker well formed *)

Lemma wellFormed_configure (c : Z) (t : Tracker) :
  wellFormed t -> wellFormed (loadConfigurationSettings c t).
Proof.
  intros [Hidx Hcap]. unfold wellFormed, indexInRange, loadConfigurationSettings.
  unfold_setters. split; [exact Hidx|].
  destruct (ltb_cases c 1) as [[-> ?]|[-> ?]].
  - vm_compute. discriminate.
  - destruct (ltb_cases 1000 c) as [[-> ?]|[-> ?]]; lia.
Qed.

Lemma wellFormed_load (stored : list HistoryEntry) (t : Tracker) :
  wellFormed t -> wellFormed (validateLoadedHistory (loadHistoryFromStorage stored t)).
Proof.
  intros Hwf.
  assert (Hl : wellFormed (loadHistoryFromStorage stored t)).
  { destruct stored as [|x stored]; [exact Hwf|].
    destruct Hwf as [Hidx Hcap]. unfold wellFormed, indexInRange. simpl.
    unfold_setters. split; [lia | exact Hcap]. }
  revert Hl. generalize (loadHistoryFromStorage stored t). intros u [Hidx Hcap].
  unfold validateLoadedHistory.
  destruct (filter (fun e => validateHistoryEntry e = false) (history u));
    [split; assumption|].
  unfold wellFormed, indexInRange. unfold_setters. split; [lia | exact Hcap].
Qed.

Lemma wellFormed_addEntry (entry : HistoryEntry) (t : Tracker) :
  wellFormed t -> wellFormed (addEntryToHistory entry t).
Proof.
  intros [Hidx Hcap]. split.
  - unfold indexInRange. rewrite addEntryToHistory_tail by exact Hcap.
    unfold historyLength. lia.
  - rewrite addEntryToHistory_capacity. exact Hcap.
Qed.

Lemma wellFormed_record now suffix type d descr rev (t : Tracker) :
  wellFormed t -> wellFormed (snd (recordTransformation now suffix type d descr rev t)).
Proof.
  intros Hwf. unfold recordTransformation.
  destruct (negb (isRecording t)); [exact Hwf|].
  destruct (negb (validateHistoryEntry _)); [exact Hwf|].
  simpl. apply wellFormed_addEntry, Hwf.
Qed.

Lemma wellFormed_undo (t : Tracker) : wellFormed t -> wellFormed (snd (undo t)).
Proof.
  intros [Hidx Hcap]. unfold undo, canUndo.
  destruct (ltb_cases 0 (historyLength t)) as [[-> Hlen]|[-> Hlen]];
    destruct (0 <=? currentIndex t) eqn:E; simpl; try (split; assumption).
  apply Z.leb_le in E.
  destruct (executeUndo _) as [result|msg]; [|split; assumption].
  destruct (success result); [|split; assumption].
  unfold wellFormed, indexInRange in *. unfold_setters. split; lia.
Qed.

Lemma wellFormed_redo (t : Tracker) : wellFormed t -> wellFormed (snd (redo t)).
Proof.
  intros [Hidx Hcap]. unfold redo, canRedo.
  destruct (ltb_cases (currentIndex t) (historyLength t - 1)) as [[-> Hlt]|[-> Hge]];
    simpl; [|split; assumption].
  destruct (executeRedo _) as [result|msg].
  - destruct (success result); unfold wellFormed, indexInRange in *;
      unfold_setters; split; lia.
  - unfold wellFormed, indexInRange in *. unfold_setters. split; lia.
Qed.

Lemma wellFormed_clear (confirm : bool) (t : Tracker) :
  wellFormed t -> wellFormed (snd (clearHistory confirm t)).
Proof.
  intros [Hidx Hcap]. unfold clearHistory.
  destruct confirm; simpl; [|split; assumption].
  unfold wellFormed, indexInRange. unfold_setters. split; [lia | exact Hcap].
Qed.

Lemma wellFormed_trim (t : Tracker) : wellFormed t -> wellFormed (enforceHistoryLimit t).
Proof.
  intros [Hidx Hcap]. split.
  - apply enforceHistoryLimit_range; assumption.
  - rewrite enforceHistoryLimit_capacity. exact Hcap.
Qed.

Lemma wellFormed_import d merge (t : Tracker) :
  wellFormed t -> wellFormed (snd (importHistory d merge t)).
Proof.
  intros [Hidx Hcap]. unfold importHistory.
  destruct (negb (validateImportData d)); [split; assumption|].
  destruct (firstUnreadable _); [split; assumption|].
  simpl. apply wellFormed_trim.
  unfold wellFormed, indexInRange.
  destruct merge; unfold_setters; (split; [lia | exact Hcap]).
Qed.

Lemma wellFormed_cleanupOrphaned (t : Tracker) :
  wellFormed t -> wellFormed (cleanupOrphanedReferences t).
Proof.
  intros [Hidx Hcap]. unfold cleanupOrphanedReferences.
  unfold wellFormed, indexInRange in *. unfold_setters.
  match goal with |- context [negb (?a =? ?b)] => destruct (Z.eqb_spec a b) as [Heq|Hne] end;
    simpl; split; try exact Hcap; lia.
Qed.

Lemma wellFormed_cleanup (t : Tracker) : wellFormed t -> wellFormed (performCleanup t).
Proof.
  intros Hwf. unfold performCleanup.
  apply wellFormed_trim, wellFormed_cleanupOrphaned in Hwf.
  destruct Hwf as [Hidx Hcap]. unfold wellFormed, indexInRange in *.
  unfold_setters. split; assumption.
Qed.

Lemma wellFormed_configChanged key value (t : Tracker) :
  1 <= value -> wellFormed t -> wellFormed (configChanged key value t).
Proof.
  intros Hvalue [Hidx Hcap]. unfold configChanged.
  destruct (String.eqb key _); [|split; assumption].
  apply wellFormed_trim. split; [exact Hidx | exact Hvalue].
Qed.

(** Calls that complete one after another keep the index in range, as
    long as no configuration event brings a capacity below 1. *)
Lemma wellFormed_run (o : Op) (t : Tracker) :
  (forall key value, o = OpConfigChanged key value -> 1 <= value) ->
  wellFormed t -> wellFormed (run o t).
Proof.
  intros Hconfig.
  destruct o; simpl;
    auto using wellFormed_configure, wellFormed_load, wellFormed_record,
               wellFormed_addEntry, wellFormed_undo, wellFormed_redo,
               wellFormed_clear, wellFormed_import, wellFormed_trim,
               wellFormed_cleanup.
  apply wellFormed_configChanged. eapply Hconfig. reflexivity.
Qed.

Lemma wellFormed_new : wellFormed newTracker.
Proof. unfold wellFormed, indexInRange, historyLength. simpl. lia. Qed.

Lemma wellFormed_runAll (ops : list Op) (t : Tracker) :
  (forall key value, OpConfigChanged key value ∈ ops -> 1 <= value) ->
  wellFormed t -> wellFormed (runAll ops t).
Proof.
  unfold runAll. revert t. induction ops as [|o ops IH]; intros t Hconfig Hwf.
  - exact Hwf.
  - simpl. apply IH.
    + intros key value Hin. apply (Hconfig key value). right. exact Hin.
    + apply wellFormed_run; [|exact Hwf].
      intros key value ->. apply (Hconfig key value). left.
Qed.

(** An awaited [undo] is its two parts run back to back. *)
Lemma undo_in_two_parts (t : Tracker) :
  undo t = match undoUntilAwait t with
           | Some pending => undoAfterAwait pending t
           | None => (mkOpResult false (Some "No operations to undo") None, t)
           end.
Proof.
  unfold undo, undoUntilAwait, undoAfterAwait.
  destruct (negb (canUndo t)); reflexivity.
Qed.


(** C7. Recording while the index is not at the tail (after an undo)
    first discards every entry after the current index and then appends
    the new entry: the log becomes the kept prefix followed by the entry
    (less what the capacity trims from its head, nothing when the branch
    fits), the new entry is the last one and the index points at it. *)
Theorem record_after_undo_truncates_redo_branch
    (entry : HistoryEntry) (t : Tracker) :
  -1 <= currentIndex t < historyLength t - 1 ->
  1 <= maxHistorySize t ->
  let t' := addEntryToHistory entry t in
  history t'
  = drop (length (branchWith entry t) - Z.to_nat (maxHistorySize t))
         (branchWith entry t)
  /\ last (history t') = Some entry
  /\ currentIndex t' = historyLength t' - 1
  /\ (currentIndex t + 2 <= maxHistorySize t ->
      history t' = take (Z.to_nat (currentIndex t + 1)) (history t) ++ [entry]).
Proof.
  intros Hidx Hcap t'.
  assert (Hh : history t'
               = drop (length (branchWith entry t) - Z.to_nat (maxHistorySize t))
                      (branchWith entry t)).
  { apply addEntryToHistory_history; lia. }
  assert (Hlen : length (branchWith entry t) = S (Z.to_nat (currentIndex t + 1))).
  { unfold branchWith. rewrite length_app, length_take. simpl.
    unfold historyLength in Hidx. lia. }
  split; [exact Hh|]. split; [|split].
  - rewrite Hh, Hlen. unfold branchWith.
    assert (Hk : length (take (Z.to_nat (currentIndex t + 1)) (history t))
                 = Z.to_nat (currentIndex t + 1)).
    { rewrite length_take. unfold historyLength in Hidx. lia. }
    rewrite drop_app_le by (rewrite Hk; lia).
    apply last_snoc.
  - apply addEntryToHistory_tail, Hcap.
  - intros Hfits. rewrite Hh.
    replace (length (branchWith entry t) - Z.to_nat (maxHistorySize t))%nat
      with 0%nat by lia.
    reflexivity.
Qed.

(** The log [A, B, C] with the index at [B]: recording [D] gives
    [A, B, D] with the index at [D]. *)
Lemma record_after_undo_truncates_redo_branch_witness :
  history Samples.trackerABC_atB = [Samples.entryA; Samples.entryB; Samples.entryC]
  /\ currentIndex Samples.trackerABC_atB = 1
  /\ history (addEntryToHistory Samples.entryD Samples.trackerABC_atB)
     = [Samples.entryA; Samples.entryB; Samples.entryD]
  /\ currentIndex (addEntryToHistory Samples.entryD Samples.trackerABC_atB) = 2.
Proof.
  split; [reflexivity|]. split; [reflexivity|].
  assert (Hidx : -1 <= currentIndex Samples.trackerABC_atB
                 < historyLength Samples.trackerABC_atB - 1).
  { vm_compute. split; [discriminate | reflexivity]. }
  assert (Hcap : 1 <= maxHistorySize Samples.trackerABC_atB).
  { vm_compute. discriminate. }
  pose proof (record_after_undo_truncates_redo_branch
                Samples.entryD Samples.trackerABC_atB Hidx Hcap) as H.
  cbv zeta in H. destruct H as (_ & _ & Htail & Hfits).
  split.
  - apply Hfits. vm_compute. discriminate.
  - etransitivity; [exact Htail | reflexivity].
Defined.

(** C8. The current index does not always stay within
    [-1, length - 1]. On a tracker that has recorded one entry (index 0,
    one entry in the log):
    - a ['config-changed'] event that sets [performance.maxHistoryEntries]
      to 0 leaves an empty log with the index at 0: the listener stores
      the value without the clamp of [loadConfigurationSettings], and
      [enforceHistoryLimit] floors the index at 0, not at -1;
    - two calls of [undo], the second made before the first has been
      awaited, both pass the guard, and each decrements the index when it
      resumes: the log still has its entry and the index is -2. *)
Theorem currentIndex_can_leave_range :
  let recorded :=
    run (OpRecord 1000 "1000_k3j9x2m1q" "swap" (VObj [("zone", VStr "chest")])
                  "Garment swap completed" None) newTracker in
  let shrunk := run (OpConfigChanged "performance.maxHistoryEntries" 0) recorded in
  (length (history recorded) = 1%nat /\ currentIndex recorded = 0)
  /\ (history shrunk = [] /\ currentIndex shrunk = 0 /\ ~ indexInRange shrunk)
  /\ exists first second,
       undoUntilAwait recorded = Some first
       /\ undoUntilAwait recorded = Some second
       /\ let undone := snd (undoAfterAwait second (snd (undoAfterAwait first recorded))) in
          length (history undone) = 1%nat
          /\ currentIndex undone = -2
          /\ ~ indexInRange undone.
Proof.
  cbv zeta. split; [split; reflexivity|]. split.
  - split; [reflexivity|]. split; [reflexivity|].
    unfold indexInRange. vm_compute. intros [_ H]. apply H. reflexivity.
  - eexists _, _. split; [reflexivity|]. split; [reflexivity|].
    split; [reflexivity|]. split; [reflexivity|].
    unfold indexInRange. vm_compute. intros [H _]. apply H. reflexivity.
Qed.

End HistoryFacts.

(** ** Zone swap engine *)

Module ZoneSwapFacts.
Import Js ZoneSwap ZoneSwapProps.

(** *** Inversion of the monad's combinators *)

Lemma bind_inv {A B : Type} (c : M A) (f : A -> M B) (e : Engine)
    (r : Completion B) (e' : Engine) :
  (c ≫= f) e = (r, e') ->
  (exists a e1, c e = (Return a, e1) /\ f a e1 = (r, e'))
  \/ (exists msg, c e = (Throw msg, e') /\ r = Throw msg).
Proof.
  unfold mbind, M_bind, bind. destruct (c e) as [[a|msg] e1]; intros H.
  - left. eauto.
  - right. inversion H; subst. eauto.
Qed.

Lemma tryCatch_inv {A : Type} (body : M A) (handler : string -> M A) (e : Engine)
    (r : Completion A) (e' : Engine) :
  tryCatch body handler e = (r, e') ->
  (exists a, body e = (Return a, e') /\ r = Return a)
  \/ (exists msg e1, body e = (Throw msg, e1) /\ handler msg e1 = (r, e')).
Proof.
  unfold tryCatch. destruct (body e) as [[a|msg] e1]; intros H.
  - left. inversion H; subst. eauto.
  - right. eauto.
Qed.

Ltac inv_bind H x e1 H1 :=
  apply bind_inv in H as [(x & e1 & H1 & H)|(? & H1 & ?)].

(** *** Frames *)

Global Instance sameField_preorder {T : Type} (proj : Engine -> T) :
  PreOrder (sameField proj).
Proof. split; unfold sameField; [intros e; reflexivity | intros a b c; congruence]. Qed.

Section Preserves.
Context (R : relation Engine) `{!PreOrder R}.

Lemma preserves_ret {A : Type} (a : A) : preserves R (mret a).
Proof. intros e. reflexivity. Qed.

Lemma preserves_throw {A : Type} (msg : string) : preserves R (@throw A msg).
Proof. intros e. reflexivity. Qed.

Lemma preserves_get : preserves R get.
Proof. intros e. reflexivity. Qed.

Lemma preserves_modify (f : Engine -> Engine) :
  (forall e, R e (f e)) -> preserves R (modify f).
Proof. intros H e. apply H. Qed.

Lemma preserves_bind {A B : Type} (c : M A) (f : A -> M B) :
  preserves R c -> (forall a, preserves R (f a)) -> preserves R (c ≫= f).
Proof.
  intros Hc Hf e. unfold mbind, M_bind, bind.
  specialize (Hc e). destruct (c e) as [[a|msg] e1]; simpl in *.
  - etransitivity; [exact Hc | apply Hf].
  - exact Hc.
Qed.

Lemma preserves_tryCatch {A : Type} (body : M A) (handler : string -> M A) :
  preserves R body -> (forall msg, preserves R (handler msg)) ->
  preserves R (tryCatch body handler).
Proof.
  intros Hb Hh e. unfold tryCatch.
  specialize (Hb e). destruct (body e) as [[a|msg] e1]; simpl in *.
  - exact Hb.
  - etransitivity; [exact Hb | apply Hh].
Qed.

Lemma preserves_snd {A : Type} (c : M A) (e : Engine) (r : Completion A) (e' : Engine) :
  preserves R c -> c e = (r, e') -> R e e'.
Proof. intros Hc Heq. specialize (Hc e). rewrite Heq in Hc. exact Hc. Qed.

Lemma preserves_exchangeZones s t i :
  (forall z, preserves R (applyZoneSwap s t z i)) ->
  forall zoneList acc, preserves R (exchangeZones s t i zoneList acc).
Proof.
  intros Hstep zoneList. induction zoneList as [|z rest IH]; intros acc; simpl.
  - apply preserves_ret.
  - apply preserves_bind; [apply Hstep | intros zr; apply IH].
Qed.

Lemma preservesOnThrow_bind {A B : Type} (c : M A) (f : A -> M B) :
  preserves R c -> (forall a, preservesOnThrow R (f a)) ->
  preservesOnThrow R (c ≫= f).
Proof.
  intros Hc Hf e msg e' Hrun.
  apply bind_inv in Hrun as [(a & e1 & Hc1 & Hf1)|(m & Hc1 & _)].
  - etransitivity; [apply (preserves_snd _ _ _ _ Hc Hc1) | apply (Hf a _ _ _ Hf1)].
  - apply (preserves_snd _ _ _ _ Hc Hc1).
Qed.

Lemma preservesOnThrow_neverThrows {A : Type} (c : M A) :
  neverThrows c -> preservesOnThrow R c.
Proof.
  intros Hc e msg e' Hrun. destruct (Hc e) as [a Ha].
  rewrite Hrun in Ha. discriminate.
Qed.
End Preserves.

Global Instance storeKeeps_preorder zoneList : PreOrder (storeKeeps zoneList).
Proof.
  split; unfold storeKeeps.
  - intros e c. destruct (bodyMaps e !! c) as [m|] eqn:E; [exists m; auto | reflexivity].
  - intros e1 e2 e3 H12 H23 c. specialize (H12 c). specialize (H23 c).
    destruct (bodyMaps e1 !! c) as [m1|].
    + destruct H12 as (m2 & Hm2 & Hk2). rewrite Hm2 in H23.
      destruct H23 as (m3 & Hm3 & Hk3). exists m3. split; [exact Hm3|].
      intros zone Hnotin. rewrite Hk3, Hk2 by assumption. reflexivity.
    + rewrite H12 in H23. exact H23.
Qed.

Global Instance quiet_preorder : PreOrder quiet.
Proof.
  split; unfold quiet.
  - intros e. repeat split.
  - intros a b c (?&?&?&?&?&?&?&?) (?&?&?&?&?&?&?&?). repeat split; congruence.
Qed.

Global Instance sameHeap_preorder : PreOrder sameHeap.
Proof.
  split; unfold sameHeap.
  - intros e. repeat split.
  - intros a b c (?&?&?) (?&?&?). repeat split; congruence.
Qed.

Global Instance heapExcept_preorder ref : PreOrder (heapExcept ref).
Proof.
  split; unfold heapExcept.
  - intros e. auto.
  - intros a b c [Hn1 Ho1] [Hn2 Ho2]. split; [congruence|].
    intros r Hr. rewrite Ho2, Ho1 by exact Hr. reflexivity.
Qed.

Lemma handleReciprocal_inv deps ref e r e' :
  handleReciprocal deps ref e = (r, e') -> e' = e.
Proof.
  unfold handleReciprocal.
  destruct (reciprocalSwapHandler deps) as [h|]; [|intros H; inversion H; reflexivity].
  destruct (swapObjects e !! ref) as [d|]; [|intros H; inversion H; reflexivity].
  destruct (h d); intros H; inversion H; reflexivity.
Qed.

Lemma preserves_handleReciprocal (R : relation Engine) `{!PreOrder R} deps ref :
  preserves R (handleReciprocal deps ref).
Proof.
  intros e. destruct (handleReciprocal deps ref e) as [r e'] eqn:H.
  apply handleReciprocal_inv in H. subst e'. reflexivity.
Qed.

Create HintDb frames.

Ltac rel_done :=
  first
    [ unfold sameField; simpl; done
    | unfold quiet, isReady; simpl; repeat split; done
    | unfold sameHeap; simpl; repeat split; done
    | unfold storeKeeps, keepsOtherZones; simpl;
      let c := fresh in intros c; destruct (_ !! c); eauto
    | unfold heapExcept; simpl; split; [done|];
      intros; rewrite ?lookup_alter_ne by congruence; done ].

(** Structural proof of a frame: walk the computation. *)
Ltac frame_step :=
  match goal with
  | |- preserves _ (mret _) => apply preserves_ret; apply _
  | |- preserves _ (throw _) => apply preserves_throw; apply _
  | |- preserves _ get => apply preserves_get; apply _
  | |- preserves _ (_ ≫= _) => apply preserves_bind; [apply _| |intros ?]
  | |- preserves _ (tryCatch _ _) => apply preserves_tryCatch; [apply _| |intros ?]
  | |- preserves _ (modify _) => apply preserves_modify; intros ?; try rel_done
  | |- preserves _ storageCall =>
      intros ?; unfold storageCall; destruct (head _) as [[|]|]; rel_done
  | |- preserves _ (handleReciprocal _ _) => apply preserves_handleReciprocal; apply _
  | |- preserves _ (exchangeZones _ _ _ _ _) =>
      first [ solve [eauto with frames]
            | apply preserves_exchangeZones; [apply _|intros ?] ]
  | |- preserves _ (fireEvent _) => unfold fireEvent
  | |- preserves _ (logWarning _) => unfold logWarning
  | |- preserves _ (bump_stats _) => unfold bump_stats
  | |- preserves _ (handleError _ _ false) => unfold handleError
  | |- preserves _ (loadCharacterBodyMap _) => unfold loadCharacterBodyMap
  | |- preserves _ (saveCharacterBodyMap _ _) => unfold saveCharacterBodyMap
  | |- preserves _ (applyZoneSwap _ _ _ _) => unfold applyZoneSwap
  | |- preserves _ (getZonesForGarment _ _) => unfold getZonesForGarment
  | |- preserves _ (getGarmentById _ _) => unfold getGarmentById
  | |- preserves _ (validateSwap _ _ _ _) => unfold validateSwap
  | |- preserves _ (generateSwapId _) => unfold generateSwapId
  | |- preserves _ (addToHistory _) => unfold addToHistory
  | |- preserves _ (updateSwapData _ _) => unfold updateSwapData
  | |- preserves _ (if ?b then _ else _) => destruct b eqn:?
  | |- preserves _ (match ?x with _ => _ end) => destruct x eqn:?
  | |- preserves _ _ => solve [eauto with frames]
  end.
Ltac frame := repeat frame_step.

(** *** The store under one zone exchange *)

Lemma loadCharacterBodyMap_sameStore c : preserves (sameField bodyMaps) (loadCharacterBodyMap c).
Proof. frame. Qed.

Lemma loadCharacterBodyMap_inv c e v e' :
  loadCharacterBodyMap c e = (Return v, e') ->
  v = bodyMaps e !! c /\ e' = set_storageFaults (tail (storageFaults e)) e.
Proof.
  unfold loadCharacterBodyMap, storageCall, mbind, M_bind, bind, mret, M_ret, ret,
         throw, get.
  destruct (head (storageFaults e)) as [[|]|]; destruct (String.eqb c "");
    simpl; intros H; inversion H; subst; auto.
Qed.

Lemma saveCharacterBodyMap_inv c m e r e' :
  saveCharacterBodyMap c m e = (r, e') ->
  (r = Return true /\ bodyMaps e' = <[c := m]> (bodyMaps e))
  \/ ((exists msg, r = Throw msg) /\ bodyMaps e' = bodyMaps e).
Proof.
  unfold saveCharacterBodyMap, storageCall, mbind, M_bind, bind, mret, M_ret, ret,
         throw, modify.
  destruct (head (storageFaults e)) as [[|]|]; destruct (String.eqb c "");
    simpl; intros H; inversion H; subst; eauto.
Qed.

Lemma applyZoneSwap_spec s t zone i e :
  exists zr,
    fst (applyZoneSwap s t zone i e) = Return zr /\ zr_zone zr = zone /\
    (zr_success zr = true ->
       exchanged s t zone (bodyMaps e) (bodyMaps (snd (applyZoneSwap s t zone i e)))) /\
    (zr_success zr = false ->
       bodyMaps (snd (applyZoneSwap s t zone i e)) = bodyMaps e
       \/ halfExchanged s t zone (bodyMaps e) (bodyMaps (snd (applyZoneSwap s t zone i e)))).
Proof.
  unfold applyZoneSwap, tryCatch.
  match goal with
  | |- context [match ?b e with _ => _ end] => destruct (b e) as [[zr|msg] e1] eqn:Hbody
  end.
  - (* the try block completed *)
    inv_bind Hbody sm e2 Hl1; [|discriminate].
    inv_bind Hbody tm e3 Hl2; [|discriminate].
    apply loadCharacterBodyMap_inv in Hl1 as [-> ->].
    apply loadCharacterBodyMap_inv in Hl2 as [-> ->]. simpl in Hbody.
    destruct (bodyMaps e !! s) as [ms|] eqn:Hms; [|discriminate].
    destruct (bodyMaps e !! t) as [mt|] eqn:Hmt; [|discriminate].
    inv_bind Hbody b1 e4 Hsv1; [|discriminate].
    inv_bind Hbody b2 e5 Hsv2; [|discriminate].
    apply saveCharacterBodyMap_inv in Hsv1 as [[_ Hst1]|[[? ?] _]]; [|discriminate].
    apply saveCharacterBodyMap_inv in Hsv2 as [[_ Hst2]|[[? ?] _]]; [|discriminate].
    simpl in Hbody, Hst1. inversion Hbody; subst zr e1. clear Hbody.
    eexists. split; [reflexivity|]. split; [reflexivity|]. simpl. split; [|discriminate].
    intros _. exists ms, mt. repeat split; auto.
    rewrite Hst2, Hst1. reflexivity.
  - (* the try block threw; the catch block answers *)
    eexists. split; [reflexivity|]. split; [reflexivity|]. simpl. split; [discriminate|].
    intros _.
    inv_bind Hbody sm e2 Hl1.
    2:{ left. apply (preserves_snd (sameField bodyMaps) _ _ _ _
                       (loadCharacterBodyMap_sameStore s) Hl1). }
    apply loadCharacterBodyMap_inv in Hl1 as [-> ->].
    inv_bind Hbody tm e3 Hl2.
    2:{ left. apply (preserves_snd (sameField bodyMaps) _ _ _ _
                       (loadCharacterBodyMap_sameStore t) Hl2). }
    apply loadCharacterBodyMap_inv in Hl2 as [-> ->]. simpl in Hbody.
    destruct (bodyMaps e !! s) as [ms|] eqn:Hms;
      [|left; inversion Hbody; subst; reflexivity].
    destruct (bodyMaps e !! t) as [mt|] eqn:Hmt;
      [|left; inversion Hbody; subst; reflexivity].
    inv_bind Hbody b1 e4 Hsv1.
    2:{ left. apply saveCharacterBodyMap_inv in Hsv1 as [[? _]|[_ Hst1]]; [discriminate|].
        exact Hst1. }
    apply saveCharacterBodyMap_inv in Hsv1 as [[_ Hst1]|[[? ?] _]]; [|discriminate].
    inv_bind Hbody b2 e5 Hsv2.
    2:{ right. exists ms, mt. repeat split; auto.
        apply saveCharacterBodyMap_inv in Hsv2 as [[? _]|[_ Hst2]]; [discriminate|].
        rewrite Hst2, Hst1. reflexivity. }
    simpl in Hbody. discriminate.
Qed.

(** *** The exchange on a pair of body maps *)

Lemma swapAll_lookup_notin (zoneList : list string) :
  forall (p : gmap string JsVal * gmap string JsVal) (zone : string),
    zone ∉ zoneList ->
    fst (swapAll p zoneList) !! zone = fst p !! zone
    /\ snd (swapAll p zoneList) !! zone = snd p !! zone.
Proof.
  induction zoneList as [|z0 rest IH]; intros p zone Hnotin; [split; reflexivity|].
  apply not_elem_of_cons in Hnotin as [Hne Hrest].
  unfold swapAll in *. simpl.
  destruct (IH (swapZone p z0) zone Hrest) as [H1 H2].
  rewrite H1, H2. unfold swapZone. simpl.
  rewrite !lookup_insert_ne by congruence. split; reflexivity.
Qed.

Lemma getZone_insert_ne (m : gmap string JsVal) (z z' : string) (v : JsVal) :
  z ≠ z' -> getZone (<[z := v]> m) z' = getZone m z'.
Proof. intros Hne. unfold getZone. rewrite lookup_insert_ne by exact Hne. reflexivity. Qed.

Lemma swapAll_lookup_in (zoneList : list string) :
  forall (p : gmap string JsVal * gmap string JsVal) (zone : string),
    NoDup zoneList -> zone ∈ zoneList ->
    fst (swapAll p zoneList) !! zone = Some (getZone (snd p) zone)
    /\ snd (swapAll p zoneList) !! zone = Some (getZone (fst p) zone).
Proof.
  induction zoneList as [|z0 rest IH]; intros p zone Hnodup Hin.
  - inversion Hin.
  - apply NoDup_cons in Hnodup as [Hfresh Hnodup].
    unfold swapAll in *. simpl.
    destruct (decide (zone = z0)) as [->|Hne].
    + destruct (swapAll_lookup_notin rest (swapZone p z0) z0 Hfresh) as [H1 H2].
      unfold swapAll in H1, H2. rewrite H1, H2. unfold swapZone. simpl.
      rewrite !lookup_insert_eq. split; reflexivity.
    + apply elem_of_cons in Hin as [?|Hin]; [contradiction|].
      destruct (IH (swapZone p z0) zone Hnodup Hin) as [H1 H2].
      rewrite H1, H2. unfold swapZone. simpl.
      rewrite !getZone_insert_ne by congruence. split; reflexivity.
Qed.

(** The final maps do not depend on the order of distinct zones. *)
Lemma swapAll_permutation (p : gmap string JsVal * gmap string JsVal)
    (zones1 zones2 : list string) :
  NoDup zones1 -> zones1 ≡ₚ zones2 -> swapAll p zones1 = swapAll p zones2.
Proof.
  intros Hnodup Hperm.
  assert (Hnodup2 : NoDup zones2) by (rewrite <- Hperm; exact Hnodup).
  assert (forall zone,
             fst (swapAll p zones1) !! zone = fst (swapAll p zones2) !! zone
             /\ snd (swapAll p zones1) !! zone = snd (swapAll p zones2) !! zone) as H.
  { intros zone. destruct (decide (zone ∈ zones1)) as [Hin|Hnotin].
    - assert (Hin2 : zone ∈ zones2) by (rewrite <- Hperm; exact Hin).
      destruct (swapAll_lookup_in zones1 p zone Hnodup Hin) as [-> ->].
      destruct (swapAll_lookup_in zones2 p zone Hnodup2 Hin2) as [-> ->].
      split; reflexivity.
    - assert (Hnotin2 : zone ∉ zones2) by (rewrite <- Hperm; exact Hnotin).
      destruct (swapAll_lookup_notin zones1 p zone Hnotin) as [-> ->].
      destruct (swapAll_lookup_notin zones2 p zone Hnotin2) as [-> ->].
      split; reflexivity. }
  destruct (swapAll p zones1) as [a1 b1], (swapAll p zones2) as [a2 b2]. simpl in H.
  f_equal; apply map_eq; intros zone; apply H.
Qed.

Lemma keepsOtherZones_refl zoneList st : keepsOtherZones zoneList st st.
Proof. intros c. destruct (st !! c) as [m|] eqn:E; [exists m; auto | reflexivity]. Qed.

Lemma keepsOtherZones_trans zones1 zones2 st1 st2 st3 :
  keepsOtherZones zones1 st1 st2 -> keepsOtherZones zones2 st2 st3 ->
  keepsOtherZones (zones1 ++ zones2) st1 st3.
Proof.
  intros H12 H23 c. specialize (H12 c). specialize (H23 c).
  destruct (st1 !! c) as [m1|].
  - destruct H12 as (m2 & Hm2 & Hk2). rewrite Hm2 in H23.
    destruct H23 as (m3 & Hm3 & Hk3). exists m3. split; [exact Hm3|].
    intros zone Hnotin. apply not_elem_of_app in Hnotin as [? ?].
    rewrite Hk3, Hk2 by assumption. reflexivity.
  - rewrite H12 in H23. exact H23.
Qed.

Lemma keepsOtherZones_insert zone st c m v :
  st !! c = Some m ->
  keepsOtherZones [zone] st (<[c := <[zone := v]> m]> st).
Proof.
  intros Hc c'. destruct (decide (c' = c)) as [->|Hne].
  - rewrite Hc, lookup_insert_eq. eexists. split; [reflexivity|].
    intros z Hz. apply not_elem_of_cons in Hz as [Hz _].
    rewrite lookup_insert_ne by congruence. reflexivity.
  - rewrite lookup_insert_ne by congruence.
    destruct (st !! c') as [m'|]; [exists m'; auto | reflexivity].
Qed.

Lemma halfExchanged_keeps s t zone st st' :
  halfExchanged s t zone st st' -> keepsOtherZones [zone] st st'.
Proof.
  intros (ms & mt & Hs & Ht & ->). apply keepsOtherZones_insert, Hs.
Qed.

Lemma exchanged_keeps s t zone st st' :
  exchanged s t zone st st' -> keepsOtherZones [zone] st st'.
Proof.
  intros (ms & mt & Hs & Ht & ->).
  intros c. destruct (decide (c = t)) as [->|Hnt].
  - rewrite Ht, lookup_insert_eq. eexists. split; [reflexivity|].
    intros z Hz. apply not_elem_of_cons in Hz as [Hz _].
    rewrite lookup_insert_ne by congruence. reflexivity.
  - rewrite lookup_insert_ne by congruence.
    apply (keepsOtherZones_insert zone st s ms _ Hs c).
Qed.

Lemma applyZoneSwap_keeps s t zone i e :
  keepsOtherZones [zone] (bodyMaps e) (bodyMaps (snd (applyZoneSwap s t zone i e))).
Proof.
  destruct (applyZoneSwap_spec s t zone i e) as (zr & _ & _ & Hok & Hfail).
  destruct (zr_success zr).
  - apply (exchanged_keeps s t), Hok. reflexivity.
  - destruct (Hfail eq_refl) as [->|Hhalf].
    + apply keepsOtherZones_refl.
    + apply (halfExchanged_keeps s t), Hhalf.
Qed.


(** *** The loop over the zones *)

Lemma exchangeZones_step s t i z rest acc e :
  exchangeZones s t i (z :: rest) acc e
  = match applyZoneSwap s t z i e with
    | (Return zr, e1) => exchangeZones s t i rest (acc ++ [zr]) e1
    | (Throw msg, e1) => (Throw msg, e1)
    end.
Proof. reflexivity. Qed.

Lemma exchanged_pair s t zone st st' ms mt :
  s ≠ t -> st !! s = Some ms -> st !! t = Some mt ->
  exchanged s t zone st st' ->
  st' = <[t := snd (swapZone (ms, mt) zone)]> (<[s := fst (swapZone (ms, mt) zone)]> st).
Proof.
  intros Hne Hs Ht (ms' & mt' & Hs' & Ht' & ->).
  rewrite Hs in Hs'. rewrite Ht in Ht'. inversion Hs'. inversion Ht'. subst.
  reflexivity.
Qed.

Lemma insert_twice_overwrite (st : gmap string (gmap string JsVal)) s t a b x y :
  s ≠ t ->
  <[t := y]> (<[s := x]> (<[t := b]> (<[s := a]> st))) = <[t := y]> (<[s := x]> st).
Proof.
  intros Hne. apply map_eq. intros k.
  destruct (decide (k = t)) as [->|Hkt]; [rewrite !lookup_insert_eq; reflexivity|].
  rewrite !(lookup_insert_ne _ t k) by congruence.
  destruct (decide (k = s)) as [->|Hks]; [rewrite !lookup_insert_eq; reflexivity|].
  rewrite !(lookup_insert_ne _ s k) by congruence.
  rewrite !(lookup_insert_ne _ t k) by congruence.
  rewrite !(lookup_insert_ne _ s k) by congruence. reflexivity.
Qed.

Lemma exchangeZones_spec s t i zoneList :
  forall acc e,
  exists rs,
    fst (exchangeZones s t i zoneList acc e) = Return (acc ++ rs)
    /\ List.map zr_zone rs = zoneList
    /\ keepsOtherZones zoneList (bodyMaps e)
                         (bodyMaps (snd (exchangeZones s t i zoneList acc e)))
    /\ (Forall (fun zr => zr_success zr = true) rs -> s ≠ t ->
        (zoneList ≠ [] -> is_Some (bodyMaps e !! s) /\ is_Some (bodyMaps e !! t))
        /\ forall ms mt,
            bodyMaps e !! s = Some ms -> bodyMaps e !! t = Some mt ->
            bodyMaps (snd (exchangeZones s t i zoneList acc e))
            = <[t := snd (swapAll (ms, mt) zoneList)]>
                (<[s := fst (swapAll (ms, mt) zoneList)]> (bodyMaps e))).
Proof.
  induction zoneList as [|z rest IH]; intros acc e.
  - exists []. simpl. rewrite app_nil_r. split; [reflexivity|]. split; [reflexivity|].
    split; [apply keepsOtherZones_refl|]. intros _ Hne. split; [congruence|].
    intros ms mt Hs Ht. unfold swapAll. simpl.
    rewrite (insert_id _ s ms Hs). rewrite (insert_id _ t mt Ht). reflexivity.
  - rewrite exchangeZones_step.
    destruct (applyZoneSwap_spec s t z i e) as (zr & Hret & Hzone & Hok & _).
    pose proof (applyZoneSwap_keeps s t z i e) as Hkeep.
    destruct (applyZoneSwap s t z i e) as [c e1]. simpl in Hret, Hok, Hkeep. subst c.
    destruct (IH (acc ++ [zr]) e1) as (rs & Hrs & Hzones & Hkeeps & Hall).
    exists (zr :: rs). rewrite Hrs, <- app_assoc. simpl.
    split; [reflexivity|]. split; [congruence|].
    split; [apply (keepsOtherZones_trans [z] rest _ _ _ Hkeep Hkeeps)|].
    intros Hsucc Hne. apply Forall_cons in Hsucc as [Hzr Hsucc].
    specialize (Hok Hzr). destruct (Hall Hsucc Hne) as [_ Hfinal].
    pose proof Hok as (ms0 & mt0 & Hs0 & Ht0 & _).
    split; [intros _; split; eexists; eassumption|].
    intros ms mt Hs Ht.
    pose proof (exchanged_pair s t z _ _ ms mt Hne Hs Ht Hok) as Hst1.
    change (swapAll (ms, mt) (z :: rest)) with (swapAll (swapZone (ms, mt) z) rest).
    destruct (swapZone (ms, mt) z) as [ms1 mt1]. simpl in Hst1.
    rewrite (Hfinal ms1 mt1).
    + rewrite Hst1. apply insert_twice_overwrite, Hne.
    + rewrite Hst1. rewrite lookup_insert_ne by congruence. apply lookup_insert_eq.
    + rewrite Hst1. apply lookup_insert_eq.
Qed.



Lemma exchangeZones_storeKeeps s t i zoneList acc :
  preserves (storeKeeps zoneList) (exchangeZones s t i zoneList acc).
Proof.
  intros e. destruct (exchangeZones_spec s t i zoneList acc e) as (_ & _ & _ & H & _).
  exact H.
Qed.
#[export] Hint Resolve exchangeZones_storeKeeps : frames.


Lemma exchangeZones_objects s t i zoneList acc :
  preserves (sameField swapObjects) (exchangeZones s t i zoneList acc).
Proof. frame. Qed.

Lemma exchangeZones_active s t i zoneList acc :
  preserves (sameField activeSwaps) (exchangeZones s t i zoneList acc).
Proof. frame. Qed.

(** *** executeSwap *)

Lemma addToHistory_inv ref e r e' :
  addToHistory ref e = (r, e') ->
  r = Return tt /\ bodyMaps e' = bodyMaps e /\ swapObjects e' = swapObjects e
  /\ activeSwaps e' = activeSwaps e /\ nextRef e' = nextRef e.
Proof.
  unfold addToHistory, mbind, M_bind, bind, modify, get, mret, M_ret, ret. simpl.
  match goal with |- context [if ?b then _ else _] => destruct b end;
    intros H; inversion H; subst; repeat split.
Qed.

Lemma addToHistory_neverThrows ref : neverThrows (addToHistory ref).
Proof.
  intros e. unfold addToHistory, mbind, M_bind, bind, modify, get, mret, M_ret, ret.
  simpl. match goal with |- context [if ?b then _ else _] => destruct b end; eauto.
Qed.

(** The part of [executeSwap] after the reciprocal handler cannot throw. *)
Lemma registration_neverThrows swap ref (res : SwapResult) :
  neverThrows (modify (fun e => set_activeSwaps (<[swap := ref]> (activeSwaps e)) e);;
               addToHistory ref;; fireEvent "threadshift_swap_executed";; mret res).
Proof.
  intros e. unfold mbind, M_bind, bind, modify, fireEvent, mret, M_ret, ret. simpl.
  destruct (addToHistory_neverThrows ref
              (set_activeSwaps (<[swap := ref]> (activeSwaps e)) e)) as [[] Ha].
  destruct (addToHistory ref _) as [c e1]. simpl in Ha. subst c. eauto.
Qed.

Lemma executeSwap_spec deps now s t zoneList g opts e :
  let run := executeSwap deps now s t zoneList g opts e in
  let swap := nextSwapId now e in
  let ref := nextRef e in
  exists res,
    fst run = Return res /\ sr_swapId res = swap
    /\ nextRef (snd run) = S ref
    /\ (forall r, r ≠ ref -> swapObjects (snd run) !! r = swapObjects e !! r)
    /\ keepsOtherZones zoneList (bodyMaps e) (bodyMaps (snd run))
    /\ (sr_success res = true ->
          sr_zones res = Some zoneList
          /\ activeSwaps (snd run) = <[swap := ref]> (activeSwaps e)
          /\ swapObjects (snd run) !! ref
             = Some (set_originalStates (snapshotOf (bodyMaps e) s t zoneList)
                                        (newSwapData now s t zoneList g opts e))
          /\ exists rs e1,
               sr_results res = Some rs /\ bodyMaps e1 = bodyMaps e
               /\ fst (exchangeZones s t swap zoneList [] e1) = Return rs
               /\ bodyMaps (snd run)
                  = bodyMaps (snd (exchangeZones s t swap zoneList [] e1)))
    /\ (sr_success res = false ->
          sr_zones res = None /\ sr_results res = None
          /\ activeSwaps (snd run) = activeSwaps e).
Proof.
  intros run swap ref. subst run.
  destruct (executeSwap deps now s t zoneList g opts e) as [r e'] eqn:Hrun.
  unfold executeSwap in Hrun.
  inv_bind Hrun x e0 Hgen; [|discriminate Hgen].
  unfold generateSwapId, mbind, M_bind, bind, modify, get, mret, M_ret, ret in Hgen.
  simpl in Hgen. inversion Hgen; subst x e0; clear Hgen.
  inv_bind Hrun x e0 Hget; [|discriminate Hget].
  unfold get in Hget. inversion Hget; subst x e0; clear Hget.
  inv_bind Hrun x e0 Halloc; [|discriminate Halloc].
  unfold allocSwapData in Halloc. simpl in Halloc.
  inversion Halloc; subst x e0; clear Halloc.
  change ("swap_" +:+ pretty now +:+ "_" +:+ pretty (swapCounter e + 1))
    with swap in Hrun.
  change (nextRef e) with ref in Hrun.
  match type of Hrun with
  | tryCatch ?b ?h ?a = _ => set (body := b) in *; set (handler := h) in *;
                              set (ea := a) in *
  end.
  assert (Hea_store : bodyMaps ea = bodyMaps e) by reflexivity.
  assert (Hea_active : activeSwaps ea = activeSwaps e) by reflexivity.
  assert (Hea_next : nextRef ea = S ref) by reflexivity.
  assert (Hea_objs : forall r, r ≠ ref -> swapObjects ea !! r = swapObjects e !! r).
  { intros r0 Hr. subst ea. simpl. rewrite lookup_insert_ne by congruence. reflexivity. }
  (* frames of the try/catch as a whole *)
  assert (Hheap : heapExcept ref ea e').
  { apply (preserves_snd _ (tryCatch body handler) ea r e'); [|exact Hrun].
    subst body handler. frame. }
  assert (Hkeeps : storeKeeps zoneList ea e').
  { apply (preserves_snd _ (tryCatch body handler) ea r e'); [|exact Hrun].
    subst body handler. frame. }
  destruct Hheap as [Hnext Hobjs].
  assert (Hframes : nextRef e' = S ref
                    /\ (forall r, r ≠ ref -> swapObjects e' !! r = swapObjects e !! r)
                    /\ keepsOtherZones zoneList (bodyMaps e) (bodyMaps e')).
  { split; [congruence|]. split.
    - intros r0 Hr. rewrite Hobjs, Hea_objs by exact Hr. reflexivity.
    - unfold storeKeeps in Hkeeps. rewrite Hea_store in Hkeeps. exact Hkeeps. }
  destruct Hframes as (F1 & F2 & F3).
  apply tryCatch_inv in Hrun as [(res & Hbody & ->)|(msg & e1 & Hbody & Hcatch)].
  - (* the try block ran to its end *)
    exists res. subst body.
    inv_bind Hbody sm ea1 Hl1; [|discriminate].
    inv_bind Hbody tm ea2 Hl2; [|discriminate].
    apply loadCharacterBodyMap_inv in Hl1 as [-> ->].
    apply loadCharacterBodyMap_inv in Hl2 as [-> ->].
    inv_bind Hbody u ea3 Hupd; [|discriminate].
    unfold updateSwapData, modify in Hupd. inversion Hupd; subst u ea3; clear Hupd.
    inv_bind Hbody rs ea4 Hex; [|discriminate].
    inv_bind Hbody u ea5 Hrec; [|discriminate].
    assert (ea5 = ea4) as ->.
    { destruct (reciprocal _); [apply handleReciprocal_inv in Hrec; exact Hrec|].
      inversion Hrec; reflexivity. }
    inv_bind Hbody u' ea6 Hact; [|discriminate].
    unfold modify in Hact. inversion Hact; subst u' ea6; clear Hact.
    inv_bind Hbody u' ea7 Hhist; [|discriminate].
    apply addToHistory_inv in Hhist as (_ & Hh1 & Hh2 & Hh3 & _).
    unfold fireEvent, mbind, M_bind, bind, modify, mret, M_ret, ret in Hbody.
    simpl in Hbody. inversion Hbody; subst res e'; clear Hbody. simpl in *.
    pose proof (preserves_snd _ _ _ _ _ (exchangeZones_objects s t swap zoneList []) Hex) as Ho.
    pose proof (preserves_snd _ _ _ _ _ (exchangeZones_active s t swap zoneList []) Hex) as Ha.
    unfold sameField in *. simpl in *.
    split; [reflexivity|]. split; [reflexivity|].
    split; [exact F1|]. split; [exact F2|]. split; [exact F3|].
    split; [|discriminate]. intros _.
    split; [reflexivity|]. split; [rewrite Hh3, Ha; reflexivity|].
    split.
    { rewrite Hh2, Ho. rewrite lookup_alter_eq, lookup_insert_eq. reflexivity. }
    eexists rs, _. split; [reflexivity|]. split; [|split].
    2:{ rewrite Hex. reflexivity. }
    + reflexivity.
    + rewrite Hex. simpl. exact Hh1.
  - (* the catch block answers *)
    assert (Hthrow : activeSwaps e1 = activeSwaps ea).
    { assert (preservesOnThrow (sameField activeSwaps) body) as Hpot.
      { subst body.
        apply preservesOnThrow_bind; [apply _|frame|intros ?].
        apply preservesOnThrow_bind; [apply _|frame|intros ?].
        apply preservesOnThrow_bind; [apply _|frame|intros ?].
        apply preservesOnThrow_bind; [apply _|frame|intros ?].
        apply preservesOnThrow_bind; [apply _|frame|intros ?].
        apply preservesOnThrow_neverThrows, registration_neverThrows. }
      apply (Hpot _ _ _ Hbody). }
    subst handler.
    unfold bump_stats, updateSwapData, handleError, fireEvent,
           mbind, M_bind, bind, modify, mret, M_ret, ret in Hcatch.
    simpl in Hcatch. inversion Hcatch; subst r e'; clear Hcatch. simpl in *.
    eexists. split; [reflexivity|]. split; [reflexivity|].
    split; [exact F1|]. split; [exact F2|]. split; [exact F3|].
    split; [discriminate|]. intros _.
    split; [reflexivity|]. split; [reflexivity|]. congruence.
Qed.


(** *** performSwap *)

Ltac quiet_step H :=
  match type of H with
  | ?c ?e = (?r, ?e') =>
      let Hq := fresh "Hq" in
      assert (Hq : quiet e e') by (apply (preserves_snd quiet c e r e'); [frame | exact H])
  end.

Lemma executeSwap_neverThrows deps now s t zoneList g opts :
  neverThrows (executeSwap deps now s t zoneList g opts).
Proof.
  intros e. destruct (executeSwap_spec deps now s t zoneList g opts e) as (res & H & _).
  eauto.
Qed.

Lemma preservesOnThrow_throw (R : relation Engine) `{!PreOrder R} {A : Type} msg :
  preservesOnThrow R (@throw A msg).
Proof. intros e m e' H. inversion H; subst. reflexivity. Qed.

Lemma preservesOnThrow_bind_l (R : relation Engine) {A B : Type} (c : M A) (f : A -> M B) :
  preservesOnThrow R c -> (forall a, neverThrows (f a)) -> preservesOnThrow R (c ≫= f).
Proof.
  intros Hc Hf e msg e' Hrun.
  apply bind_inv in Hrun as [(a & e1 & Hc1 & Hf1)|(m & Hc1 & Heq)].
  - destruct (Hf a e1) as [b Hb]. rewrite Hf1 in Hb. discriminate.
  - inversion Heq; subst. apply (Hc _ _ _ Hc1).
Qed.

Lemma performSwap_tail_neverThrows deps now a b zoneList g opts f ev :
  neverThrows (swapResult ← executeSwap deps now a b zoneList g opts;
               bump_stats f;; fireEvent ev;; mret swapResult).
Proof.
  intros e. destruct (executeSwap_neverThrows deps now a b zoneList g opts e) as [res H].
  unfold bump_stats, fireEvent, mbind, M_bind, bind, modify, mret, M_ret, ret.
  destruct (executeSwap deps now a b zoneList g opts e) as [c e1].
  simpl in H. subst c. simpl. eauto.
Qed.

Ltac pot_step :=
  match goal with
  | |- preservesOnThrow _ (throw _) => apply preservesOnThrow_throw; apply _
  | |- preservesOnThrow _ (executeSwap _ _ _ _ _ _ _ ≫= _) =>
      apply preservesOnThrow_neverThrows, performSwap_tail_neverThrows
  | |- preservesOnThrow _ (_ ≫= _) =>
      apply preservesOnThrow_bind; [apply _ | solve [frame] | intros ?]
  | |- preservesOnThrow _ (if ?b then _ else _) => destruct b eqn:?
  | |- preservesOnThrow _ (match ?x with _ => _ end) => destruct x eqn:?
  end.

Lemma getZonesForGarment_pure deps ty e e0 :
  getZonesForGarment deps ty e = (fst (getZonesForGarment deps ty e0), e).
Proof. unfold getZonesForGarment. destruct (garmentZoneMapper deps); reflexivity. Qed.

Lemma getGarmentById_pure deps gid e e0 :
  getGarmentById deps gid e = (fst (getGarmentById deps gid e0), e).
Proof.
  unfold getGarmentById.
  destruct (String.eqb gid ""); [reflexivity|].
  destruct (splitOn "." gid "") as [|c [|ty [|x l]]]; try reflexivity.
  destruct (parseInt ty) as [n|]; [|reflexivity].
  destruct (_ || _); [reflexivity|].
  unfold mbind, M_bind, bind.
  rewrite (getZonesForGarment_pure deps _ e e0).
  destruct (getZonesForGarment deps _ e0) as [[zs|m] e1]; reflexivity.
Qed.

Lemma validateSwap_fst_pure deps sm tm zoneList e e0 :
  fst (validateSwap deps sm tm zoneList e) = fst (validateSwap deps sm tm zoneList e0).
Proof.
  unfold validateSwap. destruct (bodyMapValidator deps) as [v|]; [|reflexivity].
  destruct (v sm tm zoneList); reflexivity.
Qed.

(** How [performSwap] can end: thrown at the readiness check, answered
    with [null] without having touched anything, or answered with the
    result of [executeSwap]. *)
Lemma performSwap_inv deps now a b gid opts e r e' :
  performSwap deps now a b gid opts e = (r, e') ->
  (isReady e = false /\ r = Throw "ZoneSwapEngine not ready" /\ e' = e)
  \/ (isReady e = true /\ r = Return None /\ quiet e e'
      /\ exists msg, last (errors e') = Some (mkErrorInfo "performSwap" msg false))
  \/ (isReady e = true /\ a ≠ b /\
      exists res zoneList g e0 e1,
        r = Return (Some res) /\ zoneList ≠ [] /\ quiet e e0
        /\ executeSwap deps now a b zoneList g opts e0 = (Return res, e1)
        /\ quiet e1 e'
        /\ fst (getGarmentById deps gid e) = Return g
        /\ fst (getZonesForGarment deps (garmentType g) e) = Return (Some zoneList)
        /\ validationPassed deps a b zoneList e
        /\ a ≠ "" /\ b ≠ "" /\ gid ≠ "").
Proof.
  intros Hrun. unfold performSwap in Hrun.
  inv_bind Hrun x e0 Hget; [|discriminate Hget].
  unfold get in Hget. inversion Hget; subst x e0; clear Hget.
  destruct (isReady e) eqn:Hready; simpl in Hrun.
  2:{ left. inversion Hrun. auto. }
  right. unfold safeOperation in Hrun.
  inv_bind Hrun x e0 Hget; [|discriminate Hget].
  unfold get in Hget. inversion Hget; subst x e0; clear Hget.
  rewrite Hready in Hrun. simpl in Hrun.
  apply tryCatch_inv in Hrun as [(res & Hbody & ->)|(msg & e1 & Hbody & Hcatch)].
  - (* the operation completed *)
    right. split; [reflexivity|].
    inv_bind Hbody res' e1 Hop; [|discriminate].
    inversion Hbody; subst res e'; clear Hbody.
    inv_bind Hop u e2 Hb; [|discriminate]. quiet_step Hb.
    destruct (_ || _) eqn:Hcond; [discriminate Hop|].
    apply orb_false_elim in Hcond as [Hcond Hgid].
    apply orb_false_elim in Hcond as [Ha Hb'].
    apply String.eqb_neq in Ha, Hb', Hgid.
    destruct (String.eqb a b) eqn:Hab; [discriminate Hop|].
    apply String.eqb_neq in Hab. split; [exact Hab|].
    inv_bind Hop g e3 Hg; [|discriminate]. quiet_step Hg.
    inv_bind Hop resolved e4 Hz; [|discriminate]. quiet_step Hz.
    destruct resolved as [[|z zs]|]; [discriminate Hop| |discriminate Hop].
    inv_bind Hop sm e5 Hl1; [|discriminate]. quiet_step Hl1.
    inv_bind Hop tm e6 Hl2; [|discriminate]. quiet_step Hl2.
    inv_bind Hop x e7 Hget; [|discriminate].
    unfold get in Hget. inversion Hget; subst x e7; clear Hget.
    inv_bind Hop u' e8 Hval; [|discriminate]. quiet_step Hval.
    inv_bind Hop res e9 Hexec; [|discriminate].
    quiet_step Hop.
    assert (res' = res) as ->.
    { unfold bump_stats, fireEvent, mbind, M_bind, bind, modify, mret, M_ret, ret in Hop.
      simpl in Hop. inversion Hop. reflexivity. }
    assert (Hq6 : quiet e e6).
    { transitivity e5; [|assumption]. transitivity e4; [|assumption].
      transitivity e3; [|assumption]. transitivity e2; assumption. }
    exists res, (z :: zs), g, e8, e9.
    split; [reflexivity|]. split; [discriminate|].
    split; [etransitivity; eassumption|]. split; [assumption|]. split; [assumption|].
    split; [rewrite (getGarmentById_pure deps gid e e2), Hg; reflexivity|].
    split; [rewrite (getZonesForGarment_pure deps _ e e3), Hz; reflexivity|].
    cut (validationPassed deps a b (z :: zs) e); [intros Hpass; repeat split; assumption|].
    (* the validation gate *)
    apply loadCharacterBodyMap_inv in Hl1 as [-> _].
    apply loadCharacterBodyMap_inv in Hl2 as [-> _].
    assert (Hs4 : bodyMaps e4 = bodyMaps e).
    { transitivity (bodyMaps e3); [apply Hq1|]. transitivity (bodyMaps e2); [apply Hq0|].
      apply Hq. }
    assert (Hs5 : bodyMaps e5 = bodyMaps e) by (rewrite <- Hs4; apply Hq2).
    assert (Hset : settings e6 = settings e) by apply Hq6.
    rewrite Hs4, Hs5, Hset in Hval.
    intros Hon. rewrite Hon in Hval.
    inv_bind Hval validation e7 Hv; [|discriminate].
    exists validation.
    split; [rewrite (validateSwap_fst_pure deps _ _ _ e e6), Hv; reflexivity|].
    intros Hinvalid. rewrite Hinvalid in Hval. simpl in Hval.
    inv_bind Hval u'' e10 Hb2; [|discriminate].
    inv_bind Hval x e11 Hget; [|discriminate].
    unfold get in Hget. inversion Hget; subst x e11; clear Hget.
    assert (Hset' : settings e10 = settings e).
    { quiet_step Hv. quiet_step Hb2.
      match goal with
      | Hqv : quiet e6 e7, Hqb : quiet e7 e10 |- _ =>
          transitivity (settings e7); [apply Hqb|];
          transitivity (settings e6); [apply Hqv|]; exact Hset
      end. }
    rewrite Hset' in Hval.
    destruct (allowPartialTransformations (settings e)); [reflexivity|].
    discriminate Hval.
  - (* the operation threw: the error is logged and null returned *)
    left. split; [reflexivity|].
    quiet_step Hcatch.
    assert (Hr : r = Return None
                 /\ last (errors e') = Some (mkErrorInfo "performSwap" msg false)).
    { unfold handleError, fireEvent, mbind, M_bind, bind, modify, mret, M_ret, ret in Hcatch.
      simpl in Hcatch. inversion Hcatch. split; [reflexivity|]. simpl. apply last_snoc. }
    destruct Hr as [Hr Hlast].
    split; [exact Hr|]. split; [|eexists; exact Hlast].
    transitivity e1; [|assumption].
    revert Hbody.
    match goal with
    | |- ?body e = _ -> _ => assert (Hpot : preservesOnThrow quiet body)
    end.
    { apply preservesOnThrow_bind_l; [|intros res e2; eexists; reflexivity].
      repeat pot_step. }
    intros Hbody. apply (Hpot _ _ _ Hbody).
Qed.

(** *** The claims about performSwap *)

Lemma getZoneOf_lookup (st : gmap string (gmap string JsVal)) c m zone :
  st !! c = Some m -> getZoneOf (st !! c) zone = default Undefined (m !! zone).
Proof. intros ->. reflexivity. Qed.

(** What a fully successful [performSwap] leaves in the store. *)
Lemma performSwap_store deps now a b gid opts e res e' :
  performSwap deps now a b gid opts e = (Return (Some res), e') ->
  fullySuccessful res ->
  a ≠ b /\
  exists zoneList ms mt,
    sr_zones res = Some zoneList /\ zoneList ≠ []
    /\ bodyMaps e !! a = Some ms /\ bodyMaps e !! b = Some mt
    /\ bodyMaps e' = <[b := snd (swapAll (ms, mt) zoneList)]>
                      (<[a := fst (swapAll (ms, mt) zoneList)]> (bodyMaps e)).
Proof.
  intros Hrun (Hsucc & results & Hres & Hall).
  apply performSwap_inv in Hrun as [(_ & ? & _)|[(_ & ? & _)|Hrun]]; try discriminate.
  destruct Hrun as (_ & Hab & res' & zoneList & g & e0 & e1 & Heq & Hne & Hq0 & Hexec
                    & Hq1 & _).
  inversion Heq; subst res'; clear Heq. split; [exact Hab|].
  destruct (executeSwap_spec deps now a b zoneList g opts e0)
    as (res' & Hfst & _ & _ & _ & _ & Hok & _).
  rewrite Hexec in Hfst, Hok. simpl in Hfst, Hok. inversion Hfst; subst res'; clear Hfst.
  destruct (Hok Hsucc) as (Hzones & _ & _ & rs & ex & Hrs & Hst & Hfstx & Hsndx).
  rewrite Hres in Hrs. inversion Hrs; subst rs; clear Hrs.
  destruct (exchangeZones_spec a b (nextSwapId now e0) zoneList [] ex)
    as (rs & Hret & _ & _ & Hfull).
  rewrite Hfstx in Hret. simpl in Hret. inversion Hret; subst rs; clear Hret.
  destruct (Hfull Hall Hab) as [Hex Hfinal].
  destruct (Hex Hne) as [[ms Hms] [mt Hmt]].
  assert (Hst0 : bodyMaps ex = bodyMaps e) by (rewrite Hst; apply Hq0).
  exists zoneList, ms, mt.
  split; [exact Hzones|]. split; [exact Hne|].
  split; [rewrite <- Hst0; exact Hms|]. split; [rewrite <- Hst0; exact Hmt|].
  destruct Hq1 as (-> & _). rewrite Hsndx, (Hfinal ms mt Hms Hmt), Hst0. reflexivity.
Qed.

(** C1, as amended. After a fully successful [performSwap] between two
    distinct characters over a non-empty list of pairwise distinct zones,
    each character holds at every listed zone the value the other one had
    before the swap, and every zone outside the list is unchanged on both
    characters. *)
Theorem performSwap_exchanges_distinct_zones deps now a b gid opts e res e' zoneList :
  performSwap deps now a b gid opts e = (Return (Some res), e') ->
  fullySuccessful res ->
  sr_zones res = Some zoneList ->
  NoDup zoneList ->
  a ≠ b /\ zoneList ≠ [] /\
  forall zone,
    (zone ∈ zoneList ->
       getZoneOf (bodyMaps e' !! a) zone = getZoneOf (bodyMaps e !! b) zone
       /\ getZoneOf (bodyMaps e' !! b) zone = getZoneOf (bodyMaps e !! a) zone)
    /\ (zone ∉ zoneList ->
       getZoneOf (bodyMaps e' !! a) zone = getZoneOf (bodyMaps e !! a) zone
       /\ getZoneOf (bodyMaps e' !! b) zone = getZoneOf (bodyMaps e !! b) zone).
Proof.
  intros Hrun Hfull Hzones Hnodup.
  destruct (performSwap_store _ _ _ _ _ _ _ _ _ Hrun Hfull)
    as (Hab & zs & ms & mt & Hzs & Hne & Hms & Hmt & Hstore).
  rewrite Hzones in Hzs. inversion Hzs; subst zs; clear Hzs.
  split; [exact Hab|]. split; [exact Hne|].
  assert (Ha : bodyMaps e' !! a = Some (fst (swapAll (ms, mt) zoneList))).
  { rewrite Hstore, lookup_insert_ne by congruence. apply lookup_insert_eq. }
  assert (Hb : bodyMaps e' !! b = Some (snd (swapAll (ms, mt) zoneList))).
  { rewrite Hstore. apply lookup_insert_eq. }
  intros zone. rewrite Ha, Hb, Hms, Hmt. simpl. unfold getZone. split.
  - intros Hin.
    destruct (swapAll_lookup_in zoneList (ms, mt) zone Hnodup Hin) as [-> ->].
    split; reflexivity.
  - intros Hnotin.
    destruct (swapAll_lookup_notin zoneList (ms, mt) zone Hnotin) as [-> ->].
    split; reflexivity.
Qed.

Lemma performSwap_exchanges_distinct_zones_witness :
  exists res e',
    performSwap noCollaborators 1000 "c1" "c2" "c1.3" JNull Samples.sampleEngine
    = (Return (Some res), e')
    /\ getZoneOf (bodyMaps e' !! "c1") "chest" = Val (JStr "large")
    /\ getZoneOf (bodyMaps e' !! "c2") "chest" = Val (JStr "flat")
    /\ getZoneOf (bodyMaps e' !! "c1") "waist" = Val (JStr "wide")
    /\ getZoneOf (bodyMaps e' !! "c2") "waist" = Val (JStr "narrow").
Proof.
  destruct (performSwap noCollaborators 1000 "c1" "c2" "c1.3" JNull Samples.sampleEngine)
    as [r e'] eqn:Hrun.
  assert (Hr : r = Return (Some (mkSwapResult true "swap_1000_1"
                 (Some ["chest"; "waist"])
                 (Some [mkZoneResult "chest" true (Val (JStr "flat")) (Val (JStr "large")) None;
                        mkZoneResult "waist" true (Val (JStr "narrow")) (Val (JStr "wide")) None])
                 None 1000))).
  { apply (f_equal fst) in Hrun. simpl in Hrun. rewrite <- Hrun. vm_compute. reflexivity. }
  subst r. eexists _, e'. split; [reflexivity|].
  assert (Hnodup : NoDup ["chest"; "waist"]).
  { apply NoDup_cons. split; [|apply NoDup_singleton].
    intros Hin. apply list_elem_of_singleton in Hin. discriminate. }
  destruct (performSwap_exchanges_distinct_zones _ _ _ _ _ _ _ _ _ ["chest"; "waist"] Hrun)
    as (_ & _ & Hzone).
  - split; [reflexivity|]. eexists. split; [reflexivity|].
    repeat constructor.
  - reflexivity.
  - exact Hnodup.
  - destruct (Hzone "chest") as [Hchest _]. destruct (Hzone "waist") as [Hwaist _].
    destruct Hchest as [H1 H2]; [apply list_elem_of_here|].
    destruct Hwaist as [H3 H4]; [apply list_elem_of_further, list_elem_of_here|].
    rewrite H1, H2, H3, H4. repeat split; vm_compute; reflexivity.
Defined.

(** C1 as stated fails when the zone list names a zone twice: the second
    exchange undoes the first, so after a fully successful swap over
    [chest, chest] the source still has its own chest. *)
Lemma performSwap_repeated_zone_counterexample :
  exists res e',
    performSwap Samples.repeatingMapper 1000 "c1" "c2" "c1.0" JNull Samples.sampleEngine
    = (Return (Some res), e')
    /\ fullySuccessful res
    /\ sr_zones res = Some ["chest"; "chest"]
    /\ getZoneOf (bodyMaps e' !! "c1") "chest"
       ≠ getZoneOf (bodyMaps Samples.sampleEngine !! "c2") "chest".
Proof.
  destruct (performSwap Samples.repeatingMapper 1000 "c1" "c2" "c1.0" JNull
              Samples.sampleEngine) as [r e'] eqn:Hrun.
  assert (Hr : r = Return (Some (mkSwapResult true "swap_1000_1"
                 (Some ["chest"; "chest"])
                 (Some [mkZoneResult "chest" true (Val (JStr "flat")) (Val (JStr "large")) None;
                        mkZoneResult "chest" true (Val (JStr "large")) (Val (JStr "flat")) None])
                 None 1000))).
  { apply (f_equal fst) in Hrun. simpl in Hrun. rewrite <- Hrun. vm_compute. reflexivity. }
  assert (He : getZoneOf (bodyMaps e' !! "c1") "chest" = Val (JStr "flat")).
  { apply (f_equal snd) in Hrun. simpl in Hrun. rewrite <- Hrun. vm_compute. reflexivity. }
  subst r. eexists _, e'. split; [reflexivity|].
  split; [split; [reflexivity|]; eexists; split; [reflexivity|]; repeat constructor|].
  split; [reflexivity|].
  rewrite He. vm_compute. discriminate.
Qed.

(** C4. Under the strict policy (validation on, partial transformations
    not allowed), when the validator reports the swap invalid,
    [performSwap] answers [null] and has changed no body map, created no
    swap record, and appended nothing to the swap history. *)
Theorem strict_validation_failure_aborts_before_mutation
    deps now a b gid opts e g zoneList validation :
  isReady e = true ->
  autoValidation (settings e) = true ->
  validateTransformations (settings e) = true ->
  allowPartialTransformations (settings e) = false ->
  fst (getGarmentById deps gid e) = Return g ->
  fst (getZonesForGarment deps (garmentType g) e) = Return (Some zoneList) ->
  fst (validateSwap deps (bodyMaps e !! a) (bodyMaps e !! b) zoneList e)
  = Return validation ->
  valid validation = false ->
  let run := performSwap deps now a b gid opts e in
  fst run = Return None
  /\ bodyMaps (snd run) = bodyMaps e
  /\ swapObjects (snd run) = swapObjects e
  /\ activeSwaps (snd run) = activeSwaps e
  /\ swapHistory (snd run) = swapHistory e.
Proof.
  intros Hready Hauto Hvalidate Hstrict Hg Hz Hv Hinvalid run. subst run.
  destruct (performSwap deps now a b gid opts e) as [r e'] eqn:Hrun. simpl.
  apply performSwap_inv in Hrun as [(Hnr & _)|[(_ & -> & Hq)|Hrun]].
  - congruence.
  - destruct Hq as [(? & ? & ? & ? & ? & _) _]. repeat split; assumption.
  - destruct Hrun as (_ & _ & res & zs & g' & e0 & e1 & _ & _ & _ & _ & _ & Hg' & Hz' & Hpass & _).
    rewrite Hg in Hg'. inversion Hg'; subst g'.
    rewrite Hz in Hz'. inversion Hz'; subst zs.
    destruct Hpass as (v & Hv' & Hlenient).
    { rewrite Hauto, Hvalidate. reflexivity. }
    rewrite Hv in Hv'. inversion Hv'; subst v.
    rewrite (Hlenient Hinvalid) in Hstrict. discriminate.
Qed.

Lemma strict_validation_failure_aborts_before_mutation_witness :
  fst (performSwap Samples.rejectingValidator 1000 "c1" "c2" "c1.3" JNull
         Samples.strictEngine) = Return None
  /\ bodyMaps (snd (performSwap Samples.rejectingValidator 1000 "c1" "c2" "c1.3" JNull
                      Samples.strictEngine)) = Samples.sampleStore
  /\ activeSwaps (snd (performSwap Samples.rejectingValidator 1000 "c1" "c2" "c1.3" JNull
                         Samples.strictEngine)) = ∅
  /\ swapHistory (snd (performSwap Samples.rejectingValidator 1000 "c1" "c2" "c1.3" JNull
                         Samples.strictEngine)) = [].
Proof.
  destruct (strict_validation_failure_aborts_before_mutation
              Samples.rejectingValidator 1000 "c1" "c2" "c1.3" JNull Samples.strictEngine
              (mkGarment "c1.3" "c1" "shirt" (Some ["chest"; "waist"]))
              ["chest"; "waist"] (mkValidation false ["zone mismatch"]))
    as (H1 & H2 & _ & H3 & H4); try reflexivity.
  repeat split; assumption.
Defined.

(** *** Order of the zones *)

Lemma executeSwap_store deps now a b zoneList g opts e res e' :
  executeSwap deps now a b zoneList g opts e = (Return res, e') ->
  fullySuccessful res -> a ≠ b ->
  (zoneList = [] /\ bodyMaps e' = bodyMaps e)
  \/ exists ms mt,
       bodyMaps e !! a = Some ms /\ bodyMaps e !! b = Some mt
       /\ bodyMaps e' = <[b := snd (swapAll (ms, mt) zoneList)]>
                         (<[a := fst (swapAll (ms, mt) zoneList)]> (bodyMaps e)).
Proof.
  intros Hexec (Hsucc & results & Hres & Hall) Hab.
  destruct (executeSwap_spec deps now a b zoneList g opts e)
    as (res' & Hfst & _ & _ & _ & _ & Hok & _).
  rewrite Hexec in Hfst, Hok. simpl in Hfst, Hok. inversion Hfst; subst res'; clear Hfst.
  destruct (Hok Hsucc) as (_ & _ & _ & rs & ex & Hrs & Hst & Hfstx & Hsndx).
  rewrite Hres in Hrs. inversion Hrs; subst rs; clear Hrs.
  destruct (exchangeZones_spec a b (nextSwapId now e) zoneList [] ex)
    as (rs & Hret & _ & _ & Hfull).
  rewrite Hfstx in Hret. simpl in Hret. inversion Hret; subst rs; clear Hret.
  destruct (Hfull Hall Hab) as [Hex Hfinal].
  destruct zoneList as [|z zs].
  - left. split; [reflexivity|]. rewrite Hsndx. simpl. exact Hst.
  - right. destruct (Hex ltac:(discriminate)) as [[ms Hms] [mt Hmt]].
    exists ms, mt. rewrite <- Hst.
    split; [exact Hms|]. split; [exact Hmt|].
    rewrite Hsndx. apply (Hfinal ms mt Hms Hmt).
Qed.

(** C6. For two distinct characters and two orderings of the same set of
    distinct zones, the per-zone exchanges of a fully successful swap
    leave the same body maps (indeed the same store) in either order. *)
Theorem zone_order_does_not_matter deps now a b zones1 zones2 g opts e r1 e1 r2 e2 :
  a ≠ b -> NoDup zones1 -> zones1 ≡ₚ zones2 ->
  executeSwap deps now a b zones1 g opts e = (Return r1, e1) -> fullySuccessful r1 ->
  executeSwap deps now a b zones2 g opts e = (Return r2, e2) -> fullySuccessful r2 ->
  bodyMaps e1 !! a = bodyMaps e2 !! a
  /\ bodyMaps e1 !! b = bodyMaps e2 !! b
  /\ bodyMaps e1 = bodyMaps e2.
Proof.
  intros Hab Hnodup Hperm Hrun1 Hfull1 Hrun2 Hfull2.
  assert (Hstore : bodyMaps e1 = bodyMaps e2).
  { destruct (executeSwap_store _ _ _ _ _ _ _ _ _ _ Hrun1 Hfull1 Hab)
      as [[-> Hs1]|(ms & mt & Hms & Hmt & Hs1)].
    - apply Permutation_nil_l in Hperm. subst zones2.
      destruct (executeSwap_store _ _ _ _ _ _ _ _ _ _ Hrun2 Hfull2 Hab)
        as [[_ Hs2]|(ms & mt & Hms & Hmt & Hs2)].
      + congruence.
      + rewrite Hs1, Hs2. unfold swapAll. simpl.
        rewrite (insert_id _ a ms Hms). rewrite (insert_id _ b mt Hmt). reflexivity.
    - destruct (executeSwap_store _ _ _ _ _ _ _ _ _ _ Hrun2 Hfull2 Hab)
        as [[-> Hs2]|(ms' & mt' & Hms' & Hmt' & Hs2)].
      + apply Permutation_nil_r in Hperm. subst zones1.
        rewrite Hs1, Hs2. unfold swapAll. simpl.
        rewrite (insert_id _ a ms Hms). rewrite (insert_id _ b mt Hmt). reflexivity.
      + rewrite Hms in Hms'. rewrite Hmt in Hmt'.
        inversion Hms'; inversion Hmt'; subst ms' mt'.
        rewrite Hs1, Hs2, (swapAll_permutation (ms, mt) zones1 zones2 Hnodup Hperm).
        reflexivity. }
  rewrite Hstore. auto.
Qed.

Lemma zone_order_does_not_matter_witness :
  bodyMaps (snd (executeSwap noCollaborators 1000 "c1" "c2" ["chest"; "waist"]
                   (mkGarment "c1.3" "c1" "shirt" None) JNull Samples.sampleEngine))
  = bodyMaps (snd (executeSwap noCollaborators 1000 "c1" "c2" ["waist"; "chest"]
                     (mkGarment "c1.3" "c1" "shirt" None) JNull Samples.sampleEngine)).
Proof.
  destruct (executeSwap noCollaborators 1000 "c1" "c2" ["chest"; "waist"]
              (mkGarment "c1.3" "c1" "shirt" None) JNull Samples.sampleEngine)
    as [r1 e1] eqn:Hrun1.
  destruct (executeSwap noCollaborators 1000 "c1" "c2" ["waist"; "chest"]
              (mkGarment "c1.3" "c1" "shirt" None) JNull Samples.sampleEngine)
    as [r2 e2] eqn:Hrun2.
  assert (Hr1 : r1 = Return (mkSwapResult true "swap_1000_1" (Some ["chest"; "waist"])
                 (Some [mkZoneResult "chest" true (Val (JStr "flat")) (Val (JStr "large")) None;
                        mkZoneResult "waist" true (Val (JStr "narrow")) (Val (JStr "wide")) None])
                 None 1000)).
  { apply (f_equal fst) in Hrun1. simpl in Hrun1. rewrite <- Hrun1. vm_compute. reflexivity. }
  assert (Hr2 : r2 = Return (mkSwapResult true "swap_1000_1" (Some ["waist"; "chest"])
                 (Some [mkZoneResult "waist" true (Val (JStr "narrow")) (Val (JStr "wide")) None;
                        mkZoneResult "chest" true (Val (JStr "flat")) (Val (JStr "large")) None])
                 None 1000)).
  { apply (f_equal fst) in Hrun2. simpl in Hrun2. rewrite <- Hrun2. vm_compute. reflexivity. }
  subst r1 r2. simpl.
  assert (Hnodup : NoDup ["chest"; "waist"]).
  { apply NoDup_cons. split; [|apply NoDup_singleton].
    intros Hin. apply list_elem_of_singleton in Hin. discriminate. }
  refine (proj2 (proj2 (zone_order_does_not_matter _ _ "c1" "c2" _ _ _ _ _ _ _ _ _
                          _ Hnodup (Permutation_swap _ _ _) Hrun1 _ Hrun2 _))).
  - discriminate.
  - split; [reflexivity|]. eexists. split; [reflexivity|]. repeat constructor.
  - split; [reflexivity|]. eexists. split; [reflexivity|]. repeat constructor.
Defined.

(** *** Running a computation forwards *)























(** *** A zone exchange that throws in the middle of a swap *)

Lemma map_zr_zone_app_inv (rs : list ZoneResult) (zones1 zones2 : list string) :
  List.map zr_zone rs = zones1 ++ zones2 ->
  exists rs1 rs2, rs = rs1 ++ rs2 /\ List.map zr_zone rs1 = zones1
                  /\ List.map zr_zone rs2 = zones2.
Proof.
  revert rs. induction zones1 as [|z zones1 IH]; intros rs Hmap.
  - exists [], rs. auto.
  - destruct rs as [|r rs]; [discriminate|]. simpl in Hmap. inversion Hmap.
    destruct (IH rs H1) as (rs1 & rs2 & -> & H1' & H2').
    exists (r :: rs1), rs2. simpl. repeat split; congruence.
Qed.





(** *** reverseSwap *)

Lemma jsonClone_id : forall j, jsonClone j = j.
Proof.
  fix IH 1. intros [| | | |items|fields]; simpl; try reflexivity.
  - f_equal. induction items as [|x items IHitems]; simpl; [reflexivity|].
    rewrite IH, IHitems. reflexivity.
  - f_equal. induction fields as [|[k v] fields IHfields]; simpl; [reflexivity|].
    rewrite IH, IHfields. reflexivity.
Qed.

Local Arguments truthy : simpl never.

(** The snapshot holds exactly the listed zones whose value is truthy. *)
Lemma cloneBodyMapZones_lookup (m : gmap string JsVal) (zoneList : list string) zone :
  cloneBodyMapZones (Some m) zoneList !! zone
  = if decide (zone ∈ zoneList)
    then (if truthy (getZone m zone) then Some (getZone m zone) else None)
    else None.
Proof.
  unfold cloneBodyMapZones.
  assert (forall acc : gmap string JsVal,
             foldl (fun cloned z =>
                      match getZoneOf (Some m) z with
                      | Val j => if truthy (Val j) then <[z := Val (jsonClone j)]> cloned
                                 else cloned
                      | Undefined => cloned
                      end) acc zoneList !! zone
             = if decide (zone ∈ zoneList)
               then (if truthy (getZone m zone) then Some (getZone m zone) else acc !! zone)
               else acc !! zone) as H.
  { induction zoneList as [|z rest IH]; intros acc; simpl.
    - destruct (decide (zone ∈ [])) as [Hin|_]; [inversion Hin|reflexivity].
    - rewrite IH. clear IH.
      destruct (decide (zone ∈ rest)) as [Hin|Hnotin].
      + rewrite decide_True by (apply list_elem_of_further; exact Hin).
        destruct (truthy (getZone m zone)) eqn:Ht; [reflexivity|].
        destruct (getZone m z) as [|j] eqn:Hz; [reflexivity|].
        destruct (truthy (Val j)) eqn:Htj; [|reflexivity].
        rewrite lookup_insert_ne; [reflexivity|]. intros ->. congruence.
      + destruct (decide (zone = z)) as [->|Hne].
        * rewrite decide_True by apply list_elem_of_here.
          destruct (getZone m z) as [|j] eqn:Hz; [reflexivity|].
          destruct (truthy (Val j)) eqn:Htj; [|reflexivity].
          rewrite lookup_insert_eq, jsonClone_id. reflexivity.
        * rewrite decide_False
            by (intros Hin; apply elem_of_cons in Hin as [?|?]; contradiction).
          destruct (getZone m z) as [|j] eqn:Hz; [reflexivity|].
          destruct (truthy (Val j)) eqn:Htj; [|reflexivity].
          rewrite lookup_insert_ne by congruence. reflexivity. }
  rewrite H, lookup_empty.
  destruct (decide (zone ∈ zoneList)); [|reflexivity].
  destruct (truthy (getZone m zone)); reflexivity.
Qed.

Lemma updateHistoryEntry_inv wanted ref e r e' :
  updateHistoryEntry wanted ref e = (r, e') ->
  r = Return tt /\ bodyMaps e' = bodyMaps e /\ activeSwaps e' = activeSwaps e
  /\ (nextRef e <= nextRef e')%nat
  /\ (forall r0, (r0 < nextRef e)%nat -> swapObjects e' !! r0 = swapObjects e !! r0).
Proof.
  unfold updateHistoryEntry, allocSwapData, mbind at 1, M_bind, bind, get.
  destruct (findIndex _ _ _ _) as [index|].
  2:{ intros H. inversion H; subst. repeat split; auto. }
  destruct (swapHistory e !! index ≫= _) as [old|].
  2:{ intros H. inversion H; subst. repeat split; auto. }
  destruct (swapObjects e !! ref) as [updated|].
  2:{ intros H. inversion H; subst. repeat split; auto. }
  unfold mbind, M_bind, bind, modify. simpl.
  intros H. inversion H; subst. simpl. repeat split; auto.
  intros r0 Hr0. rewrite lookup_insert_ne by lia. reflexivity.
Qed.

Lemma updateHistoryEntry_neverThrows wanted ref : neverThrows (updateHistoryEntry wanted ref).
Proof.
  intros e. destruct (updateHistoryEntry wanted ref e) as [r e'] eqn:H.
  apply updateHistoryEntry_inv in H as [-> _]. eauto.
Qed.

Lemma tryCatch_neverThrows {A : Type} (body : M A) (handler : string -> M A) :
  (forall msg, neverThrows (handler msg)) -> neverThrows (tryCatch body handler).
Proof.
  intros Hh e. unfold tryCatch. destruct (body e) as [[a|msg] e1]; [eauto | apply Hh].
Qed.

Lemma saveCharacterBodyMap_sameHeap c m : preserves sameHeap (saveCharacterBodyMap c m).
Proof. frame. Qed.

Lemma loadCharacterBodyMap_sameHeap c : preserves sameHeap (loadCharacterBodyMap c).
Proof. frame. Qed.

(** The part of [reverseSwap] after the two saves cannot throw. *)
Lemma reversal_bookkeeping_neverThrows ref swap now (f : Stats -> Stats) (rr : ReverseResult) :
  neverThrows (updateSwapData ref (fun d => set_reversedAt now (set_status Reversed d));;
               modify (fun e => set_activeSwaps (delete swap (activeSwaps e)) e);;
               updateHistoryEntry swap ref;;
               bump_stats f;; fireEvent "swap-reversed";; mret rr).
Proof.
  intros e. unfold updateSwapData, bump_stats, fireEvent, mbind, M_bind, bind, modify,
                   mret, M_ret, ret. simpl.
  match goal with
  | |- context [updateHistoryEntry swap ref ?x] =>
      destruct (updateHistoryEntry_neverThrows swap ref x) as [[] Hu];
      destruct (updateHistoryEntry swap ref x) as [c e1]
  end.
  simpl in Hu. subst c. eauto.
Qed.

(** How [reverseSwap] can end. *)
Lemma reverseSwap_inv now swap e r e' :
  reverseSwap now swap e = (r, e') ->
  (isReady e = false /\ r = Throw "ZoneSwapEngine not ready" /\ e' = e)
  \/ (isReady e = true /\ r = Return None /\ quiet e e'
      /\ exists msg, last (errors e') = Some (mkErrorInfo "reverseSwap" msg false))
  \/ (isReady e = true /\
      exists ref d orig rr,
        r = Return (Some rr)
        /\ activeSwaps e !! swap = Some ref /\ swapObjects e !! ref = Some d
        /\ status d = Active /\ originalStates d = Some orig
        /\ ((rr_success rr = false /\ sameHeap e e')
            \/ (rr_success rr = true
                /\ activeSwaps e' = delete swap (activeSwaps e)
                /\ (nextRef e <= nextRef e')%nat
                /\ (forall r0, r0 ≠ ref -> (r0 < nextRef e)%nat ->
                               swapObjects e' !! r0 = swapObjects e !! r0)
                /\ bodyMaps e'
                   = <[targetCharId d :=
                         target orig ∪ default ∅ (bodyMaps e !! targetCharId d)]>
                       (<[sourceCharId d :=
                            source orig ∪ default ∅ (bodyMaps e !! sourceCharId d)]>
                          (bodyMaps e))))).
Proof.
  intros Hrun. unfold reverseSwap in Hrun.
  inv_bind Hrun x e0 Hget; [|discriminate Hget].
  unfold get in Hget. inversion Hget; subst x e0; clear Hget.
  destruct (isReady e) eqn:Hready; simpl in Hrun.
  2:{ left. inversion Hrun. auto. }
  right. unfold safeOperation in Hrun.
  inv_bind Hrun x e0 Hget; [|discriminate Hget].
  unfold get in Hget. inversion Hget; subst x e0; clear Hget.
  rewrite Hready in Hrun. simpl in Hrun.
  apply tryCatch_inv in Hrun as [(res & Hbody & ->)|(msg & e1 & Hbody & Hcatch)].
  - (* the operation answered *)
    right. split; [reflexivity|].
    inv_bind Hbody rr e1 Hop; [|discriminate].
    inversion Hbody; subst res e'; clear Hbody.
    inv_bind Hop x e0 Hget; [|discriminate].
    unfold get in Hget. inversion Hget; subst x e0; clear Hget.
    destruct (activeSwaps e !! swap) as [ref|] eqn:Hactive; [|discriminate Hop].
    destruct (swapObjects e !! ref) as [d|] eqn:Hobj; [|discriminate Hop].
    destruct (status d) eqn:Hstatus; try discriminate Hop.
    destruct (originalStates d) as [orig|] eqn:Horig; [|discriminate Hop].
    exists ref, d, orig, rr. repeat (split; [first [reflexivity | assumption]|]).
    apply tryCatch_inv in Hop as [(rr' & Htry & Heq)|(msg & e2 & Htry & Hcatch)].
    + (* restored *)
      inversion Heq; subst rr'; clear Heq. right.
      inv_bind Htry sm ea Hl1; [|discriminate].
      inv_bind Htry tm eb Hl2; [|discriminate].
      pose proof (preserves_snd _ _ _ _ _ (loadCharacterBodyMap_sameHeap _) Hl1) as Hh1.
      pose proof (preserves_snd _ _ _ _ _ (loadCharacterBodyMap_sameHeap _) Hl2) as Hh2.
      apply loadCharacterBodyMap_inv in Hl1 as [-> ->].
      apply loadCharacterBodyMap_inv in Hl2 as [-> ->]. simpl in Htry.
      inv_bind Htry b1 ec Hs1; [|discriminate].
      inv_bind Htry b2 ed Hs2; [|discriminate].
      pose proof (preserves_snd _ _ _ _ _ (saveCharacterBodyMap_sameHeap _ _) Hs1) as Hh3.
      pose proof (preserves_snd _ _ _ _ _ (saveCharacterBodyMap_sameHeap _ _) Hs2) as Hh4.
      apply saveCharacterBodyMap_inv in Hs1 as [[_ Hst1]|[[? ?] _]]; [|discriminate].
      apply saveCharacterBodyMap_inv in Hs2 as [[_ Hst2]|[[? ?] _]]; [|discriminate].
      simpl in Hst1.
      inv_bind Htry u ee Hupd; [|discriminate].
      unfold updateSwapData, modify in Hupd. inversion Hupd; subst u ee; clear Hupd.
      inv_bind Htry u ef Hdel; [|discriminate].
      unfold modify in Hdel. inversion Hdel; subst u ef; clear Hdel.
      inv_bind Htry u eg Hupdh; [|discriminate].
      apply updateHistoryEntry_inv in Hupdh as (_ & Hu1 & Hu2 & Hu3 & Hu4).
      unfold bump_stats, fireEvent, mbind, M_bind, bind, modify, mret, M_ret, ret in Htry.
      simpl in Htry. inversion Htry; subst rr e1; clear Htry. simpl in *.
      assert (Hheap : sameHeap e ed).
      { transitivity ec; [|exact Hh4]. etransitivity; [|exact Hh3].
        etransitivity; [exact Hh1|exact Hh2]. }
      destruct Hheap as (Ho & Hn & Ha).
      split; [reflexivity|]. split; [rewrite Hu2, Ha; reflexivity|].
      split; [lia|]. split.
      * intros r0 Hne Hlt. rewrite Hu4 by lia.
        rewrite lookup_alter_ne by congruence. rewrite Ho. reflexivity.
      * rewrite Hu1, Hst2, Hst1. reflexivity.
    + (* the restoration threw *)
      left.
      assert (Hrr : rr_success rr = false /\ sameHeap e2 e1).
      { unfold handleError, fireEvent, mbind, M_bind, bind, modify, mret, M_ret, ret in Hcatch.
        simpl in Hcatch. inversion Hcatch; subst. split; [reflexivity|]. repeat split. }
      destruct Hrr as [Hrr Hh]. split; [exact Hrr|].
      transitivity e2; [|exact Hh].
      revert Htry.
      match goal with
      | |- ?body e = _ -> _ => assert (Hpot : preservesOnThrow sameHeap body)
      end.
      { apply preservesOnThrow_bind; [apply _|frame|intros ?].
        apply preservesOnThrow_bind; [apply _|frame|intros ?].
        apply preservesOnThrow_bind; [apply _|frame|intros ?].
        apply preservesOnThrow_bind; [apply _|frame|intros ?].
        apply preservesOnThrow_neverThrows, reversal_bookkeeping_neverThrows. }
      intros Htry. apply (Hpot _ _ _ Htry).
  - (* a precondition failed *)
    left. split; [reflexivity|].
    quiet_step Hcatch.
    assert (Hr : r = Return None
                 /\ last (errors e') = Some (mkErrorInfo "reverseSwap" msg false)).
    { unfold handleError, fireEvent, mbind, M_bind, bind, modify, mret, M_ret, ret in Hcatch.
      simpl in Hcatch. inversion Hcatch. split; [reflexivity|]. simpl. apply last_snoc. }
    destruct Hr as [Hr Hlast].
    split; [exact Hr|]. split; [|eexists; exact Hlast].
    assert (e1 = e) as ->; [|assumption].
    inv_bind Hbody rr e2 Hop; [discriminate Hbody|].
    inv_bind Hop y e0 Hget; [|discriminate Hget].
    unfold get in Hget. inversion Hget; subst y e0; clear Hget.
    destruct (activeSwaps e !! swap) as [ref|]; [|inversion Hop; reflexivity].
    destruct (swapObjects e !! ref) as [d|]; [|inversion Hop; reflexivity].
    destruct (status d); try (inversion Hop; reflexivity).
    destruct (originalStates d) as [orig|]; [|inversion Hop; reflexivity].
    exfalso.
    match type of Hop with
    | tryCatch ?b ?h e = _ =>
        destruct (tryCatch_neverThrows b h) with (e := e) as [rr Hrr]
    end.
    + intros m e3. unfold handleError, fireEvent, mbind, M_bind, bind, modify, mret,
                          M_ret, ret. simpl. eauto.
    + rewrite Hop in Hrr. discriminate.
Qed.

Lemma snapshot_restores (m current : gmap string JsVal) (zoneList : list string) :
  (forall zone, zone ∈ zoneList -> truthy (getZone m zone) = true) ->
  (forall zone, zone ∉ zoneList -> current !! zone = m !! zone) ->
  cloneBodyMapZones (Some m) zoneList ∪ current = m.
Proof.
  intros Htruthy Hkeep. apply map_eq. intros zone.
  pose proof (cloneBodyMapZones_lookup m zoneList zone) as Hclone.
  destruct (decide (zone ∈ zoneList)) as [Hin|Hnotin].
  - rewrite (Htruthy zone Hin) in Hclone.
    rewrite (lookup_union_Some_l _ _ _ _ Hclone).
    specialize (Htruthy zone Hin). unfold getZone in *.
    destruct (m !! zone) as [v|]; [reflexivity|]. discriminate.
  - rewrite (lookup_union_r _ _ _ Hclone). apply Hkeep, Hnotin.
Qed.

(** C2, as amended. After a successful [performSwap] immediately
    followed by a successful [reverseSwap] of the same swap id, a
    character's body map is exactly its pre-swap body map provided every
    swapped zone had a truthy value on that character before the swap;
    the snapshot leaves out the zones that are absent or falsy, so those
    are not restored. *)
Theorem reverseSwap_restores_present_zones
    deps now later a b gid opts e res e1 rr e2 ms mt zoneList :
  performSwap deps now a b gid opts e = (Return (Some res), e1) ->
  sr_success res = true ->
  sr_zones res = Some zoneList ->
  reverseSwap later (sr_swapId res) e1 = (Return (Some rr), e2) ->
  rr_success rr = true ->
  bodyMaps e !! a = Some ms ->
  bodyMaps e !! b = Some mt ->
  ((forall zone, zone ∈ zoneList -> truthy (getZone ms zone) = true) ->
   bodyMaps e2 !! a = Some ms)
  /\ ((forall zone, zone ∈ zoneList -> truthy (getZone mt zone) = true) ->
      bodyMaps e2 !! b = Some mt).
Proof.
  intros Hrun Hsucc Hzones Hrev Hrsucc Hms Hmt.
  apply performSwap_inv in Hrun as [(_ & ? & _)|[(_ & ? & _)|Hrun]]; try discriminate.
  destruct Hrun as (_ & Hab & res' & zs & g & e0 & ex & Heq & Hne & Hq0 & Hexec
                    & Hq1 & _).
  inversion Heq; subst res'; clear Heq.
  destruct (executeSwap_spec deps now a b zs g opts e0)
    as (res' & Hfst & Hid & _ & _ & Hkeep & Hok & _).
  rewrite Hexec in Hfst, Hkeep, Hok. simpl in Hfst, Hkeep, Hok.
  inversion Hfst; subst res'; clear Hfst.
  destruct (Hok Hsucc) as (Hzs & Hactive & Hobj & _).
  rewrite Hzones in Hzs. inversion Hzs; subst zs; clear Hzs.
  destruct Hq0 as (Hst0 & _). destruct Hq1 as (Hst1 & Hobj1 & _ & Hact1 & _).
  apply reverseSwap_inv in Hrev as [(_ & ? & _)|[(_ & ? & _)|Hrev]]; try discriminate.
  destruct Hrev as (_ & ref & d & orig & rr' & Heq & Hlook & Hd & _ & Horig & Hcases).
  inversion Heq; subst rr'; clear Heq.
  destruct Hcases as [[Hfalse _]|(_ & _ & _ & _ & Hstore)]; [congruence|].
  rewrite Hact1, Hactive, Hid, lookup_insert_eq in Hlook.
  inversion Hlook; subst ref; clear Hlook.
  rewrite Hobj1, Hobj in Hd. inversion Hd; subst d; clear Hd.
  simpl in Horig, Hstore. inversion Horig; subst orig; clear Horig.
  unfold snapshotOf in Hstore. simpl in Hstore. rewrite Hst0, Hms, Hmt in Hstore.
  (* what the swap left in the store *)
  rewrite Hst0 in Hkeep. rewrite <- Hst1 in Hkeep.
  pose proof (Hkeep a) as Ka. pose proof (Hkeep b) as Kb. rewrite Hms in Ka. rewrite Hmt in Kb.
  destruct Ka as (ma & Hma & Hka). destruct Kb as (mb & Hmb & Hkb).
  rewrite Hma, Hmb in Hstore. simpl in Hstore.
  rewrite Hstore. split; intros Htruthy.
  - rewrite lookup_insert_ne, lookup_insert_eq by congruence.
    rewrite (snapshot_restores ms ma zoneList Htruthy Hka). reflexivity.
  - rewrite lookup_insert_eq.
    rewrite (snapshot_restores mt mb zoneList Htruthy Hkb). reflexivity.
Qed.

Lemma reverseSwap_restores_present_zones_witness :
  exists e2,
    snd (reverseSwap 2000 "swap_1000_1"
           (snd (performSwap noCollaborators 1000 "c1" "c2" "c1.0" JNull
                   Samples.sampleEngine))) = e2
    /\ bodyMaps e2 !! "c1" = Some Samples.c1Map
    /\ bodyMaps e2 !! "c2" = Some Samples.c2Map.
Proof.
  destruct (performSwap noCollaborators 1000 "c1" "c2" "c1.0" JNull Samples.sampleEngine)
    as [r e1] eqn:Hrun.
  assert (Hr : r = Return (Some (mkSwapResult true "swap_1000_1" (Some ["chest"])
                 (Some [mkZoneResult "chest" true (Val (JStr "flat")) (Val (JStr "large")) None])
                 None 1000))).
  { apply (f_equal fst) in Hrun. simpl in Hrun. rewrite <- Hrun. vm_compute. reflexivity. }
  subst r. simpl.
  destruct (reverseSwap 2000 "swap_1000_1" e1) as [r2 e2] eqn:Hrev.
  assert (Hr2 : r2 = Return (Some (mkReverseResult true "swap_1000_1" (Some 2000) None))).
  { apply (f_equal fst) in Hrev. apply (f_equal snd) in Hrun. simpl in Hrev, Hrun.
    rewrite <- Hrev, <- Hrun. vm_compute. reflexivity. }
  subst r2. exists e2. split; [reflexivity|].
  destruct (reverseSwap_restores_present_zones
              _ _ _ _ _ _ _ _ _ _ _ _ Samples.c1Map Samples.c2Map ["chest"]
              Hrun eq_refl eq_refl Hrev eq_refl) as [Ha Hb]; try reflexivity.
  split; [apply Ha | apply Hb];
    intros zone Hin; apply list_elem_of_singleton in Hin; subst zone; reflexivity.
Defined.

(** C2 as stated fails for a zone that one character lacks: [c2] has no
    chest, so the snapshot of [c2] is empty and, after a successful swap
    and a successful reversal, [c2] keeps the chest it got from [c1]. *)
Lemma reverseSwap_absent_zone_counterexample :
  exists res e1 rr e2,
    performSwap noCollaborators 1000 "c1" "c2" "c1.0" JNull Samples.engineWithoutChest
    = (Return (Some res), e1)
    /\ sr_success res = true /\ sr_zones res = Some ["chest"]
    /\ reverseSwap 2000 (sr_swapId res) e1 = (Return (Some rr), e2)
    /\ rr_success rr = true
    /\ getZoneOf (bodyMaps Samples.engineWithoutChest !! "c2") "chest" = Undefined
    /\ getZoneOf (bodyMaps e2 !! "c2") "chest" = Val (JStr "flat")
    /\ bodyMaps e2 !! "c2" ≠ bodyMaps Samples.engineWithoutChest !! "c2".
Proof.
  destruct (performSwap noCollaborators 1000 "c1" "c2" "c1.0" JNull
              Samples.engineWithoutChest) as [r e1] eqn:Hrun.
  assert (Hr : r = Return (Some (mkSwapResult true "swap_1000_1" (Some ["chest"])
                 (Some [mkZoneResult "chest" true (Val (JStr "flat")) Undefined None])
                 None 1000))).
  { apply (f_equal fst) in Hrun. simpl in Hrun. rewrite <- Hrun. vm_compute. reflexivity. }
  subst r.
  destruct (reverseSwap 2000 "swap_1000_1" e1) as [r2 e2] eqn:Hrev.
  assert (Hr2 : r2 = Return (Some (mkReverseResult true "swap_1000_1" (Some 2000) None))).
  { apply (f_equal fst) in Hrev. apply (f_equal snd) in Hrun. simpl in Hrev, Hrun.
    rewrite <- Hrev, <- Hrun. vm_compute. reflexivity. }
  assert (He2 : getZoneOf (bodyMaps e2 !! "c2") "chest" = Val (JStr "flat")).
  { apply (f_equal snd) in Hrev. apply (f_equal snd) in Hrun. simpl in Hrev, Hrun.
    rewrite <- Hrev, <- Hrun. vm_compute. reflexivity. }
  subst r2. eexists _, e1, _, e2.
  split; [reflexivity|]. split; [reflexivity|]. split; [reflexivity|].
  split; [exact Hrev|]. split; [reflexivity|]. split; [reflexivity|].
  split; [exact He2|].
  intros Heq. rewrite Heq in He2. vm_compute in He2. discriminate.
Qed.

(** *** Failed preconditions *)




(** *** The active set *)

Lemma heapInvariant_sameHeap e e' : sameHeap e e' -> heapInvariant e -> heapInvariant e'.
Proof.
  intros (Ho & Hn & Ha) (Hactive & Hfresh & Hinj).
  unfold heapInvariant, activeSetAllActive. rewrite Ho, Hn, Ha. auto.
Qed.

Lemma quiet_sameHeap e e' : quiet e e' -> sameHeap e e'.
Proof. intros (_ & Ho & Hn & Ha & _). repeat split; assumption. Qed.

Lemma heapInvariant_new s store faults : heapInvariant (newEngine s store faults).
Proof.
  unfold heapInvariant, activeSetAllActive. simpl.
  repeat split; intros; rewrite lookup_empty in *; discriminate.
Qed.

Lemma heapInvariant_executeSwap deps now a b zoneList g opts e :
  heapInvariant e -> heapInvariant (snd (executeSwap deps now a b zoneList g opts e)).
Proof.
  intros (Hactive & Hfresh & Hinj).
  destruct (executeSwap_spec deps now a b zoneList g opts e)
    as (res & _ & _ & Hnext & Hobjs & _ & Hok & Hfail).
  destruct (executeSwap deps now a b zoneList g opts e) as [r e']. simpl in *.
  destruct (sr_success res).
  - destruct (Hok eq_refl) as (_ & Hact & Hobj & _). clear Hok Hfail.
    unfold heapInvariant, activeSetAllActive. rewrite Hact, Hnext.
    split; [|split].
    + intros swap ref Hlook.
      destruct (decide (swap = nextSwapId now e)) as [->|Hne].
      * rewrite lookup_insert_eq in Hlook. inversion Hlook; subst ref.
        eexists. split; [exact Hobj|reflexivity].
      * rewrite lookup_insert_ne in Hlook by congruence.
        pose proof (Hfresh _ _ Hlook) as Hlt.
        rewrite Hobjs by lia. apply (Hactive _ _ Hlook).
    + intros swap ref Hlook.
      destruct (decide (swap = nextSwapId now e)) as [->|Hne].
      * rewrite lookup_insert_eq in Hlook. inversion Hlook. lia.
      * rewrite lookup_insert_ne in Hlook by congruence.
        pose proof (Hfresh _ _ Hlook). lia.
    + intros swap1 swap2 ref H1 H2.
      destruct (decide (swap1 = nextSwapId now e)) as [->|Hne1];
        destruct (decide (swap2 = nextSwapId now e)) as [->|Hne2];
        try reflexivity.
      * rewrite lookup_insert_eq in H1. rewrite lookup_insert_ne in H2 by congruence.
        inversion H1; subst ref. pose proof (Hfresh _ _ H2). lia.
      * rewrite lookup_insert_eq in H2. rewrite lookup_insert_ne in H1 by congruence.
        inversion H2; subst ref. pose proof (Hfresh _ _ H1). lia.
      * rewrite lookup_insert_ne in H1, H2 by congruence. apply (Hinj _ _ _ H1 H2).
  - destruct (Hfail eq_refl) as (_ & _ & Hact). clear Hok Hfail.
    unfold heapInvariant, activeSetAllActive. rewrite Hact, Hnext.
    split; [|split].
    + intros swap ref Hlook. pose proof (Hfresh _ _ Hlook) as Hlt.
      rewrite Hobjs by lia. apply (Hactive _ _ Hlook).
    + intros swap ref Hlook. pose proof (Hfresh _ _ Hlook). lia.
    + exact Hinj.
Qed.

Lemma heapInvariant_performSwap deps now a b gid opts e :
  heapInvariant e -> heapInvariant (snd (performSwap deps now a b gid opts e)).
Proof.
  intros Hinv.
  destruct (performSwap deps now a b gid opts e) as [r e'] eqn:Hrun. simpl.
  apply performSwap_inv in Hrun as [(_ & _ & ->)|[(_ & _ & Hq & _)|Hrun]].
  - exact Hinv.
  - apply (heapInvariant_sameHeap e); [apply quiet_sameHeap, Hq | exact Hinv].
  - destruct Hrun as (_ & _ & res & zs & g & e0 & e1 & _ & _ & Hq0 & Hexec & Hq1 & _).
    apply (heapInvariant_sameHeap e1); [apply quiet_sameHeap, Hq1|].
    replace e1 with (snd (executeSwap deps now a b zs g opts e0)) by (rewrite Hexec; reflexivity).
    apply heapInvariant_executeSwap.
    apply (heapInvariant_sameHeap e); [apply quiet_sameHeap, Hq0 | exact Hinv].
Qed.

Lemma heapInvariant_reverseSwap now swap e :
  heapInvariant e -> heapInvariant (snd (reverseSwap now swap e)).
Proof.
  intros Hinv.
  destruct (reverseSwap now swap e) as [r e'] eqn:Hrun. simpl.
  apply reverseSwap_inv in Hrun as [(_ & _ & ->)|[(_ & _ & Hq & _)|Hrun]].
  - exact Hinv.
  - apply (heapInvariant_sameHeap e); [apply quiet_sameHeap, Hq | exact Hinv].
  - destruct Hrun as (_ & ref & d & orig & rr & _ & Hlook & Hobj & _ & _ & Hcases).
    destruct Hcases as [[_ Hsame]|(_ & Hact & Hnext & Hobjs & _)].
    + apply (heapInvariant_sameHeap e); assumption.
    + destruct Hinv as (Hactive & Hfresh & Hinj).
      unfold heapInvariant, activeSetAllActive. rewrite Hact.
      split; [|split].
      * intros k ref' Hk. apply lookup_delete_Some in Hk as [Hne Hk].
        assert (ref' ≠ ref) by (intros ->; apply Hne, (Hinj _ _ _ Hlook Hk)).
        rewrite Hobjs by (auto; apply (Hfresh _ _ Hk)). apply (Hactive _ _ Hk).
      * intros k ref' Hk. apply lookup_delete_Some in Hk as [_ Hk].
        pose proof (Hfresh _ _ Hk). lia.
      * intros k1 k2 ref' H1 H2.
        apply lookup_delete_Some in H1 as [_ H1]. apply lookup_delete_Some in H2 as [_ H2].
        apply (Hinj _ _ _ H1 H2).
Qed.

Lemma heapInvariant_performCleanup now e :
  heapInvariant e -> heapInvariant (snd (performCleanup now e)).
Proof.
  intros (Hactive & Hfresh & Hinj).
  unfold performCleanup, fireEvent, mbind, M_bind, bind, modify. simpl.
  unfold heapInvariant, activeSetAllActive. simpl.
  split; [|split].
  - intros k ref Hk. apply map_lookup_filter_Some in Hk as [Hk _]. apply (Hactive _ _ Hk).
  - intros k ref Hk. apply map_lookup_filter_Some in Hk as [Hk _]. apply (Hfresh _ _ Hk).
  - intros k1 k2 ref H1 H2.
    apply map_lookup_filter_Some in H1 as [H1 _].
    apply map_lookup_filter_Some in H2 as [H2 _]. apply (Hinj _ _ _ H1 H2).
Qed.

Lemma heapInvariant_run deps o e : heapInvariant e -> heapInvariant (run deps o e).
Proof.
  destruct o; simpl.
  - apply heapInvariant_performSwap.
  - apply heapInvariant_reverseSwap.
  - apply heapInvariant_performCleanup.
  - intros Hinv. apply (heapInvariant_sameHeap e); [|exact Hinv]. repeat split.
Qed.

Lemma heapInvariant_reachable deps e : reachable deps e -> heapInvariant e.
Proof.
  induction 1 as [s store faults|o e _ IH];
    [apply heapInvariant_new | apply heapInvariant_run, IH].
Qed.

(** C10. In every engine reachable from a freshly initialised one by
    [performSwap], [reverseSwap], [performCleanup] and [clearHistory],
    every record of the active set has status ['active']. *)
Theorem active_set_holds_only_active_records deps e :
  reachable deps e -> activeSetAllActive e.
Proof. intros Hreach. apply heapInvariant_reachable in Hreach. apply Hreach. Qed.

Lemma active_set_holds_only_active_records_witness :
  reachable noCollaborators
    (run noCollaborators (OpReverseSwap 3000 "swap_1000_1")
       (run noCollaborators (OpPerformSwap 2000 "c2" "c1" "c2.3" JNull)
          (run noCollaborators (OpPerformSwap 1000 "c1" "c2" "c1.0" JNull)
             Samples.sampleEngine)))
  /\ activeSetAllActive
       (run noCollaborators (OpReverseSwap 3000 "swap_1000_1")
          (run noCollaborators (OpPerformSwap 2000 "c2" "c1" "c2.3" JNull)
             (run noCollaborators (OpPerformSwap 1000 "c1" "c2" "c1.0" JNull)
                Samples.sampleEngine))).
Proof.
  assert (Hreach : reachable noCollaborators
            (run noCollaborators (OpReverseSwap 3000 "swap_1000_1")
               (run noCollaborators (OpPerformSwap 2000 "c2" "c1" "c2.3" JNull)
                  (run noCollaborators (OpPerformSwap 1000 "c1" "c2" "c1.0" JNull)
                     Samples.sampleEngine)))).
  { apply reach_step, reach_step, reach_step. apply reach_new. }
  split; [exact Hreach|].
  apply (active_set_holds_only_active_records _ _ Hreach).
Defined.

End ZoneSwapFacts.

(** ** The character cache *)

Module CharCacheFacts.
Import Js CharCache CharCacheProps.

Lemma sublist_fmap_keys (l1 l2 : list (string * Z)) :
  l1 `sublist_of` l2 -> l1.*1 `sublist_of` l2.*1.
Proof.
  induction 1; simpl; [constructor | apply sublist_skip | apply sublist_cons]; assumption.
Qed.

Lemma insertByTime_perm x l : insertByTime x l ≡ₚ x :: l.
Proof.
  induction l as [|y l IH]; simpl; [reflexivity|].
  destruct (snd y <? snd x); [|reflexivity].
  rewrite IH. apply Permutation_swap.
Qed.

Lemma sortByTime_perm l : sortByTime l ≡ₚ l.
Proof.
  induction l as [|x l IH]; [reflexivity|].
  unfold sortByTime in *. simpl. rewrite insertByTime_perm, IH. reflexivity.
Qed.

Lemma sortedCharacters_NoDup h :
  NoDup (lastAccessTimes h).*1 -> NoDup (sortedCharacters h).*1.
Proof.
  intros Hnd. unfold sortedCharacters. rewrite sortByTime_perm.
  eapply sublist_NoDup; [exact Hnd|]. apply sublist_fmap_keys, sublist_filter.
Qed.

Lemma sortedCharacters_elem h characterId :
  characterId ∈ (sortedCharacters h).*1
  <-> characterId ∈ (lastAccessTimes h).*1 /\ isActive h characterId = false.
Proof.
  unfold sortedCharacters. rewrite sortByTime_perm.
  rewrite !list_elem_of_fmap. split.
  - intros ([k t] & -> & Hin). apply list_elem_of_filter in Hin as [Hact Hin].
    split; [exists (k, t); auto | exact Hact].
  - intros (([k t] & -> & Hin) & Hact). exists (k, t). split; [reflexivity|].
    apply list_elem_of_filter. auto.
Qed.

(** *** The selection loop *)

Lemma selectVictims_spec h requiredBytes sorted bytesFreed toEvict :
  exists victims,
    selectVictims h requiredBytes sorted bytesFreed toEvict
      = (bytesFreed + bytesOf victims, toEvict ++ victims)
    /\ victims.*1 `sublist_of` sorted.*1
    /\ (forall characterId, characterId ∈ victims.*1 ->
          is_Some (characterCache h !! characterId))
    /\ ((requiredBytes <= bytesFreed + bytesOf victims
         /\ cacheSize h - Z.of_nat (length (toEvict ++ victims)) < maxCachedCharacters h)
        \/ (forall characterId, characterId ∈ sorted.*1 ->
              is_Some (characterCache h !! characterId) -> characterId ∈ victims.*1)).
Proof.
  revert bytesFreed toEvict.
  induction sorted as [|[characterId t] rest IH]; intros bytesFreed toEvict.
  - exists []. simpl. rewrite Z.add_0_r, app_nil_r.
    repeat split; [constructor | intros ? Hin; inversion Hin |].
    right. intros ? Hin. inversion Hin.
  - simpl. destruct (characterCache h !! characterId) as [state|] eqn:Hstate.
    + destruct ((requiredBytes <=? bytesFreed + calculateStateSize state)
               && (cacheSize h - Z.of_nat (length (toEvict ++ [(characterId, calculateStateSize state)]))
                   <? maxCachedCharacters h)) eqn:Hstop.
      * exists [(characterId, calculateStateSize state)].
        unfold bytesOf. simpl. rewrite Z.add_0_r.
        split; [reflexivity|].
        split; [apply sublist_skip, sublist_nil_l|].
        split.
        { intros c Hin. apply list_elem_of_singleton in Hin as ->. rewrite Hstate. eauto. }
        left. apply andb_true_iff in Hstop as [Hfreed Hcount].
        apply Z.leb_le in Hfreed. apply Z.ltb_lt in Hcount. split; assumption.
      * destruct (IH (bytesFreed + calculateStateSize state)
                     (toEvict ++ [(characterId, calculateStateSize state)]))
          as (victims & Hsel & Hsub & Hcached & Hend).
        exists ((characterId, calculateStateSize state) :: victims).
        rewrite Hsel. rewrite <- !app_assoc. simpl.
        replace (bytesOf ((characterId, calculateStateSize state) :: victims))
          with (calculateStateSize state + bytesOf victims) by reflexivity.
        split; [f_equal; lia|].
        split; [apply sublist_skip, Hsub|].
        split.
        { intros c Hin. apply elem_of_cons in Hin as [->|Hin];
            [rewrite Hstate; eauto | apply Hcached, Hin]. }
        destruct Hend as [[Hfreed Hcount]|Hall].
        -- left. rewrite <- app_assoc in Hcount. simpl in Hcount. split; [lia|exact Hcount].
        -- right. intros c Hin Hsome. apply elem_of_cons in Hin as [->|Hin].
           ++ apply list_elem_of_here.
           ++ apply list_elem_of_further, Hall; assumption.
    + destruct (IH bytesFreed toEvict) as (victims & Hsel & Hsub & Hcached & Hend).
      exists victims. split; [exact Hsel|].
      split; [apply sublist_cons, Hsub|].
      split; [exact Hcached|].
      destruct Hend as [Hstop|Hall]; [left; exact Hstop|].
      right. intros c Hin Hsome. apply elem_of_cons in Hin as [->|Hin].
      * rewrite Hstate in Hsome. destruct Hsome; discriminate.
      * apply Hall; assumption.
Qed.

(** *** The eviction loop *)

Lemma evictAll_cons victim victims h :
  evictAll (victim :: victims) h = evictAll victims (evictOne victim h).
Proof. reflexivity. Qed.

Lemma evictAll_settings victims h :
  activeCharacterId (evictAll victims h) = activeCharacterId h
  /\ maxCachedCharacters (evictAll victims h) = maxCachedCharacters h
  /\ maxMemoryMB (evictAll victims h) = maxMemoryMB h
  /\ memoryThresholdMB (evictAll victims h) = memoryThresholdMB h.
Proof.
  revert h. induction victims as [|[k sz] victims IH]; intros h; [auto|].
  rewrite evictAll_cons. destruct (IH (evictOne (k, sz) h)) as (-> & -> & -> & ->).
  auto.
Qed.

Lemma evictAll_memory victims h :
  memoryUsageBytes (evictAll victims h) = memoryUsageBytes h - bytesOf victims.
Proof.
  revert h. induction victims as [|[k sz] victims IH]; intros h.
  - unfold bytesOf. simpl. lia.
  - rewrite evictAll_cons, IH.
    replace (bytesOf ((k, sz) :: victims)) with (sz + bytesOf victims) by reflexivity.
    simpl. lia.
Qed.

Lemma evictAll_lookup victims h characterId :
  characterCache (evictAll victims h) !! characterId
  = if decide (characterId ∈ victims.*1) then None
    else characterCache h !! characterId.
Proof.
  revert h. induction victims as [|[k sz] victims IH]; intros h.
  - simpl. destruct (decide (characterId ∈ [])) as [Hin|_]; [inversion Hin | reflexivity].
  - rewrite evictAll_cons, IH. simpl.
    destruct (decide (characterId ∈ victims.*1)) as [Hin|Hnin].
    + rewrite decide_True by (apply list_elem_of_further, Hin). reflexivity.
    + destruct (decide (characterId = k)) as [->|Hne].
      * rewrite decide_True by apply list_elem_of_here. apply lookup_delete_eq.
      * rewrite decide_False by (rewrite elem_of_cons; tauto).
        apply lookup_delete_ne. congruence.
Qed.

Lemma evictAll_size victims h :
  NoDup victims.*1 ->
  (forall characterId, characterId ∈ victims.*1 ->
     is_Some (characterCache h !! characterId)) ->
  cacheSize (evictAll victims h) = cacheSize h - Z.of_nat (length victims).
Proof.
  revert h. induction victims as [|[k sz] victims IH]; intros h Hnd Hcached.
  - simpl. lia.
  - simpl in Hnd. apply NoDup_cons in Hnd as [Hfresh Hnd].
    rewrite evictAll_cons, IH; [|exact Hnd|].
    + unfold cacheSize. simpl.
      assert (Hk : is_Some (characterCache h !! k)) by apply Hcached, list_elem_of_here.
      rewrite map_size_delete_Some by exact Hk.
      assert (size (characterCache h) <> 0%nat).
      { intros Hz. apply map_size_empty_iff in Hz. rewrite Hz, lookup_empty in Hk.
        destruct Hk; discriminate. }
      lia.
    + intros c Hin. simpl. rewrite lookup_delete_ne by (intros ->; contradiction).
      apply Hcached, list_elem_of_further, Hin.
Qed.

Lemma mapDelete_elem k m characterId :
  characterId ∈ (mapDelete k m).*1 <-> characterId <> k /\ characterId ∈ m.*1.
Proof.
  induction m as [|[k' v'] m IH]; simpl.
  - split; [intros Hin; inversion Hin | intros [_ Hin]; inversion Hin].
  - destruct (String.eqb_spec k' k) as [->|Hne]; simpl;
      rewrite ?elem_of_cons, IH; [|split; [intros [->|[? ?]]|]; auto; tauto].
    split; [tauto|]. intros [Hne [->|Hin]]; [contradiction|auto].
Qed.

Lemma mapDelete_sublist k m : mapDelete k m `sublist_of` m.
Proof.
  induction m as [|[k' v'] m IH]; simpl; [constructor|].
  destruct (String.eqb k' k); [apply sublist_cons | apply sublist_skip]; exact IH.
Qed.

Lemma mapDelete_NoDup k m : NoDup m.*1 -> NoDup (mapDelete k m).*1.
Proof.
  intros Hnd. eapply sublist_NoDup; [exact Hnd|].
  apply sublist_fmap_keys, mapDelete_sublist.
Qed.

Lemma mapSet_elem k v m characterId :
  characterId ∈ (mapSet k v m).*1 <-> characterId = k \/ characterId ∈ m.*1.
Proof.
  induction m as [|[k' v'] m IH]; simpl.
  - rewrite list_elem_of_singleton. split; [auto|]. intros [?|Hin]; [auto|inversion Hin].
  - destruct (String.eqb_spec k' k) as [->|Hne]; simpl; rewrite !elem_of_cons.
    + tauto.
    + rewrite IH. tauto.
Qed.

Lemma mapSet_NoDup k v m : NoDup m.*1 -> NoDup (mapSet k v m).*1.
Proof.
  induction m as [|[k' v'] m IH]; simpl; intros Hnd.
  - apply NoDup_singleton.
  - apply NoDup_cons in Hnd as [Hfresh Hnd].
    destruct (String.eqb_spec k' k) as [->|Hne]; simpl.
    + apply NoDup_cons. auto.
    + apply NoDup_cons. split; [|auto].
      rewrite mapSet_elem. intros [->|Hin]; contradiction.
Qed.

Lemma evictAll_times_elem victims h characterId :
  characterId ∈ (lastAccessTimes (evictAll victims h)).*1
  <-> (characterId ∉ victims.*1) /\ characterId ∈ (lastAccessTimes h).*1.
Proof.
  revert h. induction victims as [|[k sz] victims IH]; intros h.
  - simpl. split; [intros Hin; split; [intros H; inversion H | exact Hin] | tauto].
  - rewrite evictAll_cons, IH. simpl. rewrite mapDelete_elem, elem_of_cons. tauto.
Qed.

Lemma evictAll_times_NoDup victims h :
  NoDup (lastAccessTimes h).*1 -> NoDup (lastAccessTimes (evictAll victims h)).*1.
Proof.
  revert h. induction victims as [|[k sz] victims IH]; intros h Hnd; [exact Hnd|].
  rewrite evictAll_cons. apply IH. simpl. apply mapDelete_NoDup, Hnd.
Qed.

(** *** One eviction pass *)

Lemma evictCharacters_inv requiredBytes h :
  exists victims,
    characterCache (evictCharacters requiredBytes h) = characterCache (evictAll victims h)
    /\ lastAccessTimes (evictCharacters requiredBytes h) = lastAccessTimes (evictAll victims h)
    /\ memoryUsageBytes (evictCharacters requiredBytes h) = memoryUsageBytes h - bytesOf victims
    /\ activeCharacterId (evictCharacters requiredBytes h) = activeCharacterId h
    /\ maxCachedCharacters (evictCharacters requiredBytes h) = maxCachedCharacters h
    /\ maxMemoryMB (evictCharacters requiredBytes h) = maxMemoryMB h
    /\ victims.*1 `sublist_of` (sortedCharacters h).*1
    /\ (forall characterId, characterId ∈ victims.*1 ->
          is_Some (characterCache h !! characterId))
    /\ ((requiredBytes <= bytesOf victims
         /\ cacheSize h - Z.of_nat (length victims) < maxCachedCharacters h)
        \/ (forall characterId, characterId ∈ (sortedCharacters h).*1 ->
              is_Some (characterCache h !! characterId) -> characterId ∈ victims.*1)).
Proof.
  unfold evictCharacters. destruct (cacheSize h =? 0) eqn:Hempty.
  - exists []. apply Z.eqb_eq in Hempty. unfold cacheSize in Hempty.
    assert (Hnone : characterCache h = ∅) by (apply map_size_empty_iff; lia).
    unfold bytesOf. simpl. rewrite Z.sub_0_r.
    repeat split; [apply sublist_nil_l | intros ? Hin; inversion Hin |].
    right. intros c _ Hsome. rewrite Hnone, lookup_empty in Hsome.
    destruct Hsome; discriminate.
  - destruct (selectVictims_spec h requiredBytes (sortedCharacters h) 0 [])
      as (victims & -> & Hsub & Hcached & Hend).
    exists victims. simpl in Hend. rewrite !Z.add_0_l in Hend.
    destruct (evictAll_settings victims h) as (Hactive & Hmax & Hmem & _).
    pose proof (evictAll_memory victims h) as Hbytes.
    simpl. destruct (_ <? _); simpl; repeat split; assumption.
Qed.

Lemma wellKeyed_evictCharacters requiredBytes h :
  wellKeyed h -> wellKeyed (evictCharacters requiredBytes h).
Proof.
  intros [Hnd Hcov].
  destruct (evictCharacters_inv requiredBytes h)
    as (victims & Hcache & Htimes & _).
  unfold wellKeyed. rewrite Hcache, Htimes. split.
  - apply evictAll_times_NoDup, Hnd.
  - intros c Hsome. rewrite evictAll_lookup in Hsome.
    apply evictAll_times_elem.
    destruct (decide (c ∈ victims.*1)) as [Hin|Hnin];
      [destruct Hsome; discriminate | split; [exact Hnin | apply Hcov, Hsome]].
Qed.

Lemma evictCharacters_spec requiredBytes h :
  wellKeyed h ->
  (forall characterId, isActive h characterId = true ->
     characterCache (evictCharacters requiredBytes h) !! characterId
     = characterCache h !! characterId)
  /\ ((cacheSize (evictCharacters requiredBytes h)
         < maxCachedCharacters (evictCharacters requiredBytes h)
       /\ memoryUsageBytes (evictCharacters requiredBytes h)
          <= memoryUsageBytes h - requiredBytes)
      \/ (forall characterId, isActive h characterId = false ->
            characterCache (evictCharacters requiredBytes h) !! characterId = None)).
Proof.
  intros [Hnd Hcov].
  destruct (evictCharacters_inv requiredBytes h)
    as (victims & Hcache & _ & Hbytes & _ & Hmax & _ & Hsub & Hcached & Hend).
  assert (Hvictims : NoDup victims.*1)
    by (eapply sublist_NoDup; [apply sortedCharacters_NoDup, Hnd | exact Hsub]).
  split.
  - intros c Hactive. rewrite Hcache, evictAll_lookup.
    rewrite decide_False; [reflexivity|]. intros Hin.
    assert (Hsorted : c ∈ (sortedCharacters h).*1)
      by (eapply elem_of_sublist; eassumption).
    apply sortedCharacters_elem in Hsorted as [_ Hinactive]. congruence.
  - destruct Hend as [[Hfreed Hcount]|Hall].
    + left. split.
      * unfold cacheSize at 1. rewrite Hcache, Hmax.
        fold (cacheSize (evictAll victims h)).
        rewrite evictAll_size by assumption. exact Hcount.
      * lia.
    + right. intros c Hinactive. rewrite Hcache, evictAll_lookup.
      destruct (decide (c ∈ victims.*1)) as [Hin|Hnin]; [reflexivity|].
      destruct (characterCache h !! c) as [state|] eqn:Hstate; [|reflexivity].
      exfalso. apply Hnin, Hall; [|rewrite Hstate; eauto].
      apply sortedCharacters_elem. split; [|exact Hinactive].
      apply Hcov. rewrite Hstate. eauto.
Qed.

(** *** Handlers the calls lead to *)

Lemma wellKeyed_set c state now h :
  wellKeyed h ->
  NoDup (mapSet c now (lastAccessTimes h)).*1
  /\ forall characterId,
       is_Some (<[c := state]> (characterCache h) !! characterId) ->
       characterId ∈ (mapSet c now (lastAccessTimes h)).*1.
Proof.
  intros [Hnd Hcov]. split; [apply mapSet_NoDup, Hnd|].
  intros k Hsome. apply mapSet_elem.
  destruct (decide (k = c)) as [->|Hne]; [left; reflexivity|].
  right. rewrite lookup_insert_ne in Hsome by congruence. apply Hcov, Hsome.
Qed.

Lemma wellKeyed_touch c now h :
  wellKeyed h ->
  NoDup (mapSet c now (lastAccessTimes h)).*1
  /\ forall characterId,
       is_Some (characterCache h !! characterId) ->
       characterId ∈ (mapSet c now (lastAccessTimes h)).*1.
Proof.
  intros [Hnd Hcov]. split; [apply mapSet_NoDup, Hnd|].
  intros k Hsome. apply mapSet_elem. right. apply Hcov, Hsome.
Qed.

Lemma wellKeyed_cacheCharacter now c state h :
  wellKeyed h -> wellKeyed (snd (cacheCharacter now c state h)).
Proof.
  intros Hwk. unfold cacheCharacter.
  destruct state as [state|]; [|exact Hwk].
  destruct (String.eqb c ""); [exact Hwk|].
  set (h1 := if memoryBudgetBytes h <? memoryUsageBytes h + calculateStateSize state
             then evictCharacters (calculateStateSize state) h else h).
  assert (Hwk1 : wellKeyed h1)
    by (subst h1; destruct (_ <? _); [apply wellKeyed_evictCharacters|]; exact Hwk).
  set (h2 := if maxCachedCharacters h1 <=? cacheSize h1 then evictCharacters 0 h1 else h1).
  assert (Hwk2 : wellKeyed h2)
    by (subst h2; destruct (_ <=? _); [apply wellKeyed_evictCharacters|]; exact Hwk1).
  clearbody h2. clear h1 Hwk1 Hwk.
  apply (wellKeyed_set c state now h2 Hwk2).
Qed.

Lemma wellKeyed_deleteCharacter c h :
  wellKeyed h -> wellKeyed (snd (deleteCharacter c h)).
Proof.
  intros [Hnd Hcov]. unfold deleteCharacter.
  destruct (String.eqb c ""); [split; assumption|].
  destruct (isActive h c); [split; assumption|].
  split; simpl.
  - apply mapDelete_NoDup, Hnd.
  - intros k Hsome. apply mapDelete_elem.
    destruct (decide (k = c)) as [->|Hne].
    + rewrite lookup_delete_eq in Hsome. destruct Hsome; discriminate.
    + rewrite lookup_delete_ne in Hsome by congruence. split; [exact Hne | apply Hcov, Hsome].
Qed.

Lemma wellKeyed_loadCachedState now c h :
  wellKeyed h -> wellKeyed (snd (loadCachedState now c h)).
Proof.
  intros Hwk. unfold loadCachedState.
  destruct (characterCache h !! c); [|exact Hwk].
  apply (wellKeyed_touch c now h Hwk).
Qed.

Lemma wellKeyed_switchToCached now c h :
  wellKeyed h -> wellKeyed (switchToCached now c h).
Proof.
  intros Hwk. unfold switchToCached.
  pose proof (wellKeyed_loadCachedState now c h Hwk) as Hwk1.
  destruct (loadCachedState now c h) as [[state|] h1]; simpl in Hwk1; [|exact Hwk1].
  apply (wellKeyed_touch c now h1 Hwk1).
Qed.

Lemma wellKeyed_reachable h : reachable h -> wellKeyed h.
Proof.
  induction 1 as [maxCharacters memoryThreshold autoSave|o h _ IH].
  - split; simpl; [constructor|].
    intros k Hsome. rewrite lookup_empty in Hsome. destruct Hsome; discriminate.
  - destruct o; simpl.
    + apply wellKeyed_cacheCharacter, IH.
    + apply wellKeyed_deleteCharacter, IH.
    + apply wellKeyed_loadCachedState, IH.
    + apply wellKeyed_switchToCached, IH.
Qed.

(** X14. What one pass guarantees on its own, whatever the tracked usage
    was before it: the pinned character is never evicted, and the pass ends
    either with the requested bytes freed and fewer than
    [maxCachedCharacters] entries cached, or with no entry left but the
    pinned one. *)
Lemma eviction_pass_keeps_pinned_and_frees_request requiredBytes h :
  reachable h ->
  (forall characterId, isActive h characterId = true ->
     characterCache (evictCharacters requiredBytes h) !! characterId
     = characterCache h !! characterId)
  /\ ((cacheSize (evictCharacters requiredBytes h)
         < maxCachedCharacters (evictCharacters requiredBytes h)
       /\ memoryUsageBytes (evictCharacters requiredBytes h)
          <= memoryUsageBytes h - requiredBytes)
      \/ (forall characterId, isActive h characterId = false ->
            characterCache (evictCharacters requiredBytes h) !! characterId = None)).
Proof. intros Hreach. apply evictCharacters_spec, wellKeyed_reachable, Hreach. Qed.

Lemma handlerAfterDeletions_reachable : reachable Samples.handlerAfterDeletions.
Proof.
  unfold Samples.handlerAfterDeletions, Samples.initialHandler.
  repeat apply reach_step. apply reach_init.
Qed.

Lemma eviction_pass_keeps_pinned_and_frees_request_witness :
  reachable Samples.handlerWithPinned
  /\ (forall characterId, isActive Samples.handlerWithPinned characterId = true ->
        characterCache (evictCharacters 0 Samples.handlerWithPinned) !! characterId
        = characterCache Samples.handlerWithPinned !! characterId)
  /\ ((cacheSize (evictCharacters 0 Samples.handlerWithPinned)
         < maxCachedCharacters (evictCharacters 0 Samples.handlerWithPinned)
       /\ memoryUsageBytes (evictCharacters 0 Samples.handlerWithPinned)
          <= memoryUsageBytes Samples.handlerWithPinned - 0)
      \/ (forall characterId, isActive Samples.handlerWithPinned characterId = false ->
            characterCache (evictCharacters 0 Samples.handlerWithPinned) !! characterId
            = None)).
Proof.
  assert (Hreach : reachable Samples.handlerWithPinned).
  { unfold Samples.handlerWithPinned. repeat apply reach_step. apply reach_init. }
  split; [exact Hreach|].
  apply (eviction_pass_keeps_pinned_and_frees_request 0 Samples.handlerWithPinned Hreach).
Defined.

(** C9 on a handler that has deleted characters. [deleteCharacter] drops
    the entry but leaves its bytes in [memoryUsageBytes] (the eviction
    loop and [cleanupInactiveCharacters] subtract them). Two characters
    are created and deleted again, a third one is created; the pass that
    [cacheCharacter] runs to make room for a fourth one of 2 000 bytes
    evicts the third and stops. Nothing is cached, no character is
    pinned, and the tracked usage is 120 000 000 bytes against a budget
    of 104 857 600. *)
Theorem eviction_pass_after_deletions_stays_over_budget :
  reachable Samples.handlerAfterDeletions
  /\ fst (cacheCharacter 7 "d" (Some (Samples.smallState "d")) Samples.handlerAfterDeletions)
     = true
  /\ memoryBudgetBytes Samples.handlerAfterDeletions
     < memoryUsageBytes Samples.handlerAfterDeletions
       + calculateStateSize (Samples.smallState "d")
  /\ calculateStateSize (Samples.smallState "d") = 2000
  /\ activeCharacterId (evictCharacters 2000 Samples.handlerAfterDeletions) = None
  /\ characterCache (evictCharacters 2000 Samples.handlerAfterDeletions) = ∅
  /\ memoryUsageBytes (evictCharacters 2000 Samples.handlerAfterDeletions) = 120000000
  /\ memoryBudgetBytes (evictCharacters 2000 Samples.handlerAfterDeletions) = 104857600
  /\ ~ withinBoundsExceptPinned (evictCharacters 2000 Samples.handlerAfterDeletions).
Proof.
  split; [exact handlerAfterDeletions_reachable|].
  split; [reflexivity|].
  split; [vm_compute; reflexivity|].
  split; [reflexivity|].
  split; [vm_compute; reflexivity|].
  split; [vm_compute; reflexivity|].
  split; [vm_compute; reflexivity|].
  split; [vm_compute; reflexivity|].
  intros [_ Hmemory]. vm_compute in Hmemory. apply Hmemory. reflexivity.
Qed.

End CharCacheFacts.

(** * Further properties *)

Module HistoryLaws.
Import Js History HistoryFacts HistoryProps.

Lemma nth_Z_in_range {A : Type} (l : list A) (i : Z) :
  0 <= i < Z.of_nat (length l) -> is_Some (nth_Z l i).
Proof.
  intros Hi. unfold nth_Z. destruct (i <? 0) eqn:E; [lia|].
  apply lookup_lt_is_Some. lia.
Qed.

Lemma canUndo_spec t : canUndo t = true <-> 0 <= currentIndex t /\ 0 < historyLength t.
Proof. unfold canUndo. rewrite andb_true_iff, Z.leb_le, Z.ltb_lt. reflexivity. Qed.

Lemma canRedo_spec t : canRedo t = true <-> currentIndex t < historyLength t - 1.
Proof. unfold canRedo. apply Z.ltb_lt. Qed.

Lemma undo_spec t :
  indexInRange t -> canUndo t = true ->
  success (fst (undo t)) = true
  /\ newIndex (fst (undo t)) = Some (currentIndex t - 1)
  /\ history (snd (undo t)) = history t
  /\ currentIndex (snd (undo t)) = currentIndex t - 1
  /\ maxHistorySize (snd (undo t)) = maxHistorySize t.
Proof.
  intros Hrange Hcan. unfold undo. rewrite Hcan. simpl.
  apply canUndo_spec in Hcan as [H0 Hlen].
  destruct (nth_Z_in_range (history t) (currentIndex t)) as [entry ->].
  { unfold indexInRange, historyLength in *. lia. }
  simpl. auto.
Qed.

Lemma redo_spec t :
  indexInRange t -> canRedo t = true ->
  success (fst (redo t)) = true
  /\ newIndex (fst (redo t)) = Some (currentIndex t + 1)
  /\ history (snd (redo t)) = history t
  /\ currentIndex (snd (redo t)) = currentIndex t + 1
  /\ maxHistorySize (snd (redo t)) = maxHistorySize t.
Proof.
  intros Hrange Hcan. unfold redo. rewrite Hcan. simpl.
  apply canRedo_spec in Hcan.
  destruct (nth_Z_in_range (history t) (currentIndex t + 1)) as [entry ->].
  { unfold indexInRange, historyLength in *. lia. }
  simpl. auto.
Qed.

(** X1. On a tracker whose index is in range, an undo that is available
    succeeds, moves the index one entry down and leaves the log alone,
    and the redo that follows brings the index back; and the other way
    round for an available redo followed by an undo. *)
Theorem undo_and_redo_are_inverse (t : Tracker) :
  indexInRange t ->
  (canUndo t = true ->
   success (fst (undo t)) = true
   /\ currentIndex (snd (undo t)) = currentIndex t - 1
   /\ success (fst (redo (snd (undo t)))) = true
   /\ history (snd (redo (snd (undo t)))) = history t
   /\ currentIndex (snd (redo (snd (undo t)))) = currentIndex t)
  /\ (canRedo t = true ->
      success (fst (redo t)) = true
      /\ currentIndex (snd (redo t)) = currentIndex t + 1
      /\ success (fst (undo (snd (redo t)))) = true
      /\ history (snd (undo (snd (redo t)))) = history t
      /\ currentIndex (snd (undo (snd (redo t)))) = currentIndex t).
Proof.
  intros Hrange. split; intros Hcan.
  - destruct (undo_spec t Hrange Hcan) as (Hs & _ & Hh & Hi & _).
    apply canUndo_spec in Hcan as [H0 Hlen].
    assert (Hrange' : indexInRange (snd (undo t))).
    { unfold indexInRange, historyLength in *. rewrite Hh, Hi. lia. }
    assert (Hcan' : canRedo (snd (undo t)) = true).
    { apply canRedo_spec. unfold indexInRange, historyLength in *. rewrite Hh, Hi. lia. }
    destruct (redo_spec _ Hrange' Hcan') as (Hs' & _ & Hh' & Hi' & _).
    rewrite Hh', Hi', Hh, Hi. repeat split; auto; lia.
  - destruct (redo_spec t Hrange Hcan) as (Hs & _ & Hh & Hi & _).
    apply canRedo_spec in Hcan.
    assert (Hrange' : indexInRange (snd (redo t))).
    { unfold indexInRange, historyLength in *. rewrite Hh, Hi. lia. }
    assert (Hcan' : canUndo (snd (redo t)) = true).
    { apply canUndo_spec. unfold indexInRange, historyLength in *. rewrite Hh, Hi. lia. }
    destruct (undo_spec _ Hrange' Hcan') as (Hs' & _ & Hh' & Hi' & _).
    rewrite Hh', Hi', Hh, Hi. repeat split; auto; lia.
Qed.

Lemma undo_and_redo_are_inverse_witness :
  currentIndex (snd (redo (snd (undo (addEntryToHistory Samples.entryA newTracker))))) = 0
  /\ currentIndex (snd (undo (snd (redo Samples.trackerABC_atB)))) = 1.
Proof.
  destruct (undo_and_redo_are_inverse (addEntryToHistory Samples.entryA newTracker))
    as [Hundo _].
  { unfold indexInRange. vm_compute. split; discriminate. }
  destruct (undo_and_redo_are_inverse Samples.trackerABC_atB) as [_ Hredo].
  { unfold indexInRange. vm_compute. split; discriminate. }
  split.
  - apply Hundo. reflexivity.
  - apply Hredo. reflexivity.
Defined.

Lemma hist_id_nonEmpty suffix : nonEmpty ("hist_" +:+ suffix) = true.
Proof. reflexivity. Qed.






(** The clone of a number that is not finite, of [NaN] and of
    [undefined] is not truthy: such data is never recorded. *)
Lemma clone_of_non_finite_is_rejected type descr negative :
  acceptable type (VInfinity negative) descr = false
  /\ acceptable type VNaN descr = false
  /\ acceptable type VUndefined descr = false.
Proof.
  unfold acceptable. simpl. rewrite !andb_false_r. auto.
Qed.


Lemma nth_Z_last {A : Type} (l : list A) :
  l <> [] -> nth_Z l (Z.of_nat (length l) - 1) = last l.
Proof.
  intros Hne. unfold nth_Z. destruct l as [|x l]; [contradiction|].
  destruct (_ <? 0) eqn:E; [apply Z.ltb_lt in E; simpl in E; lia|].
  rewrite last_lookup. f_equal. simpl. lia.
Qed.

Lemma last_drop_lt {A : Type} (l : list A) (k : nat) :
  (k < length l)%nat -> last (drop k l) = last l.
Proof.
  intros Hk. rewrite !last_lookup, lookup_drop, length_drop. f_equal. lia.
Qed.

Lemma addEntryToHistory_length entry t :
  indexInRange t -> 1 <= maxHistorySize t ->
  historyLength (addEntryToHistory entry t)
  = Z.min (currentIndex t + 2) (maxHistorySize t).
Proof.
  intros Hrange Hmax. unfold historyLength.
  rewrite addEntryToHistory_history by (unfold indexInRange in Hrange; lia).
  unfold indexInRange, historyLength in Hrange.
  rewrite length_drop. unfold branchWith. rewrite length_app, length_take. simpl. lia.
Qed.

(** X3. Recording keeps the log within its capacity: after
    [addEntryToHistory] the log holds at most [maxHistorySize] entries,
    the new entry is the last one and the current one, and a full log
    whose index is at the tail loses exactly its oldest entry. *)
Theorem recording_keeps_log_within_capacity (entry : HistoryEntry) (t : Tracker) :
  indexInRange t -> 1 <= maxHistorySize t ->
  historyLength (addEntryToHistory entry t) <= maxHistorySize t
  /\ nth_Z (history (addEntryToHistory entry t))
           (currentIndex (addEntryToHistory entry t)) = Some entry
  /\ (currentIndex t = historyLength t - 1 -> historyLength t = maxHistorySize t ->
      history (addEntryToHistory entry t) = drop 1 (history t) ++ [entry]).
Proof.
  intros Hrange Hmax.
  pose proof (addEntryToHistory_length entry t Hrange Hmax) as Hlen.
  pose proof (addEntryToHistory_tail entry t Hmax) as Htail.
  assert (Hhist := addEntryToHistory_history entry t).
  unfold indexInRange in Hrange. specialize (Hhist Hrange ltac:(lia)).
  split; [lia|]. split.
  - rewrite Htail. unfold historyLength. rewrite nth_Z_last.
    + rewrite Hhist. rewrite last_drop_lt; [apply last_snoc|].
      unfold branchWith. rewrite length_app. simpl. lia.
    + intros Hnil. unfold historyLength in Hlen. rewrite Hnil in Hlen. simpl in Hlen. lia.
  - intros Hattail Hfull. rewrite Hhist. unfold branchWith.
    unfold historyLength in *.
    rewrite take_ge by lia. rewrite length_app. simpl.
    rewrite drop_app_le by lia. f_equal. f_equal. lia.
Qed.

Lemma recording_keeps_log_within_capacity_witness :
  history (addEntryToHistory Samples.entryD
             (set_maxHistorySize 3
                (addEntryToHistory Samples.entryC
                   (addEntryToHistory Samples.entryB
                      (addEntryToHistory Samples.entryA newTracker)))))
  = [Samples.entryB; Samples.entryC; Samples.entryD].
Proof.
  destruct (recording_keeps_log_within_capacity Samples.entryD
              (set_maxHistorySize 3
                 (addEntryToHistory Samples.entryC
                    (addEntryToHistory Samples.entryB
                       (addEntryToHistory Samples.entryA newTracker)))))
    as (_ & _ & Hfull).
  - unfold indexInRange. vm_compute. split; discriminate.
  - vm_compute. discriminate.
  - apply Hfull; reflexivity.
Defined.

(** *** Import *)

Lemma insertSorted_perm x l : insertSorted x l ≡ₚ x :: l.
Proof.
  induction l as [|y l IH]; simpl; [reflexivity|].
  destruct (laterThan x y); [|reflexivity].
  rewrite IH. apply Permutation_swap.
Qed.

Lemma sortByTimestamp_perm l : sortByTimestamp l ≡ₚ l.
Proof.
  induction l as [|x l IH]; [reflexivity|].
  unfold sortByTimestamp in *. simpl. rewrite insertSorted_perm, IH. reflexivity.
Qed.

Lemma insertSorted_sorted x l :
  hasInstant x -> Forall hasInstant l ->
  StronglySorted notLater l -> StronglySorted notLater (insertSorted x l).
Proof.
  intros [mx Hx] Hall Hsorted. induction Hsorted as [|y l Hsorted IH Hy]; simpl.
  - repeat constructor.
  - apply Forall_cons in Hall as [[my Hmy] Hall].
    destruct (laterThan x y) eqn:Hlater.
    + constructor; [apply IH, Hall|].
      rewrite insertSorted_perm. constructor; [|exact Hy].
      unfold notLater, laterThan in *. rewrite Hx, Hmy in *.
      apply Z.ltb_lt in Hlater. apply Z.ltb_ge. lia.
    + constructor; [constructor; assumption|].
      constructor; [exact Hlater|].
      rewrite Forall_forall in Hy, Hall |- *. intros z Hz.
      specialize (Hy z Hz). destruct (Hall z Hz) as [mz Hmz].
      unfold notLater, laterThan in *. rewrite Hx, Hmy, Hmz in *.
      apply Z.ltb_ge in Hlater, Hy. apply Z.ltb_ge. lia.
Qed.

Lemma sortByTimestamp_sorted l :
  Forall hasInstant l -> StronglySorted notLater (sortByTimestamp l).
Proof.
  induction l as [|x l IH]; intros Hall; [constructor|].
  apply Forall_cons in Hall as [Hx Hall].
  unfold sortByTimestamp in *. simpl. apply insertSorted_sorted; [exact Hx| |apply IH, Hall].
  fold (sortByTimestamp l). rewrite sortByTimestamp_perm. exact Hall.
Qed.

Lemma valid_entry_hasInstant e : validateHistoryEntry e = true -> hasInstant e.
Proof.
  unfold validateHistoryEntry, hasInstant.
  destruct (validateHistoryEntry_errors e) eqn:E; [|discriminate]. intros _.
  unfold validateHistoryEntry_errors in E.
  repeat (apply app_eq_nil in E as [? E]).
  destruct (timestamp e) as [| |ms]; [discriminate|discriminate|eauto].
Qed.

Lemma firstUnreadable_entries entries : firstUnreadable (List.map ImportedEntry entries) = None.
Proof. induction entries as [|e entries IH]; [reflexivity | exact IH]. Qed.

Lemma readableEntries_entries entries : readableEntries (List.map ImportedEntry entries) = entries.
Proof. induction entries as [|e entries IH]; [reflexivity | simpl; f_equal; exact IH]. Qed.

Lemma firstUnreadable_some importedHistory :
  ImportedNull ∈ importedHistory \/ ImportedUndefined ∈ importedHistory ->
  exists msg, firstUnreadable importedHistory = Some msg.
Proof.
  induction importedHistory as [|x l IH]; intros Hin.
  - destruct Hin as [Hin|Hin]; inversion Hin.
  - destruct x as [| |e]; simpl; eauto.
    apply IH. destruct Hin as [Hin|Hin]; apply elem_of_cons in Hin as [Hin|Hin];
      try discriminate; auto.
Qed.

Lemma importHistory_inv imp entries merge t :
  0 <= maxHistorySize t ->
  validateImportData (Some imp) = true ->
  imp_history imp = Some (List.map ImportedEntry entries) ->
  success (fst (importHistory (Some imp) merge t)) = true
  /\ history (snd (importHistory (Some imp) merge t))
     = drop (length (stagedImport merge entries t) - Z.to_nat (maxHistorySize t))
            (stagedImport merge entries t)
  /\ maxHistorySize (snd (importHistory (Some imp) merge t)) = maxHistorySize t.
Proof.
  intros Hmax Hvalid Himp. unfold importHistory. rewrite Hvalid. simpl.
  rewrite Himp. simpl. rewrite firstUnreadable_entries, readableEntries_entries.
  split; [reflexivity|].
  simpl. rewrite enforceHistoryLimit_history, enforceHistoryLimit_capacity.
  - unfold stagedImport, validEntries. destruct merge; simpl; auto.
  - destruct merge; simpl; exact Hmax.
Qed.

(** X4. On a tracker whose capacity is not negative, [importHistory]
    - answers a failure and changes nothing when the import data is not
      an object with a history array in version 1.0.0;
    - answers a failure that carries the error message and changes
      nothing when the array holds a [null] or an [undefined]: reading
      the first field of that element throws, and the [catch] answers;
    - succeeds when every element of the array is an entry. The log then
      holds at most [maxHistorySize] entries, each of which is an
      imported entry that passes [validateHistoryEntry] or, when merging,
      an entry of the old log; and without merging the log is the valid
      imported entries, in their order, cut to the newest
      [maxHistorySize]. *)
Theorem importHistory_admits_only_valid_entries d merge (t : Tracker) :
  0 <= maxHistorySize t ->
  (validateImportData d = false ->
   importHistory d merge t = (mkOpResult false None None, t))
  /\ (forall imp importedHistory,
        d = Some imp -> validateImportData d = true ->
        imp_history imp = Some importedHistory ->
        ImportedNull ∈ importedHistory \/ ImportedUndefined ∈ importedHistory ->
        exists msg, importHistory d merge t = (mkOpResult false (Some msg) None, t))
  /\ (forall imp entries,
        d = Some imp -> validateImportData d = true ->
        imp_history imp = Some (List.map ImportedEntry entries) ->
        success (fst (importHistory d merge t)) = true
        /\ historyLength (snd (importHistory d merge t)) <= maxHistorySize t
        /\ (merge = false ->
            history (snd (importHistory d merge t))
            = drop (length (validEntries entries) - Z.to_nat (maxHistorySize t))
                   (validEntries entries))
        /\ forall e, e ∈ history (snd (importHistory d merge t)) ->
             (merge = true /\ e ∈ history t)
             \/ (e ∈ entries /\ validateHistoryEntry e = true)).
Proof.
  intros Hmax. split; [|split].
  - intros Hinvalid. unfold importHistory. rewrite Hinvalid. reflexivity.
  - intros imp importedHistory -> Hvalid Himp Hin.
    destruct (firstUnreadable_some _ Hin) as [msg Hmsg]. exists msg.
    unfold importHistory. rewrite Hvalid. simpl. rewrite Himp. simpl.
    rewrite Hmsg. reflexivity.
  - intros imp entries -> Hvalid Himp.
    destruct (importHistory_inv imp entries merge t Hmax Hvalid Himp)
      as (Hsucc & Hhist & _).
    repeat split; try assumption.
    + unfold historyLength. rewrite Hhist, length_drop. lia.
    + intros ->. exact Hhist.
    + intros e He0. rewrite Hhist in He0.
      assert (He : e ∈ stagedImport merge entries t)
        by (eapply elem_of_sublist; [exact He0 | apply sublist_drop]).
      clear He0.
      unfold stagedImport in He. destruct merge.
      * rewrite sortByTimestamp_perm in He. apply elem_of_app in He as [He|He].
        -- left. auto.
        -- right. apply list_elem_of_filter in He as [? ?]. auto.
      * right. apply list_elem_of_filter in He as [? ?]. auto.
Qed.

(** An import of [A], an entry without fields and [B] keeps [A] and [B];
    an import in version 2.0.0 is refused; an import of [A] and [null]
    fails with the message of the thrown error. *)
Lemma importHistory_admits_only_valid_entries_witness :
  history (snd (importHistory
                  (Some (mkImport (Some (List.map ImportedEntry
                                           [Samples.entryA;
                                            mkEntry "" "swap" "" TsMissing DataMissing false;
                                            Samples.entryB])) (Some "1.0.0")))
                  false newTracker))
  = [Samples.entryA; Samples.entryB]
  /\ importHistory (Some (mkImport (Some [ImportedEntry Samples.entryA]) (Some "2.0.0")))
                   false newTracker
     = (mkOpResult false None None, newTracker)
  /\ exists msg,
       importHistory (Some (mkImport (Some [ImportedEntry Samples.entryA; ImportedNull])
                                     (Some "1.0.0")))
                     false newTracker
       = (mkOpResult false (Some msg) None, newTracker).
Proof.
  destruct (importHistory_admits_only_valid_entries
              (Some (mkImport (Some (List.map ImportedEntry
                                       [Samples.entryA;
                                        mkEntry "" "swap" "" TsMissing DataMissing false;
                                        Samples.entryB])) (Some "1.0.0")))
              false newTracker) as (_ & _ & Hentries); [simpl; lia|].
  destruct (importHistory_admits_only_valid_entries
              (Some (mkImport (Some [ImportedEntry Samples.entryA]) (Some "2.0.0")))
              false newTracker) as (Hinvalid & _ & _); [simpl; lia|].
  destruct (importHistory_admits_only_valid_entries
              (Some (mkImport (Some [ImportedEntry Samples.entryA; ImportedNull])
                              (Some "1.0.0")))
              false newTracker) as (_ & Hnull & _); [simpl; lia|].
  split; [|split].
  - destruct (Hentries _ _ eq_refl eq_refl eq_refl) as (_ & _ & Hhist & _).
    exact (Hhist eq_refl).
  - exact (Hinvalid eq_refl).
  - apply (Hnull _ _ eq_refl eq_refl eq_refl). left. right. left.
Defined.

(** X5. Merging an import whose elements are all entries into a log
    whose entries all carry a parsable timestamp leaves the log in
    chronological order: when the merged log fits the capacity, it is a
    rearrangement of the old entries and the valid imported ones in which
    no entry comes before an earlier one, and the index points at the
    last entry. *)
Theorem merged_import_is_chronological imp imported (t : Tracker) :
  validateImportData (Some imp) = true ->
  imp_history imp = Some (List.map ImportedEntry imported) ->
  Forall hasInstant (history t) ->
  Z.of_nat (length (history t ++ validEntries imported)) <= maxHistorySize t ->
  success (fst (importHistory (Some imp) true t)) = true
  /\ history (snd (importHistory (Some imp) true t)) ≡ₚ history t ++ validEntries imported
  /\ StronglySorted notLater (history (snd (importHistory (Some imp) true t)))
  /\ currentIndex (snd (importHistory (Some imp) true t))
     = historyLength (snd (importHistory (Some imp) true t)) - 1.
Proof.
  intros Hvalid Himp Hall Hfits.
  destruct (importHistory_inv imp imported true t ltac:(lia) Hvalid Himp)
    as (Hsucc & Hhist & _).
  assert (Hlen : length (stagedImport true imported t)
                 = length (history t ++ validEntries imported)).
  { unfold stagedImport. rewrite sortByTimestamp_perm. reflexivity. }
  rewrite Hlen in Hhist.
  replace (length (history t ++ validEntries imported) - Z.to_nat (maxHistorySize t))%nat
    with 0%nat in Hhist by lia.
  rewrite drop_0 in Hhist. split; [exact Hsucc|]. split; [|split].
  - rewrite Hhist. unfold stagedImport. apply sortByTimestamp_perm.
  - rewrite Hhist. unfold stagedImport. apply sortByTimestamp_sorted.
    apply Forall_app. split; [exact Hall|].
    apply Forall_forall. intros e He. apply list_elem_of_filter in He as [He _].
    apply valid_entry_hasInstant, He.
  - unfold importHistory. rewrite Hvalid. simpl. rewrite Himp. simpl.
    rewrite firstUnreadable_entries, readableEntries_entries.
    unfold enforceHistoryLimit. simpl.
    fold (validEntries imported). unfold historyLength. simpl.
    fold (stagedImport true imported t).
    destruct (_ <? _) eqn:E; [apply Z.ltb_lt in E; lia|]. simpl. reflexivity.
Qed.

Lemma merged_import_is_chronological_witness :
  history (snd (importHistory
                  (Some (mkImport (Some (List.map ImportedEntry
                                           [Samples.entryA; Samples.entryC])) None))
                  true (addEntryToHistory Samples.entryB newTracker)))
  ≡ₚ [Samples.entryB] ++ [Samples.entryA; Samples.entryC]
  /\ StronglySorted notLater
       (history (snd (importHistory
                        (Some (mkImport (Some (List.map ImportedEntry
                                                 [Samples.entryA; Samples.entryC])) None))
                        true (addEntryToHistory Samples.entryB newTracker)))).
Proof.
  destruct (merged_import_is_chronological
              (mkImport (Some (List.map ImportedEntry [Samples.entryA; Samples.entryC])) None)
              [Samples.entryA; Samples.entryC]
              (addEntryToHistory Samples.entryB newTracker))
    as (_ & Hperm & Hsorted & _).
  - reflexivity.
  - reflexivity.
  - repeat constructor. exists 2. reflexivity.
  - vm_compute. discriminate.
  - split; [exact Hperm | exact Hsorted].
Defined.

(** *** Cleanup *)

Lemma filter_idemp {A : Type} (P : A -> Prop) `{!forall x, Decision (P x)} (l : list A) :
  filter P (filter P l) = filter P l.
Proof.
  induction l as [|x l IH]; [reflexivity|].
  rewrite filter_cons. destruct (decide (P x)) as [Hx|Hx]; [|exact IH].
  rewrite filter_cons, decide_True by exact Hx. f_equal. exact IH.
Qed.

Lemma performCleanup_history t :
  0 <= maxHistorySize t ->
  history (performCleanup t)
  = filter hasObjectData
      (drop (length (history t) - Z.to_nat (maxHistorySize t)) (history t))
  /\ maxHistorySize (performCleanup t) = maxHistorySize t.
Proof.
  intros Hmax. unfold performCleanup, cleanupOrphanedReferences.
  pose proof (enforceHistoryLimit_history t Hmax) as Hh.
  pose proof (enforceHistoryLimit_capacity t) as Hc.
  destruct (negb _); simpl; rewrite Hh, Hc; auto.
Qed.

(** X6. The tracker's [performCleanup] cuts the log to the newest
    [maxHistorySize] entries and drops the entries whose data is not an
    object: what is left is a part of the old log in its old order, every
    entry has object data, the log fits the capacity, and a second
    cleanup finds nothing more to remove. *)
Theorem cleanup_keeps_recent_object_entries (t : Tracker) :
  0 <= maxHistorySize t ->
  history (performCleanup t) `sublist_of` history t
  /\ Forall hasObjectData (history (performCleanup t))
  /\ historyLength (performCleanup t) <= maxHistorySize t
  /\ history (performCleanup (performCleanup t)) = history (performCleanup t).
Proof.
  intros Hmax.
  destruct (performCleanup_history t Hmax) as [Hh Hc].
  assert (Hlen : historyLength (performCleanup t) <= maxHistorySize t).
  { unfold historyLength. rewrite Hh.
    pose proof (length_filter hasObjectData
                  (drop (length (history t) - Z.to_nat (maxHistorySize t)) (history t))) as Hf.
    rewrite length_drop in Hf. lia. }
  split; [|split; [|split]].
  - rewrite Hh. etransitivity; [apply sublist_filter | apply sublist_drop].
  - rewrite Hh. apply Forall_forall. intros e He.
    apply list_elem_of_filter in He as [He _]. exact He.
  - exact Hlen.
  - destruct (performCleanup_history (performCleanup t)) as [Hh' _]; [lia|].
    rewrite Hh', Hc.
    replace (length (history (performCleanup t)) - Z.to_nat (maxHistorySize t))%nat
      with 0%nat by (unfold historyLength in Hlen; lia).
    rewrite drop_0, Hh. apply filter_idemp.
Qed.

Lemma cleanup_keeps_recent_object_entries_witness :
  history (performCleanup
             (addEntryToHistory (mkEntry "P" "manual" "" (TsAt 5) (DataPrimitive 3) false)
                (addEntryToHistory Samples.entryA newTracker)))
  `sublist_of` [Samples.entryA; mkEntry "P" "manual" "" (TsAt 5) (DataPrimitive 3) false]
  /\ Forall hasObjectData
       (history (performCleanup
                   (addEntryToHistory
                      (mkEntry "P" "manual" "" (TsAt 5) (DataPrimitive 3) false)
                      (addEntryToHistory Samples.entryA newTracker)))).
Proof.
  destruct (cleanup_keeps_recent_object_entries
              (addEntryToHistory (mkEntry "P" "manual" "" (TsAt 5) (DataPrimitive 3) false)
                 (addEntryToHistory Samples.entryA newTracker)))
    as (Hsub & Hobj & _); [vm_compute; discriminate|].
  split; [exact Hsub | exact Hobj].
Defined.

End HistoryLaws.

Module ZoneSwapLaws.
Import Js JsFacts ZoneSwap ZoneSwapProps ZoneSwapFacts ZoneSwapLawsProps.


Lemma zoneMapping_garmentTypes ty :
  ty ∈ garmentTypes ->
  exists zoneList, zoneMapping ty = Some zoneList /\ zoneList <> [] /\ NoDup zoneList
                   /\ zoneList ⊆ builtinZones.
Proof.
  unfold garmentTypes. intros Hin.
  repeat (apply elem_of_cons in Hin as [->|Hin];
          [eexists; split; [reflexivity|]; split; [discriminate|];
           split; compute_done|]).
  inversion Hin.
Qed.

Lemma getGarmentById_inv deps gid e g :
  fst (getGarmentById deps gid e) = Return g ->
  garmentId g = gid /\ garmentType g ∈ garmentTypes
  /\ fst (getZonesForGarment deps (garmentType g) e) = Return (garmentZones g)
  /\ exists typeIndex,
       splitOn "." gid "" = [garmentCharacterId g; typeIndex]
       /\ exists k, parseInt typeIndex = Some k /\ 0 <= k < 8
                    /\ garmentTypes !! Z.to_nat k = Some (garmentType g).
Proof.
  unfold getGarmentById. destruct (String.eqb gid ""); [discriminate|].
  destruct (splitOn "." gid "") as [|characterId [|typeIndex [|? ?]]]; try discriminate.
  destruct (parseInt typeIndex) as [k|] eqn:Hparse; [|discriminate].
  destruct (_ || _) eqn:Hrange; [discriminate|].
  apply orb_false_iff in Hrange as [Hlo Hhi].
  apply Z.ltb_ge in Hlo. apply Z.leb_gt in Hhi.
  change (length garmentTypes) with 8%nat in Hhi.
  destruct (garmentTypes !! Z.to_nat k) as [ty|] eqn:Hty.
  2:{ apply lookup_ge_None in Hty. unfold garmentTypes in Hty. simpl in Hty. lia. }
  simpl. unfold getZonesForGarment.
  destruct (garmentZoneMapper deps) as [mapper|]; simpl;
    intros Hg; inversion Hg; subst g; simpl;
    (split; [reflexivity|]; split; [eapply list_elem_of_lookup_2; exact Hty|];
     split; [reflexivity|]; exists typeIndex; split; [reflexivity|];
     exists k; repeat split; first [reflexivity | exact Hty | exact Hparse | lia]).
Qed.

Lemma performSwap_zones deps now a b gid opts e res e' :
  performSwap deps now a b gid opts e = (Return (Some res), e') ->
  exists g zoneList,
    fst (getGarmentById deps gid e) = Return g
    /\ fst (getZonesForGarment deps (garmentType g) e) = Return (Some zoneList)
    /\ zoneList <> []
    /\ (sr_success res = true -> sr_zones res = Some zoneList).
Proof.
  intros Hrun.
  apply performSwap_inv in Hrun as [(_ & ? & _)|[(_ & ? & _)|Hrun]]; try discriminate.
  destruct Hrun as (_ & _ & res' & zoneList & g & e0 & e1 & Heq & Hne & _ & Hexec & _
                    & Hg & Hz & _).
  inversion Heq; subst res'; clear Heq.
  exists g, zoneList. repeat split; try assumption.
  intros Hsucc.
  destruct (executeSwap_spec deps now a b zoneList g opts e0)
    as (res' & Hfst & _ & _ & _ & _ & Hok & _).
  rewrite Hexec in Hfst, Hok. simpl in Hfst, Hok.
  inversion Hfst; subst res'. apply (Hok Hsucc).
Qed.

(** X7. Without a garment zone mapper the engine resolves zones from its
    built-in table: every garment [getGarmentById] accepts has one of the
    eight garment types and a non-empty list of pairwise distinct zones
    among chest, genitals, waist, hips, legs and feet, and that is the
    zone list a successful [performSwap] reports. *)
Theorem builtin_table_names_distinct_zones deps :
  garmentZoneMapper deps = None ->
  (forall gid e g,
      fst (getGarmentById deps gid e) = Return g ->
      garmentType g ∈ garmentTypes
      /\ exists zoneList,
           garmentZones g = Some zoneList /\ zoneList <> [] /\ NoDup zoneList
           /\ zoneList ⊆ builtinZones)
  /\ (forall now a b gid opts e res e',
        performSwap deps now a b gid opts e = (Return (Some res), e') ->
        sr_success res = true ->
        exists zoneList,
          sr_zones res = Some zoneList /\ zoneList <> [] /\ NoDup zoneList
          /\ zoneList ⊆ builtinZones).
Proof.
  intros Hmapper.
  assert (Hzones : forall ty e zoneList,
             ty ∈ garmentTypes ->
             fst (getZonesForGarment deps ty e) = Return zoneList ->
             exists zs, zoneList = Some zs /\ zs <> [] /\ NoDup zs /\ zs ⊆ builtinZones).
  { intros ty e zoneList Hty. unfold getZonesForGarment. rewrite Hmapper. simpl.
    destruct (zoneMapping_garmentTypes ty Hty) as (zs & -> & Hzs).
    simpl. intros Heq. inversion Heq. eauto. }
  split.
  - intros gid e g Hg.
    apply getGarmentById_inv in Hg as (_ & Hty & Hz & _).
    split; [exact Hty|]. apply (Hzones _ _ _ Hty Hz).
  - intros now a b gid opts e res e' Hrun Hsucc.
    destruct (performSwap_zones _ _ _ _ _ _ _ _ _ Hrun) as (g & zoneList & Hg & Hz & _ & Hres).
    apply getGarmentById_inv in Hg as (_ & Hty & _).
    destruct (Hzones _ _ _ Hty Hz) as (zs & Heq & Hzs). inversion Heq; subst zs.
    exists zoneList. split; [apply Hres, Hsucc | exact Hzs].
Qed.

Lemma builtin_table_names_distinct_zones_witness :
  exists zoneList,
    garmentZones (mkGarment "c1.2" "c1" "dress" (Some ["chest"; "waist"; "hips"]))
    = Some zoneList
    /\ zoneList <> [] /\ NoDup zoneList /\ zoneList ⊆ builtinZones.
Proof.
  destruct (builtin_table_names_distinct_zones noCollaborators eq_refl) as [Hgarment _].
  apply (Hgarment "c1.2" Samples.sampleEngine). reflexivity.
Defined.

(** *** Readiness is untouched by the operations *)

Lemma allocSwapData_ready d : preserves (sameField isReady) (allocSwapData d).
Proof. intros e. reflexivity. Qed.

Lemma updateHistoryEntry_ready wanted ref :
  preserves (sameField isReady) (updateHistoryEntry wanted ref).
Proof.
  unfold updateHistoryEntry.
  apply preserves_bind; [apply _|frame|intros e0].
  destruct (findIndex _ _ _ _); [|frame].
  destruct (_ ≫= _); [|frame]. destruct (_ !! _); [|frame].
  apply preserves_bind; [apply _|apply allocSwapData_ready|intros ?]. frame.
Qed.

Lemma reverseSwap_ready now swap : preserves (sameField isReady) (reverseSwap now swap).
Proof.
  unfold reverseSwap, safeOperation.
  pose proof updateHistoryEntry_ready as Hupd.
  frame.
Qed.

(** X8. A swap can be reversed once. After a successful [reverseSwap]
    the swap is no longer in the active set, so a second [reverseSwap] of
    the same id is answered with [null] and changes neither the body
    maps nor the swap records nor the history. *)
Theorem reverseSwap_cannot_be_repeated now later swap e rr e1 :
  reverseSwap now swap e = (Return (Some rr), e1) ->
  rr_success rr = true ->
  activeSwaps e1 !! swap = None
  /\ fst (reverseSwap later swap e1) = Return None
  /\ quiet e1 (snd (reverseSwap later swap e1)).
Proof.
  intros Hrun Hsucc.
  pose proof (preserves_snd _ _ _ _ _ (reverseSwap_ready now swap) Hrun) as Hready.
  unfold sameField in Hready.
  apply reverseSwap_inv in Hrun as [(_ & ? & _)|[(_ & ? & _)|Hrun]]; try discriminate.
  destruct Hrun as (Hr & ref & d & orig & rr' & Heq & _ & _ & _ & _ & Hcases).
  inversion Heq; subst rr'; clear Heq.
  destruct Hcases as [[Hfalse _]|(_ & Hactive & _)]; [congruence|].
  assert (Hgone : activeSwaps e1 !! swap = None) by (rewrite Hactive; apply lookup_delete_eq).
  split; [exact Hgone|].
  destruct (reverseSwap later swap e1) as [r2 e2] eqn:Hrun2. simpl.
  apply reverseSwap_inv in Hrun2 as [(Hnr & _)|[(_ & -> & Hq & _)|Hrun2]].
  - congruence.
  - auto.
  - destruct Hrun2 as (_ & ref' & ? & ? & ? & _ & Hlook & _). congruence.
Qed.

Lemma reverseSwap_cannot_be_repeated_witness :
  fst (reverseSwap 3000 "swap_1000_1"
         (snd (reverseSwap 2000 "swap_1000_1"
                 (snd (performSwap noCollaborators 1000 "c1" "c2" "c1.0" JNull
                         Samples.sampleEngine)))))
  = Return None.
Proof.
  destruct (reverseSwap 2000 "swap_1000_1"
              (snd (performSwap noCollaborators 1000 "c1" "c2" "c1.0" JNull
                      Samples.sampleEngine))) as [r e1] eqn:Hrun.
  assert (Hr : r = Return (Some (mkReverseResult true "swap_1000_1" (Some 2000) None))).
  { apply (f_equal fst) in Hrun. simpl in Hrun. rewrite <- Hrun. vm_compute. reflexivity. }
  subst r.
  apply (reverseSwap_cannot_be_repeated 2000 3000 _ _ _ _ Hrun eq_refl).
Defined.

(** *** A swap that fails during execution *)

Global Instance staysAllocated_preorder ref : PreOrder (staysAllocated ref).
Proof. split; unfold staysAllocated; [intros e; auto | intros a b c; auto]. Qed.

Lemma neverThrows_bind {A B : Type} (c : M A) (f : A -> M B) :
  neverThrows c -> (forall a, neverThrows (f a)) -> neverThrows (c ≫= f).
Proof.
  intros Hc Hf e. unfold mbind, M_bind, bind.
  destruct (Hc e) as [a Ha]. destruct (c e) as [r e1]. simpl in Ha. subst r.
  apply Hf.
Qed.

Lemma exchangeZones_neverThrows s t i zoneList acc :
  neverThrows (exchangeZones s t i zoneList acc).
Proof.
  intros e. destruct (exchangeZones_spec s t i zoneList acc e) as (rs & Hfst & _). eauto.
Qed.

Lemma storageCall_allocated ref : preserves (staysAllocated ref) storageCall.
Proof.
  intros e. unfold storageCall. destruct (head _) as [[|]|]; intros H; exact H.
Qed.

Ltac allocated_done :=
  unfold staysAllocated; simpl; intros;
  rewrite ?lookup_alter_is_Some; assumption.

Lemma executeSwap_failure deps now s t zoneList g opts e res e' :
  executeSwap deps now s t zoneList g opts e = (Return res, e') ->
  sr_success res = false ->
  swapHistory e' = swapHistory e
  /\ activeSwaps e' = activeSwaps e
  /\ (exists d msg, swapObjects e' !! nextRef e = Some d /\ status d = Failed
                    /\ swapError d = Some msg /\ sr_error res = Some msg)
  /\ failedSwaps (stats e') = failedSwaps (stats e) + 1
  /\ (reciprocalSwapHandler deps = None -> bodyMaps e' = bodyMaps e).
Proof.
  intros Hrun Hfail. unfold executeSwap in Hrun.
  inv_bind Hrun x e0 Hgen; [|discriminate Hgen].
  unfold generateSwapId, mbind, M_bind, bind, modify, get, mret, M_ret, ret in Hgen.
  simpl in Hgen. inversion Hgen; subst x e0; clear Hgen.
  inv_bind Hrun x e0 Hget; [|discriminate Hget].
  unfold get in Hget. inversion Hget; subst x e0; clear Hget.
  inv_bind Hrun x e0 Halloc; [|discriminate Halloc].
  unfold allocSwapData in Halloc. simpl in Halloc.
  inversion Halloc; subst x e0; clear Halloc.
  match type of Hrun with
  | tryCatch ?b ?h ?a = _ => set (body := b) in *; set (handler := h) in *;
                              set (ea := a) in *
  end.
  apply tryCatch_inv in Hrun as [(res' & Hbody & Heq)|(msg & e1 & Hbody & Hcatch)].
  - (* the try block ran to its end: the result says success *)
    exfalso. inversion Heq; subst res'. subst body.
    inv_bind Hbody sm ea1 Hl1; [|discriminate].
    inv_bind Hbody tm ea2 Hl2; [|discriminate].
    inv_bind Hbody u ea3 Hupd; [|discriminate].
    inv_bind Hbody rs ea4 Hex; [|discriminate].
    inv_bind Hbody u2 ea5 Hrec; [|discriminate].
    inv_bind Hbody u' ea6 Hact; [|discriminate].
    inv_bind Hbody u'' ea7 Hhist; [|discriminate].
    unfold fireEvent, mbind, M_bind, bind, modify, mret, M_ret, ret in Hbody.
    simpl in Hbody. inversion Hbody; subst res. discriminate.
  - assert (Hhist : swapHistory e1 = swapHistory ea).
    { assert (preservesOnThrow (sameField swapHistory) body) as Hpot.
      { subst body.
        apply preservesOnThrow_bind; [apply _|frame|intros ?].
        apply preservesOnThrow_bind; [apply _|frame|intros ?].
        apply preservesOnThrow_bind; [apply _|frame|intros ?].
        apply preservesOnThrow_bind; [apply _|frame|intros ?].
        apply preservesOnThrow_bind; [apply _|frame|intros ?].
        apply preservesOnThrow_neverThrows, registration_neverThrows. }
      apply (Hpot _ _ _ Hbody). }
    assert (Hactive : activeSwaps e1 = activeSwaps ea).
    { assert (preservesOnThrow (sameField activeSwaps) body) as Hpot.
      { subst body.
        apply preservesOnThrow_bind; [apply _|frame|intros ?].
        apply preservesOnThrow_bind; [apply _|frame|intros ?].
        apply preservesOnThrow_bind; [apply _|frame|intros ?].
        apply preservesOnThrow_bind; [apply _|frame|intros ?].
        apply preservesOnThrow_bind; [apply _|frame|intros ?].
        apply preservesOnThrow_neverThrows, registration_neverThrows. }
      apply (Hpot _ _ _ Hbody). }
    assert (Hstats : stats e1 = stats ea).
    { assert (preservesOnThrow (sameField stats) body) as Hpot.
      { subst body.
        apply preservesOnThrow_bind; [apply _|frame|intros ?].
        apply preservesOnThrow_bind; [apply _|frame|intros ?].
        apply preservesOnThrow_bind; [apply _|frame|intros ?].
        apply preservesOnThrow_bind; [apply _|frame|intros ?].
        apply preservesOnThrow_bind; [apply _|frame|intros ?].
        apply preservesOnThrow_neverThrows, registration_neverThrows. }
      apply (Hpot _ _ _ Hbody). }
    assert (Halloc : is_Some (swapObjects e1 !! nextRef e)).
    { assert (preservesOnThrow (staysAllocated (nextRef e)) body) as Hpot.
      { pose proof (storageCall_allocated (nextRef e)) as Hsc.
        subst body.
        apply preservesOnThrow_bind; [apply _|frame; allocated_done|intros ?].
        apply preservesOnThrow_bind; [apply _|frame; allocated_done|intros ?].
        apply preservesOnThrow_bind; [apply _|frame; allocated_done|intros ?].
        apply preservesOnThrow_bind; [apply _|frame; allocated_done|intros ?].
        apply preservesOnThrow_bind; [apply _|frame; allocated_done|intros ?].
        apply preservesOnThrow_neverThrows, registration_neverThrows. }
      apply (Hpot _ _ _ Hbody). subst ea. simpl. rewrite lookup_insert_eq. eauto. }
    assert (Hstore : reciprocalSwapHandler deps = None -> bodyMaps e1 = bodyMaps ea).
    { intros Hnone.
      assert (preservesOnThrow (sameField bodyMaps) body) as Hpot.
      { subst body.
        apply preservesOnThrow_bind; [apply _|frame|intros ?].
        apply preservesOnThrow_bind; [apply _|frame|intros ?].
        apply preservesOnThrow_bind; [apply _|frame|intros ?].
        apply preservesOnThrow_neverThrows.
        apply neverThrows_bind; [apply exchangeZones_neverThrows|intros rs].
        apply neverThrows_bind; [|intros ?; apply registration_neverThrows].
        destruct (reciprocal _); [|intros ?; eexists; reflexivity].
        intros ?. unfold handleReciprocal. rewrite Hnone. eexists; reflexivity. }
      apply (Hpot _ _ _ Hbody). }
    destruct Halloc as [d0 Hd0].
    subst handler.
    unfold bump_stats, updateSwapData, handleError, fireEvent,
           mbind, M_bind, bind, modify, mret, M_ret, ret in Hcatch.
    simpl in Hcatch. inversion Hcatch; subst res e'; clear Hcatch. simpl in *.
    split; [exact Hhist|]. split; [exact Hactive|]. split; [|split].
    + exists (set_swapError msg (set_status Failed d0)), msg.
      rewrite lookup_alter_eq, Hd0. simpl. auto.
    + rewrite Hstats. reflexivity.
    + exact Hstore.
Qed.

(** X9. A swap whose execution fails (the store throws while the body
    maps are loaded, or the reciprocal handler throws) is answered with
    [success = false] and the error message, names no zones, and is
    registered nowhere: the active set and the swap history are as
    before, and its record is marked ['failed'] with that message. When
    no reciprocal handler is installed, no body map has changed. *)
Theorem failed_swap_is_not_registered deps now a b gid opts e res e' :
  performSwap deps now a b gid opts e = (Return (Some res), e') ->
  sr_success res = false ->
  sr_zones res = None
  /\ activeSwaps e' = activeSwaps e
  /\ swapHistory e' = swapHistory e
  /\ (exists d msg, swapObjects e' !! nextRef e = Some d /\ status d = Failed
                    /\ swapError d = Some msg /\ sr_error res = Some msg)
  /\ (reciprocalSwapHandler deps = None -> bodyMaps e' = bodyMaps e).
Proof.
  intros Hrun Hfail.
  apply performSwap_inv in Hrun as [(_ & ? & _)|[(_ & ? & _)|Hrun]]; try discriminate.
  destruct Hrun as (_ & _ & res' & zoneList & g & e0 & e1 & Heq & _ & Hq0 & Hexec & Hq1 & _).
  inversion Heq; subst res'; clear Heq.
  destruct (executeSwap_spec deps now a b zoneList g opts e0)
    as (res' & Hfst & _ & _ & _ & _ & _ & Hko).
  rewrite Hexec in Hfst, Hko. simpl in Hfst, Hko. inversion Hfst; subst res'; clear Hfst.
  destruct (Hko Hfail) as (Hzones & _ & _).
  destruct (executeSwap_failure _ _ _ _ _ _ _ _ _ _ Hexec Hfail)
    as (Hhist & Hactive & Hrecord & _ & Hstore).
  destruct Hq0 as (Hs0 & Ho0 & Hn0 & Ha0 & Hh0 & _).
  destruct Hq1 as (Hs1 & Ho1 & Hn1 & Ha1 & Hh1 & _).
  split; [exact Hzones|].
  split; [congruence|]. split; [congruence|]. split.
  - rewrite Ho1, <- Hn0. exact Hrecord.
  - intros Hnone. rewrite Hs1, (Hstore Hnone). exact Hs0.
Qed.

Lemma failed_swap_is_not_registered_witness :
  exists res e',
    performSwap noCollaborators 1000 "c1" "c2" "c1.3" JNull
      (newEngine defaultSettings Samples.sampleStore [false; false; true])
    = (Return (Some res), e')
    /\ sr_success res = false
    /\ activeSwaps e' = ∅ /\ swapHistory e' = []
    /\ bodyMaps e' = Samples.sampleStore.
Proof.
  destruct (performSwap noCollaborators 1000 "c1" "c2" "c1.3" JNull
              (newEngine defaultSettings Samples.sampleStore [false; false; true]))
    as [r e'] eqn:Hrun.
  assert (Hr : r = Return (Some (mkSwapResult false "swap_1000_1" None None
                                   (Some "Storage dependency not available") 1000))).
  { apply (f_equal fst) in Hrun. simpl in Hrun. rewrite <- Hrun. vm_compute. reflexivity. }
  subst r.
  destruct (failed_swap_is_not_registered _ _ _ _ _ _ _ _ _ Hrun eq_refl)
    as (_ & Hactive & Hhist & _ & Hstore).
  eexists _, e'. split; [reflexivity|]. split; [reflexivity|].
  split; [exact Hactive|]. split; [exact Hhist|]. exact (Hstore eq_refl).
Defined.

(** *** Swapping twice *)

Lemma swapAll_twice (p : gmap string JsVal * gmap string JsVal) zoneList zone :
  NoDup zoneList ->
  getZone (fst (swapAll (swapAll p zoneList) zoneList)) zone = getZone (fst p) zone
  /\ getZone (snd (swapAll (swapAll p zoneList) zoneList)) zone = getZone (snd p) zone.
Proof.
  intros Hnd. unfold getZone at 1 3.
  destruct (decide (zone ∈ zoneList)) as [Hin|Hnin].
  - destruct (swapAll_lookup_in zoneList (swapAll p zoneList) zone Hnd Hin) as [-> ->].
    destruct (swapAll_lookup_in zoneList p zone Hnd Hin) as [H1 H2].
    unfold getZone at 1 3. rewrite H1, H2. auto.
  - destruct (swapAll_lookup_notin zoneList (swapAll p zoneList) zone Hnin) as [-> ->].
    destruct (swapAll_lookup_notin zoneList p zone Hnin) as [-> ->]. auto.
Qed.

(** X10. Exchanging the same garment between the same two characters
    twice gives every zone back: after two fully successful
    [performSwap] calls for one garment whose zones are pairwise
    distinct, each zone of either character reads as it did before the
    first call. *)
Theorem swapping_twice_gives_back_every_zone
    deps now later a b gid opts opts' e r1 e1 r2 e2 zoneList :
  performSwap deps now a b gid opts e = (Return (Some r1), e1) ->
  fullySuccessful r1 ->
  performSwap deps later a b gid opts' e1 = (Return (Some r2), e2) ->
  fullySuccessful r2 ->
  sr_zones r1 = Some zoneList ->
  NoDup zoneList ->
  forall zone,
    getZoneOf (bodyMaps e2 !! a) zone = getZoneOf (bodyMaps e !! a) zone
    /\ getZoneOf (bodyMaps e2 !! b) zone = getZoneOf (bodyMaps e !! b) zone.
Proof.
  intros Hrun1 Hfull1 Hrun2 Hfull2 Hzones Hnd zone.
  destruct (performSwap_zones _ _ _ _ _ _ _ _ _ Hrun1) as (g1 & zl1 & Hg1 & Hz1 & _ & Hres1).
  destruct (performSwap_zones _ _ _ _ _ _ _ _ _ Hrun2) as (g2 & zl2 & Hg2 & Hz2 & _ & Hres2).
  rewrite (getGarmentById_pure deps gid e1 e) in Hg2. simpl in Hg2.
  rewrite Hg1 in Hg2. inversion Hg2; subst g2; clear Hg2.
  rewrite (getZonesForGarment_pure deps (garmentType g1) e1 e) in Hz2. simpl in Hz2.
  rewrite Hz1 in Hz2. inversion Hz2; subst zl2; clear Hz2.
  specialize (Hres1 (proj1 Hfull1)). specialize (Hres2 (proj1 Hfull2)).
  rewrite Hzones in Hres1. inversion Hres1; subst zl1; clear Hres1.
  destruct (performSwap_store _ _ _ _ _ _ _ _ _ Hrun1 Hfull1)
    as (Hab & zs & ms & mt & Hzs & _ & Hms & Hmt & Hstore1).
  rewrite Hzones in Hzs. inversion Hzs; subst zs; clear Hzs.
  destruct (performSwap_store _ _ _ _ _ _ _ _ _ Hrun2 Hfull2)
    as (_ & zs & ms' & mt' & Hzs & _ & Hms' & Hmt' & Hstore2).
  rewrite Hres2 in Hzs. inversion Hzs; subst zs; clear Hzs.
  rewrite Hstore1 in Hms', Hmt'.
  rewrite lookup_insert_ne, lookup_insert_eq in Hms' by congruence.
  rewrite lookup_insert_eq in Hmt'.
  inversion Hms'; subst ms'; clear Hms'. inversion Hmt'; subst mt'; clear Hmt'.
  rewrite Hstore2, Hms, Hmt.
  rewrite lookup_insert_ne, lookup_insert_eq by congruence. rewrite lookup_insert_eq.
  simpl. rewrite <- surjective_pairing. apply swapAll_twice, Hnd.
Qed.

Lemma swapping_twice_gives_back_every_zone_witness :
  getZoneOf (bodyMaps (snd (performSwap noCollaborators 2000 "c1" "c2" "c1.3" JNull
                              (snd (performSwap noCollaborators 1000 "c1" "c2" "c1.3" JNull
                                      Samples.sampleEngine)))) !! "c1") "chest"
  = getZoneOf (bodyMaps Samples.sampleEngine !! "c1") "chest".
Proof.
  destruct (performSwap noCollaborators 1000 "c1" "c2" "c1.3" JNull Samples.sampleEngine)
    as [r e1] eqn:Hrun1.
  assert (Hr1 : r = Return (Some (mkSwapResult true "swap_1000_1" (Some ["chest"; "waist"])
                 (Some [mkZoneResult "chest" true (Val (JStr "flat")) (Val (JStr "large")) None;
                        mkZoneResult "waist" true (Val (JStr "narrow")) (Val (JStr "wide")) None])
                 None 1000))).
  { apply (f_equal fst) in Hrun1. simpl in Hrun1. rewrite <- Hrun1. vm_compute. reflexivity. }
  subst r. simpl.
  destruct (performSwap noCollaborators 2000 "c1" "c2" "c1.3" JNull e1) as [r e2] eqn:Hrun2.
  assert (Hr2 : r = Return (Some (mkSwapResult true "swap_2000_2" (Some ["chest"; "waist"])
                 (Some [mkZoneResult "chest" true (Val (JStr "large")) (Val (JStr "flat")) None;
                        mkZoneResult "waist" true (Val (JStr "wide")) (Val (JStr "narrow")) None])
                 None 2000))).
  { apply (f_equal fst) in Hrun2. simpl in Hrun2. rewrite <- Hrun2.
    apply (f_equal snd) in Hrun1. simpl in Hrun1. rewrite <- Hrun1. vm_compute. reflexivity. }
  subst r. simpl.
  refine (proj1 (swapping_twice_gives_back_every_zone
                   noCollaborators 1000 2000 "c1" "c2" "c1.3" JNull JNull
                   Samples.sampleEngine _ e1 _ e2 ["chest"; "waist"]
                   Hrun1 _ Hrun2 _ eq_refl _ "chest")).
  - split; [reflexivity|]. eexists. split; [reflexivity|]. repeat constructor.
  - split; [reflexivity|]. eexists. split; [reflexivity|]. repeat constructor.
  - compute_done.
Defined.

(** *** What a swap leaves alone *)

Global Instance othersKept_preorder a b : PreOrder (othersKept a b).
Proof.
  split; unfold othersKept; [intros e c _ _; reflexivity|].
  intros e1 e2 e3 H12 H23 c Ha Hb. rewrite H23, H12 by assumption. reflexivity.
Qed.

Lemma storageCall_othersKept a b : preserves (othersKept a b) storageCall.
Proof.
  intros e. unfold storageCall. destruct (head _) as [[|]|]; intros c _ _; reflexivity.
Qed.

Lemma allocSwapData_othersKept a b d : preserves (othersKept a b) (allocSwapData d).
Proof. intros e c _ _. reflexivity. Qed.

Ltac othersKept_done :=
  unfold othersKept; simpl; intros;
  rewrite ?lookup_insert_ne by congruence; reflexivity.

(** Walks a computation like [frame], closing each write with [tac];
    [storageCall] and [allocSwapData] are taken from the context. *)
Ltac walk_step tac :=
  match goal with
  | |- preserves _ (mret _) => apply preserves_ret; apply _
  | |- preserves _ (throw _) => apply preserves_throw; apply _
  | |- preserves _ get => apply preserves_get; apply _
  | |- preserves _ (_ ≫= _) => apply preserves_bind; [apply _| |intros ?]
  | |- preserves _ (tryCatch _ _) => apply preserves_tryCatch; [apply _| |intros ?]
  | |- preserves _ (modify _) => apply preserves_modify; intros ?; tac
  | |- preserves _ (handleReciprocal _ _) => apply preserves_handleReciprocal; apply _
  | |- preserves _ (exchangeZones _ _ _ _ _) =>
      apply preserves_exchangeZones; [apply _|intros ?]
  | |- preserves _ (fireEvent _) => unfold fireEvent
  | |- preserves _ (logWarning _) => unfold logWarning
  | |- preserves _ (bump_stats _) => unfold bump_stats
  | |- preserves _ (handleError _ _ _) => unfold handleError
  | |- preserves _ (loadCharacterBodyMap _) => unfold loadCharacterBodyMap
  | |- preserves _ (saveCharacterBodyMap _ _) => unfold saveCharacterBodyMap
  | |- preserves _ (applyZoneSwap _ _ _ _) => unfold applyZoneSwap
  | |- preserves _ (getZonesForGarment _ _) => unfold getZonesForGarment
  | |- preserves _ (getGarmentById _ _) => unfold getGarmentById
  | |- preserves _ (validateSwap _ _ _ _) => unfold validateSwap
  | |- preserves _ (generateSwapId _) => unfold generateSwapId
  | |- preserves _ (updateSwapData _ _) => unfold updateSwapData
  | |- preserves _ (addToHistory _) => first [solve [eauto] | unfold addToHistory]
  | |- preserves _ (updateHistoryEntry _ _) =>
      first [solve [eauto] | unfold updateHistoryEntry]
  | |- preserves _ (executeSwap _ _ _ _ _ _ _) => unfold executeSwap
  | |- preserves _ (safeOperation _ _ _) => unfold safeOperation
  | |- preserves _ (if ?b then _ else _) => destruct b eqn:?
  | |- preserves _ (match ?x with _ => _ end) => destruct x eqn:?
  | |- preserves _ _ => solve [eauto]
  end.
Ltac walk tac := repeat walk_step tac.

Lemma performSwap_othersKept deps now a b gid opts :
  preserves (othersKept a b) (performSwap deps now a b gid opts).
Proof.
  pose proof (storageCall_othersKept a b) as Hsc.
  pose proof (allocSwapData_othersKept a b) as Halloc.
  unfold performSwap.
  walk othersKept_done.
Qed.

(** X11. Whatever its outcome, [performSwap] between [a] and [b] leaves
    the body map of every other character untouched and neither creates
    nor drops a body map; and either the store is as before, or the
    garment resolved to a zone list and, in every body map, the zones
    outside that list read as before. *)
Theorem performSwap_touches_only_the_two_characters deps now a b gid opts e :
  (forall c, c <> a -> c <> b ->
     bodyMaps (snd (performSwap deps now a b gid opts e)) !! c = bodyMaps e !! c)
  /\ (forall c, is_Some (bodyMaps (snd (performSwap deps now a b gid opts e)) !! c)
                <-> is_Some (bodyMaps e !! c))
  /\ (bodyMaps (snd (performSwap deps now a b gid opts e)) = bodyMaps e
      \/ exists g zoneList,
           fst (getGarmentById deps gid e) = Return g
           /\ fst (getZonesForGarment deps (garmentType g) e) = Return (Some zoneList)
           /\ keepsOtherZones zoneList (bodyMaps e)
                (bodyMaps (snd (performSwap deps now a b gid opts e)))).
Proof.
  split; [apply (performSwap_othersKept deps now a b gid opts e)|].
  destruct (performSwap deps now a b gid opts e) as [r e'] eqn:Hrun. simpl.
  apply performSwap_inv in Hrun as [(_ & _ & ->)|[(_ & _ & Hq & _)|Hrun]].
  - split; [reflexivity | left; reflexivity].
  - destruct Hq as [-> _]. split; [reflexivity | left; reflexivity].
  - destruct Hrun as (_ & _ & res & zoneList & g & e0 & e1 & _ & _ & Hq0 & Hexec & Hq1
                      & Hg & Hz & _).
    destruct (executeSwap_spec deps now a b zoneList g opts e0)
      as (res' & _ & _ & _ & _ & Hkeeps & _).
    rewrite Hexec in Hkeeps. simpl in Hkeeps.
    destruct Hq0 as [Hs0 _]. destruct Hq1 as [Hs1 _]. rewrite Hs0 in Hkeeps.
    rewrite Hs1.
    split.
    + intros c. specialize (Hkeeps c).
      destruct (bodyMaps e !! c) as [m|].
      * destruct Hkeeps as (m' & -> & _). split; eauto.
      * rewrite Hkeeps. reflexivity.
    + right. exists g, zoneList. auto.
Qed.

(** *** Cleanup *)

(** X12. In every reachable engine [performCleanup] removes no swap from
    the active set (no ['failed'] record is ever in it) and changes no
    body map; of the swap history it keeps, in order, the records that
    are younger than 24 hours. *)
Theorem cleanup_drops_only_old_history deps now e :
  reachable deps e ->
  activeSwaps (snd (performCleanup now e)) = activeSwaps e
  /\ bodyMaps (snd (performCleanup now e)) = bodyMaps e
  /\ swapObjects (snd (performCleanup now e)) = swapObjects e
  /\ swapHistory (snd (performCleanup now e))
     = filter (fun ref => isRecent (swapObjects e) (now - dayMs) ref = true) (swapHistory e).
Proof.
  intros Hreach. apply heapInvariant_reachable in Hreach as (Hactive & _).
  unfold performCleanup, fireEvent, mbind, M_bind, bind, modify. simpl.
  split; [|auto].
  apply map_filter_id. intros swap ref Hlook. simpl.
  destruct (Hactive _ _ Hlook) as (d & Hd & Hstatus).
  unfold isFailed. rewrite Hd, Hstatus. reflexivity.
Qed.

Lemma cleanup_drops_only_old_history_witness :
  activeSwaps (snd (performCleanup 90000000
                      (run noCollaborators (OpPerformSwap 1000 "c1" "c2" "c1.0" JNull)
                         Samples.sampleEngine)))
  = activeSwaps (run noCollaborators (OpPerformSwap 1000 "c1" "c2" "c1.0" JNull)
                   Samples.sampleEngine)
  /\ swapHistory (snd (performCleanup 90000000
                         (run noCollaborators (OpPerformSwap 1000 "c1" "c2" "c1.0" JNull)
                            Samples.sampleEngine))) = [].
Proof.
  destruct (cleanup_drops_only_old_history noCollaborators 90000000
              (run noCollaborators (OpPerformSwap 1000 "c1" "c2" "c1.0" JNull)
                 Samples.sampleEngine)) as (Hactive & _ & _ & Hhist).
  { apply reach_step, reach_new. }
  split; [exact Hactive|]. rewrite Hhist. vm_compute. reflexivity.
Defined.

(** *** The swap history stays within its limit *)

Global Instance limitKept_preorder : PreOrder limitKept.
Proof.
  split; unfold limitKept; [intros e; auto|].
  intros e1 e2 e3 [Hs12 H12] [Hs23 H23]. split; [congruence | auto].
Qed.

Ltac limitKept_done := unfold limitKept, withinLimit; simpl; auto.

Lemma storageCall_limitKept : preserves limitKept storageCall.
Proof. intros e. unfold storageCall. destruct (head _) as [[|]|]; limitKept_done. Qed.

Lemma allocSwapData_limitKept d : preserves limitKept (allocSwapData d).
Proof. intros e. limitKept_done. Qed.

Lemma addToHistory_limitKept ref : preserves limitKept (addToHistory ref).
Proof.
  intros e. unfold addToHistory, mbind, M_bind, bind, modify, get, mret, M_ret, ret. simpl.
  destruct (_ <? _) eqn:Hover; simpl; (split; [reflexivity|]); intros _ Hlimit; simpl in *.
  - rewrite slice_prefix.
    + rewrite length_take. simpl. lia.
    + apply Z.ltb_lt in Hover. simpl in *. lia.
  - apply Z.ltb_ge in Hover. simpl in Hover. lia.
Qed.

Lemma updateHistoryEntry_limitKept wanted ref :
  preserves limitKept (updateHistoryEntry wanted ref).
Proof.
  pose proof allocSwapData_limitKept as Halloc.
  unfold updateHistoryEntry.
  walk ltac:(unfold limitKept, withinLimit; simpl; rewrite ?length_insert; auto).
Qed.

Lemma run_limitKept deps o e : limitKept e (run deps o e).
Proof.
  pose proof storageCall_limitKept as Hsc.
  pose proof allocSwapData_limitKept as Halloc.
  pose proof addToHistory_limitKept as Hadd.
  pose proof updateHistoryEntry_limitKept as Hupd.
  destruct o as [now a b gid opts|now swap|now|]; simpl.
  - assert (H : preserves limitKept (performSwap deps now a b gid opts))
      by (unfold performSwap; walk limitKept_done).
    apply H.
  - assert (H : preserves limitKept (reverseSwap now swap))
      by (unfold reverseSwap; walk limitKept_done).
    apply H.
  - unfold performCleanup, fireEvent, mbind, M_bind, bind, modify. simpl.
    split; [reflexivity|]. unfold withinLimit. simpl. intros Hw Hlimit.
    specialize (Hw Hlimit).
    pose proof (length_filter
                  (fun ref => isRecent (swapObjects e) (now - dayMs) ref = true)
                  (swapHistory e)).
    lia.
  - unfold clearHistory, fireEvent, mbind, M_bind, bind, modify. simpl.
    split; [reflexivity|]. unfold withinLimit. simpl. intros _ Hlimit. exact Hlimit.
Qed.

(** X13. The swap history never outgrows its limit: in every engine
    reachable by [performSwap], [reverseSwap], [performCleanup] and
    [clearHistory], a non-negative [historyLimit] bounds the number of
    records in the swap history. *)
Theorem swap_history_stays_within_limit deps e :
  reachable deps e ->
  0 <= historyLimit (settings e) ->
  Z.of_nat (length (swapHistory e)) <= historyLimit (settings e).
Proof.
  induction 1 as [s store faults|o e _ IH]; [simpl; auto|].
  destruct (run_limitKept deps o e) as [Hs Hkept].
  apply Hkept. exact IH.
Qed.

Lemma swap_history_stays_within_limit_witness :
  Z.of_nat (length (swapHistory
                      (run noCollaborators (OpPerformSwap 2000 "c1" "c2" "c1.0" JNull)
                         (run noCollaborators (OpPerformSwap 1000 "c1" "c2" "c1.3" JNull)
                            (newEngine (mkSettings true true 1 true true true)
                                       Samples.sampleStore []))))) <= 1.
Proof.
  apply (swap_history_stays_within_limit noCollaborators
           (run noCollaborators (OpPerformSwap 2000 "c1" "c2" "c1.0" JNull)
              (run noCollaborators (OpPerformSwap 1000 "c1" "c2" "c1.3" JNull)
                 (newEngine (mkSettings true true 1 true true true)
                            Samples.sampleStore [])))).
  - apply reach_step, reach_step, reach_new.
  - vm_compute. discriminate.
Defined.

End ZoneSwapLaws.

Module CharCacheLaws.
Import Js CharCache CharCacheProps CharCacheFacts CharCacheCleanup CharCacheLawsProps.

(** X15. A character that [cacheCharacter] accepts can be read back:
    for a non-empty id and a state the call answers [true], the state
    is the cached entry of that id, and [loadCharacterState] finds it in
    the cache. An empty id or a missing state is refused and changes
    nothing. *)
Theorem cached_state_can_be_loaded_back now later c st h :
  c <> "" ->
  fst (cacheCharacter now c (Some st) h) = true
  /\ characterCache (snd (cacheCharacter now c (Some st) h)) !! c = Some st
  /\ fst (loadCachedState later c (snd (cacheCharacter now c (Some st) h))) = Some st
  /\ cacheCharacter now "" (Some st) h = (false, h)
  /\ cacheCharacter now c None h = (false, h).
Proof.
  intros Hc. unfold cacheCharacter.
  destruct (String.eqb_spec c "") as [->|_]; [contradiction|].
  simpl. unfold loadCachedState. simpl. rewrite lookup_insert_eq. auto.
Qed.

Lemma cached_state_can_be_loaded_back_witness :
  fst (loadCachedState 9 "c4"
         (snd (cacheCharacter 8 "c4" (Some (Samples.smallState "c4"))
                 Samples.handlerWithPinned)))
  = Some (Samples.smallState "c4").
Proof.
  apply (cached_state_can_be_loaded_back 8 9 "c4" (Samples.smallState "c4")
           Samples.handlerWithPinned).
  discriminate.
Defined.

(** *** The number of cached characters *)

Lemma pinnedEntry_same h h' :
  activeCharacterId h' = activeCharacterId h ->
  (forall c, isActive h c = true -> characterCache h' !! c = characterCache h !! c) ->
  pinnedCount h' = pinnedCount h.
Proof.
  intros Hactive Hkept. unfold pinnedCount, pinnedEntry. rewrite Hactive.
  destruct (activeCharacterId h) as [a|] eqn:Ha; [|reflexivity].
  rewrite Hkept; [reflexivity|]. unfold isActive. rewrite Ha. apply String.eqb_refl.
Qed.

Lemma only_pinned_left h :
  (forall c, isActive h c = false -> characterCache h !! c = None) ->
  cacheSize h <= pinnedCount h.
Proof.
  intros Hnone. unfold cacheSize, pinnedCount, pinnedEntry, isActive in *.
  destruct (activeCharacterId h) as [a|].
  - assert (Hdel : delete a (characterCache h) = ∅).
    { apply map_eq. intros c. rewrite lookup_empty.
      destruct (decide (c = a)) as [->|Hne]; [apply lookup_delete_eq|].
      rewrite lookup_delete_ne by congruence. apply Hnone.
      apply String.eqb_neq. exact Hne. }
    pose proof (map_size_delete a (characterCache h)) as Hsize.
    rewrite Hdel, map_size_empty in Hsize.
    destruct (characterCache h !! a); simpl in Hsize; unfold id in Hsize; lia.
  - assert (Hempty : characterCache h = ∅).
    { apply map_eq. intros c. rewrite lookup_empty. apply Hnone. reflexivity. }
    rewrite Hempty, map_size_empty. lia.
Qed.

Lemma evictCharacters_shrinks requiredBytes h :
  characterCache (evictCharacters requiredBytes h) ⊆ characterCache h.
Proof.
  destruct (evictCharacters_inv requiredBytes h) as (victims & -> & _).
  apply map_subseteq_spec. intros c st. rewrite evictAll_lookup.
  destruct (decide _); [discriminate | auto].
Qed.

Lemma evictCharacters_pinnedCount requiredBytes h :
  wellKeyed h -> pinnedCount (evictCharacters requiredBytes h) = pinnedCount h.
Proof.
  intros Hwk. destruct (evictCharacters_spec requiredBytes h Hwk) as [Hkept _].
  destruct (evictCharacters_inv requiredBytes h) as (_ & _ & _ & _ & Hactive & _).
  apply pinnedEntry_same; assumption.
Qed.

Lemma countWithinLimit_evict requiredBytes h :
  wellKeyed h -> countWithinLimit h -> countWithinLimit (evictCharacters requiredBytes h).
Proof.
  intros Hwk Hcount. unfold countWithinLimit in *.
  rewrite (evictCharacters_pinnedCount _ _ Hwk).
  destruct (evictCharacters_inv requiredBytes h) as (_ & _ & _ & _ & _ & -> & _).
  pose proof (map_subseteq_size _ _ (evictCharacters_shrinks requiredBytes h)) as Hle.
  unfold cacheSize in *. lia.
Qed.

Lemma size_insert_le (m : gmap string CharacterState) c st :
  (size (<[c := st]> m) <= S (size m))%nat.
Proof.
  destruct (m !! c) eqn:E.
  - rewrite map_size_insert_Some by eauto. lia.
  - rewrite map_size_insert_None by exact E. lia.
Qed.

Lemma countWithinLimit_cacheCharacter now c state h :
  wellKeyed h -> 1 <= maxCachedCharacters h ->
  countWithinLimit h -> countWithinLimit (snd (cacheCharacter now c state h)).
Proof.
  intros Hwk Hmax Hcount. unfold cacheCharacter.
  destruct state as [state|]; [|exact Hcount].
  destruct (String.eqb c ""); [exact Hcount|].
  set (h1 := if memoryBudgetBytes h <? memoryUsageBytes h + calculateStateSize state
             then evictCharacters (calculateStateSize state) h else h).
  assert (H1 : wellKeyed h1 /\ countWithinLimit h1
               /\ maxCachedCharacters h1 = maxCachedCharacters h).
  { subst h1. destruct (_ <? _); [|auto].
    split; [apply wellKeyed_evictCharacters, Hwk|].
    split; [apply countWithinLimit_evict; assumption|].
    destruct (evictCharacters_inv (calculateStateSize state) h)
      as (_ & _ & _ & _ & _ & -> & _). reflexivity. }
  clearbody h1. destruct H1 as (Hwk1 & Hcount1 & Hmax1).
  set (h2 := if maxCachedCharacters h1 <=? cacheSize h1 then evictCharacters 0 h1 else h1).
  assert (H2 : maxCachedCharacters h2 = maxCachedCharacters h
               /\ (cacheSize h2 < maxCachedCharacters h2
                   \/ cacheSize h2 <= pinnedCount h2
                      /\ forall k, isActive h2 k = false -> characterCache h2 !! k = None)).
  { subst h2. destruct (_ <=? _) eqn:Hfull.
    - destruct (evictCharacters_inv 0 h1) as (_ & _ & _ & _ & Hactive & Hm & _).
      split; [congruence|].
      destruct (evictCharacters_spec 0 h1 Hwk1) as [_ [[Hlt _]|Hgone]]; [left; exact Hlt|].
      right.
      assert (Hgone' : forall k, isActive (evictCharacters 0 h1) k = false ->
                                 characterCache (evictCharacters 0 h1) !! k = None).
      { intros k Hk. apply Hgone. unfold isActive in *. rewrite <- Hactive. exact Hk. }
      split; [apply only_pinned_left, Hgone' | exact Hgone'].
    - apply Z.leb_gt in Hfull. split; [exact Hmax1 | left; lia]. }
  clearbody h2. destruct H2 as (Hmax2 & Hroom).
  unfold countWithinLimit. simpl. unfold cacheSize, pinnedCount, pinnedEntry. simpl.
  pose proof (size_insert_le (characterCache h2) c state) as Hins.
  destruct Hroom as [Hlt|[Hle Hgone]].
  - unfold cacheSize in Hlt.
    destruct (activeCharacterId h2) as [a|]; [destruct (_ !! a)|]; lia.
  - unfold cacheSize, pinnedCount, pinnedEntry in Hle.
    destruct (activeCharacterId h2) as [a|] eqn:Ha.
    + destruct (decide (a = c)) as [->|Hne].
      * rewrite lookup_insert_eq.
        destruct (characterCache h2 !! c) eqn:Hc.
        -- rewrite map_size_insert_Some by eauto. lia.
        -- lia.
      * rewrite lookup_insert_ne by congruence.
        destruct (characterCache h2 !! a); lia.
    + lia.
Qed.

Lemma countWithinLimit_deleteCharacter c h :
  countWithinLimit h -> countWithinLimit (snd (deleteCharacter c h)).
Proof.
  intros Hcount. unfold deleteCharacter.
  destruct (String.eqb c ""); [exact Hcount|].
  destruct (isActive h c) eqn:Hactive; [exact Hcount|].
  unfold countWithinLimit in *. simpl.
  assert (Hpinned : pinnedCount
            (set_stats
               (mkStats
                  (cacheSize
                     (mkHandler (activeCharacterId h) (delete c (characterCache h))
                        (delete c (characterStates h)) (mapDelete c (lastAccessTimes h))
                        (maxCachedCharacters h) (maxMemoryMB h) (memoryThresholdMB h)
                        (memoryUsageBytes h) (autoSaveEnabled h) (saveRequests h) (stats h)))
                  (cacheHits (stats h)) (evictions (stats h))
                  (memoryPressureEvents (stats h)))
               (mkHandler (activeCharacterId h) (delete c (characterCache h))
                  (delete c (characterStates h)) (mapDelete c (lastAccessTimes h))
                  (maxCachedCharacters h) (maxMemoryMB h) (memoryThresholdMB h)
                  (memoryUsageBytes h) (autoSaveEnabled h) (saveRequests h) (stats h)))
            = pinnedCount h).
  { apply pinnedEntry_same; [reflexivity|]. simpl. intros k Hk.
    apply lookup_delete_ne. intros ->. congruence. }
  rewrite Hpinned. unfold cacheSize. simpl.
  pose proof (map_size_delete c (characterCache h)) as Hsize.
  unfold cacheSize in Hcount.
  destruct (characterCache h !! c); simpl in Hsize; unfold id in Hsize; lia.
Qed.

Lemma countWithinLimit_switchToCached now c h :
  countWithinLimit h -> countWithinLimit (switchToCached now c h).
Proof.
  intros Hcount. unfold switchToCached, loadCachedState.
  destruct (characterCache h !! c) as [st|] eqn:Hc; [|exact Hcount].
  unfold countWithinLimit, cacheSize, pinnedCount, pinnedEntry in *. simpl.
  rewrite Hc. destruct (activeCharacterId h) as [a|]; [destruct (_ !! a)|]; lia.
Qed.

Lemma countWithinLimit_loadCachedState now c h :
  countWithinLimit h -> countWithinLimit (snd (loadCachedState now c h)).
Proof.
  intros Hcount. unfold loadCachedState.
  destruct (characterCache h !! c); exact Hcount.
Qed.

Lemma run_maxCachedCharacters o h : maxCachedCharacters (run o h) = maxCachedCharacters h.
Proof.
  destruct o as [now c state|c|now c|now c]; simpl.
  - unfold cacheCharacter. destruct state as [state|]; [|reflexivity].
    destruct (String.eqb c ""); [reflexivity|]. simpl.
    repeat match goal with
           | |- context [if ?b then evictCharacters ?r ?x else ?x] =>
               let H := fresh in
               destruct (evictCharacters_inv r x) as (_ & _ & _ & _ & _ & H & _);
               destruct b; rewrite ?H; clear H
           end; reflexivity.
  - unfold deleteCharacter. destruct (String.eqb c ""); [reflexivity|].
    destruct (isActive h c); reflexivity.
  - unfold loadCachedState. destruct (characterCache h !! c); reflexivity.
  - unfold switchToCached, loadCachedState. destruct (characterCache h !! c); reflexivity.
Qed.

(** X16. The cache never holds more than [maxCachedCharacters] entries
    besides the pinned one: in every handler reached by caching,
    deleting, loading from the cache and switching to cached characters,
    with a limit of at least one, the number of cached characters, the
    pinned character's entry not counted, is at most the limit. *)
Theorem cache_count_stays_within_limit h :
  reachable h ->
  1 <= maxCachedCharacters h ->
  cacheSize h - pinnedCount h <= maxCachedCharacters h.
Proof.
  induction 1 as [maxCharacters memoryThreshold autoSave|o h Hreach IH].
  - intros Hmax. unfold cacheSize, pinnedCount, pinnedEntry. simpl in *.
    rewrite map_size_empty. lia.
  - rewrite run_maxCachedCharacters. intros Hmax. specialize (IH Hmax).
    pose proof (wellKeyed_reachable h Hreach) as Hwk.
    fold (countWithinLimit h) in IH.
    rewrite <- (run_maxCachedCharacters o h). fold (countWithinLimit (run o h)).
    destruct o as [now c state|c|now c|now c]; simpl.
    + apply countWithinLimit_cacheCharacter; assumption.
    + apply countWithinLimit_deleteCharacter, IH.
    + apply countWithinLimit_loadCachedState, IH.
    + apply countWithinLimit_switchToCached, IH.
Qed.

Lemma cache_count_stays_within_limit_witness :
  cacheSize Samples.handlerWithPinned - pinnedCount Samples.handlerWithPinned
  <= maxCachedCharacters Samples.handlerWithPinned.
Proof.
  apply (cache_count_stays_within_limit Samples.handlerWithPinned).
  - unfold Samples.handlerWithPinned. repeat apply reach_step. apply reach_init.
  - vm_compute. discriminate.
Defined.

(** *** Least recently used first *)

Lemma insertByTime_sorted x l :
  StronglySorted notAfter l -> StronglySorted notAfter (insertByTime x l).
Proof.
  induction 1 as [|y l Hsorted IH Hy]; simpl; [repeat constructor|].
  destruct (snd y <? snd x) eqn:Hlt.
  - constructor; [exact IH|]. rewrite insertByTime_perm. constructor; [|exact Hy].
    apply Z.ltb_lt in Hlt. unfold notAfter. lia.
  - constructor; [constructor; assumption|].
    apply Z.ltb_ge in Hlt. constructor; [exact Hlt|].
    eapply Forall_impl; [exact Hy|]. unfold notAfter. intros z Hz. lia.
Qed.

Lemma sortByTime_sorted l : StronglySorted notAfter (sortByTime l).
Proof.
  induction l as [|x l IH]; [constructor|].
  unfold sortByTime in *. simpl. apply insertByTime_sorted, IH.
Qed.

Lemma sorted_app_le (pre post : list (string * Z)) x y :
  StronglySorted notAfter (pre ++ post) -> x ∈ pre -> y ∈ post -> snd x <= snd y.
Proof.
  induction pre as [|z pre IH]; simpl; intros Hsorted Hx Hy; [inversion Hx|].
  apply StronglySorted_inv in Hsorted as [Hsorted Hz].
  apply elem_of_cons in Hx as [->|Hx]; [|auto].
  rewrite Forall_forall in Hz. apply Hz. apply elem_of_app. right. exact Hy.
Qed.

Lemma selectVictims_split h requiredBytes sorted bytesFreed toEvict :
  exists victims pre post,
    snd (selectVictims h requiredBytes sorted bytesFreed toEvict) = toEvict ++ victims
    /\ sorted = pre ++ post
    /\ (forall k, k ∈ victims.*1 -> k ∈ pre.*1)
    /\ (forall k, k ∈ pre.*1 -> is_Some (characterCache h !! k) -> k ∈ victims.*1).
Proof.
  revert bytesFreed toEvict.
  induction sorted as [|[characterId t] rest IH]; intros bytesFreed toEvict.
  - exists [], [], []. simpl. rewrite app_nil_r. repeat split; auto.
  - simpl. destruct (characterCache h !! characterId) as [state|] eqn:Hstate.
    + destruct (_ && _).
      * exists [(characterId, calculateStateSize state)], [(characterId, t)], rest.
        simpl. repeat split; auto.
      * destruct (IH (bytesFreed + calculateStateSize state)
                     (toEvict ++ [(characterId, calculateStateSize state)]))
          as (victims & pre & post & Hsel & -> & Hin & Hall).
        exists ((characterId, calculateStateSize state) :: victims),
               ((characterId, t) :: pre), post.
        rewrite Hsel, <- app_assoc. simpl. repeat split; auto.
        -- intros k Hk. apply elem_of_cons in Hk as [->|Hk];
             [apply list_elem_of_here | apply list_elem_of_further, Hin, Hk].
        -- intros k Hk Hsome. apply elem_of_cons in Hk as [->|Hk];
             [apply list_elem_of_here | apply list_elem_of_further, Hall; assumption].
    + destruct (IH bytesFreed toEvict) as (victims & pre & post & Hsel & -> & Hin & Hall).
      exists victims, ((characterId, t) :: pre), post.
      rewrite Hsel. simpl. repeat split; auto.
      * intros k Hk. apply list_elem_of_further, Hin, Hk.
      * intros k Hk Hsome. apply elem_of_cons in Hk as [->|Hk].
        -- rewrite Hstate in Hsome. destruct Hsome; discriminate.
        -- apply Hall; assumption.
Qed.

Lemma evictCharacters_cache requiredBytes h :
  characterCache (evictCharacters requiredBytes h)
  = if cacheSize h =? 0 then characterCache h
    else characterCache
           (evictAll (snd (selectVictims h requiredBytes (sortedCharacters h) 0 [])) h).
Proof.
  unfold evictCharacters. destruct (cacheSize h =? 0); [reflexivity|].
  destruct (selectVictims h requiredBytes (sortedCharacters h) 0 []) as [freed toEvict].
  simpl. destruct (_ <? _); reflexivity.
Qed.

Lemma NoDup_keys_functional (l : list (string * Z)) k v1 v2 :
  NoDup l.*1 -> (k, v1) ∈ l -> (k, v2) ∈ l -> v1 = v2.
Proof.
  induction l as [|[k' v'] l IH]; simpl; intros Hnd H1 H2; [inversion H1|].
  apply NoDup_cons in Hnd as [Hfresh Hnd].
  apply elem_of_cons in H1 as [H1|H1]; apply elem_of_cons in H2 as [H2|H2].
  - congruence.
  - inversion H1; subst. exfalso. apply Hfresh.
    apply list_elem_of_fmap. exists (k', v2). auto.
  - inversion H2; subst. exfalso. apply Hfresh.
    apply list_elem_of_fmap. exists (k', v1). auto.
  - auto.
Qed.

Lemma sortedCharacters_entry h k t :
  (k, t) ∈ sortedCharacters h -> (k, t) ∈ lastAccessTimes h.
Proof.
  unfold sortedCharacters. rewrite sortByTime_perm.
  intros Hin. apply list_elem_of_filter in Hin as [_ Hin]. exact Hin.
Qed.

(** X17. Eviction goes by least recent use. When a pass evicts one
    cached character and leaves another one that is not the active
    character in the cache, the evicted one was not accessed later than
    the one that stays. *)
Theorem eviction_follows_least_recent_use requiredBytes h c c' tc tc' :
  reachable h ->
  (c, tc) ∈ lastAccessTimes h -> (c', tc') ∈ lastAccessTimes h ->
  is_Some (characterCache h !! c) ->
  characterCache (evictCharacters requiredBytes h) !! c = None ->
  isActive h c' = false ->
  is_Some (characterCache (evictCharacters requiredBytes h) !! c') ->
  tc <= tc'.
Proof.
  intros Hreach Htc Htc' Hcached Hevicted Hinactive Hstays.
  destruct (wellKeyed_reachable h Hreach) as [Hnd _].
  rewrite evictCharacters_cache in Hevicted, Hstays.
  destruct (cacheSize h =? 0).
  { rewrite Hevicted in Hcached. destruct Hcached; discriminate. }
  destruct (selectVictims_split h requiredBytes (sortedCharacters h) 0 [])
    as (victims & pre & post & Hsel & Hsplit & Hin & Hall).
  simpl in Hsel. rewrite Hsel in Hevicted, Hstays.
  rewrite evictAll_lookup in Hevicted, Hstays.
  destruct (decide (c ∈ victims.*1)) as [Hc|Hc].
  2:{ rewrite Hevicted in Hcached. destruct Hcached; discriminate. }
  destruct (decide (c' ∈ victims.*1)) as [Hc'|Hc']; [destruct Hstays; discriminate|].
  apply Hin in Hc. apply list_elem_of_fmap in Hc as ([k1 t1] & Hk1 & Hpre). simpl in Hk1.
  subst k1.
  assert (Hsorted' : c' ∈ (sortedCharacters h).*1).
  { apply sortedCharacters_elem. split; [|exact Hinactive].
    apply list_elem_of_fmap. exists (c', tc'). auto. }
  rewrite Hsplit, fmap_app in Hsorted'. apply elem_of_app in Hsorted' as [Hp|Hp].
  { exfalso. apply Hc', Hall; assumption. }
  apply list_elem_of_fmap in Hp as ([k2 t2] & Hk2 & Hpost). simpl in Hk2. subst k2.
  assert (t1 = tc) as ->.
  { apply (NoDup_keys_functional (lastAccessTimes h) c); [exact Hnd| |exact Htc].
    apply sortedCharacters_entry. rewrite Hsplit. apply elem_of_app. auto. }
  assert (t2 = tc') as ->.
  { apply (NoDup_keys_functional (lastAccessTimes h) c'); [exact Hnd| |exact Htc'].
    apply sortedCharacters_entry. rewrite Hsplit. apply elem_of_app. auto. }
  apply (sorted_app_le pre post (c, tc) (c', tc')); [|assumption|assumption].
  rewrite <- Hsplit. apply sortByTime_sorted.
Qed.

Lemma eviction_follows_least_recent_use_witness :
  characterCache (evictCharacters 0 threeCached) !! "c1" = None
  /\ is_Some (characterCache (evictCharacters 0 threeCached) !! "c2")
  /\ 1 <= 2.
Proof.
  assert (Hgone : characterCache (evictCharacters 0 threeCached) !! "c1" = None)
    by (vm_compute; reflexivity).
  assert (Hstays : is_Some (characterCache (evictCharacters 0 threeCached) !! "c2"))
    by (vm_compute; eauto).
  split; [exact Hgone|]. split; [exact Hstays|].
  apply (eviction_follows_least_recent_use 0 threeCached "c1" "c2" 1 2).
  - unfold threeCached, Samples.initialHandler. repeat apply reach_step. apply reach_init.
  - vm_compute. apply list_elem_of_here.
  - vm_compute. apply list_elem_of_further, list_elem_of_here.
  - vm_compute. eauto.
  - exact Hgone.
  - reflexivity.
  - exact Hstays.
Defined.

(** *** The periodic cleanup *)

Lemma cleanupAll_lookup ids h c :
  characterCache (cleanupAll ids h) !! c
  = if decide (c ∈ ids) then None else characterCache h !! c.
Proof.
  revert h. induction ids as [|k ids IH]; intros h.
  - simpl. destruct (decide (c ∈ [])) as [Hin|_]; [inversion Hin | reflexivity].
  - unfold cleanupAll in *. simpl. rewrite IH. simpl.
    destruct (decide (c ∈ ids)) as [Hin|Hnin].
    + rewrite decide_True by (apply list_elem_of_further, Hin). reflexivity.
    + destruct (decide (c = k)) as [->|Hne].
      * rewrite decide_True by apply list_elem_of_here. apply lookup_delete_eq.
      * rewrite decide_False by (rewrite elem_of_cons; tauto).
        apply lookup_delete_ne. congruence.
Qed.

Lemma cleanupAll_times ids h c :
  c ∈ (lastAccessTimes (cleanupAll ids h)).*1
  <-> (c ∉ ids) /\ c ∈ (lastAccessTimes h).*1.
Proof.
  revert h. induction ids as [|k ids IH]; intros h.
  - simpl. split; [intros Hin; split; [intros H; inversion H | exact Hin] | tauto].
  - unfold cleanupAll in *. simpl. rewrite IH. simpl.
    rewrite mapDelete_elem, elem_of_cons. tauto.
Qed.

Lemma cleanupInactiveCharacters_cache now h :
  characterCache (cleanupInactiveCharacters now h)
  = characterCache (cleanupAll (toCleanup now h) h)
  /\ lastAccessTimes (cleanupInactiveCharacters now h)
     = lastAccessTimes (cleanupAll (toCleanup now h) h)
  /\ memoryUsageBytes (cleanupInactiveCharacters now h)
     = memoryUsageBytes (cleanupAll (toCleanup now h) h).
Proof.
  unfold cleanupInactiveCharacters. destruct (toCleanup now h); auto.
Qed.

Lemma toCleanup_elem now h c :
  c ∈ toCleanup now h
  <-> exists t, (c, t) ∈ lastAccessTimes h /\ isActive h c = false /\ maxAge < now - t.
Proof.
  unfold toCleanup. rewrite list_elem_of_fmap. split.
  - intros ([k t] & -> & Hin). apply list_elem_of_filter in Hin as [Hstale Hin].
    unfold isStale in Hstale. simpl in *.
    apply andb_true_iff in Hstale as [Hinactive Hold].
    exists t. repeat split; [exact Hin | apply negb_true_iff, Hinactive | apply Z.ltb_lt, Hold].
  - intros (t & Hin & Hinactive & Hold). exists (c, t). split; [reflexivity|].
    apply list_elem_of_filter. split; [|exact Hin].
    unfold isStale. simpl. rewrite Hinactive. simpl. apply Z.ltb_lt, Hold.
Qed.

(** X18. The periodic cleanup removes exactly the stale characters: a
    character that is not the active one and whose last access lies more
    than 30 minutes back leaves the cache and the access times; the
    active character and every character accessed within the last 30
    minutes keep their entries. *)
Theorem cleanup_removes_exactly_stale_characters now h :
  NoDup (lastAccessTimes h).*1 ->
  (forall c, isActive h c = true ->
     characterCache (cleanupInactiveCharacters now h) !! c = characterCache h !! c)
  /\ (forall c t, (c, t) ∈ lastAccessTimes h -> now - t <= maxAge ->
        characterCache (cleanupInactiveCharacters now h) !! c = characterCache h !! c
        /\ c ∈ (lastAccessTimes (cleanupInactiveCharacters now h)).*1)
  /\ (forall c t, (c, t) ∈ lastAccessTimes h -> isActive h c = false ->
        maxAge < now - t ->
        characterCache (cleanupInactiveCharacters now h) !! c = None
        /\ c ∉ (lastAccessTimes (cleanupInactiveCharacters now h)).*1).
Proof.
  intros Hnd.
  destruct (cleanupInactiveCharacters_cache now h) as (-> & -> & _).
  split; [|split].
  - intros c Hactive. rewrite cleanupAll_lookup, decide_False; [reflexivity|].
    intros Hin. apply toCleanup_elem in Hin as (t & _ & Hinactive & _). congruence.
  - intros c t Hin Hrecent.
    assert (Hnot : c ∉ toCleanup now h).
    { intros Hstale. apply toCleanup_elem in Hstale as (t' & Hin' & _ & Hold).
      rewrite (NoDup_keys_functional _ _ _ _ Hnd Hin Hin') in Hrecent. lia. }
    split.
    + rewrite cleanupAll_lookup, decide_False by exact Hnot. reflexivity.
    + apply cleanupAll_times. split; [exact Hnot|].
      apply list_elem_of_fmap. exists (c, t). auto.
  - intros c t Hin Hinactive Hold.
    assert (Hstale : c ∈ toCleanup now h) by (apply toCleanup_elem; eauto).
    split.
    + rewrite cleanupAll_lookup, decide_True by exact Hstale. reflexivity.
    + rewrite cleanupAll_times. tauto.
Qed.

Lemma cleanup_removes_exactly_stale_characters_witness :
  characterCache (cleanupInactiveCharacters 1800002 threeCached) !! "c1" = None
  /\ characterCache (cleanupInactiveCharacters 1800002 threeCached) !! "c2"
     = characterCache threeCached !! "c2".
Proof.
  destruct (cleanup_removes_exactly_stale_characters 1800002 threeCached)
    as (_ & Hrecent & Hstale).
  { compute_done. }
  split.
  - apply (Hstale "c1" 1); [vm_compute; apply list_elem_of_here | reflexivity
                           | vm_compute; reflexivity].
  - apply (Hrecent "c2" 2); [vm_compute; apply list_elem_of_further, list_elem_of_here
                            | vm_compute; discriminate].
Defined.

(** *** Exact memory accounting *)

Lemma sumBytes_insert m c st :
  m !! c = None -> sumBytes (<[c := st]> m) = calculateStateSize st + sumBytes m.
Proof.
  intros Hnone. unfold sumBytes.
  apply (map_fold_insert_L (fun _ state acc => calculateStateSize state + acc)); [|exact Hnone].
  intros. lia.
Qed.

Lemma sumBytes_delete m c st :
  m !! c = Some st -> sumBytes (delete c m) = sumBytes m - calculateStateSize st.
Proof.
  intros Hsome. rewrite <- (insert_delete_id m c st Hsome) at 2.
  rewrite sumBytes_insert by apply lookup_delete_eq. lia.
Qed.

Lemma sumBytes_delete_None m c : m !! c = None -> sumBytes (delete c m) = sumBytes m.
Proof. intros Hnone. rewrite delete_id by exact Hnone. reflexivity. Qed.

Lemma cleanupAll_exact ids h : trackedExactly h -> trackedExactly (cleanupAll ids h).
Proof.
  revert h. induction ids as [|k ids IH]; intros h Hexact; [exact Hexact|].
  unfold cleanupAll in *. simpl. apply IH.
  unfold trackedExactly, totalCachedBytes in *. simpl. fold (sumBytes (characterCache h)) in Hexact.
  fold (sumBytes (delete k (characterCache h))).
  destruct (characterCache h !! k) as [st|] eqn:Hk.
  - rewrite (sumBytes_delete _ _ _ Hk). lia.
  - rewrite (sumBytes_delete_None _ _ Hk). exact Hexact.
Qed.

Lemma selectVictims_sized h requiredBytes sorted bytesFreed toEvict :
  Forall (sizedBy h) toEvict ->
  Forall (sizedBy h) (snd (selectVictims h requiredBytes sorted bytesFreed toEvict)).
Proof.
  revert bytesFreed toEvict.
  induction sorted as [|[characterId t] rest IH]; intros bytesFreed toEvict Hall;
    [exact Hall|].
  simpl. destruct (characterCache h !! characterId) as [state|] eqn:Hstate; [|auto].
  assert (Hall' : Forall (sizedBy h) (toEvict ++ [(characterId, calculateStateSize state)])).
  { apply Forall_app. split; [exact Hall|]. constructor; [|constructor].
    exists state. auto. }
  destruct (_ && _); [exact Hall' | apply IH, Hall'].
Qed.

Lemma evictAll_exact victims h :
  NoDup victims.*1 -> Forall (sizedBy h) victims ->
  trackedExactly h -> trackedExactly (evictAll victims h).
Proof.
  revert h. induction victims as [|[k sz] victims IH]; intros h Hnd Hsized Hexact;
    [exact Hexact|].
  simpl in Hnd. apply NoDup_cons in Hnd as [Hfresh Hnd].
  apply Forall_cons in Hsized as [(st & Hk & Hsz) Hsized]. simpl in Hk, Hsz. subst sz.
  rewrite evictAll_cons. apply IH; [exact Hnd| |].
  - rewrite Forall_forall in Hsized |- *. intros [k' sz'] Hin.
    destruct (Hsized _ Hin) as (st' & Hk' & Hsz'). simpl in *.
    exists st'. split; [|exact Hsz']. simpl. rewrite lookup_delete_ne; [exact Hk'|].
    intros ->. apply Hfresh. apply list_elem_of_fmap. exists (k', sz'). auto.
  - unfold trackedExactly, totalCachedBytes in *. simpl.
    fold (sumBytes (characterCache h)) in Hexact.
    fold (sumBytes (delete k (characterCache h))).
    rewrite (sumBytes_delete _ _ _ Hk). lia.
Qed.

Lemma evictCharacters_exact requiredBytes h :
  NoDup (lastAccessTimes h).*1 ->
  trackedExactly h -> trackedExactly (evictCharacters requiredBytes h).
Proof.
  intros Hnd Hexact. unfold evictCharacters.
  destruct (cacheSize h =? 0); [exact Hexact|].
  destruct (selectVictims_spec h requiredBytes (sortedCharacters h) 0 [])
    as (victims & Hsel & Hsub & _).
  pose proof (selectVictims_sized h requiredBytes (sortedCharacters h) 0 []
                ltac:(constructor)) as Hsized.
  rewrite Hsel in Hsized |- *. simpl in Hsized.
  assert (Hexact' : trackedExactly (evictAll victims h)).
  { apply evictAll_exact; [|exact Hsized|exact Hexact].
    eapply sublist_NoDup; [apply sortedCharacters_NoDup, Hnd | exact Hsub]. }
  simpl. destruct (_ <? _); exact Hexact'.
Qed.

(** X19. Eviction, the periodic cleanup and caching a character that is
    not cached yet keep the tracked memory usage exact: if
    [memoryUsageBytes] equals the added sizes of the cached states
    before, it does so after. *)
Theorem tracked_usage_stays_exact now requiredBytes c st h :
  NoDup (lastAccessTimes h).*1 ->
  trackedExactly h ->
  trackedExactly (evictCharacters requiredBytes h)
  /\ trackedExactly (cleanupInactiveCharacters now h)
  /\ (characterCache h !! c = None ->
      trackedExactly (snd (cacheCharacter now c (Some st) h))).
Proof.
  intros Hnd Hexact. split; [apply evictCharacters_exact; assumption|]. split.
  - unfold cleanupInactiveCharacters.
    destruct (toCleanup now h) as [|k ids] eqn:Hids; [exact Hexact|].
    apply (cleanupAll_exact (k :: ids) h Hexact).
  - intros Hnew. unfold cacheCharacter.
    destruct (String.eqb c ""); [exact Hexact|].
    set (h1 := if memoryBudgetBytes h <? memoryUsageBytes h + calculateStateSize st
               then evictCharacters (calculateStateSize st) h else h).
    assert (H1 : NoDup (lastAccessTimes h1).*1 /\ trackedExactly h1
                 /\ characterCache h1 !! c = None).
    { subst h1. destruct (_ <? _); [|auto].
      split; [|split; [apply evictCharacters_exact; assumption|]].
      - destruct (evictCharacters_inv (calculateStateSize st) h) as (vs & _ & -> & _).
        apply evictAll_times_NoDup, Hnd.
      - pose proof (evictCharacters_shrinks (calculateStateSize st) h) as Hsub.
        destruct (characterCache (evictCharacters _ h) !! c) as [x|] eqn:Hx; [|reflexivity].
        rewrite (lookup_weaken _ _ _ _ Hx Hsub) in Hnew. discriminate. }
    clearbody h1. destruct H1 as (Hnd1 & Hexact1 & Hnew1).
    set (h2 := if maxCachedCharacters h1 <=? cacheSize h1 then evictCharacters 0 h1 else h1).
    assert (H2 : trackedExactly h2 /\ characterCache h2 !! c = None).
    { subst h2. destruct (_ <=? _); [|auto].
      split; [apply evictCharacters_exact; assumption|].
      pose proof (evictCharacters_shrinks 0 h1) as Hsub.
      destruct (characterCache (evictCharacters _ h1) !! c) as [x|] eqn:Hx; [|reflexivity].
      rewrite (lookup_weaken _ _ _ _ Hx Hsub) in Hnew1. discriminate. }
    clearbody h2. destruct H2 as (Hexact2 & Hnew2).
    unfold trackedExactly, totalCachedBytes in *. simpl.
    fold (sumBytes (characterCache h2)) in Hexact2.
    fold (sumBytes (<[c := st]> (characterCache h2))).
    rewrite (sumBytes_insert _ _ _ Hnew2). lia.
Qed.

Lemma tracked_usage_stays_exact_witness :
  trackedExactly (evictCharacters 0 threeCached)
  /\ trackedExactly (cleanupInactiveCharacters 1800002 threeCached)
  /\ trackedExactly (snd (cacheCharacter 4 "c4" (Some (Samples.smallState "c4")) threeCached)).
Proof.
  destruct (tracked_usage_stays_exact 4 0 "c4" (Samples.smallState "c4") threeCached)
    as (Hevict & _ & Hcache).
  { compute_done. }
  { vm_compute. reflexivity. }
  destruct (tracked_usage_stays_exact 1800002 0 "c4" (Samples.smallState "c4") threeCached)
    as (_ & Hcleanup & _).
  { compute_done. }
  { vm_compute. reflexivity. }
  split; [exact Hevict|]. split; [exact Hcleanup|]. apply Hcache. reflexivity.
Defined.

End CharCacheLaws.

Module StorageLaws.
Import Js ZoneSwap Hash Storage StorageProps.

(** *** The hash *)

Lemma toInt32_range z : -2147483648 <= toInt32 z < 2147483648.
Proof. unfold toInt32. pose proof (Z.mod_pos_bound (z + 2147483648) 4294967296). lia. Qed.

Lemma toInt32_congr a b :
  (a - b) mod 4294967296 = 0 -> toInt32 a = toInt32 b.
Proof.
  intros H. unfold toInt32. f_equal.
  apply Z.mod_divide in H; [|lia]. destruct H as [k Hk].
  replace (a + 2147483648) with (b + 2147483648 + k * 4294967296) by lia.
  apply Z.mod_add. lia.
Qed.

Lemma toInt32_diff z : (toInt32 z - z) mod 4294967296 = 0.
Proof.
  unfold toInt32.
  pose proof (Z.div_mod (z + 2147483648) 4294967296 ltac:(lia)) as H.
  replace ((z + 2147483648) mod 4294967296 - 2147483648 - z)
    with (- ((z + 2147483648) / 4294967296) * 4294967296) by lia.
  apply Z.mod_mul. lia.
Qed.

Lemma hashStep_spec hash char : hashStep hash char = toInt32 (31 * hash + char).
Proof.
  unfold hashStep, and_, shl. rewrite Z.land_diag, Z.shiftl_mul_pow2 by lia.
  apply toInt32_congr.
  pose proof (toInt32_diff hash) as H1.
  pose proof (toInt32_diff (toInt32 hash * 2 ^ 5)) as H2.
  apply Z.mod_divide in H1; [|lia]. apply Z.mod_divide in H2; [|lia].
  destruct H1 as [k1 H1], H2 as [k2 H2].
  apply Z.mod_divide; [lia|]. exists (k2 + 32 * k1). change (2 ^ 5) with 32 in *. lia.
Qed.

Lemma hashCode_from codes : forall h h',
  h = toInt32 h' ->
  fold_left hashStep codes h
  = toInt32 (h' * 31 ^ Z.of_nat (length codes) + polynomial codes).
Proof.
  induction codes as [|c rest IH]; intros h h' Hh; simpl fold_left.
  - simpl. rewrite Hh. f_equal. lia.
  - rewrite (IH _ (31 * h' + c)).
    + f_equal. simpl length. rewrite Nat2Z.inj_succ, Z.pow_succ_r by lia.
      simpl polynomial. lia.
    + rewrite hashStep_spec. apply toInt32_congr. rewrite Hh.
      pose proof (toInt32_diff h') as H1. apply Z.mod_divide in H1; [|lia].
      destruct H1 as [k H1]. apply Z.mod_divide; [lia|]. exists (31 * k). lia.
Qed.

(** X20. The shift-and-subtract loop of [generateChecksum] (and of the
    validator's [generateCacheKey]) computes the polynomial hash
    [c0 * 31^(n-1) + ... + c(n-1)] of the code units reduced to a signed
    32-bit integer, so its result always lies in [-2^31, 2^31). *)
Theorem hash_loop_is_polynomial_mod_2_32 codes :
  hashCode codes = toInt32 (polynomial codes)
  /\ -2147483648 <= hashCode codes < 2147483648.
Proof.
  assert (H : hashCode codes = toInt32 (polynomial codes)).
  { unfold hashCode. rewrite (hashCode_from codes 0 0) by reflexivity. f_equal. }
  split; [exact H|]. rewrite H. apply toInt32_range.
Qed.

(** *** Plain objects *)

Lemma eqb_refl_true k : String.eqb k k = true.
Proof. apply String.eqb_refl. Qed.

Lemma ownProp_replaceOwn k v o k' :
  ownProp o k <> None ->
  ownProp (replaceOwn k v o) k' = if String.eqb k k' then Some v else ownProp o k'.
Proof.
  induction o as [|[k0 v0] o IH]; simpl; intros Hk; [congruence|].
  destruct (String.eqb k0 k) eqn:E0.
  - apply String.eqb_eq in E0. subst k0. simpl. destruct (String.eqb k k'); reflexivity.
  - simpl. destruct (String.eqb k0 k') eqn:E1.
    + apply String.eqb_eq in E1. subst k0.
      rewrite String.eqb_sym in E0. rewrite E0. reflexivity.
    + apply IH, Hk.
Qed.

Lemma ownProp_insertIndex i k v o k' :
  ownProp o k = None ->
  ownProp (insertIndex i k v o) k' = if String.eqb k k' then Some v else ownProp o k'.
Proof.
  induction o as [|[k0 v0] o IH]; simpl; intros Hk.
  - destruct (String.eqb k k'); reflexivity.
  - destruct (String.eqb k0 k) eqn:E0; [congruence|].
    destruct (arrayIndex k0) as [j|]; [destruct (j <? i)%N|]; simpl;
      try (destruct (String.eqb k k'); reflexivity).
    destruct (String.eqb k0 k') eqn:E1.
    + apply String.eqb_eq in E1. subst k0.
      rewrite String.eqb_sym in E0. rewrite E0. reflexivity.
    + apply IH, Hk.
Qed.

Lemma ownProp_app_new k v o k' :
  ownProp o k = None ->
  ownProp (o ++ [(k, v)]) k' = if String.eqb k k' then Some v else ownProp o k'.
Proof.
  induction o as [|[k0 v0] o IH]; simpl; intros Hk.
  - destruct (String.eqb k k'); reflexivity.
  - destruct (String.eqb k0 k) eqn:E0; [congruence|].
    destruct (String.eqb k0 k') eqn:E1.
    + apply String.eqb_eq in E1. subst k0.
      rewrite String.eqb_sym in E0. rewrite E0. reflexivity.
    + apply IH, Hk.
Qed.

Lemma ownProp_objDefine k v o k' :
  ownProp (objDefine k v o) k' = if String.eqb k k' then Some v else ownProp o k'.
Proof.
  unfold objDefine, hasOwn. destruct (ownProp o k) eqn:E.
  - apply ownProp_replaceOwn. congruence.
  - destruct (arrayIndex k); [apply ownProp_insertIndex|apply ownProp_app_new]; exact E.
Qed.

Lemma ownProp_objAssign k v o k' :
  k <> k' -> ownProp (objAssign k v o) k' = ownProp o k'.
Proof.
  intros Hne. unfold objAssign, hasOwn. destruct (ownProp o k) eqn:E.
  - rewrite ownProp_replaceOwn by congruence.
    destruct (String.eqb k k') eqn:E'; [apply String.eqb_eq in E'; congruence|reflexivity].
  - destruct (String.eqb k "__proto__"); [reflexivity|].
    rewrite ownProp_objDefine.
    destruct (String.eqb k k') eqn:E'; [apply String.eqb_eq in E'; congruence|reflexivity].
Qed.

Lemma ownProp_objAssign_same k v o :
  k <> "__proto__" -> ownProp (objAssign k v o) k = Some v.
Proof.
  intros Hne. unfold objAssign, hasOwn. destruct (ownProp o k) eqn:E.
  - rewrite ownProp_replaceOwn by congruence. rewrite eqb_refl_true. reflexivity.
  - destruct (String.eqb k "__proto__") eqn:E'; [apply String.eqb_eq in E'; congruence|].
    rewrite ownProp_objDefine, eqb_refl_true. reflexivity.
Qed.

Lemma ownProp_withoutKeys ks o k :
  ownProp (withoutKeys ks o) k = if bool_decide (k ∈ ks) then None else ownProp o k.
Proof.
  induction o as [|[k0 v0] o IH]; simpl.
  - destruct (bool_decide (k ∈ ks)); reflexivity.
  - destruct (bool_decide (k0 ∈ ks)) eqn:E0; simpl.
    + rewrite IH. destruct (String.eqb k0 k) eqn:E1; [|reflexivity].
      apply String.eqb_eq in E1. subst k0. rewrite E0. reflexivity.
    + rewrite IH. destruct (String.eqb k0 k) eqn:E1; [|reflexivity].
      apply String.eqb_eq in E1. subst k0. rewrite E0. reflexivity.
Qed.

Lemma ownProp_objDelete k o k' :
  ownProp (objDelete k o) k' = if String.eqb k k' then None else ownProp o k'.
Proof.
  induction o as [|[k0 v0] o IH]; simpl.
  - destruct (String.eqb k k'); reflexivity.
  - destruct (String.eqb k0 k) eqn:E0; simpl.
    + apply String.eqb_eq in E0. subst k0. rewrite IH.
      destruct (String.eqb k k'); reflexivity.
    + rewrite IH. destruct (String.eqb k0 k') eqn:E1; [|reflexivity].
      apply String.eqb_eq in E1. subst k0. rewrite String.eqb_sym in E0. rewrite E0.
      reflexivity.
Qed.

Lemma withoutKeys_replaceOwn ks k v o :
  k ∈ ks -> withoutKeys ks (replaceOwn k v o) = withoutKeys ks o.
Proof.
  intros Hk. induction o as [|[k0 v0] o IH]; simpl; [reflexivity|].
  destruct (String.eqb k0 k) eqn:E0.
  - apply String.eqb_eq in E0. subst k0. simpl.
    rewrite bool_decide_eq_true_2 by exact Hk. reflexivity.
  - simpl. rewrite IH. reflexivity.
Qed.

Lemma withoutKeys_insertIndex ks i k v o :
  k ∈ ks -> withoutKeys ks (insertIndex i k v o) = withoutKeys ks o.
Proof.
  intros Hk. induction o as [|[k0 v0] o IH]; simpl.
  - rewrite bool_decide_eq_true_2 by exact Hk. reflexivity.
  - destruct (arrayIndex k0) as [j|]; [destruct (j <? i)%N|]; simpl.
    + rewrite IH. reflexivity.
    + rewrite bool_decide_eq_true_2 by exact Hk. reflexivity.
    + rewrite bool_decide_eq_true_2 by exact Hk. reflexivity.
Qed.

Lemma withoutKeys_objDefine ks k v o :
  k ∈ ks -> withoutKeys ks (objDefine k v o) = withoutKeys ks o.
Proof.
  intros Hk. unfold objDefine. destruct (hasOwn o k).
  - apply withoutKeys_replaceOwn, Hk.
  - destruct (arrayIndex k).
    + apply withoutKeys_insertIndex, Hk.
    + unfold withoutKeys. rewrite List.filter_app. simpl.
      rewrite bool_decide_eq_true_2 by exact Hk. simpl. apply app_nil_r.
Qed.

Lemma withoutKeys_metadata ks checksum now version o :
  "_checksum" ∈ ks -> "_lastSaved" ∈ ks -> "_version" ∈ ks ->
  withoutKeys ks (objDefine "_checksum" checksum
                    (objDefine "_lastSaved" now (objDefine "_version" version o)))
  = withoutKeys ks o.
Proof. intros. rewrite !withoutKeys_objDefine by assumption. reflexivity. Qed.

(** *** Reading back what was written *)

Lemma toString16_nonEmpty z : toString16 z <> "".
Proof.
  unfold toString16. destruct (z <? 0); [discriminate|].
  unfold HexadecimalString.NilZero.string_of_uint.
  destruct (N.to_hex_uint (Z.to_N z)) eqn:E; try discriminate.
  all: simpl; discriminate.
Qed.

Lemma generateChecksum_returns stringify data :
  data <> JNull ->
  generateChecksum stringify data
  = Return (toString16 (hashCode (stringify
              (JObj (withoutKeys checksumExcluded (ownProps data)))))).
Proof. intros Hd. destruct data; try reflexivity. congruence. Qed.

Lemma performWrite_found stringify storageKey data now m :
  data <> JNull ->
  exists b, fst (performWrite stringify storageKey data now m) = Return b
  /\ found (snd (performWrite stringify storageKey data now m)) storageKey
     = Some (storageDataOf stringify storageKey data now).
Proof.
  intros Hd. unfold performWrite. rewrite (generateChecksum_returns _ _ Hd).
  fold (storageDataOf stringify storageKey data now).
  destruct (storageValid m) eqn:Hvalid.
  - unfold callSaveSettings. simpl.
    destruct (saveSettingsDefined m); [destruct (saveSettingsFaults m) as [|[msg|] rest]|];
      simpl; eexists; (split; [reflexivity|]);
      unfold found; simpl; rewrite Hvalid, lookup_insert_eq; reflexivity.
  - simpl. eexists. split; [reflexivity|].
    unfold found. simpl. rewrite Hvalid. simpl. apply lookup_insert_eq.
Qed.

Lemma readStored_found stringify key m data now :
  data <> JNull ->
  found m (storageKeyOf key) = Some (storageDataOf stringify (storageKeyOf key) data now) ->
  fst (readStored stringify key m) = Some (withoutKeys metadataKeys (ownProps data)).
Proof.
  intros Hd Hfound. unfold readStored. simpl.
  unfold found in Hfound. rewrite Hfound.
  unfold storageDataOf. simpl truthy. simpl negb. cbv iota.
  unfold getField. rewrite ownProp_objDefine. simpl String.eqb. cbv iota.
  simpl truthy.
  destruct (String.eqb _ "") eqn:E.
  { apply String.eqb_eq in E. destruct (toString16_nonEmpty _ E). }
  simpl negb. cbv iota.
  rewrite generateChecksum_returns by discriminate. simpl ownProps.
  rewrite withoutKeys_metadata by compute_done.
  rewrite ?ownProp_objDefine. simpl String.eqb. cbv iota.
  rewrite String.eqb_refl. simpl.
  rewrite withoutKeys_metadata by compute_done. reflexivity.
Qed.

Lemma getConfig_truthy path d m : truthy d = true -> truthy (getConfig path d m) = true.
Proof.
  intros Hd. unfold getConfig. destruct (config m) as [c|]; [|exact Hd].
  simpl. destruct (truthy (default Undefined (c !! path))) eqn:E; [exact E|exact Hd].
Qed.

Lemma saveToStorage_performs stringify key data now m :
  data <> JNull ->
  saveToStorage stringify key data now m
  = (Return true, snd (performWrite stringify (storageKeyOf key) data now m)).
Proof.
  intros Hd. unfold saveToStorage. rewrite getConfig_truthy by reflexivity.
  unfold queueWrite.
  destruct (performWrite_found stringify (storageKeyOf key) data now m Hd) as (b & Hb & _).
  destruct (performWrite stringify (storageKeyOf key) data now m) as [r m'].
  simpl in Hb. subst r. reflexivity.
Qed.

Lemma readStored_after_save stringify key data now m :
  data <> JNull ->
  fst (readStored stringify key (snd (saveToStorage stringify key data now m)))
  = Some (withoutKeys metadataKeys (ownProps data)).
Proof.
  intros Hd. rewrite saveToStorage_performs by exact Hd. simpl.
  destruct (performWrite_found stringify (storageKeyOf key) data now m Hd) as (b & _ & Hf).
  eapply readStored_found; eassumption.
Qed.

Lemma found_sameStore m m' storageKey :
  sameStore m m' -> found m' storageKey = found m storageKey.
Proof. intros (He & Hv & Hf). unfold found. rewrite He, Hv, Hf. reflexivity. Qed.

Lemma readStored_fst stringify key m :
  fst (readStored stringify key m) = accepted stringify (found m (storageKeyOf key)).
Proof.
  unfold readStored, accepted, found.
  change (extensionSettings (set_readOperations (readOperations m + 1) m))
    with (extensionSettings m).
  change (storageValid (set_readOperations (readOperations m + 1) m))
    with (storageValid m).
  change (fallbackStorage (set_readOperations (readOperations m + 1) m))
    with (fallbackStorage m).
  repeat case_match; reflexivity.
Qed.

Lemma readStored_sameStore stringify key m m' :
  sameStore m m' -> fst (readStored stringify key m') = fst (readStored stringify key m).
Proof. intros H. rewrite !readStored_fst, (found_sameStore m m' _ H). reflexivity. Qed.

Lemma sameStore_readStored stringify key m :
  sameStore m (snd (readStored stringify key m)).
Proof. unfold readStored, sameStore. repeat case_match; simpl; auto. Qed.

Lemma loadCharacters_sameStore stringify m m' :
  sameStore m m' -> fst (loadCharacters stringify m') = fst (loadCharacters stringify m).
Proof.
  intros H. unfold loadCharacters.
  pose proof (readStored_sameStore stringify "characters" m m' H) as E.
  destruct (readStored stringify "characters" m') as [r' n'].
  destruct (readStored stringify "characters" m) as [r n]. simpl in E. subst r'.
  destruct r; reflexivity.
Qed.

Lemma sameStore_loadCharacters stringify m :
  sameStore m (snd (loadCharacters stringify m)).
Proof.
  unfold loadCharacters.
  pose proof (sameStore_readStored stringify "characters" m) as H.
  destruct (readStored stringify "characters" m) as [[r|] n]; exact H.
Qed.

Lemma loadCharacters_after_save stringify characters now m :
  fst (loadCharacters stringify
         (snd (saveToStorage stringify "characters" (JObj characters) now m)))
  = withoutKeys metadataKeys characters.
Proof.
  unfold loadCharacters.
  pose proof (readStored_after_save stringify "characters" (JObj characters) now m
                ltac:(discriminate)) as H.
  destruct (readStored stringify "characters" _) as [r n]. simpl in H. subst r.
  reflexivity.
Qed.

(** The loaded table carries no metadata key. *)
Lemma loadCharacters_clean stringify m k :
  k ∈ metadataKeys -> ownProp (fst (loadCharacters stringify m)) k = None.
Proof.
  intros Hk. unfold loadCharacters.
  pose proof (readStored_fst stringify "characters" m) as H.
  destruct (readStored stringify "characters" m) as [[c|] n]; [|reflexivity].
  simpl in *. unfold accepted in H. repeat case_match; try discriminate.
  all: inversion H; rewrite ownProp_withoutKeys, bool_decide_eq_true_2 by exact Hk;
    reflexivity.
Qed.

Lemma sameStore_fireEvent event m : sameStore m (fireEvent event m).
Proof. repeat split. Qed.

(** *** Body maps *)

Lemma eqb_false_iff_ne a b : a <> b -> String.eqb a b = false.
Proof. intros H. destruct (String.eqb a b) eqn:E; [apply String.eqb_eq in E; congruence|reflexivity]. Qed.

Lemma ownProp_elem o k v : ownProp o k = Some v -> k ∈ List.map fst o.
Proof.
  induction o as [|[k0 v0] o IH]; simpl; [discriminate|].
  destruct (String.eqb k0 k) eqn:E.
  - apply String.eqb_eq in E. subst k0. intros _. left.
  - intros H. right. apply IH, H.
Qed.

Lemma saveBodyMap_spec stringify id map now m :
  id <> "" -> isObject map = true ->
  fst (saveBodyMap stringify id map now m) = Return true
  /\ fst (loadCharacters stringify (snd (saveBodyMap stringify id map now m)))
     = withoutKeys metadataKeys
         (objAssign id (characterEntry id map now) (fst (loadCharacters stringify m))).
Proof.
  intros Hid Hmap. unfold saveBodyMap.
  rewrite (eqb_false_iff_ne _ _ Hid), Hmap. simpl negb. cbv iota.
  destruct (loadCharacters stringify m) as [loaded m1]. simpl fst.
  pose proof (saveToStorage_performs stringify "characters"
                (JObj (objAssign id (characterEntry id map now) loaded)) now m1
                ltac:(discriminate)) as Hs.
  pose proof (loadCharacters_after_save stringify
                (objAssign id (characterEntry id map now) loaded) now m1) as Hl.
  rewrite Hs in Hl |- *. cbn [fst snd] in *. cbv iota. cbn [fst snd].
  split; [reflexivity|].
  rewrite (loadCharacters_sameStore stringify _ _ (sameStore_fireEvent _ _)).
  exact Hl.
Qed.

Lemma deleteBodyMap_spec stringify id now m :
  id <> "" ->
  fst (deleteBodyMap stringify id now m)
  = Return (truthyProperty (propertyOf (fst (loadCharacters stringify m)) id))
  /\ fst (loadCharacters stringify (snd (deleteBodyMap stringify id now m)))
     = if truthyProperty (propertyOf (fst (loadCharacters stringify m)) id)
       then withoutKeys metadataKeys (objDelete id (fst (loadCharacters stringify m)))
       else fst (loadCharacters stringify m).
Proof.
  intros Hid. unfold deleteBodyMap. rewrite (eqb_false_iff_ne _ _ Hid).
  pose proof (sameStore_loadCharacters stringify m) as Hsame.
  destruct (loadCharacters stringify m) as [loaded m1] eqn:El. cbn [fst snd] in *.
  destruct (truthyProperty (propertyOf loaded id)).
  - pose proof (saveToStorage_performs stringify "characters"
                  (JObj (objDelete id loaded)) now m1 ltac:(discriminate)) as Hs.
    pose proof (loadCharacters_after_save stringify (objDelete id loaded) now m1) as Hl.
    rewrite Hs in Hl |- *. cbn [fst snd] in *. cbv iota. cbn [fst snd].
    split; [reflexivity|].
    rewrite (loadCharacters_sameStore stringify _ _ (sameStore_fireEvent _ _)).
    exact Hl.
  - cbn [fst snd]. split; [reflexivity|].
    rewrite (loadCharacters_sameStore stringify m m1 Hsame), El. reflexivity.
Qed.

Lemma loadBodyMap_fst stringify id m :
  id <> "" ->
  fst (loadBodyMap stringify id m)
  = Return match propertyOf (fst (loadCharacters stringify m)) id with
           | Own character => if truthy (Val character)
                              then getField character "bodyMap"
                              else Val JNull
           | Inherited => Undefined
           | Absent => Val JNull
           end.
Proof.
  intros Hid. unfold loadBodyMap. rewrite (eqb_false_iff_ne _ _ Hid).
  destruct (loadCharacters stringify m). reflexivity.
Qed.

Lemma hasBodyMap_fst stringify id m :
  id <> "" ->
  fst (hasBodyMap stringify id m)
  = match propertyOf (fst (loadCharacters stringify m)) id with
    | Own character => truthy (Val character) && truthy (getField character "bodyMap")
    | _ => false
    end.
Proof.
  intros Hid. unfold hasBodyMap. rewrite (eqb_false_iff_ne _ _ Hid).
  destruct (loadCharacters stringify m). reflexivity.
Qed.

Lemma isObject_truthy map : isObject map = true -> truthy (Val map) = true.
Proof. destruct map; simpl; congruence. Qed.

(** X21. A body map saved under an ordinary id is the one loaded back:
    for a non-empty id other than [__proto__] and the three metadata
    names, [saveBodyMap] returns [true] (also when the host's
    [saveSettings] throws or the main storage is unavailable), and then
    [loadBodyMap] returns that very map, [hasBodyMap] is [true] and
    [getAllCharacterIds] lists the id. *)
Theorem saved_body_map_is_loaded_back stringify id map now m :
  id <> "" -> isObject map = true -> id ∉ "__proto__" :: metadataKeys ->
  let m' := snd (saveBodyMap stringify id map now m) in
  fst (saveBodyMap stringify id map now m) = Return true
  /\ fst (loadBodyMap stringify id m') = Return (Val map)
  /\ fst (hasBodyMap stringify id m') = true
  /\ id ∈ fst (getAllCharacterIds stringify m').
Proof.
  intros Hid Hmap Hres m'.
  destruct (saveBodyMap_spec stringify id map now m Hid Hmap) as [Hr Hl].
  fold m' in Hl.
  assert (Hown : ownProp (fst (loadCharacters stringify m')) id
                 = Some (characterEntry id map now)).
  { rewrite Hl, ownProp_withoutKeys.
    rewrite bool_decide_eq_false_2 by (intros Hin; apply Hres; right; exact Hin).
    apply ownProp_objAssign_same. intros ->. apply Hres. left. }
  split; [exact Hr|].
  rewrite loadBodyMap_fst, hasBodyMap_fst by exact Hid.
  unfold propertyOf. rewrite Hown.
  assert (Hids : id ∈ fst (getAllCharacterIds stringify m')).
  { unfold getAllCharacterIds. destruct (loadCharacters stringify m') as [c n].
    cbn [fst] in *. eapply ownProp_elem, Hown. }
  destruct map; try discriminate Hmap; simpl; auto.
Qed.

Lemma saved_body_map_is_loaded_back_witness :
  fst (loadBodyMap keyCodes "alice"
         (snd (saveBodyMap keyCodes "alice" sampleMap "2024-01-01T00:00:00.000Z"
                 (newManager true [Some "quota exceeded"]))))
  = Return (Val sampleMap).
Proof.
  apply (saved_body_map_is_loaded_back keyCodes "alice" sampleMap
           "2024-01-01T00:00:00.000Z" (newManager true [Some "quota exceeded"])).
  - discriminate.
  - reflexivity.
  - compute_done.
Defined.

(** X22. An id named like a metadata field is lost without notice:
    [saveBodyMap('_version' | '_lastSaved' | '_checksum', map)] returns
    [true] and fires ['body-map-saved'], yet [loadBodyMap] of that id
    then returns [null] and [hasBodyMap] is [false]. *)
Theorem metadata_named_id_is_not_stored stringify id map now m :
  id ∈ metadataKeys -> isObject map = true ->
  let m' := snd (saveBodyMap stringify id map now m) in
  fst (saveBodyMap stringify id map now m) = Return true
  /\ last (events m') = Some "body-map-saved"
  /\ fst (loadBodyMap stringify id m') = Return (Val JNull)
  /\ fst (hasBodyMap stringify id m') = false.
Proof.
  intros Hin Hmap m'.
  assert (Hid : id <> "").
  { intros ->. revert Hin. compute_done. }
  destruct (saveBodyMap_spec stringify id map now m Hid Hmap) as [Hr Hl].
  fold m' in Hl.
  assert (Hown : propertyOf (fst (loadCharacters stringify m')) id = Absent).
  { unfold propertyOf. rewrite Hl, ownProp_withoutKeys.
    rewrite bool_decide_eq_true_2 by exact Hin.
    rewrite bool_decide_eq_false_2; [reflexivity|].
    intros Hp. unfold metadataKeys in Hin.
    repeat (apply elem_of_cons in Hin as [->|Hin]; [revert Hp; compute_done|]).
    inversion Hin. }
  split; [exact Hr|]. split.
  - subst m'. unfold saveBodyMap in *.
    rewrite (eqb_false_iff_ne _ _ Hid), Hmap in *. simpl negb in *. cbv iota in *.
    destruct (loadCharacters stringify m) as [loaded m1].
    destruct (saveToStorage stringify "characters" _ now m1) as [[[|]|] m2];
      simpl in Hr; try discriminate.
    simpl. apply last_snoc.
  - rewrite loadBodyMap_fst, hasBodyMap_fst by exact Hid. rewrite Hown. split; reflexivity.
Qed.

Lemma metadata_named_id_is_not_stored_witness :
  fst (saveBodyMap keyCodes "_version" sampleMap "2024-01-01T00:00:00.000Z"
         (newManager true [])) = Return true
  /\ fst (loadBodyMap keyCodes "_version"
            (snd (saveBodyMap keyCodes "_version" sampleMap "2024-01-01T00:00:00.000Z"
                    (newManager true [])))) = Return (Val JNull).
Proof.
  pose proof (metadata_named_id_is_not_stored keyCodes "_version" sampleMap
                "2024-01-01T00:00:00.000Z" (newManager true [])
                ltac:(compute_done) eq_refl) as (H1 & _ & H2 & _).
  split; [exact H1|exact H2].
Defined.

Lemma propertyOf_ext o o' k :
  ownProp o' k = ownProp o k -> propertyOf o' k = propertyOf o k.
Proof. intros H. unfold propertyOf. rewrite H. reflexivity. Qed.

Lemma saveBodyMap_others stringify id map now m other :
  other <> id ->
  ownProp (fst (loadCharacters stringify (snd (saveBodyMap stringify id map now m)))) other
  = ownProp (fst (loadCharacters stringify m)) other.
Proof.
  intros Hne.
  destruct (String.eqb id "") eqn:Eid.
  { unfold saveBodyMap. rewrite Eid. reflexivity. }
  destruct (isObject map) eqn:Emap.
  2:{ unfold saveBodyMap. rewrite Eid, Emap. reflexivity. }
  assert (Hid : id <> "") by (intros ->; discriminate).
  destruct (saveBodyMap_spec stringify id map now m Hid Emap) as [_ Hl].
  rewrite Hl, ownProp_withoutKeys.
  destruct (bool_decide (other ∈ metadataKeys)) eqn:E.
  - apply bool_decide_eq_true_1 in E. symmetry. apply loadCharacters_clean, E.
  - apply ownProp_objAssign. congruence.
Qed.

Lemma deleteBodyMap_others stringify id now m other :
  other <> id ->
  ownProp (fst (loadCharacters stringify (snd (deleteBodyMap stringify id now m)))) other
  = ownProp (fst (loadCharacters stringify m)) other.
Proof.
  intros Hne.
  destruct (String.eqb id "") eqn:Eid.
  { unfold deleteBodyMap. rewrite Eid. reflexivity. }
  assert (Hid : id <> "") by (intros ->; discriminate).
  destruct (deleteBodyMap_spec stringify id now m Hid) as [_ Hl].
  rewrite Hl. destruct (truthyProperty _); [|reflexivity].
  rewrite ownProp_withoutKeys.
  destruct (bool_decide (other ∈ metadataKeys)) eqn:E.
  - apply bool_decide_eq_true_1 in E. symmetry. apply loadCharacters_clean, E.
  - rewrite ownProp_objDelete, eqb_false_iff_ne by congruence. reflexivity.
Qed.

Lemma loadBodyMap_ext stringify other m m' :
  ownProp (fst (loadCharacters stringify m')) other
  = ownProp (fst (loadCharacters stringify m)) other ->
  fst (loadBodyMap stringify other m') = fst (loadBodyMap stringify other m)
  /\ fst (hasBodyMap stringify other m') = fst (hasBodyMap stringify other m).
Proof.
  intros H. destruct (String.eqb other "") eqn:E.
  { unfold loadBodyMap, hasBodyMap. rewrite E. split; reflexivity. }
  assert (Hid : other <> "") by (intros ->; discriminate).
  rewrite !loadBodyMap_fst, !hasBodyMap_fst by exact Hid.
  rewrite (propertyOf_ext _ _ _ H). split; reflexivity.
Qed.

(** X23. Saving or deleting one character's body map leaves every other
    character's as it was: whatever the outcome of [saveBodyMap] or
    [deleteBodyMap] for [id], [loadBodyMap] and [hasBodyMap] of another id
    answer afterwards what they answered before. *)
Theorem other_body_maps_are_kept stringify id map now m other :
  other <> id ->
  let saved := snd (saveBodyMap stringify id map now m) in
  let deleted := snd (deleteBodyMap stringify id now m) in
  fst (loadBodyMap stringify other saved) = fst (loadBodyMap stringify other m)
  /\ fst (hasBodyMap stringify other saved) = fst (hasBodyMap stringify other m)
  /\ fst (loadBodyMap stringify other deleted) = fst (loadBodyMap stringify other m)
  /\ fst (hasBodyMap stringify other deleted) = fst (hasBodyMap stringify other m).
Proof.
  intros Hne saved deleted.
  destruct (loadBodyMap_ext stringify other m saved
              (saveBodyMap_others stringify id map now m other Hne)) as [H1 H2].
  destruct (loadBodyMap_ext stringify other m deleted
              (deleteBodyMap_others stringify id now m other Hne)) as [H3 H4].
  auto.
Qed.

Lemma other_body_maps_are_kept_witness :
  fst (loadBodyMap keyCodes "alice"
         (snd (deleteBodyMap keyCodes "bob" "2024-01-01T00:00:02.000Z" twoCharacters)))
  = fst (loadBodyMap keyCodes "alice" twoCharacters).
Proof.
  apply (other_body_maps_are_kept keyCodes "bob" JNull "2024-01-01T00:00:02.000Z"
           twoCharacters "alice").
  discriminate.
Defined.

(** X24. [deleteBodyMap] of a non-empty id answers whether [characters[id]]
    was truthy, and afterwards the id has no body map: [hasBodyMap] is
    [false] and [loadBodyMap] returns a falsy value. *)
Theorem deleted_body_map_is_gone stringify id now m :
  id <> "" ->
  let m' := snd (deleteBodyMap stringify id now m) in
  fst (deleteBodyMap stringify id now m)
  = Return (truthyProperty (propertyOf (fst (loadCharacters stringify m)) id))
  /\ fst (hasBodyMap stringify id m') = false
  /\ exists v, fst (loadBodyMap stringify id m') = Return v /\ truthy v = false.
Proof.
  intros Hid m'.
  destruct (deleteBodyMap_spec stringify id now m Hid) as [Hr Hl]. fold m' in Hl.
  split; [exact Hr|].
  rewrite loadBodyMap_fst, hasBodyMap_fst by exact Hid. rewrite Hl.
  destruct (truthyProperty (propertyOf (fst (loadCharacters stringify m)) id)) eqn:E.
  - unfold propertyOf. rewrite ownProp_withoutKeys.
    assert (Hnone : (if bool_decide (id ∈ metadataKeys) then None
                     else ownProp (objDelete id (fst (loadCharacters stringify m))) id)
                    = None).
    { destruct (bool_decide (id ∈ metadataKeys)); [reflexivity|].
      rewrite ownProp_objDelete, String.eqb_refl. reflexivity. }
    rewrite Hnone. destruct (bool_decide (id ∈ objectPrototypeNames)).
    + split; [reflexivity|]. eexists. split; reflexivity.
    + split; [reflexivity|]. eexists. split; reflexivity.
  - destruct (propertyOf (fst (loadCharacters stringify m)) id) as [v| |];
      cbn [truthyProperty] in E; try discriminate.
    + rewrite E. cbn [andb]. split; [reflexivity|]. eexists. split; reflexivity.
    + split; [reflexivity|]. eexists. split; reflexivity.
Qed.

Lemma deleted_body_map_is_gone_witness :
  fst (deleteBodyMap keyCodes "bob" "2024-01-01T00:00:02.000Z" twoCharacters) = Return true
  /\ fst (hasBodyMap keyCodes "bob"
            (snd (deleteBodyMap keyCodes "bob" "2024-01-01T00:00:02.000Z" twoCharacters)))
     = false.
Proof.
  pose proof (deleted_body_map_is_gone keyCodes "bob" "2024-01-01T00:00:02.000Z"
                twoCharacters ltac:(discriminate)) as (H1 & H2 & _).
  split; [|exact H2].
  rewrite H1. vm_compute. reflexivity.
Defined.

(** *** Writes and reads of any key *)

(** X25. A write the host rejects is still reported as a success: when the
    main storage is valid and [saveSettings] throws, [performWrite] returns
    [false], logs the error under ['write'] and keeps the data in the
    fallback map (and in [extensionSettings], assigned before the call),
    but [saveToStorage] returns [true], whatever [performance.autoSave] is
    configured to. *)
Theorem rejected_write_is_reported_as_success stringify key data now m msg rest :
  data <> JNull ->
  storageValid m = true ->
  saveSettingsDefined m = true ->
  saveSettingsFaults m = Some msg :: rest ->
  let storageKey := storageKeyOf key in
  let m' := snd (saveToStorage stringify key data now m) in
  fst (saveToStorage stringify key data now m) = Return true
  /\ fst (performWrite stringify storageKey data now m) = Return false
  /\ errors m' = errors m ++ [mkErrorInfo "write" msg false]
  /\ writeOperations m' = writeOperations m
  /\ fallbackStorage m' !! storageKey = Some (storageDataOf stringify storageKey data now)
  /\ extensionSettings m' !! storageKey = Some (storageDataOf stringify storageKey data now).
Proof.
  intros Hd Hvalid Hdef Hfaults storageKey m'. subst m'.
  rewrite saveToStorage_performs by exact Hd. cbn [fst snd]. fold storageKey.
  unfold performWrite. rewrite (generateChecksum_returns _ _ Hd).
  fold (storageDataOf stringify storageKey data now).
  rewrite Hvalid. unfold callSaveSettings. simpl. rewrite Hdef, Hfaults. simpl.
  rewrite !lookup_insert_eq. repeat split; reflexivity.
Qed.

Lemma rejected_write_is_reported_as_success_witness :
  fst (saveToStorage keyCodes "garments" (JObj [("g1", JStr "dress")])
         "2024-01-01T00:00:00.000Z" (newManager true [Some "quota exceeded"]))
  = Return true
  /\ fst (performWrite keyCodes "threadshift_garments" (JObj [("g1", JStr "dress")])
            "2024-01-01T00:00:00.000Z" (newManager true [Some "quota exceeded"]))
     = Return false.
Proof.
  pose proof (rejected_write_is_reported_as_success keyCodes "garments"
                (JObj [("g1", JStr "dress")]) "2024-01-01T00:00:00.000Z"
                (newManager true [Some "quota exceeded"]) "quota exceeded" []
                ltac:(discriminate) eq_refl eq_refl eq_refl) as (H1 & H2 & _).
  split; [exact H1|exact H2].
Defined.

Lemma pretty_N_go_ne_underscore x s s' :
  s <> String "_" s' -> pretty_N_go x s <> String "_" s'.
Proof.
  revert s. induction (N.lt_wf_0 x) as [x _ IH]; intros s Hs.
  assert (x = 0 \/ 0 < x)%N as [->|Hx] by lia.
  - rewrite pretty_N_go_0. exact Hs.
  - rewrite pretty_N_go_step by exact Hx. apply IH.
    + apply N.div_lt; lia.
    + unfold pretty_N_char. repeat case_match; discriminate.
Qed.

Lemma pretty_N_not_metadata (n : N) : pretty n ∉ metadataKeys.
Proof.
  intros Hin. unfold metadataKeys in Hin.
  assert (H : forall s', pretty n <> String "_" s').
  { intros s'. unfold pretty, pretty_N. destruct (decide (n = 0%N)); [discriminate|].
    apply pretty_N_go_ne_underscore. discriminate. }
  repeat (apply elem_of_cons in Hin as [Hin|Hin]; [eapply H, Hin|]).
  inversion Hin.
Qed.

Lemma withoutKeys_indexedFrom items : forall i,
  withoutKeys metadataKeys (indexedFrom i items) = indexedFrom i items.
Proof.
  induction items as [|x items IH]; intros i; simpl; [reflexivity|].
  rewrite bool_decide_eq_false_2 by apply pretty_N_not_metadata.
  simpl. f_equal. apply IH.
Qed.

(** X26. An array does not survive the storage: after
    [saveToStorage(key, items)] of an array, [loadFromStorage(key, d)]
    returns, for any default, a plain object that holds the elements under
    their indices ['0'], ['1'], ... and not an array. *)
Theorem saved_array_comes_back_as_object stringify key items now m d :
  let m' := snd (saveToStorage stringify key (JArr items) now m) in
  fst (loadFromStorage stringify key d m') = JObj (indexedFrom 0 items).
Proof.
  intros m'. unfold loadFromStorage.
  pose proof (readStored_after_save stringify key (JArr items) now m
                ltac:(discriminate)) as H.
  fold m' in H. destruct (readStored stringify key m') as [r n].
  cbn [fst] in H. subst r. cbn [fst ownProps].
  rewrite withoutKeys_indexedFrom. reflexivity.
Qed.

(** *** A table that fails its checksum *)

Lemma corrupted_rejected stringify m key :
  corrupted stringify m (storageKeyOf key) ->
  fst (readStored stringify key m) = None.
Proof.
  intros (fields & s & expected & Hf & Hc & Hs & Hg & Hne).
  rewrite readStored_fst, Hf. unfold accepted.
  cbn [truthy negb]. unfold getField. rewrite Hc, Hg. cbn [truthy].
  rewrite (eqb_false_iff_ne _ _ Hs), (eqb_false_iff_ne _ _ Hne). reflexivity.
Qed.

(** X27. A characters table that fails its checksum is dropped as a whole:
    [loadFromStorage] answers with the default, every stored body map
    reads as [null], and the next [saveBodyMap] writes a table in which the
    saved character is the only one. *)
Theorem corrupted_table_is_replaced_by_next_save stringify id map now m d :
  corrupted stringify m "threadshift_characters" ->
  id <> "" -> isObject map = true -> id ∉ "__proto__" :: metadataKeys ->
  fst (loadFromStorage stringify "characters" d m) = d
  /\ (forall other, other ∉ objectPrototypeNames -> other <> "" ->
        fst (loadBodyMap stringify other m) = Return (Val JNull))
  /\ fst (getAllCharacterIds stringify (snd (saveBodyMap stringify id map now m))) = [id].
Proof.
  intros Hcor Hid Hmap Hres.
  pose proof (corrupted_rejected stringify m "characters" Hcor) as Hnone.
  assert (Hload : fst (loadCharacters stringify m) = []).
  { unfold loadCharacters. destruct (readStored stringify "characters" m) as [r n].
    cbn [fst] in Hnone. subst r. reflexivity. }
  split.
  { unfold loadFromStorage. destruct (readStored stringify "characters" m) as [r n].
    cbn [fst] in Hnone. subst r. reflexivity. }
  split.
  { intros other Hproto Hother. rewrite loadBodyMap_fst by exact Hother.
    rewrite Hload. unfold propertyOf. cbn [ownProp].
    rewrite bool_decide_eq_false_2 by exact Hproto. reflexivity. }
  destruct (saveBodyMap_spec stringify id map now m Hid Hmap) as [_ Hl].
  unfold getAllCharacterIds.
  destruct (loadCharacters stringify (snd (saveBodyMap stringify id map now m))) as [c n].
  cbn [fst] in *. subst c. rewrite Hload.
  unfold objAssign, hasOwn. cbn [ownProp].
  rewrite eqb_false_iff_ne by (intros ->; apply Hres; left).
  unfold objDefine, hasOwn. cbn [ownProp].
  assert (Hkeep : withoutKeys metadataKeys [(id, characterEntry id map now)]
                  = [(id, characterEntry id map now)]).
  { unfold withoutKeys. cbn [List.filter fst].
    rewrite bool_decide_eq_false_2 by (intros Hin; apply Hres; right; exact Hin).
    reflexivity. }
  destruct (arrayIndex id); cbn [insertIndex app]; rewrite Hkeep; reflexivity.
Qed.

Lemma corrupted_table_is_replaced_by_next_save_witness :
  fst (getAllCharacterIds keyCodes
         (snd (saveBodyMap keyCodes "carol" sampleMap "2024-01-02T00:00:00.000Z"
                 tamperedManager))) = ["carol"].
Proof.
  refine (proj2 (proj2 (corrupted_table_is_replaced_by_next_save keyCodes "carol"
            sampleMap "2024-01-02T00:00:00.000Z" tamperedManager JNull _ _ eq_refl _))).
  - eexists _, "1234", _. split; [reflexivity|].
    split; [reflexivity|]. split; [discriminate|]. split; [reflexivity|].
    vm_compute. discriminate.
  - discriminate.
  - compute_done.
Defined.

(** *** Export and import *)

Lemma found_performWrite_other stringify storageKey data now m other :
  other <> storageKey ->
  found (snd (performWrite stringify storageKey data now m)) other = found m other.
Proof.
  intros Hne. unfold performWrite.
  destruct (generateChecksum stringify data) as [checksum|msg]; [|reflexivity].
  destruct (storageValid m) eqn:Hvalid.
  - unfold callSaveSettings. cbn [saveSettingsDefined saveSettingsFaults set_extensionSettings].
    destruct (saveSettingsDefined m); [destruct (saveSettingsFaults m) as [|[msg|] rest]|];
      unfold found; simpl; rewrite Hvalid, ?lookup_insert_ne by congruence; reflexivity.
  - unfold found. simpl. rewrite Hvalid. simpl. apply lookup_insert_ne. congruence.
Qed.

Lemma found_saveToStorage_other stringify key data now m other :
  other <> storageKeyOf key ->
  found (snd (saveToStorage stringify key data now m)) other = found m other.
Proof.
  intros Hne. unfold saveToStorage, queueWrite.
  pose proof (found_performWrite_other stringify (storageKeyOf key) data now m other Hne) as H.
  destruct (truthy _); destruct (performWrite stringify (storageKeyOf key) data now m)
    as [[b|msg] m']; exact H.
Qed.

Lemma found_importTable_other stringify key jsonData now m other :
  other <> storageKeyOf key ->
  found (snd (importTable stringify key jsonData now m)) other = found m other.
Proof.
  intros Hne. unfold importTable.
  destruct (getField jsonData key) as [|v]; [reflexivity|].
  destruct (truthy (Val v)); [|reflexivity].
  pose proof (found_saveToStorage_other stringify key v now m other Hne) as H.
  destruct (saveToStorage stringify key v now m) as [[b|msg] m']; exact H.
Qed.

Lemma truthy_not_null v : truthy (Val v) = true -> v <> JNull.
Proof. intros H ->. discriminate. Qed.

Lemma importTable_returns stringify key jsonData now m :
  exists saved, fst (importTable stringify key jsonData now m) = Return saved
  /\ saved = match getField jsonData key with
             | Val v => if truthy (Val v) then Some v else None
             | Undefined => None
             end.
Proof.
  unfold importTable. destruct (getField jsonData key) as [|v]; [eauto|].
  destruct (truthy (Val v)) eqn:E; [|eauto].
  rewrite saveToStorage_performs by (apply truthy_not_null, E). eauto.
Qed.

Lemma loadCharacters_found stringify m m' :
  found m' "threadshift_characters" = found m "threadshift_characters" ->
  fst (loadCharacters stringify m') = fst (loadCharacters stringify m).
Proof.
  intros H. unfold loadCharacters.
  pose proof (readStored_fst stringify "characters" m) as E.
  pose proof (readStored_fst stringify "characters" m') as E'.
  change (storageKeyOf "characters") with "threadshift_characters" in E, E'.
  rewrite H in E'. rewrite <- E in E'.
  destruct (readStored stringify "characters" m') as [r' n'].
  destruct (readStored stringify "characters" m) as [r n]. cbn [fst] in *. subst r'.
  destruct r; reflexivity.
Qed.

Lemma withoutKeys_clean o :
  (forall k, k ∈ metadataKeys -> ownProp o k = None) ->
  withoutKeys metadataKeys o = o.
Proof.
  induction o as [|[k0 v0] o IH]; intros Hclean; [reflexivity|].
  cbn [withoutKeys List.filter fst].
  destruct (bool_decide (k0 ∈ metadataKeys)) eqn:E.
  - apply bool_decide_eq_true_1 in E. specialize (Hclean k0 E).
    cbn [ownProp] in Hclean. rewrite String.eqb_refl in Hclean. discriminate.
  - cbn [negb]. f_equal. apply IH. intros k Hk. specialize (Hclean k Hk).
    cbn [ownProp] in Hclean. destruct (String.eqb k0 k) eqn:E'; [discriminate|exact Hclean].
Qed.

Lemma exportAllToJson_characters stringify now m :
  getField (fst (exportAllToJson stringify now m)) "characters"
  = Val (JObj (fst (loadCharacters stringify m))).
Proof.
  unfold exportAllToJson, loadFromStorage, loadCharacters.
  destruct (readStored stringify "characters" m) as [[c|] m1];
    destruct (readStored stringify "garments" m1) as [[g|] m2];
    destruct (readStored stringify "history" m2) as [[h|] m3];
    destruct (readStored stringify "settings" m3) as [[s|] m4]; reflexivity.
Qed.

Lemma importFromJson_characters stringify jsonData now m characters :
  isObject jsonData = true ->
  getField jsonData "characters" = Val (JObj characters) ->
  exists results,
    fst (importFromJson stringify jsonData now m) = Return results
    /\ importErrors results = []
    /\ importedCharacters results = Z.of_nat (length characters)
    /\ fst (loadCharacters stringify (snd (importFromJson stringify jsonData now m)))
       = withoutKeys metadataKeys characters.
Proof.
  intros Hobj Hchars. unfold importFromJson. rewrite Hobj. cbn [negb].
  pose proof (loadCharacters_after_save stringify characters (now "characters") m) as Hl.
  assert (H1 : importTable stringify "characters" jsonData (now "characters") m
               = (Return (Some (JObj characters)),
                  snd (saveToStorage stringify "characters" (JObj characters)
                         (now "characters") m))).
  { unfold importTable. rewrite Hchars. cbn [truthy].
    rewrite saveToStorage_performs by discriminate. reflexivity. }
  rewrite H1.
  set (m1 := snd (saveToStorage stringify "characters" (JObj characters)
                    (now "characters") m)) in *.
  destruct (importTable_returns stringify "garments" jsonData (now "garments") m1)
    as (g & Hg & _).
  pose proof (found_importTable_other stringify "garments" jsonData (now "garments") m1
                "threadshift_characters" ltac:(discriminate)) as Hf2.
  destruct (importTable stringify "garments" jsonData (now "garments") m1) as [r2 m2].
  cbn [fst snd] in Hg, Hf2. subst r2.
  destruct (importTable_returns stringify "history" jsonData (now "history") m2)
    as (h & Hh & _).
  pose proof (found_importTable_other stringify "history" jsonData (now "history") m2
                "threadshift_characters" ltac:(discriminate)) as Hf3.
  destruct (importTable stringify "history" jsonData (now "history") m2) as [r3 m3].
  cbn [fst snd] in Hh, Hf3. subst r3.
  destruct (importTable_returns stringify "settings" jsonData (now "settings") m3)
    as (s & Hs & _).
  pose proof (found_importTable_other stringify "settings" jsonData (now "settings") m3
                "threadshift_characters" ltac:(discriminate)) as Hf4.
  destruct (importTable stringify "settings" jsonData (now "settings") m3) as [r4 m4].
  cbn [fst snd] in Hs, Hf4. subst r4.
  eexists. split; [reflexivity|]. cbn [fst snd importErrors importedCharacters keyCount ownProps].
  split; [reflexivity|]. split; [reflexivity|].
  rewrite <- Hl. apply loadCharacters_found.
  unfold found at 1. cbn [extensionSettings storageValid fallbackStorage fireEvent set_events].
  fold (found m4 "threadshift_characters").
  rewrite Hf4, Hf3, Hf2. reflexivity.
Qed.

(** X28. Import restores what export wrote out: importing the object
    [exportAllToJson] returned for one manager into any manager succeeds
    without errors, counts the exported characters, and leaves the
    importing manager answering [loadBodyMap], [hasBodyMap] and
    [getAllCharacterIds] exactly as the exporting one does. *)
Theorem import_restores_exported_body_maps stringify exportedAt now source destination :
  let exported := fst (exportAllToJson stringify exportedAt source) in
  let m' := snd (importFromJson stringify exported now destination) in
  (exists results,
     fst (importFromJson stringify exported now destination) = Return results
     /\ importErrors results = []
     /\ importedCharacters results
        = Z.of_nat (length (fst (getAllCharacterIds stringify source))))
  /\ fst (getAllCharacterIds stringify m') = fst (getAllCharacterIds stringify source)
  /\ forall id,
       fst (loadBodyMap stringify id m') = fst (loadBodyMap stringify id source)
       /\ fst (hasBodyMap stringify id m') = fst (hasBodyMap stringify id source).
Proof.
  intros exported m'.
  assert (Hobj : isObject exported = true).
  { unfold exported, exportAllToJson, loadFromStorage.
    repeat (destruct (readStored stringify _ _) as [[?|] ?]); reflexivity. }
  destruct (importFromJson_characters stringify exported now destination
              (fst (loadCharacters stringify source)) Hobj
              (exportAllToJson_characters stringify exportedAt source))
    as (results & Hr & He & Hc & Hl).
  fold m' in Hl.
  rewrite withoutKeys_clean in Hl by (intros k Hk; apply loadCharacters_clean, Hk).
  assert (Hids : fst (getAllCharacterIds stringify m')
                 = fst (getAllCharacterIds stringify source)).
  { unfold getAllCharacterIds.
    destruct (loadCharacters stringify m') as [c n].
    destruct (loadCharacters stringify source) as [c0 n0]. cbn [fst] in *.
    subst c. reflexivity. }
  split.
  { exists results. split; [exact Hr|]. split; [exact He|].
    rewrite Hc. unfold getAllCharacterIds.
    destruct (loadCharacters stringify source) as [c0 n0]. cbn [fst].
    rewrite length_map. reflexivity. }
  split; [exact Hids|].
  intros id. apply loadBodyMap_ext. rewrite Hl. reflexivity.
Qed.

End StorageLaws.

Module ValidatorLaws.
Import Js ZoneSwap Hash Storage StorageProps Validator ValidatorProps.

(** *** What an accepted body map looks like *)

Lemma flat_map_nil {A B : Type} (f : A -> list B) (l : list A) :
  flat_map f l = [] -> forall x, x ∈ l -> f x = [].
Proof.
  induction l as [|a l IH]; simpl; intros H x Hx; [inversion Hx|].
  apply app_eq_nil in H as [Ha Hl].
  apply elem_of_cons in Hx as [->|Hx]; [exact Ha|apply IH; assumption].
Qed.

Lemma single_nil (b : bool) (x : string) : (if b then [x] else []) = [] -> b = false.
Proof. destruct b; [discriminate|reflexivity]. Qed.

Lemma truthy_string_typed v :
  truthy v = true -> isTypeOf TString v = true -> nonEmptyString v.
Proof.
  destruct v as [|[]]; try discriminate. simpl. intros Ht _.
  eexists. split; [reflexivity|]. intros ->. discriminate.
Qed.

Lemma includes_oneOf list v : includes list v = true -> oneOf list v.
Proof.
  destruct v as [|[]]; try discriminate. simpl. intros H.
  apply bool_decide_eq_true_1 in H. eexists. split; [reflexivity|exact H].
Qed.

Lemma string_typed v : isTypeOf TString v = true -> exists s, v = Val (JStr s).
Proof. destruct v as [|[]]; try discriminate. eauto. Qed.

Lemma validateMark_nil zoneName i mark :
  validateMark zoneName i mark = [] -> validMark mark.
Proof.
  unfold validateMark.
  destruct (negb (truthy (Val mark)) || negb (isTypeOf TObject (Val mark)));
    [discriminate|].
  intros H. apply app_eq_nil in H as [H1 H]. apply app_eq_nil in H as [H2 H].
  apply app_eq_nil in H as [H3 H4].
  assert (Ht : truthy (getField mark "type") = true
               /\ includes validMarkTypes (getField mark "type") = true).
  { destruct (truthy (getField mark "type")); [|discriminate].
    destruct (includes validMarkTypes (getField mark "type")); [auto|discriminate]. }
  assert (Hv : truthy (getField mark "visibility") = true
               /\ includes validVisibilityLevels (getField mark "visibility") = true).
  { destruct (truthy (getField mark "visibility")); [|discriminate].
    destruct (includes validVisibilityLevels (getField mark "visibility"));
      [auto|discriminate]. }
  apply single_nil, orb_false_elim in H2 as [H2a H2b].
  apply single_nil, orb_false_elim in H3 as [H3a H3b].
  apply negb_false_iff in H2a, H2b, H3a, H3b.
  repeat split.
  - apply includes_oneOf, Ht.
  - apply truthy_string_typed; assumption.
  - apply truthy_string_typed; assumption.
  - apply includes_oneOf, Hv.
Qed.

Lemma validateMarksFrom_nil zoneName items : forall i,
  validateMarksFrom zoneName i items = [] -> Forall validMark items.
Proof.
  induction items as [|mark rest IH]; intros i H; [constructor|].
  simpl in H. apply app_eq_nil in H as [H1 H2]. constructor.
  - eapply validateMark_nil, H1.
  - eapply IH, H2.
Qed.

Lemma validatePluginData_nil zoneName pluginData :
  truthy (Val pluginData) = true ->
  validatePluginData zoneName pluginData = [] ->
  exists fields, pluginData = JObj fields /\ Forall (fun kv => primitive (snd kv)) fields.
Proof.
  unfold validatePluginData.
  destruct pluginData as [| | | |items|fields]; simpl; try discriminate.
  intros _ H. exists fields. split; [reflexivity|].
  apply Forall_forall. intros [k x] Hin.
  pose proof (flat_map_nil _ _ H (k, x) Hin) as Hx. simpl in Hx.
  destruct x; simpl in *; try discriminate; exact I.
Qed.

Lemma validateZoneStructure_nil zoneName zoneData :
  validateZoneStructure zoneName zoneData = [] ->
  truthy (Val zoneData) = true /\ zoneShaped zoneName zoneData.
Proof.
  unfold validateZoneStructure.
  destruct (negb (truthy (Val zoneData)) || negb (isTypeOf TObject (Val zoneData))) eqn:E;
    [discriminate|].
  apply orb_false_elim in E as [Et _]. apply negb_false_iff in Et.
  intros H. split; [exact Et|].
  apply app_eq_nil in H as [Hfields H]. apply app_eq_nil in H as [Hd H].
  apply app_eq_nil in H as [Hc H]. apply app_eq_nil in H as [Hm H].
  apply app_eq_nil in H as [Hp Htone].
  unfold zoneShaped. repeat split.
  - intros field Hin. pose proof (flat_map_nil _ _ Hfields field Hin) as Hf.
    apply single_nil, negb_false_iff in Hf. exact Hf.
  - intros Ht. rewrite Ht in Hd. apply single_nil in Hd. simpl in Hd.
    apply negb_false_iff in Hd. apply string_typed, Hd.
  - intros Ht. rewrite Ht in Hc. apply single_nil in Hc. simpl in Hc.
    apply negb_false_iff in Hc. apply string_typed, Hc.
  - intros Ht. destruct (getField zoneData "marks") as [|marks]; [discriminate|].
    rewrite Ht in Hm. unfold validateMarksArray in Hm.
    destruct marks; try discriminate. eexists. split; [reflexivity|].
    eapply validateMarksFrom_nil, Hm.
  - intros Ht. destruct (getField zoneData "_plugin") as [|pluginData]; [discriminate|].
    rewrite Ht in Hp. destruct (validatePluginData_nil _ _ Ht Hp) as (fields & -> & Hall).
    eauto.
  - intros Hmuscle. rewrite bool_decide_eq_true_2 in Htone by exact Hmuscle.
    destruct (truthy (getField zoneData "tone")) eqn:Et'; [|discriminate].
    simpl in Htone. apply single_nil, negb_false_iff in Htone.
    apply truthy_string_typed; assumption.
Qed.

Lemma ownProp_entry o k v : ownProp o k = Some v -> (k, v) ∈ o.
Proof.
  induction o as [|[k0 v0] o IH]; simpl; [discriminate|].
  destruct (String.eqb k0 k) eqn:E.
  - apply String.eqb_eq in E. intros H. inversion H. subst. left.
  - intros H. right. apply IH, H.
Qed.

Lemma collectErrors_nil bodyMap :
  truthy (Val bodyMap) = true -> isTypeOf TObject (Val bodyMap) = true ->
  collectErrors bodyMap = [] -> wellFormedBodyMap bodyMap.
Proof.
  intros Htruthy Hobj H. unfold collectErrors in H.
  apply app_eq_nil in H as [Hbasic H]. apply app_eq_nil in H as [Hreq H].
  apply app_eq_nil in H as [Hinv H]. apply app_eq_nil in H as [Hzones Hgen].
  destruct bodyMap as [| | | |items|fields]; try discriminate.
  exists fields. split; [reflexivity|].
  assert (Hentries : forall zone zoneData, (zone, zoneData) ∈ fields ->
            String.prefix "_" zone = true
            \/ (zone ∈ requiredZones ++ validGenitalTypes /\ zoneShaped zone zoneData)).
  { intros zone zoneData Hin.
    pose proof (flat_map_nil _ _ Hzones (zone, zoneData) Hin) as Hz. simpl in Hz.
    destruct (String.prefix "_" zone); [left; reflexivity|right].
    destruct (isValidZone zone) eqn:Ev; [|discriminate]. simpl in Hz.
    split; [|apply validateZoneStructure_nil, Hz].
    unfold isValidZone in Ev. apply orb_true_iff in Ev as [Ev|Ev];
      apply bool_decide_eq_true_1 in Ev; apply elem_of_app; auto. }
  assert (Hrequired : forall zone, zone ∈ requiredZones ->
            exists zoneData, ownProp fields zone = Some zoneData
                             /\ truthy (Val zoneData) = true
                             /\ zoneShaped zone zoneData).
  { intros zone Hin.
    pose proof (flat_map_nil _ _ Hreq zone Hin) as Hz. simpl in Hz.
    apply single_nil, negb_false_iff in Hz. unfold getField in Hz.
    destruct (ownProp fields zone) as [zoneData|] eqn:Eown; [|discriminate].
    exists zoneData. split; [reflexivity|]. split; [exact Hz|].
    destruct (Hentries zone zoneData (ownProp_entry _ _ _ Eown)) as [Hp|[_ Hs]];
      [|exact Hs].
    exfalso. revert Hp. unfold requiredZones in Hin.
    repeat (apply elem_of_cons in Hin as [->|Hin]; [discriminate|]). inversion Hin. }
  split; [exact Hrequired|]. split.
  { intros zone Hin. pose proof (flat_map_nil _ _ Hinv zone Hin) as Hz. simpl in Hz.
    apply single_nil in Hz. exact Hz. }
  split; [exact Hentries|].
  destruct (Hrequired "genitals" ltac:(compute_done)) as (genitals & Eown & Hgt & _).
  exists genitals. split; [exact Eown|].
  unfold getField in Hgen. rewrite Eown, Hgt in Hgen.
  unfold validateGenitalZone in Hgen.
  destruct (negb (truthy (Val genitals)) || negb (isTypeOf TObject (Val genitals)));
    [discriminate|].
  apply app_eq_nil in Hgen as [Hsome Hall].
  apply single_nil, negb_false_iff in Hsome. split.
  - apply existsb_exists in Hsome as (type & Hin & Hok).
    apply andb_true_iff in Hok as [Hok1 Hok2].
    destruct (getField genitals type) as [|genitalData] eqn:Eg; [discriminate|].
    exists type, genitalData. split; [apply list_elem_of_In, Hin|]. auto.
  - intros type genitalData Hin Eg Ht.
    pose proof (flat_map_nil _ _ Hall type Hin) as Hz. cbv beta in Hz.
    rewrite Eg, Ht in Hz. unfold validateGenitalType in Hz.
    apply app_eq_nil in Hz as [Hz _].
    apply validateZoneStructure_nil in Hz as [_ Hz]. exact Hz.
Qed.

(** X29. A body map the validator accepts has the shape it asks for:
    when [validateBodyMap] answers [success] with a result that is not taken
    from the cache, the body map is a plain object in which each of the ten
    required zones is a truthy zone object with [descriptor], [care],
    [marks] and [_plugin] (and a non-empty [tone] for muscle zones), every
    mark has a known type and visibility and non-empty texts, none of the
    invalid zones is set, every key not starting with [_] is a required zone
    or genital type name, and [genitals] holds at least one genital type. *)
Theorem accepted_body_map_is_well_formed stringify bodyMap skipCache now later v :
  servedFromCache stringify bodyMap skipCache v = None ->
  success (fst (validateBodyMap stringify bodyMap skipCache now later v)) = true ->
  wellFormedBodyMap bodyMap /\ getField bodyMap "hips" = Undefined.
Proof.
  intros Hfresh Hsuccess.
  cut (wellFormedBodyMap bodyMap).
  { intros Hwf. split; [exact Hwf|].
    destruct Hwf as (fields & -> & _ & _ & Hentries & _).
    unfold getField. destruct (ownProp fields "hips") as [zoneData|] eqn:E; [|reflexivity].
    destruct (Hentries "hips" zoneData (ownProp_entry _ _ _ E)) as [Hp|[Hin _]];
      [discriminate|].
    exfalso. revert Hin. compute_done. }
  revert Hfresh Hsuccess.
  unfold servedFromCache, validateBodyMap. intros Hfresh.
  destruct (negb (truthy (Val bodyMap)) || negb (isTypeOf TObject (Val bodyMap))) eqn:E;
    [discriminate|].
  apply orb_false_elim in E as [Et Eo]. apply negb_false_iff in Et, Eo.
  assert (Hcached : (if match validationCache v with
                         | Some _ => negb skipCache
                         | None => false
                         end
                     then match validationCache v with
                          | Some cache => cacheGet cache (generateCacheKey stringify bodyMap)
                          | None => None
                          end
                     else None) = None).
  { destruct (validationCache v); [|reflexivity]. destruct skipCache; [reflexivity|].
    exact Hfresh. }
  rewrite Hcached.
  destruct (updateValidationStats _ _) as [[[]|msg] v2]; cbn [fst success createValidationResult];
    [|discriminate].
  intros Hlen. apply Nat.eqb_eq in Hlen.
  apply collectErrors_nil; [exact Et|exact Eo|].
  destruct (collectErrors bodyMap); [reflexivity|discriminate].
Qed.

Lemma accepted_body_map_is_well_formed_witness : wellFormedBodyMap completeMap.
Proof.
  apply (accepted_body_map_is_well_formed keyCodes completeMap false
           "2024-01-01T00:00:00.000Z" "2024-01-01T00:00:00.001Z" readyValidator).
  - reflexivity.
  - vm_compute. reflexivity.
Defined.

(** *** The cache of results *)

Lemma cacheGet_cacheSet k r cache : cacheGet (cacheSet k r cache) k = Some r.
Proof.
  induction cache as [|[k0 r0] cache IH]; simpl.
  - rewrite String.eqb_refl. reflexivity.
  - destruct (String.eqb k0 k) eqn:E; simpl.
    + rewrite String.eqb_refl. reflexivity.
    + rewrite E. exact IH.
Qed.

(** X30. The cache answers by key alone: once a body map has been
    validated with the cache in use, a later [validateBodyMap] of any body
    map whose cache key (the hash of its JSON text) is the same returns the
    earlier result, errors and timestamp included, and leaves the validator
    untouched; the later body map is not examined. *)
Theorem cached_result_is_served_for_equal_keys
    stringify first second now later now' later' v cache :
  validationCache v = Some cache ->
  configured v = true ->
  isObject first = true ->
  isObject second = true ->
  cacheGet cache (generateCacheKey stringify first) = None ->
  generateCacheKey stringify second = generateCacheKey stringify first ->
  let r1 := fst (validateBodyMap stringify first false now later v) in
  let v1 := snd (validateBodyMap stringify first false now later v) in
  resultErrors r1 = collectErrors first
  /\ resultTimestamp r1 = now
  /\ validateBodyMap stringify second false now' later' v1 = (r1, v1).
Proof.
  intros Hcache Hconf Hfirst Hsecond Hmiss Hkey.
  assert (Hobj : forall j, isObject j = true ->
            negb (truthy (Val j)) || negb (isTypeOf TObject (Val j)) = false).
  { intros j Hj. destruct j; try discriminate; reflexivity. }
  unfold validateBodyMap at 1 2.
  rewrite (Hobj _ Hfirst), Hcache. cbn [negb]. rewrite Hmiss.
  unfold cacheValidationResult, updateValidationStats. rewrite Hcache.
  cbn [configured validationCache set_validationCache cacheMaxSize].
  rewrite Hconf. cbn [fst snd].
  split; [reflexivity|]. split; [reflexivity|].
  unfold validateBodyMap. rewrite (Hobj _ Hsecond).
  cbn [validationCache negb]. rewrite Hkey, cacheGet_cacheSet. reflexivity.
Qed.

Lemma cached_result_is_served_for_equal_keys_witness :
  success (fst (validateBodyMap keyCodes hollowMap false
                  "2024-01-01T00:00:01.000Z" "2024-01-01T00:00:01.001Z"
                  (snd (validateBodyMap keyCodes completeMap false
                          "2024-01-01T00:00:00.000Z" "2024-01-01T00:00:00.001Z"
                          readyValidator))))
  = true.
Proof.
  pose proof (cached_result_is_served_for_equal_keys keyCodes completeMap hollowMap
                "2024-01-01T00:00:00.000Z" "2024-01-01T00:00:00.001Z"
                "2024-01-01T00:00:01.000Z" "2024-01-01T00:00:01.001Z"
                readyValidator [] eq_refl eq_refl eq_refl eq_refl eq_refl eq_refl)
    as (_ & _ & H).
  cbv zeta in H. rewrite H. vm_compute. reflexivity.
Defined.

End ValidatorLaws.

